(* ===== verification/_CoqProject ===== *)
-Q . S2P
Prelude.v
Float64.v
FloatBounds.v
Drift.v
Frame.v
EnvelopeWire.v
Sketch.v
SketchSpec.v
SketchCorrect.v
SketchWire.v
Backend.v
State.v
Records.v
Text.v
MeshStore.v
MeshStoreProps.v
Sync.v
SyncProps.v
SyncConverge.v
RateLimit.v
Cover.v
Relay.v
RelayProps.v
Policy.v
Ratchet.v
RatchetProps.v
RatchetSkip.v
Encrypt.v
EncryptProps.v
CircuitBreaker.v
Padding.v
Outbox.v
OutboxProps.v
Inbox.v
InboxProps.v
StoragePressure.v
RelayRegistry.v
RelayCustody.v
CustodyProps.v
CustodyStorage.v
Onion.v
Circuit.v
NegativeCache.v
LocalCell.v
GlobalRoutes.v
Neighborhood.v
RoutingEngine.v
Discovery.v
OptimizedRouting.v
AuditLog.v
Blocked.v
BlockedProps.v
History.v
HistoryProps.v
Contacts.v
ContactsProps.v
LocalData.v
Message.v
Identity.v
IdentityProps.v
Core.v
CoreProps.v
AbuseReputation.v
AbuseControl.v
AbuseProps.v
TransportHealth.v
TransportManager.v
TransportProps.v
MeshRouting.v
Escalation.v
RelayHealth.v
Bootstrap.v
