(* ===== verification/Prelude.v ===== *)
(** * SCMessenger: a verification library for the mesh core

    SCMessenger is a peer-to-peer messenger written in Rust.  Devices exchange
    encrypted envelopes over whatever link they have (Bluetooth, WiFi, the
    Internet), keep envelopes of others in a bounded store, relay them while
    relaying is switched on, reconcile their stores with their neighbours, and
    keep messages for identities that are away in custody.  This library models
    the code of core/src that decides what happens to a message, a key, a contact
    or a peer, and proves what that code promises.  A few theorems state what the
    code does where its comments or callers expect something else.

    ** The parts and the files

    Foundations.
    - Prelude.v (this file): [outcome] for [Result] and panics, machine
      integers with their wrap-around, vectors, slices and indices that panic
      out of range, conversions to arrays that panic, little-endian encodings,
      hash maps with an unknown iteration order ([MapIter]), stable sorting and
      [min_by], automation.
    - Float64.v, FloatBounds.v: IEEE binary64 arithmetic as the scores and delays
      use it, and bounds on the magnitude and the sign of results.
    - State.v: the state and error monad of code that works on shared objects,
      its Hoare triples ([holds], [runs]) and invariants ([keeps]).
    - Backend.v: the storage trait of core/src/store/backend.rs as a class with
      laws, MemoryStorage as an instance; bincode as a class.
    - Records.v, Text.v: tables of JSON records in a backend, and Rust strings.

    The drift protocol (core/src/drift).
    - Drift.v: errors and names (mod.rs), BLAKE3 as an interface; Frame.v:
      transport frames (frame.rs) with the reader that has a deadline.
    - EnvelopeWire.v: envelopes (envelope.rs, compress.rs).
    - Sketch.v, SketchSpec.v, SketchCorrect.v, SketchWire.v: the invertible Bloom
      lookup table (sketch.rs), its meaning as a multiset of signed ids, the
      peeling decoder, the wire format.
    - MeshStore.v, MeshStoreProps.v: the bounded message store (store.rs).
    - Sync.v, SyncProps.v, SyncConverge.v: the session that reconciles two stores
      (sync.rs).
    - RateLimit.v (rate_limit.rs), Relay.v and RelayProps.v (relay.rs), Policy.v
      (policy.rs).

    Cryptography and privacy (core/src/crypto, core/src/privacy).
    - Ratchet.v, RatchetProps.v, RatchetSkip.v: the Double Ratchet (ratchet.rs).
    - Encrypt.v, EncryptProps.v: message encryption and saved sessions
      (encrypt.rs, session_manager.rs).
    - Onion.v, Circuit.v: onion envelopes and the choice of their relays.
    - Cover.v, Padding.v: cover traffic and padding.

    Stores (core/src/store, core/src/observability.rs).
    - Outbox.v, Inbox.v, History.v, Contacts.v, Blocked.v and the files of the
      same names with Props: code, and refinement of an abstract map or queue;
      LocalData.v: contacts, history and block list in one backend.
    - StoragePressure.v, RelayRegistry.v, RelayCustody.v, CustodyProps.v,
      CustodyStorage.v: storage pressure, registrations of identities and the
      custody store (relay_custody.rs).
    - AuditLog.v: the hash chain of audit events (observability.rs).

    Application (core/src).
    - Message.v (message/), Identity.v and IdentityProps.v (identity/), Core.v and
      CoreProps.v (iron_core.rs): messages, identities, and the facade that
      prepares, receives and blocks.
    - AbuseReputation.v, AbuseControl.v, AbuseProps.v: reputations, spam detection
      and the auto-blocker (transport/reputation.rs, abuse/).

    Routing (core/src/routing).
    - LocalCell.v, Neighborhood.v, GlobalRoutes.v: the three layers;
      RoutingEngine.v: the decision; NegativeCache.v, Discovery.v,
      OptimizedRouting.v: caches, budgets, and the engine that uses them.

    Transport (core/src/transport).
    - CircuitBreaker.v, TransportHealth.v, TransportManager.v, TransportProps.v,
      MeshRouting.v, Escalation.v, RelayHealth.v, Bootstrap.v.

    How they meet: Core.v prepares an envelope with Encrypt.v, Message.v and
    EnvelopeWire.v, asks the router (the class [Router], whose law [RouterSpec] the
    engine of OptimizedRouting.v satisfies) for the first hop, and queues it with
    Outbox.v or hands it to MeshStore.v.  Relay.v parses an incoming envelope, asks
    the reputation manager, the store, the policy's limits and its own budget, and
    stores it; Sync.v ships the envelopes another store lacks.  A received envelope
    goes through decryption, the block list, Inbox.v and History.v, and every step
    leaves an event in AuditLog.v.  Clients of an interface ([StorageBackend],
    [Router], [OnionService], [ReputationManager], [Bincode]) are proved against
    its laws.

    ** How the code is represented

    A struct is a [Record] in a [Module] of its name, a method is a definition
    of that module which takes the fields it reads and returns the changed
    struct.  [Result] and panics are [outcome]; a method that can fail after
    it has changed the struct returns the struct and the outcome separately, so
    partial effects of a failing call are visible ([SyncSession.respond],
    [RatchetSession.decrypt], everything in the monad of State.v).  Integers are
    [Z] and wrap at their width where the code can reach the limit; indices,
    slices and conversions to arrays that do not fit are [Panic].  The clock and
    random draws are arguments.  A HashMap is a [gmap], and wherever the code
    iterates over one, the order is a parameter ([MapIter]): theorems hold for
    every order.  Histories are lists of calls or an inductive relation, and
    theorems quantify over them.  Loops are structural, or have a fuel that is
    part of the code or shown to be enough:
    - [IBLT.decode_loop]: the source's own limit of ten turns per cell; the
      theorems that decoding returns prove that the limit is not reached;
    - [MeshStore.evict_loop]: one turn per message ([evict_size]);
    - [RatchetSession.skip_keys]: the number of skipped messages, at most 256;
    - the choice of the relays of a circuit ([circuit_selection_terminates]) and
      the connection loop ([bootstrap_returns]) have no bound in the code: the
      theorems say when they end and which fuel is then enough.

    Libraries the code calls are parameters with their documented behaviour as
    laws, and concrete instances in the witnesses: CRC-32 (a 32-bit value),
    LZ4 (decompression undoes compression), BLAKE3 (32 bytes), Ed25519
    signatures (64 bytes, genuine ones verify), the UUID parser, bincode and
    JSON (reading undoes writing), X25519 (both sides compute the same secret),
    XChaCha20-Poly1305 (decryption with the same key, nonce and data undoes
    encryption), [exp], [ln], [powf] and [powi] of the platform (the powers of a
    number that is not negative are not), hexadecimal text, Unicode lower-casing,
    the random generator.

    ** What the theorems show

    - Wire formats: frames, envelopes, sketches and onion layers survive a round
      trip; parsers never panic on untrusted bytes and return well-formed values.
    - Reconciliation: subtracting and decoding two sketches gives exactly the
      differences when they can be peeled and no mixed cell looks pure; one
      exchange then makes two stores equal to their union, if the offer fits its
      format and the stores have room.
    - Stores: bounded, keyed and refined by abstract maps and queues under every
      sequence of operations, over any lawful backend (the outbox for peer ids
      without an underscore, see [outbox_alias_drains]); identities survive
      restarts; the audit log shows tampering, up to what its validation does not
      see.
    - Relaying: a dormant engine neither relays nor sends, the decision and what
      it charges to the hourly budget are characterized exactly; custody stays with
      the device that holds an identity, purges follow the policy, a known message
      changes nothing and an accepted one leaves the device its space.
    - Sessions: conversations of any shape decrypt to what was sent; messages may
      arrive out of order within a chain and no key is used twice; no received
      envelope makes decryption panic.
    - Routing and connectivity: the decision is that of the first layer that
      knows the recipient; the negative cache is equivalent to its map; breakers
      refine an automaton; a waiting peer is reconnected within a bounded number
      of suitably spaced rounds; bootstrapping returns without a panic for every
      usable configuration, and relay selection ends or the exact condition under
      which it does not is stated.
    - Abuse control: scores are numbers from 0 to 100, and a sweep blocks and
      audits exactly the peers that meet its criteria.
    - End to end: what one instance prepares for the key of another, the other
      receives as that message, unless the sender is blocked.

    ** What is not modelled

    Sockets, radios and drivers, the event loop of the swarm (swarm.rs,
    behaviour.rs), the relay client and server (core/src/relay), NAT traversal and
    peer discovery, backups, notifications, storage maintenance, the mobile and
    browser bindings, the queries, settings and statistics of iron_core.rs that
    only read or delegate, the command line (cli), the prompt optimizer (dspy),
    logging and key erasure.  Concurrency is modelled at the granularity of calls:
    a call on a shared object is one step, and histories interleave calls. *)

From Stdlib Require Export ZArith Lia Bool List Sorted.
From stdpp Require Export base tactics numbers list gmap strings fin_maps sets.

#[export] Set Default Goal Selector "!".

Declare Scope rust_scope.
Delimit Scope rust_scope with rust.
#[global] Open Scope rust_scope.
#[global] Open Scope Z_scope.

(** ** Outcomes of a Rust computation

    [Ok] and [Err] are the constructors of [Result]; [Panic] is an aborted
    thread (an index out of range, a division by zero, an [expect] on [None]). *)

Inductive outcome (E A : Type) : Type :=
| Ok (a : A)
| Err (e : E)
| Panic.

Arguments Ok {E A} a.
Arguments Err {E A} e.
Arguments Panic {E A}.

(** The [?] operator: leave the function on an error or a panic. *)
Notation "'let!' x := c 'in' k" :=
  (match c with Ok x => k | Err e => Err e | Panic => Panic end)
  (at level 10, x name, c at level 200, k at level 200,
   format "'[v' 'let!'  x  :=  c  'in' '/' k ']'") : rust_scope.

Notation "'let!' ' p := c 'in' k" :=
  (match c with Ok p => k | Err e => Err e | Panic => Panic end)
  (at level 10, p pattern, c at level 200, k at level 200,
   format "'[v' 'let!'  ' p  :=  c  'in' '/' k ']'") : rust_scope.

(** [Result::map_err]. *)
Definition map_err {E F A} (f : E -> F) (r : outcome E A) : outcome F A :=
  match r with Ok a => Ok a | Err e => Err (f e) | Panic => Panic end.

(** [Result::ok]; a panic is not a value of the type [Result], so it has no image. *)
Definition is_ok {E A} (r : outcome E A) : bool :=
  match r with Ok _ => true | _ => false end.

(** [Result::unwrap_or], and [Result::ok]. *)
Definition unwrap_or {E A} (d : A) (r : outcome E A) : A :=
  match r with Ok a => a | _ => d end.

Definition ok {E A} (r : outcome E A) : option A :=
  match r with Ok a => Some a | _ => None end.

Definition is_panic {E A} (r : outcome E A) : bool :=
  match r with Panic => true | _ => false end.

(** A loop over a list whose body may leave with an error. *)
Fixpoint for_each {E A S} (f : A -> S -> outcome E S) (l : list A) (s : S) : outcome E S :=
  match l with
  | [] => Ok s
  | a :: l => let! s := f a s in for_each f l s
  end.

(** ** Machine integers

    A w-bit integer is a [Z] in range.  The operators [+], [-], [*] of the
    release profile wrap around; [saturating_add] and [saturating_sub] clamp. *)

Definition fits (w : Z) (z : Z) : Prop := 0 <= z < 2 ^ w.

Definition wrap (w : Z) (z : Z) : Z := z mod 2 ^ w.

Definition wrap_i32 (z : Z) : Z := (z + 2 ^ 31) mod 2 ^ 32 - 2 ^ 31.

Definition saturating_add (w a b : Z) : Z := Z.min (a + b) (2 ^ w - 1).

Definition saturating_sub (a b : Z) : Z := Z.max (a - b) 0.

Abbreviation u8 := (fits 8).
Abbreviation u16 := (fits 16).
Abbreviation u32 := (fits 32).
Abbreviation u64 := (fits 64).

#[export] Instance fits_dec w z : Decision (fits w z).
Proof. unfold fits. apply _. Defined.

(** ** Vectors and slices *)

Definition len {A} (l : list A) : Z := Z.of_nat (length l).

(** [Vec::truncate] and [.take(n)]. *)
Definition truncate {A} (n : Z) (l : list A) : list A := if len l <=? n then l else take (Z.to_nat n) l.

(** A list of bytes, and an array [[u8; n]]. *)
Definition bytes (l : list Z) : Prop := Forall u8 l.

Definition byte_array (n : Z) (l : list Z) : Prop := len l = n /\ bytes l.

#[export] Instance bytes_dec l : Decision (bytes l).
Proof. unfold bytes. apply _. Defined.

#[export] Instance byte_array_dec n l : Decision (byte_array n l).
Proof. unfold byte_array. apply _. Defined.

(** [v[i]]. *)
Definition index {E A} (l : list A) (i : Z) : outcome E A :=
  match (if 0 <=? i then l !! Z.to_nat i else None) with
  | Some a => Ok a
  | None => Panic
  end.

(** [&v[lo..hi]]. *)
Definition slice {E A} (l : list A) (lo hi : Z) : outcome E (list A) :=
  if (0 <=? lo) && (lo <=? hi) && (hi <=? len l)
  then Ok (take (Z.to_nat (hi - lo)) (drop (Z.to_nat lo) l))
  else Panic.

(** [array.copy_from_slice(&v)] into an array of [n] elements, and the
    [from_slice] of fixed-size types ([XNonce], [Key]): another length panics. *)
Definition array_from_slice {E A} (n : Z) (l : list A) : outcome E (list A) := if len l =? n then Ok l else Panic.

(** [u32::from_le_bytes([v[o], v[o+1], v[o+2], v[o+3]])] and the 16-bit form. *)
Definition read_u16 {E} (l : list Z) (o : Z) : outcome E Z :=
  let! b0 := index l o in
  let! b1 := index l (o + 1) in
  Ok (b0 + 256 * b1).

Definition read_u32 {E} (l : list Z) (o : Z) : outcome E Z :=
  let! b0 := index l o in
  let! b1 := index l (o + 1) in
  let! b2 := index l (o + 2) in
  let! b3 := index l (o + 3) in
  Ok (b0 + 256 * (b1 + 256 * (b2 + 256 * b3))).

(** [[b; n]]. *)
Definition repeat_byte (b : Z) (n : Z) : list Z := replicate (Z.to_nat n) b.

(** Little-endian encodings: [to_le_bytes] and [from_le_bytes]. *)
Fixpoint le_bytes (n : nat) (z : Z) : list Z :=
  match n with
  | O => []
  | S n => z mod 256 :: le_bytes n (z / 256)
  end.

Fixpoint from_le_bytes (l : list Z) : Z :=
  match l with
  | [] => 0
  | b :: l => b + 256 * from_le_bytes l
  end.

Definition u16_to_le_bytes (z : Z) : list Z := le_bytes 2 z.
Definition u32_to_le_bytes (z : Z) : list Z := le_bytes 4 z.
Definition u64_to_le_bytes (z : Z) : list Z := le_bytes 8 z.

(** ** Automation

    [rust_simp] holds the length and range equations; [rust] the side
    conditions about bytes and widths. *)

Create HintDb rust.
Create Rewrite HintDb rust_simp.

(** Destruct the scrutinee of a [match] or [if] of the goal or a hypothesis. *)
Ltac case_goal :=
  match goal with
  | |- context [match ?x with _ => _ end] =>
      lazymatch x with context [match _ with _ => _ end] => fail | _ => destruct x eqn:? end
  end.

Ltac case_hyp H :=
  match type of H with
  | context [match ?x with _ => _ end] =>
      lazymatch x with context [match _ with _ => _ end] => fail | _ => destruct x eqn:? end
  end.

(** Turn boolean comparisons of the context into propositions. *)
Ltac bool_to_prop :=
  repeat match goal with
  | H : _ && _ = true |- _ => apply andb_true_iff in H; destruct H
  | H : _ || _ = false |- _ => apply orb_false_iff in H; destruct H
  | H : negb _ = true |- _ => apply negb_true_iff in H
  | H : negb _ = false |- _ => apply negb_false_iff in H
  | H : (_ <=? _) = true |- _ => apply Z.leb_le in H
  | H : (_ <=? _) = false |- _ => apply Z.leb_gt in H
  | H : (_ <? _) = true |- _ => apply Z.ltb_lt in H
  | H : (_ <? _) = false |- _ => apply Z.ltb_ge in H
  | H : (_ =? _) = true |- _ => apply Z.eqb_eq in H
  | H : (_ =? _) = false |- _ => apply Z.eqb_neq in H
  | H : (_ >=? _) = _ |- _ => rewrite Z.geb_leb in H
  | H : (_ >? _) = _ |- _ => rewrite Z.gtb_ltb in H
  | H : bool_decide _ = true |- _ => apply bool_decide_eq_true in H
  | H : bool_decide _ = false |- _ => apply bool_decide_eq_false in H
  end.

(** ** Lemmas on outcomes *)

Lemma map_err_Ok {E F A} (f : E -> F) (r : outcome E A) a :
  map_err f r = Ok a <-> r = Ok a.
Proof. destruct r; simpl; split; congruence. Qed.

Lemma map_err_not_Panic {E F A} (f : E -> F) (r : outcome E A) :
  r <> Panic -> map_err f r <> Panic.
Proof. destruct r; simpl; congruence. Qed.

(** A property that every turn preserves holds after the loop. *)
Lemma for_each_inv {E A S} (P : S -> Prop) (f : A -> S -> outcome E S) l s s' :
  (forall a s s', a ∈ l -> P s -> f a s = Ok s' -> P s') -> P s -> for_each f l s = Ok s' -> P s'.
Proof.
  revert s. induction l as [|a l IH]; intros s Hf Hs; simpl; [intros Heq; by inv Heq|].
  destruct (f a s) as [s1| |] eqn:Ha; [|done..]. apply IH.
  - intros a' u u' Ha'. apply Hf. by constructor.
  - apply (Hf a s); [by constructor|done|done].
Qed.

(** A loop whose turns all succeed under an invariant returns, with the invariant. *)
Lemma for_each_total {E A S} (P : S -> Prop) (f : A -> S -> outcome E S) l s :
  (forall a s, a ∈ l -> P s -> exists s', f a s = Ok s' /\ P s') -> P s ->
  exists s', for_each f l s = Ok s' /\ P s'.
Proof.
  revert s. induction l as [|a l IH]; intros s Hf Hs; simpl; [eauto|].
  destruct (Hf a s) as (s1 & -> & Hs1); [by constructor|done|].
  apply IH; [|done]. intros a' u Ha'. apply Hf. by constructor.
Qed.

Lemma for_each_app {E A S} (f : A -> S -> outcome E S) l1 l2 s :
  for_each f (l1 ++ l2) s = let! s := for_each f l1 s in for_each f l2 s.
Proof. revert s. induction l1 as [|a l1 IH]; intros s; cbn; [done|]. by destruct (f a s). Qed.

Lemma for_each_ext {E A S} (f g : A -> S -> outcome E S) l s :
  (forall a s, f a s = g a s) -> for_each f l s = for_each g l s.
Proof.
  intros Hfg. revert s. induction l as [|a l IH]; intros s; simpl; [done|].
  rewrite Hfg. destruct (g a s); auto.
Qed.

(** ** Lemmas on lengths, indices and slices *)

Section Lists.
Context {A : Type}.
Implicit Types (l : list A).

Lemma len_nil : len (@nil A) = 0.
Proof. reflexivity. Qed.

Lemma len_cons x l : len (x :: l) = 1 + len l.
Proof. unfold len. simpl. lia. Qed.

Lemma len_app l1 l2 : len (l1 ++ l2) = len l1 + len l2.
Proof. unfold len. rewrite length_app. lia. Qed.

Lemma len_nonneg l : 0 <= len l.
Proof. unfold len. lia. Qed.

Lemma len_replicate n (x : A) : len (replicate (Z.to_nat n) x) = Z.max 0 n.
Proof. unfold len. rewrite length_replicate. lia. Qed.

Lemma len_take n l : 0 <= n -> len (take (Z.to_nat n) l) = Z.min n (len l).
Proof. unfold len. rewrite length_take. lia. Qed.

Lemma truncate_take n l : 0 <= n -> truncate n l = take (Z.to_nat n) l.
Proof.
  unfold truncate, len. intros Hn. case_goal; [|done]. bool_to_prop. symmetry. apply take_ge. lia.
Qed.

Lemma len_drop n l : 0 <= n -> len (drop (Z.to_nat n) l) = Z.max 0 (len l - n).
Proof. unfold len. rewrite length_drop. lia. Qed.

Lemma len_map {B} (f : A -> B) l : len (map f l) = len l.
Proof. unfold len. rewrite length_map. done. Qed.

Lemma len_insert l i (x : A) : len (<[i:=x]> l) = len l.
Proof. unfold len. rewrite length_insert. done. Qed.

(** Reading inside the vector succeeds. *)
Lemma index_in_range {E} l i : 0 <= i < len l ->
  exists a, @index E A l i = Ok a /\ l !! Z.to_nat i = Some a.
Proof.
  intros Hi. unfold index. rewrite (proj2 (Z.leb_le 0 i)) by lia.
  destruct (lookup_lt_is_Some_2 l (Z.to_nat i)) as [a Ha].
  { unfold len in Hi. lia. }
  rewrite Ha. eauto.
Qed.

Lemma index_app_r {E} l1 l2 i : len l1 <= i ->
  @index E A (l1 ++ l2) i = index l2 (i - len l1).
Proof.
  intros Hi. unfold index, len in *.
  rewrite !(proj2 (Z.leb_le _ _)) by lia.
  rewrite lookup_app_r by lia.
  replace (Z.to_nat (i - Z.of_nat (length l1))) with (Z.to_nat i - length l1)%nat by lia.
  done.
Qed.

Lemma index_app_l {E} l1 l2 i : i < len l1 ->
  @index E A (l1 ++ l2) i = index l1 i.
Proof.
  intros Hi. unfold index, len in *. destruct (0 <=? i) eqn:Hz; [|done].
  bool_to_prop. rewrite lookup_app_l by lia. done.
Qed.

Lemma index_head {E} x l : @index E A (x :: l) 0 = Ok x.
Proof. reflexivity. Qed.

Lemma index_cons_S {E} x l i : 0 < i -> @index E A (x :: l) i = index l (i - 1).
Proof.
  intros Hi. change (x :: l) with ([x] ++ l).
  rewrite index_app_r; [done|]. unfold len. simpl. lia.
Qed.

Lemma array_from_slice_ok {E} n l : len l = n -> array_from_slice (E := E) n l = Ok l.
Proof. intros <-. unfold array_from_slice. by rewrite Z.eqb_refl. Qed.

Lemma slice_in_range {E} l lo hi : 0 <= lo <= hi -> hi <= len l ->
  @slice E A l lo hi = Ok (take (Z.to_nat (hi - lo)) (drop (Z.to_nat lo) l)).
Proof.
  intros Hlo Hhi. unfold slice.
  rewrite !(proj2 (Z.leb_le _ _)) by lia. done.
Qed.

Lemma slice_Ok {E} l lo hi x : @slice E A l lo hi = Ok x ->
  0 <= lo <= hi /\ hi <= len l /\
  x = take (Z.to_nat (hi - lo)) (drop (Z.to_nat lo) l) /\ len x = hi - lo.
Proof.
  unfold slice. intros H. case_hyp H; [|done]. bool_to_prop. inv H.
  rewrite len_take, len_drop by lia. split_and!; [lia|lia|lia|done|lia].
Qed.

Lemma slice_app_r {E} l1 l2 lo hi : len l1 <= lo -> lo <= hi ->
  @slice E A (l1 ++ l2) lo hi = slice l2 (lo - len l1) (hi - len l1).
Proof.
  intros H1 H2. pose proof (len_nonneg l1). unfold slice.
  rewrite len_app. rewrite (proj2 (Z.leb_le 0 lo)), (proj2 (Z.leb_le 0 (lo - len l1))) by lia.
  replace (lo - len l1 <=? hi - len l1) with (lo <=? hi)
    by (apply Bool.eq_iff_eq_true; rewrite !Z.leb_le; lia).
  replace (hi <=? len l1 + len l2) with (hi - len l1 <=? len l2)
    by (apply Bool.eq_iff_eq_true; rewrite !Z.leb_le; lia).
  case_match; [|done].
  replace (hi - len l1 - (lo - len l1)) with (hi - lo) by lia.
  rewrite drop_app_ge by (unfold len in *; lia).
  replace (Z.to_nat (lo - len l1)) with (Z.to_nat lo - length l1)%nat by (unfold len; lia).
  done.
Qed.

Lemma slice_app_l {E} l1 l2 hi : hi = len l1 ->
  @slice E A (l1 ++ l2) 0 hi = Ok l1.
Proof.
  intros ->. pose proof (len_nonneg l1). pose proof (len_nonneg l2).
  rewrite slice_in_range by (rewrite ?len_app; lia).
  rewrite drop_0. rewrite take_app_le by (unfold len; lia).
  rewrite take_ge by (unfold len; lia). done.
Qed.

Lemma slice_all {E} l hi : hi = len l -> @slice E A l 0 hi = Ok l.
Proof. intros ->. rewrite <-(app_nil_r l) at 1. apply slice_app_l. done. Qed.

Lemma Forall_slice {E} (P : A -> Prop) l lo hi x :
  Forall P l -> @slice E A l lo hi = Ok x -> Forall P x.
Proof.
  intros HP H. apply slice_Ok in H as (_ & _ & -> & _).
  apply Forall_take, Forall_drop. done.
Qed.

Lemma Forall_index {E} (P : A -> Prop) l i x :
  Forall P l -> @index E A l i = Ok x -> P x.
Proof.
  intros HP H. unfold index in H.
  destruct (0 <=? i); [|done]. destruct (l !! Z.to_nat i) eqn:Hl; [|done].
  inv H. eapply Forall_lookup_1; eauto.
Qed.
End Lists.

#[export] Hint Rewrite @len_nil @len_cons @len_app @len_replicate @len_map @len_insert : rust_simp.
#[export] Hint Resolve len_nonneg : rust.

(** ** Lemmas on machine integers *)

Lemma fits_wrap w z : 0 <= w -> fits w (wrap w z).
Proof. intros Hw. unfold fits, wrap. apply Z.mod_pos_bound. lia. Qed.

Lemma wrap_small w z : fits w z -> wrap w z = z.
Proof. unfold fits, wrap. intros H. apply Z.mod_small. done. Qed.

Lemma fits_saturating_add w a b : fits w a -> 0 <= b -> fits w (saturating_add w a b).
Proof. unfold fits, saturating_add. lia. Qed.

Lemma wrap_i32_small z : - 2 ^ 31 <= z < 2 ^ 31 -> wrap_i32 z = z.
Proof. intros H. unfold wrap_i32. rewrite Z.mod_small by lia. lia. Qed.

#[export] Hint Resolve fits_wrap fits_saturating_add : rust.

(** ** Lemmas on little-endian encodings *)

Lemma length_le_bytes n z : length (le_bytes n z) = n.
Proof. revert z. induction n; intros z; cbn [le_bytes length]; auto. Qed.

Lemma len_le_bytes n z : len (le_bytes n z) = Z.of_nat n.
Proof. unfold len. rewrite length_le_bytes. done. Qed.

Lemma bytes_le_bytes n z : bytes (le_bytes n z).
Proof.
  revert z. induction n as [|n IH]; intros z; cbn [le_bytes]; constructor; [|apply IH].
  unfold fits. apply Z.mod_pos_bound. lia.
Qed.

Lemma from_le_le_bytes n z : from_le_bytes (le_bytes n z) = z mod 2 ^ (8 * Z.of_nat n).
Proof.
  revert z. induction n as [|n IH]; intros z.
  - rewrite Z.mod_1_r. done.
  - cbn [le_bytes from_le_bytes]. rewrite IH.
    replace (8 * Z.of_nat (S n)) with (8 + 8 * Z.of_nat n) by lia.
    rewrite Z.pow_add_r by lia. change (2 ^ 8) with 256.
    rewrite Z.rem_mul_r by lia. done.
Qed.

Lemma from_le_bytes_range l : bytes l -> fits (8 * len l) (from_le_bytes l).
Proof.
  intros Hl. unfold fits. induction Hl as [|b l Hb Hl IH]; cbn [from_le_bytes]; [unfold len; simpl; lia|].
  rewrite len_cons, Z.mul_add_distr_l, Z.pow_add_r by (pose proof (len_nonneg l); lia).
  unfold fits in Hb. change (2 ^ (8 * 1)) with 256. lia.
Qed.

Lemma le_from_le_bytes l : bytes l -> le_bytes (length l) (from_le_bytes l) = l.
Proof.
  induction 1 as [|b l Hb Hl IH]; [done|].
  cbn [length from_le_bytes le_bytes]. unfold fits in Hb.
  rewrite Z.mul_comm, Z.mod_add, Z.mod_small by lia.
  rewrite Z.div_add, (Z.div_small b) by lia. rewrite Z.add_0_l, IH. done.
Qed.

Lemma from_le_le_bytes_small n z :
  0 <= z < 2 ^ (8 * Z.of_nat n) -> from_le_bytes (le_bytes n z) = z.
Proof. intros H. rewrite from_le_le_bytes. apply Z.mod_small. done. Qed.

Lemma le_bytes_inj n y z :
  0 <= y < 2 ^ (8 * Z.of_nat n) -> 0 <= z < 2 ^ (8 * Z.of_nat n) ->
  le_bytes n y = le_bytes n z -> y = z.
Proof.
  intros Hy Hz H. apply (f_equal from_le_bytes) in H.
  rewrite !from_le_le_bytes_small in H by done. done.
Qed.

#[export] Hint Rewrite len_le_bytes : rust_simp.
#[export] Hint Resolve bytes_le_bytes : rust.

(** Lengths of the fixed-width encodings, for [autorewrite with rust_simp]. *)
Lemma len_u16_to_le_bytes z : len (u16_to_le_bytes z) = 2.
Proof. apply len_le_bytes. Qed.

Lemma len_u32_to_le_bytes z : len (u32_to_le_bytes z) = 4.
Proof. apply len_le_bytes. Qed.

Lemma len_u64_to_le_bytes z : len (u64_to_le_bytes z) = 8.
Proof. apply len_le_bytes. Qed.

#[export] Hint Rewrite len_u16_to_le_bytes len_u32_to_le_bytes len_u64_to_le_bytes : rust_simp.

Lemma from_le_u16 z : u16 z -> from_le_bytes (u16_to_le_bytes z) = z.
Proof. intros H. apply from_le_le_bytes_small. exact H. Qed.

Lemma from_le_u32 z : u32 z -> from_le_bytes (u32_to_le_bytes z) = z.
Proof. intros H. apply from_le_le_bytes_small. exact H. Qed.

Lemma from_le_u64 z : u64 z -> from_le_bytes (u64_to_le_bytes z) = z.
Proof. intros H. apply from_le_le_bytes_small. exact H. Qed.

Lemma bytes_app l1 l2 : bytes (l1 ++ l2) <-> bytes l1 /\ bytes l2.
Proof. apply Forall_app. Qed.

Lemma bytes_replicate n b : u8 b -> bytes (replicate n b).
Proof. intros H. apply Forall_replicate. done. Qed.

#[export] Hint Resolve bytes_replicate : rust.

(** Arithmetic over lengths: normalise [len] and call [lia]. *)
Ltac len_lia := autorewrite with rust_simp in *; lia.

(** Decide the comparisons of the goal that [lia] settles. *)
Ltac zbool_step :=
  match goal with
  | |- context [?a >? ?b] => rewrite (Z.gtb_ltb a b)
  | |- context [?a >=? ?b] => rewrite (Z.geb_leb a b)
  | |- context [?a <? ?b] =>
      first [ rewrite (proj2 (Z.ltb_lt a b)) by lia | rewrite (proj2 (Z.ltb_ge a b)) by lia ]
  | |- context [?a <=? ?b] =>
      first [ rewrite (proj2 (Z.leb_le a b)) by lia | rewrite (proj2 (Z.leb_gt a b)) by lia ]
  | |- context [?a =? ?b] =>
      first [ rewrite (proj2 (Z.eqb_eq a b)) by lia | rewrite (proj2 (Z.eqb_neq a b)) by lia ]
  end.

Ltac zbool := repeat zbool_step; cbn [negb andb orb].

(** ** Reads at the start of a slice *)

Lemma split_at {A} n (l : list A) : 0 <= n <= len l ->
  exists a b, l = a ++ b /\ len a = n /\ len b = len l - n.
Proof.
  intros H. exists (take (Z.to_nat n) l), (drop (Z.to_nat n) l).
  rewrite take_drop, len_take, len_drop by lia. split_and!; [done|lia|lia].
Qed.

Lemma index_at {E A} (pre : list A) x post o : o = len pre ->
  @index E A (pre ++ x :: post) o = Ok x.
Proof.
  intros ->. rewrite index_app_r by lia. rewrite Z.sub_diag. done.
Qed.

Lemma slice_at {E A} (pre x post : list A) lo hi : lo = len pre -> hi = len pre + len x ->
  @slice E A (pre ++ x ++ post) lo hi = Ok x.
Proof.
  intros -> ->. pose proof (len_nonneg x). rewrite slice_app_r by lia.
  rewrite Z.sub_diag. apply slice_app_l. lia.
Qed.

Lemma read_u16_at {E} pre x post o : o = len pre -> len x = 2 ->
  @read_u16 E (pre ++ x ++ post) o = Ok (from_le_bytes x).
Proof.
  intros -> Hx. destruct x as [|a [|b [|? ?]]]; autorewrite with rust_simp in Hx;
    try lia; try (pose proof (len_nonneg l); lia).
  unfold read_u16. rewrite !(index_app_r pre) by lia.
  replace (len pre - len pre) with 0 by lia. replace (len pre + 1 - len pre) with 1 by lia.
  cbv [from_le_bytes]. rewrite Z.mul_0_r, Z.add_0_r. reflexivity.
Qed.

Lemma read_u16_prefix {E} x post : len x = 2 ->
  @read_u16 E (x ++ post) 0 = Ok (from_le_bytes x).
Proof. intros Hx. apply (read_u16_at [] x post 0); done. Qed.

Lemma read_u32_at {E} pre x post o : o = len pre -> len x = 4 ->
  @read_u32 E (pre ++ x ++ post) o = Ok (from_le_bytes x).
Proof.
  intros -> Hx. destruct x as [|a [|b [|c [|d [|? ?]]]]]; autorewrite with rust_simp in Hx;
    try lia; try (pose proof (len_nonneg l); lia).
  unfold read_u32. rewrite !(index_app_r pre) by lia.
  replace (len pre - len pre) with 0 by lia. replace (len pre + 1 - len pre) with 1 by lia.
  replace (len pre + 2 - len pre) with 2 by lia. replace (len pre + 3 - len pre) with 3 by lia.
  cbv [from_le_bytes]. rewrite Z.mul_0_r, Z.add_0_r. done.
Qed.

Lemma read_u32_slice {E} l o x : @slice E Z l o (o + 4) = Ok x -> @read_u32 E l o = Ok (from_le_bytes x).
Proof.
  intros H. apply slice_Ok in H as (Ho & Hhi & Hx & Hl).
  rewrite <-(take_drop (Z.to_nat o) l), <-(take_drop (Z.to_nat (o + 4 - o)) (drop (Z.to_nat o) l)).
  rewrite <-Hx. apply read_u32_at; [|lia]. rewrite len_take by lia. lia.
Qed.

Lemma read_u16_slice {E} l o x : @slice E Z l o (o + 2) = Ok x -> @read_u16 E l o = Ok (from_le_bytes x).
Proof.
  intros H. apply slice_Ok in H as (Ho & Hhi & Hx & Hl).
  rewrite <-(take_drop (Z.to_nat o) l), <-(take_drop (Z.to_nat (o + 2 - o)) (drop (Z.to_nat o) l)).
  rewrite <-Hx. apply read_u16_at; [|lia]. rewrite len_take by lia. lia.
Qed.

(** Evaluate the sums of literals in the goal (running offsets). *)
Ltac norm_offsets :=
  repeat match goal with
  | |- context [?a + ?b] =>
      let c := eval vm_compute in (a + b) in
      lazymatch c with
      | Z0 => change (a + b) with c
      | Zpos ?p => change (a + b) with c
      end
  end.

#[global] Arguments le_bytes : simpl never.
#[global] Arguments u16_to_le_bytes : simpl never.
#[global] Arguments u32_to_le_bytes : simpl never.
#[global] Arguments u64_to_le_bytes : simpl never.
#[global] Arguments from_le_bytes : simpl never.
#[global] Arguments index : simpl never.
#[global] Arguments slice : simpl never.

(** Close a decidable goal on concrete data by evaluation. *)
Ltac by_eval := apply (bool_decide_unpack _); vm_compute; exact I.

(** ** Hash maps

    A [HashMap] is a [gmap]; the order in which the source iterates over one is
    not specified, so it is a parameter: any enumeration of the entries. *)

Class MapIter (K V : Type) `{Countable K} : Type := {
  map_iter : gmap K V -> list (K * V);
  map_iter_perm : forall m, map_iter m ≡ₚ map_to_list m
}.

(** Two instances for witnesses: the enumeration of [gmap] and its reverse. *)
Definition map_iter_default {K V} `{Countable K} : MapIter K V :=
  {| map_iter m := map_to_list m; map_iter_perm m := Permutation_refl _ |}.

Definition map_iter_reverse {K V} `{Countable K} : MapIter K V :=
  {| map_iter m := rev (map_to_list m);
     map_iter_perm m := Permutation_sym (Permutation_rev (map_to_list m)) |}.

Section MapIterLemmas.
Context {K V : Type} `{Countable K} {MI : MapIter K V}.
Implicit Types (m : gmap K V).

Lemma elem_of_map_iter m k v : (k, v) ∈ map_iter m <-> m !! k = Some v.
Proof. rewrite map_iter_perm. apply elem_of_map_to_list. Qed.

Lemma length_map_iter m : length (map_iter m) = size m.
Proof. rewrite map_iter_perm. apply length_map_to_list. Qed.

Lemma NoDup_map_iter_keys m : NoDup (map_iter m).*1.
Proof. rewrite map_iter_perm. apply NoDup_fst_map_to_list. Qed.

Lemma elem_of_map_iter_keys m k : k ∈ (map_iter m).*1 <-> is_Some (m !! k).
Proof.
  rewrite list_elem_of_fmap. split.
  - intros ([k' v] & -> & Hin). apply elem_of_map_iter in Hin. eauto.
  - intros [v Hv]. exists (k, v). split; [done|]. apply elem_of_map_iter. done.
Qed.

Lemma map_iter_filter (P : K * V -> Prop) `{forall x, Decision (P x)} m :
  filter P (map_iter m) ≡ₚ map_to_list (filter P m).
Proof.
  apply NoDup_Permutation.
  - apply NoDup_filter. rewrite map_iter_perm. apply NoDup_map_to_list.
  - apply NoDup_map_to_list.
  - intros [k v]. rewrite list_elem_of_filter, elem_of_map_iter, elem_of_map_to_list,
      map_lookup_filter_Some. tauto.
Qed.
End MapIterLemmas.

(** ** Orderings and selection, as the iterator adaptors of the standard library *)

(** [Iterator::min_by]: the first of the minimal elements. *)
Definition min_by {A} (cmp : A -> A -> comparison) (l : list A) : option A :=
  match l with
  | [] => None
  | x :: l => Some (fold_left (fun x y => match cmp x y with Gt => y | _ => x end) l x)
  end.

(** [Iterator::max_by]: the last of the greatest elements. *)
Definition max_by {A} (cmp : A -> A -> comparison) (l : list A) : option A :=
  match l with
  | [] => None
  | x :: l => Some (foldl (fun x y => match cmp x y with Gt => x | _ => y end) x l)
  end.

Lemma max_by_elem {A} (cmp : A -> A -> comparison) l x : max_by cmp l = Some x -> x ∈ l.
Proof.
  destruct l as [|y l]; [done|]. cbn. intros [= <-]. revert y. induction l as [|z l IH]; intros y; cbn; [by left|].
  rewrite !elem_of_cons. specialize (IH (match cmp y z with Gt => y | _ => z end)). apply elem_of_cons in IH as [->|Hin].
  - destruct (cmp y z); auto.
  - auto.
Qed.

Lemma max_by_None {A} (cmp : A -> A -> comparison) l : max_by cmp l = None <-> l = [].
Proof. by destruct l. Qed.

(** [slice::sort_by]: a stable sort; an element goes behind those it does not precede. *)
Fixpoint sort_insert {A} (cmp : A -> A -> comparison) (x : A) (l : list A) : list A :=
  match l with
  | [] => [x]
  | y :: l => match cmp x y with Lt => x :: y :: l | _ => y :: sort_insert cmp x l end
  end.

Definition sort_by {A} (cmp : A -> A -> comparison) (l : list A) : list A :=
  fold_left (fun acc x => sort_insert cmp x acc) l [].

Section Sorting.
Context {A : Type} (cmp : A -> A -> comparison).

Lemma fold_min_elem l x :
  let r := fold_left (fun x y => match cmp x y with Gt => y | _ => x end) l x in r = x \/ r ∈ l.
Proof.
  revert x. induction l as [|y l IH]; intros x; simpl; [auto|].
  specialize (IH (match cmp x y with Gt => y | _ => x end)).
  destruct IH as [->|?]; [|set_solver]. destruct (cmp x y); set_solver.
Qed.

Lemma min_by_elem l x : min_by cmp l = Some x -> x ∈ l.
Proof.
  destruct l as [|y l]; simpl; intros Hx; inv Hx.
  destruct (fold_min_elem l y) as [->|?]; set_solver.
Qed.

Lemma min_by_None l : min_by cmp l = None <-> l = [].
Proof. destruct l; simpl; split; congruence. Qed.

Lemma sort_insert_perm x l : sort_insert cmp x l ≡ₚ x :: l.
Proof.
  induction l as [|y l IH]; simpl; [done|]. destruct (cmp x y); [|done|]; rewrite IH; apply Permutation_swap.
Qed.

Lemma sort_by_perm l : sort_by cmp l ≡ₚ l.
Proof.
  unfold sort_by. assert (H : forall acc, fold_left (fun acc x => sort_insert cmp x acc) l acc ≡ₚ l ++ acc).
  { induction l as [|x l IH]; intros acc; simpl; [done|].
    rewrite IH, sort_insert_perm. symmetry. apply Permutation_middle. }
  rewrite H, app_nil_r. done.
Qed.

(** The order relation a comparator induces. *)
Definition cmp_le (x y : A) : Prop := cmp x y <> Gt.

(** The comparator is an order on the elements that satisfy [P]. *)
Context (P : A -> Prop)
  (cmp_total : forall x y, P x -> P y -> cmp x y = CompOpp (cmp y x))
  (cmp_trans : forall x y z, P x -> P y -> P z -> cmp_le x y -> cmp_le y z -> cmp_le x z).

Lemma fold_min_le l x : P x -> Forall P l ->
  let r := fold_left (fun x y => match cmp x y with Gt => y | _ => x end) l x in
  P r /\ cmp_le r x /\ forall y, y ∈ l -> cmp_le r y.
Proof using cmp_total cmp_trans.
  assert (Hrefl : forall x, P x -> cmp_le x x).
  { intros z Hz. unfold cmp_le. pose proof (cmp_total z z Hz Hz). destruct (cmp z z); done. }
  intros Hx Hl. revert x Hx. induction Hl as [|y l Hy Hl IH]; intros x Hx; simpl.
  { split; [done|]. split; [auto|]. intros y Hy. by apply elem_of_nil in Hy. }
  set (w := match cmp x y with Gt => y | _ => x end).
  assert (Hw : P w /\ cmp_le w x /\ cmp_le w y).
  { unfold w. destruct (cmp x y) eqn:Hxy; split_and!; auto; unfold cmp_le; [congruence..|].
    rewrite cmp_total, Hxy by done. done. }
  destruct Hw as (HPw & Hwx & Hwy). destruct (IH w HPw) as (Hr & H1 & H2).
  split; [done|]. split; [eauto|]. intros z Hz. apply elem_of_cons in Hz as [->|Hz]; eauto.
Qed.

Lemma min_by_le l x y : Forall P l -> min_by cmp l = Some x -> y ∈ l -> cmp_le x y.
Proof using cmp_total cmp_trans.
  destruct l as [|z l]; simpl; intros HP Hx Hy; inv Hx. inv HP.
  destruct (fold_min_le l z) as (_ & Hr & Hall); [done..|].
  apply elem_of_cons in Hy as [->|Hy]; auto.
Qed.

Lemma sort_insert_sorted x l : P x -> Forall P l ->
  StronglySorted cmp_le l -> StronglySorted cmp_le (sort_insert cmp x l).
Proof using cmp_total cmp_trans.
  intros Hx HP. induction 1 as [|y l Hl IH Hy]; simpl; [repeat constructor|]. inv HP.
  assert (Hgt : cmp x y <> Lt -> cmp_le y x).
  { intros Hne. unfold cmp_le. rewrite cmp_total by done. destruct (cmp x y); done. }
  assert (Hin : Forall (cmp_le y) (sort_insert cmp x l) <-> cmp_le y x).
  { rewrite sort_insert_perm, Forall_cons. tauto. }
  destruct (cmp x y) eqn:Hxy.
  - constructor; [auto|]. apply Hin, Hgt. congruence.
  - constructor; [constructor; done|]. constructor; [unfold cmp_le; congruence|].
    rewrite !Forall_forall in *. intros z Hz.
    apply cmp_trans with y; auto. unfold cmp_le. congruence.
  - constructor; [auto|]. apply Hin, Hgt. congruence.
Qed.

Lemma sort_by_sorted l : Forall P l -> StronglySorted cmp_le (sort_by cmp l).
Proof using cmp_total cmp_trans.
  unfold sort_by.
  assert (H : forall acc, Forall P acc -> Forall P l -> StronglySorted cmp_le acc ->
    StronglySorted cmp_le (fold_left (fun acc x => sort_insert cmp x acc) l acc)).
  { induction l as [|x l IH]; intros acc Ha Hl Hs; simpl; [done|]. inv Hl. apply IH; [|done|].
    - rewrite sort_insert_perm. constructor; done.
    - apply sort_insert_sorted; done. }
  intros Hl. apply H; [constructor|done|constructor].
Qed.
End Sorting.

(** *** Comparators that are orders, and keys with several components *)

Class CmpOrder {A} (cmp : A -> A -> comparison) : Prop := {
  cmp_opp : forall x y, cmp x y = CompOpp (cmp y x);
  cmp_le_trans : forall x y z, cmp_le cmp x y -> cmp_le cmp y z -> cmp_le cmp x z
}.

Lemma sort_by_ordered {A} (cmp : A -> A -> comparison) `{!CmpOrder cmp} l :
  StronglySorted (cmp_le cmp) (sort_by cmp l).
Proof.
  apply (sort_by_sorted cmp (fun _ => True)); [intros; apply cmp_opp|intros x y z _ _ _; apply cmp_le_trans|].
  by apply Forall_true.
Qed.

(** [Ordering::then] and the order of [bool]. *)
Definition lex (c d : comparison) : comparison := match c with Eq => d | _ => c end.

Definition bool_cmp (a b : bool) : comparison :=
  match a, b with false, true => Lt | true, false => Gt | _, _ => Eq end.

#[export] Instance Z_compare_order : CmpOrder Z.compare.
Proof.
  split; [intros x y; apply Z.compare_antisym|]. intros x y z. unfold cmp_le.
  fold (x <= y) (y <= z) (x <= z). lia.
Qed.

#[export] Instance bool_cmp_order : CmpOrder bool_cmp.
Proof. split; [by intros [] []|]. intros [] [] []; unfold cmp_le; cbn; congruence. Qed.

#[export] Instance key_order {A B} (f : A -> B) (cmp : B -> B -> comparison) `{!CmpOrder cmp} :
  CmpOrder (fun x y => cmp (f x) (f y)).
Proof. split; [intros; apply cmp_opp|]. intros x y z. apply (cmp_le_trans (cmp := cmp)). Qed.

(** Elements that compare equal compare alike with all others. *)
Lemma cmp_Eq_l {A} (cmp : A -> A -> comparison) `{!CmpOrder cmp} x y z : cmp x y = Eq -> cmp x z = cmp y z.
Proof.
  intros He.
  pose proof (cmp_opp x y) as Hxy. pose proof (cmp_opp x z) as Hxz. pose proof (cmp_opp y z) as Hyz.
  pose proof (cmp_le_trans x y z) as T1. pose proof (cmp_le_trans y x z) as T2.
  pose proof (cmp_le_trans z y x) as T3. pose proof (cmp_le_trans z x y) as T4. unfold cmp_le in *.
  destruct (cmp x y), (cmp y x), (cmp x z), (cmp z x), (cmp y z), (cmp z y); cbn in *; try congruence;
    exfalso; (apply T1; congruence) || (apply T2; congruence) || (apply T3; congruence) || (apply T4; congruence).
Qed.

#[export] Instance lex_order {A} (c d : A -> A -> comparison) `{!CmpOrder c, !CmpOrder d} :
  CmpOrder (fun x y => lex (c x y) (d x y)).
Proof.
  split.
  - intros x y. rewrite (cmp_opp (cmp := c) x y), (cmp_opp (cmp := d) x y). by destruct (c y x).
  - intros x y z. unfold cmp_le, lex.
    pose proof (cmp_le_trans (cmp := c) x y z) as T1. pose proof (cmp_le_trans (cmp := d) x y z) as T2.
    unfold cmp_le in *. destruct (c x y) eqn:Hxy; [rewrite (cmp_Eq_l c _ _ z Hxy); destruct (c y z); auto| |done].
    destruct (c y z) eqn:Hyz; [|destruct (c x z) eqn:Hxz; try done|done].
    + intros _ _. assert (Hzy : c z y = Eq) by (rewrite (cmp_opp (cmp := c)), Hyz; done).
      assert (Hxz : c x z = Lt); [|by rewrite Hxz].
      rewrite (cmp_opp (cmp := c)), (cmp_Eq_l c _ _ x Hzy), (cmp_opp (cmp := c)), Hxy. done.
    + assert (Hyz' : c z y = Gt) by (rewrite (cmp_opp (cmp := c)), Hyz; done).
      assert (Hzx : c x y = c z y) by (apply cmp_Eq_l; done). congruence.
Qed.


(** ** Filters *)

Lemma filter_away {A} (P : A -> Prop) `{forall x, Decision (P x)} l : Forall (fun x => ~ P x) l -> filter P l = [].
Proof. induction 1; [done|]. rewrite filter_cons. by case_decide. Qed.

Lemma filter_keep {A} (P : A -> Prop) `{forall x, Decision (P x)} l : Forall P l -> filter P l = l.
Proof. induction 1; [done|]. rewrite filter_cons. case_decide; [by f_equal|done]. Qed.

Lemma filter_fmap_list {A C} (f : A -> C) (P : C -> Prop) `{forall x, Decision (P x)} (l : list A) :
  filter P (f <$> l) = f <$> filter (fun x => P (f x)) l.
Proof. induction l as [|x l IH]; [done|]. rewrite fmap_cons, !filter_cons. case_decide; by rewrite IH. Qed.

Lemma filter_ext_elem {A} (P Q : A -> Prop) `{forall x, Decision (P x)} `{forall x, Decision (Q x)} (l : list A) :
  (forall x, x ∈ l -> P x <-> Q x) -> filter P l = filter Q l.
Proof.
  induction l as [|x l IH]; intros HPQ; [done|]. rewrite !filter_cons.
  rewrite IH by (intros y Hy; apply HPQ; by right).
  specialize (HPQ x ltac:(left)). do 2 case_decide; tauto.
Qed.

(** ** Maps of lists: all the elements *)

Section Flat.
Context {A : Type}.
Implicit Types (qs : gmap string (list A)) (q : list A).

Definition flat (qs : gmap string (list A)) : list A :=
  concat (map_to_list qs).*2.

Lemma flat_insert p q qs : flat (<[p := q]> qs) ≡ₚ q ++ flat (delete p qs).
Proof.
  unfold flat. rewrite <-insert_delete_eq, map_to_list_insert by apply lookup_delete_eq. done.
Qed.

Lemma flat_split p qs : flat qs ≡ₚ default [] (qs !! p) ++ flat (delete p qs).
Proof.
  destruct (qs !! p) as [q|] eqn:Hq; simpl; [|by rewrite delete_id].
  rewrite <-flat_insert. by rewrite insert_id.
Qed.

Lemma flat_delete p q qs : qs !! p = Some q -> flat qs ≡ₚ q ++ flat (delete p qs).
Proof. intros H. rewrite (flat_split p), H. done. Qed.

Lemma elem_of_flat (m : A) qs : m ∈ flat qs <-> exists p q, qs !! p = Some q /\ m ∈ q.
Proof.
  unfold flat. rewrite list_elem_of_In, in_concat. setoid_rewrite <-list_elem_of_In.
  setoid_rewrite list_elem_of_fmap. split.
  - intros (q & ([p q'] & -> & Hp) & Hm). apply elem_of_map_to_list in Hp. eauto.
  - intros (p & q & Hp & Hm). exists q. split; [|done]. exists (p, q). by rewrite elem_of_map_to_list.
Qed.

Lemma concat_filter (P : A -> Prop) `{forall x, Decision (P x)} (l : list (list A)) :
  concat (map (filter P) l) = filter P (concat l).
Proof. induction l as [|q l IH]; simpl; [done|]. by rewrite IH, filter_app. Qed.

Lemma flat_filter (P : A -> Prop) `{forall x, Decision (P x)} qs :
  flat (filter P <$> qs) = filter P (flat qs).
Proof.
  unfold flat. rewrite map_to_list_fmap, <-concat_filter. f_equal.
  rewrite <-!list_fmap_compose. apply list_fmap_ext. by intros ? [].
Qed.

Lemma flat_nonempty qs : flat (filter (fun kq => kq.2 <> []) qs) ≡ₚ flat qs.
Proof.
  induction qs as [|p q qs Hp IH] using map_ind; [done|].
  rewrite map_filter_insert. cbn [snd]. case_decide as Hq.
  - rewrite !flat_insert, !delete_id by (try apply map_lookup_filter_None; naive_solver). by rewrite IH.
  - rewrite delete_id by done. rewrite IH, flat_insert, delete_id by done.
    by rewrite Hq.
Qed.
End Flat.
