(* ===== verification/Float64.v ===== *)
(** * IEEE 754 binary64, the [f64] of the source

    Scores and thresholds are [f64] values; they are modelled by the
    Standard Library's executable specification of IEEE arithmetic
    ([SpecFloat]) at precision 53 and exponent bound 1024, rounding to nearest
    even, with the infinities and NaN.  [f64::exp] is not specified by IEEE
    and is a parameter ([Libm]). *)

From Stdlib Require Export SpecFloat.
From S2P Require Import Prelude.

Abbreviation f64 := spec_float.

Module F64.

Definition prec : Z := 53.
Definition emax : Z := 1024.

(** [z as f64] for an integer: rounding to nearest. *)
Definition of_Z (z : Z) : f64 := binary_normalize prec emax z 0 false.

(** The literal [n / d] (for [0.1], [2.5], ...): the float nearest to it. *)
Definition lit (n d : Z) : f64 := SFdiv prec emax (of_Z n) (of_Z d).

Definition add (a b : f64) : f64 := SFadd prec emax a b.
Definition sub (a b : f64) : f64 := SFsub prec emax a b.
Definition mul (a b : f64) : f64 := SFmul prec emax a b.
Definition div (a b : f64) : f64 := SFdiv prec emax a b.
Definition neg (a : f64) : f64 := SFopp a.
Definition ltb (a b : f64) : bool := SFltb a b.
Definition leb (a b : f64) : bool := SFleb a b.

Definition is_nan (a : f64) : bool := match a with S754_nan => true | _ => false end.

(** [partial_cmp]. *)
Definition partial_cmp (a b : f64) : option comparison := SFcompare a b.

(** [f64::clamp]: [self] unless it is below [lo] or above [hi]. *)
Definition clamp (a lo hi : f64) : f64 :=
  let a := if ltb a lo then lo else a in if ltb hi a then hi else a.

(** [f64::min] and [f64::max] return the operand that is not NaN. *)
Definition min (a b : f64) : f64 :=
  if is_nan a then b else if is_nan b then a else if ltb b a then b else a.
Definition max (a b : f64) : f64 :=
  if is_nan a then b else if is_nan b then a else if ltb a b then b else a.

(** [partial_cmp(..).unwrap_or(Ordering::Equal)], the comparator of the source. *)
Definition cmp (a b : f64) : comparison := default Eq (partial_cmp a b).

(** [f64::abs]. *)
Definition abs (a : f64) : f64 := SFabs a.

(** [f64::ceil] and [f64::floor]: the integer above and below; an integer, and
    every float of exponent at least 0 is one, stays. *)
Definition ceil (a : f64) : f64 :=
  match a with
  | S754_finite s m e =>
      if 0 <=? e then a else
      let d := 2 ^ (- e) in
      let z := if s then - (Z.pos m / d) else - (- Z.pos m / d) in
      if z =? 0 then S754_zero s else of_Z z
  | _ => a
  end.

Definition floor (a : f64) : f64 := neg (ceil (neg a)).

(** [f64::round]: to the nearest integer, halves away from zero. *)
Definition round (a : f64) : f64 :=
  match a with
  | S754_finite s m e =>
      if 0 <=? e then a else
      let z := (2 * Z.pos m + 2 ^ (- e)) / (2 * 2 ^ (- e)) in
      if z =? 0 then S754_zero s else of_Z (if s then - z else z)
  | _ => a
  end.

(** [a as u64] and the like: towards zero, clamped to the range; NaN gives 0. *)
Definition to_uint (w : Z) (a : f64) : Z :=
  match a with
  | S754_finite false m e =>
      Z.min (2 ^ w - 1) (if 0 <=? e then Z.pos m * 2 ^ e else Z.pos m / 2 ^ (- e))
  | S754_infinity false => 2 ^ w - 1
  | _ => 0
  end.

(** ** Order *)

(** Floats that are numbers are ordered by sign and class, then exponent, then
    mantissa. *)
Definition key (a : f64) : Z * Z * Z :=
  match a with
  | S754_infinity true => (-2, 0, 0)
  | S754_finite true m e => (-1, - e, Z.neg m)
  | S754_finite false m e => (1, e, Z.pos m)
  | S754_infinity false => (2, 0, 0)
  | _ => (0, 0, 0)
  end.

Definition key_lt (x y : Z * Z * Z) : Prop :=
  let '(a, b, c) := x in let '(a', b', c') := y in
  a < a' \/ a = a' /\ (b < b' \/ b = b' /\ c < c').

Lemma cmp_spec a b : is_nan a = false -> is_nan b = false ->
  match cmp a b with
  | Lt => key_lt (key a) (key b)
  | Eq => key a = key b
  | Gt => key_lt (key b) (key a)
  end.
Proof.
  destruct a as [sa|[]| |[] ma ea], b as [sb|[]| |[] mb eb]; intros Ha Hb; try done;
    cbv [cmp partial_cmp SFcompare default from_option id key key_lt];
    try solve [done | lia]; (destruct (Z.compare_spec ea eb); subst; try lia).
  - change (Pos.compare_cont Eq ma mb) with (Pos.compare ma mb).
    destruct (Pos.compare_spec ma mb); subst; simpl; [done|lia..].
  - change (Pos.compare_cont Eq ma mb) with (Pos.compare ma mb).
    destruct (Pos.compare_spec ma mb); subst; simpl; [done|lia..].
Qed.

Lemma key_lt_irrefl x : ~ key_lt x x.
Proof. destruct x as [[a b] c]. simpl. lia. Qed.

Lemma key_lt_trans x y z : key_lt x y -> key_lt y z -> key_lt x z.
Proof. destruct x as [[a b] c], y as [[a' b'] c'], z as [[a'' b''] c'']. simpl. lia. Qed.

Lemma cmp_antisym a b : is_nan a = false -> is_nan b = false -> cmp a b = CompOpp (cmp b a).
Proof.
  intros Ha Hb. pose proof (cmp_spec a b Ha Hb) as H1. pose proof (cmp_spec b a Hb Ha) as H2.
  destruct (cmp a b), (cmp b a); try done; exfalso;
    first [rewrite H1 in H2 | rewrite H2 in H1 | pose proof (key_lt_trans _ _ _ H1 H2)];
    eapply key_lt_irrefl; eassumption.
Qed.

(** [a <= b] as the comparator decides it. *)
Definition le (a b : f64) : Prop := cmp a b <> Gt.

Lemma le_trans a b c : is_nan a = false -> is_nan b = false -> is_nan c = false ->
  le a b -> le b c -> le a c.
Proof.
  intros Ha Hb Hc. unfold le.
  pose proof (cmp_spec a b Ha Hb) as H1. pose proof (cmp_spec b c Hb Hc) as H2.
  pose proof (cmp_spec a c Ha Hc) as H3.
  destruct (cmp a b), (cmp b c), (cmp a c); try done; intros _ _ _; repeat match goal with
    | H : key _ = key _ |- _ => rewrite H in *; clear H end;
    repeat match goal with H : key_lt ?x ?y, H' : key_lt ?y ?z |- _ =>
      lazymatch goal with _ : key_lt x z |- _ => fail | _ => pose proof (key_lt_trans _ _ _ H H') end end;
    eapply key_lt_irrefl; eassumption.
Qed.

(** ** Numbers stay numbers *)

Definition is_finite (a : f64) : bool := match a with S754_zero _ | S754_finite _ _ _ => true | _ => false end.

Lemma finite_not_nan a : is_finite a = true -> is_nan a = false.
Proof. by destruct a. Qed.

Lemma shr_1_nonneg r : 0 <= shr_m r -> 0 <= shr_m (shr_1 r).
Proof. destruct r as [[|[p|p|]|[p|p|]] ? ?]; cbn; lia. Qed.

Lemma iter_shr_nonneg p r : 0 <= shr_m r -> 0 <= shr_m (SpecFloat.iter_pos shr_1 p r).
Proof. revert r. induction p as [p IH|p IH|]; intros r Hr; cbn; auto using shr_1_nonneg. Qed.

Lemma shr_fexp_nonneg m e l : 0 <= m -> 0 <= shr_m (shr_fexp prec emax m e l).1.
Proof.
  intros Hm. unfold shr_fexp, shr. assert (Hr : 0 <= shr_m (shr_record_of_loc m l)) by (by destruct l as [|[]]).
  destruct (_ - e); cbn; auto using iter_shr_nonneg.
Qed.

Lemma round_nearest_even_nonneg m l : 0 <= m -> 0 <= round_nearest_even m l.
Proof. intros Hm. destruct l as [|[]]; cbn; try lia. destruct (Z.even m); lia. Qed.

Lemma binary_round_aux_not_nan s m e l : 0 <= m -> is_nan (binary_round_aux prec emax s m e l) = false.
Proof.
  intros Hm. unfold binary_round_aux.
  pose proof (shr_fexp_nonneg m e l Hm) as H1. destruct (shr_fexp prec emax m e l) as [r1 e1]. cbn [fst] in H1.
  pose proof (shr_fexp_nonneg _ e1 loc_Exact (round_nearest_even_nonneg _ (loc_of_shr_record r1) H1)) as H2.
  destruct (shr_fexp prec emax _ e1 loc_Exact) as [r2 e2]. cbn [fst] in H2.
  destruct (shr_m r2); [done| |lia]. by destruct (_ <=? _).
Qed.

Lemma binary_normalize_not_nan m e z : is_nan (binary_normalize prec emax m e z) = false.
Proof.
  destruct m; cbn [binary_normalize]; [done|unfold binary_round..];
    destruct (shl_align _ _ _); by apply binary_round_aux_not_nan.
Qed.

Lemma of_Z_not_nan z : is_nan (of_Z z) = false.
Proof. apply binary_normalize_not_nan. Qed.

Lemma add_not_nan a b : is_finite a = true -> is_nan b = false -> is_nan (add a b) = false.
Proof. destruct a as [[]|[]| |], b as [[]|[]| |]; try done. intros _ _. apply binary_normalize_not_nan. Qed.

Lemma sub_not_nan a b : is_finite a = true -> is_nan b = false -> is_nan (sub a b) = false.
Proof. destruct a as [[]|[]| |], b as [[]|[]| |]; try done. intros _ _. apply binary_normalize_not_nan. Qed.

Lemma mul_not_nan a b : is_finite a = true -> is_finite b = true -> is_nan (mul a b) = false.
Proof. destruct a, b; try done. intros _ _. by apply binary_round_aux_not_nan. Qed.

Lemma div_not_nan a b : is_finite a = true -> is_nan b = false ->
  (forall s, b <> S754_zero s) -> is_nan (div a b) = false.
Proof.
  intros Ha Hb Hz. destruct a as [sa| | |sa ma ea], b as [sb|sb| |sb mb eb]; try done; try by destruct (Hz sb).
  unfold div, SFdiv, SFdiv_core_binary.
  set (m' := match _ - _ - _ with Z0 => _ | _ => _ end).
  assert (Hm' : 0 <= m').
  { unfold m'. destruct (_ - _ - _); [lia|apply Z.shiftl_nonneg; lia|lia]. }
  pose proof (Z_div_mod m' (Z.pos mb) ltac:(lia)) as Hd. destruct (Z.div_eucl m' (Z.pos mb)) as [q r].
  apply binary_round_aux_not_nan. nia.
Qed.

(** [lo <= a <= hi], for numbers. *)
Definition between (lo hi a : f64) : Prop := is_nan a = false /\ le lo a /\ le a hi.

Lemma ltb_cmp a b : is_nan a = false -> is_nan b = false -> ltb a b = match cmp a b with Lt => true | _ => false end.
Proof.
  intros Ha Hb. unfold ltb, SFltb, cmp, partial_cmp.
  destruct a as [sa|[]| |[] ma ea], b as [sb|[]| |[] mb eb]; done.
Qed.

Lemma clamp_between lo hi a : is_nan lo = false -> is_nan hi = false -> is_nan a = false -> le lo hi ->
  between lo hi (clamp a lo hi).
Proof.
  intros Hlo Hhi Ha Hle. unfold clamp, between, le in *.
  assert (Hrefl : forall x, is_nan x = false -> cmp x x <> Gt).
  { intros x Hx Hgt. pose proof (cmp_antisym x x Hx Hx) as Hs. rewrite Hgt in Hs. done. }
  rewrite (ltb_cmp a lo) by done. rewrite (cmp_antisym a lo) by done.
  assert (Hlo' : is_nan (match CompOpp (cmp lo a) with Lt => lo | _ => a end) = false) by by destruct (cmp lo a).
  destruct (cmp lo a) eqn:Hca; cbn [CompOpp] in *; rewrite ltb_cmp by done.
  - rewrite (cmp_antisym hi a) by done. destruct (cmp a hi) eqn:Hch; cbn; split_and!; try done; try congruence; auto.
  - rewrite (cmp_antisym hi a) by done. destruct (cmp a hi) eqn:Hch; cbn; split_and!; try done; try congruence; auto.
  - rewrite (cmp_antisym hi lo) by done. destruct (cmp lo hi) eqn:Hch; cbn; split_and!; try done; try congruence; auto.
Qed.

(** A number between two finite ones is finite. *)
Lemma between_finite lo hi a : is_finite lo = true -> is_finite hi = true -> between lo hi a -> is_finite a = true.
Proof. intros Hlo Hhi (Ha & H1 & H2). destruct a as [|[]| |]; try done; destruct lo, hi; try done; by cbn in *. Qed.

End F64.

(** [f64::exp] (the platform's libm). *)
Class Libm : Type := f64_exp : f64 -> f64.

(** [f64::ln] and [f64::powf]. *)
Class LibmLn : Type := f64_ln : f64 -> f64.
Class LibmPow : Type := f64_powf : f64 -> f64 -> f64.

(** [Duration::as_secs_f64]; a duration is a number of nanoseconds. *)
Definition ns_per_sec : Z := 10 ^ 9.

Definition as_secs_f64 (d : Z) : f64 :=
  F64.add (F64.of_Z (d / ns_per_sec)) (F64.div (F64.of_Z (d mod ns_per_sec)) (F64.of_Z ns_per_sec)).

(** For witnesses: a decreasing stand-in with the value 1 at 0, [1 / (1 - x)]. *)
Definition sample_libm : Libm := fun x => F64.div (F64.of_Z 1) (F64.sub (F64.of_Z 1) x).

Example f64_tenths : F64.cmp (F64.add (F64.lit 1 10) (F64.lit 2 10)) (F64.lit 3 10) = Gt.
Proof. vm_compute. reflexivity. Qed.

Example f64_ceil : F64.ceil (F64.lit 21 10) = F64.of_Z 3 /\ F64.ceil (F64.lit (-21) 10) = F64.of_Z (-2) /\
  F64.to_uint 32 (F64.lit 21 10) = 2 /\ F64.to_uint 8 (F64.of_Z 300) = 255 /\ F64.to_uint 8 (F64.of_Z (-3)) = 0.
Proof. vm_compute. auto 10. Qed.

Example f64_round : F64.round (F64.lit 5 2) = F64.of_Z 3 /\ F64.round (F64.lit (-5) 2) = F64.of_Z (-3) /\
  F64.round (F64.lit 49 100) = S754_zero false /\ F64.round (F64.lit 14 10) = F64.of_Z 1.
Proof. vm_compute. auto. Qed.
