(* ===== verification/FloatBounds.v ===== *)
(** * Magnitudes of floating-point results

    A number of magnitude [K] is below [2 ^ K]; sums and products of numbers of
    known magnitude have a magnitude again, so they are finite as long as it
    stays below the largest exponent.  Scores are sums and products of counts,
    and this is why they are numbers. *)

From S2P Require Import Prelude Float64.

Module Mag.
Import F64.

Definition emin : Z := -1074.

(** [a] is finite, [|a| < 2 ^ K], with an exponent the format has. *)
Definition mag (K : Z) (a : f64) : Prop :=
  match a with
  | S754_zero _ => True
  | S754_finite _ m e => emin <= e <= K /\ Z.pos m < 2 ^ (K - e)
  | _ => False
  end.

Lemma mag_finite K a : mag K a -> is_finite a = true.
Proof. by destruct a. Qed.

Lemma mag_mono K L a : K <= L -> mag K a -> mag L a.
Proof.
  destruct a; cbn; try done. intros HK [He Hm]. split; [lia|].
  assert (2 ^ (K - e) <= 2 ^ (L - e)) by (apply Z.pow_le_mono_r; lia). lia.
Qed.

Lemma mag_abs K a : mag K a -> mag K (abs a).
Proof. by destruct a. Qed.

Lemma mag_neg K a : mag K a -> mag K (neg a).
Proof. by destruct a. Qed.

(** ** Digits and shifts *)

Lemma digits2_pos_spec p : 2 ^ (Z.pos (digits2_pos p) - 1) <= Z.pos p < 2 ^ Z.pos (digits2_pos p).
Proof.
  induction p as [p IH|p IH|]; cbn [digits2_pos]; [| |done].
  all: rewrite Pos2Z.inj_succ; replace (Z.succ (Z.pos (digits2_pos p)) - 1) with (Z.succ (Z.pos (digits2_pos p) - 1)) by lia;
    rewrite !Z.pow_succ_r by lia; lia.
Qed.

Lemma Zdigits2_le m k : 0 <= m -> 0 <= k -> m < 2 ^ k -> Zdigits2 m <= k.
Proof.
  intros Hm Hk Hlt. destruct m as [|p|p]; cbn; [done| |lia].
  pose proof (digits2_pos_spec p) as [Hlo _]. destruct (Z.le_gt_cases (Z.pos (digits2_pos p)) k) as [|Hgt]; [done|].
  assert (2 ^ k <= 2 ^ (Z.pos (digits2_pos p) - 1)) by (apply Z.pow_le_mono_r; lia). lia.
Qed.

Lemma shr_1_div r : 0 <= shr_m r -> shr_m (shr_1 r) = shr_m r / 2.
Proof.
  destruct r as [[|[p|p|]|p] ? ?]; cbn; intros Hm; try lia; try done.
  - rewrite Pos2Z.inj_xI. symmetry. rewrite Z.add_comm, Z.mul_comm, Z.div_add by lia. done.
  - rewrite Pos2Z.inj_xO. symmetry. by rewrite Z.mul_comm, Z.div_mul by lia.
Qed.

Lemma iter_shr_div p r : 0 <= shr_m r -> shr_m (SpecFloat.iter_pos shr_1 p r) = shr_m r / 2 ^ Z.pos p.
Proof.
  revert r. induction p as [p IH|p IH|]; intros r Hr; cbn [SpecFloat.iter_pos].
  - rewrite !IH by auto using iter_shr_nonneg, shr_1_nonneg. rewrite shr_1_div by done.
    rewrite !Z.div_div by lia. f_equal. replace (Z.pos p~1) with (1 + (Z.pos p + Z.pos p)) by lia.
    rewrite !Z.pow_add_r, Z.pow_1_r by lia. ring.
  - rewrite !IH by auto using iter_shr_nonneg. rewrite Z.div_div by lia. f_equal.
    replace (Z.pos p~0) with (Z.pos p + Z.pos p) by lia. by rewrite Z.pow_add_r by lia.
  - by rewrite shr_1_div.
Qed.

(** Shifting to the exponent the format has keeps a bound on the value. *)
Lemma shr_fexp_mag K m e l : 0 <= m -> e <= K -> emin <= K -> m < 2 ^ (K - e) ->
  let r := shr_fexp prec emax m e l in
  0 <= shr_m r.1 < 2 ^ (K - r.2) /\ emin <= r.2 <= K /\ (0 < m -> emin <= e -> 0 < shr_m r.1).
Proof.
  intros Hm He HK Hlt. unfold shr_fexp, shr.
  assert (Hr : shr_m (shr_record_of_loc m l) = m) by (by destruct l as [|[]]).
  pose proof (Zdigits2_le m (K - e) Hm ltac:(lia) Hlt) as Hd.
  assert (Hf : fexp prec emax (Zdigits2 m + e) = Z.max (Zdigits2 m + e - 53) emin) by done.
  rewrite Hf. destruct (Z.max (Zdigits2 m + e - 53) emin - e) as [|n|n] eqn:Hn; cbn [fst snd]; rewrite ?Hr.
  - split; [done|]. split; [lia|done].
  - rewrite iter_shr_div, Hr by (rewrite Hr; done).
    assert (Hen : emin <= e + Z.pos n <= K) by lia. split; [split|split; [done|]].
    + apply Z.div_pos; lia.
    + apply Z.div_lt_upper_bound; [lia|]. rewrite <-Z.pow_add_r by lia. by replace (Z.pos n + (K - (e + Z.pos n))) with (K - e) by lia.
    + intros Hpos Hemin. apply Z.div_str_pos. split; [lia|]. destruct m as [|p|p]; [lia| |lia].
      pose proof (digits2_pos_spec p) as [Hlo _]. cbn [Zdigits2] in *. etrans; [|exact Hlo]. apply Z.pow_le_mono_r; lia.
  - split; [done|]. split; [lia|done].
Qed.

Lemma round_nearest_even_le m l : 0 <= m -> m <= round_nearest_even m l <= m + 1.
Proof. intros Hm. destruct l as [|[]]; cbn; try lia. destruct (Z.even m); lia. Qed.

(** ** Rounding *)

Lemma round_aux_mag K s m e l : 0 <= m -> e <= K -> emin <= K -> K < 970 -> m < 2 ^ (K - e) ->
  mag (K + 1) (binary_round_aux prec emax s m e l) /\
  (0 < m -> emin <= e -> forall z, binary_round_aux prec emax s m e l <> S754_zero z).
Proof.
  intros Hm He HK Hmax Hlt. unfold binary_round_aux.
  pose proof (shr_fexp_mag K m e l Hm He HK Hlt) as ([A1 A2] & [A3 A4] & A5). cbv zeta in *.
  destruct (shr_fexp prec emax m e l) as [r1 e1]. cbn [fst snd] in *.
  pose proof (round_nearest_even_le (shr_m r1) (loc_of_shr_record r1) A1) as Hrd.
  set (m2 := round_nearest_even _ _) in *.
  assert (Hm2 : m2 < 2 ^ (K + 1 - e1)).
  { replace (K + 1 - e1) with (Z.succ (K - e1)) by lia. rewrite Z.pow_succ_r by lia. lia. }
  pose proof (shr_fexp_mag (K + 1) m2 e1 loc_Exact ltac:(lia) ltac:(lia) ltac:(lia) Hm2) as ([B1 B2] & [B3 B4] & B5). cbv zeta in *.
  destruct (shr_fexp prec emax m2 e1 loc_Exact) as [r2 e2]. cbn [fst snd] in *.
  destruct (shr_m r2) as [|p|p] eqn:Hr2; [| |lia].
  - split; [done|]. intros Hpos Hemin z _. specialize (A5 Hpos Hemin). specialize (B5 ltac:(lia) A3). lia.
  - rewrite (proj2 (Z.leb_le e2 (emax - prec))) by (unfold emax, prec; lia). split; [|done]. cbn. lia.
Qed.

Lemma shl_align_spec m e e' : let r := shl_align m e e' in
  r.2 = Z.min e e' /\ Z.pos r.1 = Z.pos m * 2 ^ (e - r.2).
Proof.
  unfold shl_align. destruct (e' - e) as [|d|d] eqn:Hd; cbn [fst snd].
  - split; [lia|]. rewrite Z.sub_diag. lia.
  - split; [lia|]. rewrite Z.sub_diag. lia.
  - split; [lia|]. replace (e - e') with (Z.pos d) by lia. clear. 
    induction d as [|d IH] using Pos.peano_ind; [cbn; lia|].
    rewrite Pos.iter_succ, Pos2Z.inj_xO, IH, Pos2Z.inj_succ, Z.pow_succ_r by lia. lia.
Qed.

Lemma normalize_mag K m e z : e <= K -> emin <= K -> K < 970 -> Z.abs m < 2 ^ (K - e) ->
  mag (K + 1) (binary_normalize prec emax m e z) /\
  (m <> 0 -> emin <= e -> forall s, binary_normalize prec emax m e z <> S754_zero s).
Proof.
  intros He HK Hmax Hlt.
  assert (Hround : forall s p, Z.pos p < 2 ^ (K - e) -> mag (K + 1) (binary_round prec emax s p e) /\
    (emin <= e -> forall s', binary_round prec emax s p e <> S754_zero s')).
  { intros s p Hp. unfold binary_round. set (f := fexp _ _ _).
    assert (Hf : emin <= f) by (unfold f, fexp; apply Z.le_max_r).
    pose proof (shl_align_spec p e f) as [H1 H2]. cbv zeta in *. destruct (shl_align p e f) as [q e']. cbn [fst snd] in *.
    destruct (round_aux_mag K s (Z.pos q) e' loc_Exact) as [R1 R2]; [lia|lia|done|done| |].
    - rewrite H2. replace (K - e') with ((e - e') + (K - e)) by lia. rewrite Z.pow_add_r by lia.
      rewrite Z.mul_comm. apply Zmult_lt_compat_l; [|done]. apply Z.pow_pos_nonneg; lia.
    - split; [done|]. intros Hemin s'. apply R2; lia. }
  destruct m as [|p|p]; cbn [binary_normalize]; [by split| |]; destruct (Hround false p) as [R1 R2]; try done;
    destruct (Hround true p) as [R3 R4]; try done; split; auto.
Qed.

(** ** Operations *)

Lemma of_Z_mag K z : 0 <= K < 970 -> Z.abs z < 2 ^ K -> mag (K + 1) (of_Z z).
Proof. intros HK Hz. apply normalize_mag; [lia|unfold emin; lia|lia|by rewrite Z.sub_0_r]. Qed.

Lemma of_Z_nonzero z s : 0 < Z.abs z < 2 ^ 900 -> of_Z z <> S754_zero s.
Proof.
  intros Hz. assert (Hn : z <> 0) by lia.
  apply (normalize_mag 900 z 0 false); [lia|unfold emin; lia|lia|rewrite Z.sub_0_r; lia|done|unfold emin; lia].
Qed.

(** The sum of two aligned mantissas. *)
Lemma aligned_bound K s m e ez : emin <= ez <= e -> e <= K -> Z.pos m < 2 ^ (K - e) ->
  Z.abs (cond_Zopp s (Z.pos (shl_align m e ez).1)) < 2 ^ (K - ez).
Proof.
  intros Hez HK Hm. pose proof (shl_align_spec m e ez) as [H1 H2]. cbv zeta in *. rewrite Z.min_r in H1 by lia. rewrite H1 in H2.
  assert (Habs : Z.abs (cond_Zopp s (Z.pos (shl_align m e ez).1)) = Z.pos (shl_align m e ez).1) by (by destruct s).
  rewrite Habs, H2. replace (K - ez) with ((e - ez) + (K - e)) by lia. rewrite Z.pow_add_r by lia.
  rewrite Z.mul_comm. apply Zmult_lt_compat_l; [|done]. apply Z.pow_pos_nonneg; lia.
Qed.

Lemma sum_bound K x y ez : ez <= K -> Z.abs x < 2 ^ (K - ez) -> Z.abs y < 2 ^ (K - ez) ->
  Z.abs (x + y) < 2 ^ (K + 1 - ez) /\ Z.abs (x - y) < 2 ^ (K + 1 - ez).
Proof.
  intros Hez Hx Hy. replace (K + 1 - ez) with (Z.succ (K - ez)) by lia. rewrite Z.pow_succ_r by lia. lia.
Qed.

Lemma add_mag K a b : emin <= K < 968 -> mag K a -> mag K b -> mag (K + 2) (add a b).
Proof.
  intros HK Ha Hb. destruct a as [sa| | |sa ma ea], b as [sb| | |sb mb eb]; try done;
    try (eapply (mag_mono K); [lia|done]); [by destruct sa, sb|].
  cbn in Ha, Hb. destruct Ha as [Ha1 Ha2], Hb as [Hb1 Hb2]. unfold add, SFadd.
  replace (K + 2) with (K + 1 + 1) by lia. apply normalize_mag; [lia|lia|lia|].
  apply sum_bound; [lia|apply aligned_bound; lia..].
Qed.

Lemma sub_mag K a b : emin <= K < 968 -> mag K a -> mag K b -> mag (K + 2) (sub a b).
Proof.
  intros HK Ha Hb. destruct a as [sa| | |sa ma ea], b as [sb| | |sb mb eb]; try done;
    try (eapply (mag_mono K); [lia|done]); [by destruct sa, sb|].
  cbn in Ha, Hb. destruct Ha as [Ha1 Ha2], Hb as [Hb1 Hb2]. unfold sub, SFsub.
  replace (K + 2) with (K + 1 + 1) by lia. apply normalize_mag; [lia|lia|lia|].
  apply sum_bound; [lia|apply aligned_bound; lia..].
Qed.

Lemma mul_mag K L a b : emin <= K + L < 969 -> mag K a -> mag L b -> mag (K + L + 1) (mul a b).
Proof.
  intros HK Ha Hb. destruct a as [sa| | |sa ma ea], b as [sb| | |sb mb eb]; try done.
  cbn in Ha, Hb. destruct Ha as [Ha1 Ha2], Hb as [Hb1 Hb2]. unfold mul, SFmul.
  apply round_aux_mag; [lia|lia|lia|lia|]. rewrite Pos2Z.inj_mul.
  replace (K + L - (ea + eb)) with ((K - ea) + (L - eb)) by lia. rewrite Z.pow_add_r by lia.
  apply Z.mul_lt_mono_nonneg; lia.
Qed.

(** A positive number plus one that is not negative is not zero. *)
Lemma add_one_nonzero K t : emin <= K < 960 -> 2 <= K -> mag K t ->
  forall s, add (of_Z 1) (abs t) <> S754_zero s.
Proof.
  intros HK HK2 Ht s. assert (H1 : of_Z 1 = S754_finite false 4503599627370496 (-52)) by (vm_compute; reflexivity).
  rewrite H1. destruct t as [st| | |st m e]; try done. cbn [abs SFabs add SFadd]. cbn in Ht. destruct Ht as [Ht1 Ht2].
  unfold add, SFadd. cbn [cond_Zopp].
  pose proof (aligned_bound K false m e (Z.min (-52) e) ltac:(unfold emin in *; lia) ltac:(lia) Ht2) as Hb1.
  assert (Hone : Z.pos 4503599627370496 < 2 ^ (K - -52)).
  { change (Z.pos 4503599627370496) with (2 ^ 52). apply Z.pow_lt_mono_r; lia. }
  pose proof (aligned_bound K false 4503599627370496 (-52) (Z.min (-52) e) ltac:(unfold emin in *; lia) ltac:(lia) Hone) as Hb2.
  cbn [cond_Zopp] in Hb1, Hb2.
  apply (normalize_mag (K + 1)); [lia|lia|lia| |lia|unfold emin in *; lia].
  apply sum_bound; [lia|done|done].
Qed.

(** ** Numbers that are at least one *)

Definition ge1 (m e : Z) : Prop := 0 < m /\ (e <= 0 -> 2 ^ (- e) <= m).

Definition at_least_one (a : f64) : Prop := match a with S754_finite false m e => ge1 (Z.pos m) e | _ => False end.

Lemma shr_fexp_ge1 m e l : emin <= e -> ge1 m e -> let r := shr_fexp prec emax m e l in ge1 (shr_m r.1) r.2.
Proof.
  intros Hemin [Hm Hge]. unfold shr_fexp, shr. assert (Hr : shr_m (shr_record_of_loc m l) = m) by (by destruct l as [|[]]).
  assert (Hf : fexp prec emax (Zdigits2 m + e) = Z.max (Zdigits2 m + e - 53) emin) by done. rewrite Hf.
  destruct (Z.max (Zdigits2 m + e - 53) emin - e) as [|n|n] eqn:Hn; cbn [fst snd]; rewrite ?Hr; [done| |done].
  rewrite iter_shr_div, Hr by (rewrite Hr; lia). split.
  - apply Z.div_str_pos. split; [lia|]. destruct m as [|p|p]; [lia| |lia]. pose proof (digits2_pos_spec p) as [Hlo _].
    cbn [Zdigits2] in *. etrans; [|exact Hlo]. apply Z.pow_le_mono_r; lia.
  - intros Hle. apply Z.div_le_lower_bound; [lia|]. rewrite <-Z.pow_add_r by lia.
    replace (Z.pos n + - (e + Z.pos n)) with (- e) by lia. apply Hge. lia.
Qed.

Lemma ge1_le m m' e : ge1 m e -> m <= m' -> ge1 m' e.
Proof. intros [H1 H2] Hle. split; [lia|]. intros He. specialize (H2 He). lia. Qed.

Lemma round_aux_ge1 K m e l : e <= K -> emin <= e -> K < 970 -> m < 2 ^ (K - e) -> ge1 m e ->
  at_least_one (binary_round_aux prec emax false m e l).
Proof.
  intros He Hemin Hmax Hlt Hge. unfold binary_round_aux. pose proof Hge as [Hpos _].
  pose proof (shr_fexp_mag K m e l ltac:(lia) He ltac:(lia) Hlt) as ([A1 A2] & [A3 A4] & A5). cbv zeta in *.
  pose proof (shr_fexp_ge1 m e l Hemin Hge) as G1. cbv zeta in G1.
  destruct (shr_fexp prec emax m e l) as [r1 e1]. cbn [fst snd] in *.
  pose proof (round_nearest_even_le (shr_m r1) (loc_of_shr_record r1) A1) as Hrd. set (m2 := round_nearest_even _ _) in *.
  assert (Hm2 : m2 < 2 ^ (K + 1 - e1)).
  { replace (K + 1 - e1) with (Z.succ (K - e1)) by lia. rewrite Z.pow_succ_r by lia. lia. }
  pose proof (shr_fexp_mag (K + 1) m2 e1 loc_Exact ltac:(lia) ltac:(lia) ltac:(lia) Hm2) as ([B1 B2] & [B3 B4] & B5). cbv zeta in *.
  pose proof (shr_fexp_ge1 m2 e1 loc_Exact A3 (ge1_le _ m2 _ G1 (proj1 Hrd))) as G2. cbv zeta in G2.
  destruct (shr_fexp prec emax m2 e1 loc_Exact) as [r2 e2]. cbn [fst snd] in *.
  destruct (shr_m r2) as [|p|p] eqn:Hr2; [by destruct G2|  |lia].
  rewrite (proj2 (Z.leb_le e2 (emax - prec))) by (unfold emax, prec; lia). exact G2.
Qed.

Lemma add_one_at_least K t : 2 <= K < 960 -> mag K t -> at_least_one (add (of_Z 1) (abs t)).
Proof.
  intros HK Ht. assert (H1 : of_Z 1 = S754_finite false 4503599627370496 (-52)) by (vm_compute; reflexivity).
  rewrite H1. destruct t as [st| | |st m e]; try done. cbn in Ht. destruct Ht as [Ht1 Ht2].
  unfold add, abs, SFabs, SFadd. cbn [cond_Zopp]. set (ez := Z.min (-52) e).
  pose proof (shl_align_spec 4503599627370496 (-52) ez) as [A1 A2]. pose proof (shl_align_spec m e ez) as [B1 B2]. cbv zeta in *.
  rewrite Z.min_r in A1, B1 by lia. rewrite A1 in A2. rewrite B1 in B2.
  pose proof (aligned_bound K false m e ez ltac:(unfold emin in *; lia) ltac:(lia) Ht2) as Hb1.
  assert (Hone : Z.pos 4503599627370496 < 2 ^ (K - -52)).
  { change (Z.pos 4503599627370496) with (2 ^ 52). apply Z.pow_lt_mono_r; lia. }
  pose proof (aligned_bound K false 4503599627370496 (-52) ez ltac:(unfold emin in *; lia) ltac:(lia) Hone) as Hb2.
  cbn [cond_Zopp] in Hb1, Hb2.
  set (x := (shl_align 4503599627370496 (-52) ez).1) in *. set (y := (shl_align m e ez).1) in *.
  assert (Hx : 2 ^ (- ez) <= Z.pos x).
  { rewrite A2. change (Z.pos 4503599627370496) with (2 ^ 52). rewrite <-Z.pow_add_r by lia. apply Z.pow_le_mono_r; lia. }
  unfold binary_normalize. destruct (Z.pos x + Z.pos y) as [|p|p] eqn:Hp; [lia| |lia]. unfold binary_round.
  set (f := fexp _ _ _). assert (Hf : emin <= f) by (unfold f, fexp; apply Z.le_max_r).
  pose proof (shl_align_spec p ez f) as [C1 C2]. cbv zeta in *. destruct (shl_align p ez f) as [q e']. cbn [fst snd] in *.
  apply (round_aux_ge1 (K + 1)); [lia|unfold emin in *; lia|lia| |].
  - rewrite C2. replace (K + 1 - e') with ((ez - e') + (K + 1 - ez)) by lia. rewrite Z.pow_add_r by lia.
    rewrite Z.mul_comm. apply Zmult_lt_compat_l; [apply Z.pow_pos_nonneg; lia|]. rewrite <-Hp.
    replace (K + 1 - ez) with (Z.succ (K - ez)) by lia. rewrite Z.pow_succ_r by lia. lia.
  - split; [lia|]. intros _. rewrite C2. replace (- e') with (- ez + (ez - e')) by lia. rewrite Z.pow_add_r by lia.
    apply Z.mul_le_mono_nonneg_r; [apply Z.pow_nonneg; lia|]. lia.
Qed.

(** Dividing by a number that is at least one does not make larger. *)
Lemma div_mag K a b : emin <= K < 969 -> mag K a -> at_least_one b -> mag (K + 1) (div a b).
Proof.
  intros HK Ha Hb. destruct b as [| | |[] mb eb]; try done. destruct a as [sa| | |sa ma ea]; try done.
  cbn in Ha, Hb. destruct Ha as [Ha1 Ha2], Hb as [Hb1 Hb2]. unfold div, SFdiv, SFdiv_core_binary.
  set (e' := Z.min _ _). set (m' := match _ with Z0 => _ | Zpos _ => _ | Zneg _ => _ end).
  pose proof (Z_div_mod m' (Z.pos mb) ltac:(lia)) as Hd. destruct (Z.div_eucl m' (Z.pos mb)) as [q r].
  assert (Hda : Zdigits2 (Z.pos ma) + ea <= K).
  { pose proof (Zdigits2_le (Z.pos ma) (K - ea) ltac:(lia) ltac:(lia) Ha2). lia. }
  assert (Hdb : 1 <= Zdigits2 (Z.pos mb) + eb).
  { cbn [Zdigits2]. pose proof (digits2_pos_spec mb) as [_ Hhi]. destruct (Z.le_gt_cases eb 0) as [Hle|Hgt]; [|lia].
    specialize (Hb2 Hle). destruct (Z.le_gt_cases (Z.pos (digits2_pos mb)) (- eb)) as [Hc|Hc]; [|lia].
    assert (2 ^ Z.pos (digits2_pos mb) <= 2 ^ (- eb)) by (apply Z.pow_le_mono_r; lia). lia. }
  assert (He' : e' <= K).
  { unfold e'. etrans; [apply Z.le_min_l|]. unfold fexp, SpecFloat.emin, prec, emax in *. unfold emin in *. lia. }
  set (k := ea - eb - e') in *. assert (Hk : 0 <= k) by (unfold k, e'; lia).
  assert (Hm' : m' = Z.pos ma * 2 ^ k).
  { unfold m'. destruct k as [|p|p]; [lia| |lia]. by rewrite Z.shiftl_mul_pow2 by lia. }
  apply round_aux_mag; [nia|lia|lia|lia|].
  (* q * mb <= ma * 2^k, and mb * 2^eb >= 1 *)
  assert (Hq : Z.pos mb * q <= Z.pos ma * 2 ^ k) by lia.
  destruct (Z.le_gt_cases eb 0) as [Hle|Hgt].
  - specialize (Hb2 Hle). assert (Hpow : 0 < 2 ^ (- eb)) by (apply Z.pow_pos_nonneg; lia).
    assert (H1 : 2 ^ (- eb) * q < 2 ^ (- eb) * 2 ^ (K - e')).
    { rewrite <-Z.pow_add_r by lia. assert (0 <= q) by nia. apply (Z.le_lt_trans _ (Z.pos mb * q)); [nia|].
      apply (Z.le_lt_trans _ _ _ Hq). replace (- eb + (K - e')) with ((K - ea) + k) by (unfold k; lia).
      rewrite Z.pow_add_r by lia. apply Zmult_lt_compat_r; [apply Z.pow_pos_nonneg; lia|done]. }
    nia.
  - assert (H1 : q <= Z.pos ma * 2 ^ k) by nia. apply (Z.le_lt_trans _ _ _ H1).
    apply (Z.lt_le_trans _ (2 ^ (K - ea) * 2 ^ k)); [apply Zmult_lt_compat_r; [apply Z.pow_pos_nonneg; lia|done]|].
    rewrite <-Z.pow_add_r by lia. apply Z.pow_le_mono_r; [lia|]. unfold k. lia.
Qed.

Lemma clamp_mag K a lo hi : mag K a -> mag K lo -> mag K hi -> mag K (clamp a lo hi).
Proof. intros. unfold clamp. destruct (ltb a lo); destruct (ltb hi _); done. Qed.

Lemma min_mag K a b : mag K a -> mag K b -> mag K (F64.min a b).
Proof. intros. unfold F64.min. by repeat case_match. Qed.

(** ** Precision: a rounded result has at most 53 digits *)

Definition p53 (a : f64) : Prop := match a with S754_finite _ m e => Z.pos m < 2 ^ 53 | _ => True end.

Lemma shr_fexp_p53 m e l : 0 <= m -> 0 <= shr_m (shr_fexp prec emax m e l).1 < 2 ^ 53.
Proof.
  intros Hm. unfold shr_fexp, shr. assert (Hr : shr_m (shr_record_of_loc m l) = m) by (by destruct l as [|[]]).
  assert (Hd : m < 2 ^ Zdigits2 m /\ 0 <= Zdigits2 m).
  { destruct m as [|p|p]; cbn [Zdigits2]; [lia| |lia]. split; [apply digits2_pos_spec|lia]. }
  assert (Hf : fexp prec emax (Zdigits2 m + e) = Z.max (Zdigits2 m + e - 53) emin) by done. rewrite Hf.
  destruct (Z.max (Zdigits2 m + e - 53) emin - e) as [|n|n] eqn:Hn; cbn [fst snd]; rewrite ?Hr.
  1,3: split; [done|]; apply (Z.lt_le_trans _ _ _ (proj1 Hd)), Z.pow_le_mono_r; lia.
  rewrite iter_shr_div, Hr by (rewrite Hr; lia). split; [apply Z.div_pos; lia|].
  apply Z.div_lt_upper_bound; [lia|]. rewrite <-Z.pow_add_r by lia.
  apply (Z.lt_le_trans _ _ _ (proj1 Hd)), Z.pow_le_mono_r; lia.
Qed.

Lemma round_aux_p53 s m e l : 0 <= m -> p53 (binary_round_aux prec emax s m e l).
Proof.
  intros Hm. unfold binary_round_aux. pose proof (shr_fexp_p53 m e l Hm) as [A _].
  destruct (shr_fexp prec emax m e l) as [r1 e1]. cbn [fst] in A.
  pose proof (round_nearest_even_nonneg _ (loc_of_shr_record r1) A) as B. set (m2 := round_nearest_even _ _) in *.
  pose proof (shr_fexp_p53 m2 e1 loc_Exact B) as [C D]. destruct (shr_fexp prec emax m2 e1 loc_Exact) as [r2 e2]. cbn [fst] in *.
  destruct (shr_m r2); [done| |lia]. by destruct (e2 <=? emax - prec).
Qed.

Lemma normalize_p53 m e z : p53 (binary_normalize prec emax m e z).
Proof.
  assert (Hr : forall s p, p53 (binary_round prec emax s p e)).
  { intros s p. unfold binary_round. destruct (shl_align _ _ _) as [q e']. apply round_aux_p53. lia. }
  destruct m as [|p|p]; cbn [binary_normalize]; [done|apply Hr|apply Hr].
Qed.

Lemma add_p53 a b : p53 a -> p53 b -> p53 (add a b).
Proof.
  intros Ha Hb. destruct a as [[]|[]| |], b as [[]|[]| |]; try done. apply normalize_p53.
Qed.

Lemma clamp_p53 a lo hi : p53 a -> p53 lo -> p53 hi -> p53 (clamp a lo hi).
Proof. intros. unfold clamp. destruct (ltb a lo); destruct (ltb hi _); done. Qed.

Lemma mul_p53 a b : p53 (mul a b).
Proof. destruct a as [| | |], b as [| | |]; try done. apply round_aux_p53. lia. Qed.

Lemma div_quotient m mb e : 0 <= m -> 0 <= (Z.div_eucl (match e with Z0 => m | Zpos _ => Z.shiftl m e | Zneg _ => 0 end) (Z.pos mb)).1.
Proof.
  intros Hm. set (m' := match e with Z0 => _ | Zpos _ => _ | Zneg _ => _ end).
  assert (0 <= m') by (unfold m'; destruct e; [done|by apply Z.shiftl_nonneg|done]).
  pose proof (Z_div_mod m' (Z.pos mb) ltac:(lia)) as Hd. destruct (Z.div_eucl m' (Z.pos mb)) as [q r]. cbn. nia.
Qed.

Lemma div_p53 a b : p53 (div a b).
Proof.
  destruct a as [| | |sa ma ea], b as [| | |sb mb eb]; try done. unfold div, SFdiv, SFdiv_core_binary. cbv zeta.
  set (e' := Z.min _ _). pose proof (div_quotient (Z.pos ma) mb (ea - eb - e') ltac:(lia)) as Hq.
  destruct (Z.div_eucl _ _) as [q r]. by apply round_aux_p53.
Qed.

(** ** Sign: sums, products and quotients of numbers that are not negative *)

Definition nonneg (a : f64) : Prop := match a with S754_infinity true | S754_finite true _ _ => False | _ => True end.

Lemma round_aux_nonneg m e l : nonneg (binary_round_aux prec emax false m e l).
Proof.
  unfold binary_round_aux. destruct (shr_fexp prec emax m e l) as [r1 e1]. destruct (shr_fexp _ _ _ _ loc_Exact) as [r2 e2].
  destruct (shr_m r2); [done| |done]. by destruct (e2 <=? emax - prec).
Qed.

Lemma normalize_nonneg m e : 0 <= m -> nonneg (binary_normalize prec emax m e false).
Proof.
  destruct m as [|p|p]; cbn [binary_normalize]; [done| |done]. intros _. unfold binary_round.
  destruct (shl_align _ _ _) as [q e']. apply round_aux_nonneg.
Qed.

Lemma mul_nonneg a b : nonneg a -> nonneg b -> nonneg (mul a b).
Proof. destruct a as [|[]| |[]], b as [|[]| |[]]; try done. intros _ _. apply round_aux_nonneg. Qed.

Lemma div_nonneg a b : nonneg a -> nonneg b -> is_finite b = true -> (forall s, b <> S754_zero s) -> nonneg (div a b).
Proof.
  intros Ha Hb Hf Hs. destruct b as [s| | |[]]; try done; [by destruct (Hs s)|]. destruct a as [|[]| |[]]; try done. unfold div, SFdiv. destruct (SFdiv_core_binary _ _ _ _ _ _) as [[q e'] l]. apply round_aux_nonneg.
Qed.

Lemma add_nonneg a b : nonneg a -> nonneg b -> nonneg (add a b).
Proof.
  destruct a as [[]|[]| |[] ma ea], b as [[]|[]| |[] mb eb]; try done. intros _ _.
  unfold add, SFadd. cbv zeta. apply normalize_nonneg. cbn [cond_Zopp]. lia.
Qed.

Lemma as_secs_nonneg d : 0 <= d -> nonneg (as_secs_f64 d) /\ p53 (as_secs_f64 d).
Proof.
  intros Hd. assert (Hn : of_Z ns_per_sec = S754_finite false 8388608000000000 (-23)) by (vm_compute; reflexivity).
  split; [apply add_nonneg|apply add_p53; [apply normalize_p53|apply div_p53]].
  - apply normalize_nonneg, Z.div_pos; [done|]. by unfold ns_per_sec.
  - rewrite Hn. apply div_nonneg; [|done..]. apply normalize_nonneg, Z.mod_pos_bound. by unfold ns_per_sec.
Qed.

(** A number of the format that is not above [2 ^ 63]. *)
Lemma le_2_63 a m e : F64.leb a (of_Z (2 ^ 63)) = true -> a = S754_finite false m e -> e <= 11.
Proof.
  assert (H63 : of_Z (2 ^ 63) = S754_finite false 4503599627370496 11) by (vm_compute; reflexivity).
  rewrite H63. intros H ->. unfold leb, SFleb, SFcompare in H. destruct (Z.compare_spec e 11) as [?|?|?]; [lia|lia|done].
Qed.

Lemma leb_le a b : is_nan a = false -> is_nan b = false -> leb a b = true <-> le a b.
Proof.
  intros Ha Hb. unfold leb, SFleb, le, cmp, partial_cmp. destruct (SFcompare a b) as [[]|] eqn:Hc; cbn; try done.
  exfalso. destruct a as [[]|[]| |[]], b as [[]|[]| |[]]; cbn in Hc; try done; repeat case_match; done.
Qed.

Lemma leb_trans a b c : leb a b = true -> leb b c = true -> leb a c = true.
Proof.
  intros H1 H2. assert (Hn : is_nan a = false /\ is_nan b = false /\ is_nan c = false).
  { destruct a as [[]|[]| |[]], b as [[]|[]| |[]], c as [[]|[]| |[]]; done. }
  destruct Hn as (Ha & Hb & Hc). apply leb_le; [done|done|]. apply (le_trans a b c); [done|done|done|by apply leb_le..].
Qed.

(** The smaller of a number and a bound. *)
Lemma min_bound a b hi : nonneg a -> p53 a -> nonneg b -> p53 b -> leb b hi = true ->
  nonneg (F64.min a b) /\ p53 (F64.min a b) /\ leb (F64.min a b) hi = true.
Proof.
  intros Ha Hpa Hb Hpb Hle. unfold F64.min. destruct (is_nan a) eqn:Hna; [done|].
  assert (Hnb : is_nan b = false) by (by destruct b). rewrite Hnb. destruct (ltb b a) eqn:Hlt; [done|]. split_and!; [done|done|].
  apply (leb_trans a b hi); [|done]. apply leb_le; [done|done|]. rewrite ltb_cmp in Hlt by done. unfold le.
  rewrite (cmp_antisym a b) by done. by destruct (cmp b a).
Qed.

(** A number of the format between zero and [mh * 2 ^ eh] has a magnitude. *)
Lemma between_mag K a mh eh : mag K a -> p53 a -> between (of_Z 0) (S754_finite false mh eh) a -> mag (eh + 53) a.
Proof.
  intros Ha Hp (_ & Hlo & Hle). destruct a as [s| | |s m e]; try done. cbn in Ha, Hp.
  destruct Ha as [Hemin _]. unfold le in Hlo, Hle. destruct s; [by cbn in Hlo|]. cbn in Hle.
  assert (He : e <= eh).
  { destruct (Z.compare_spec e eh) as [|Hlt|Hgt]; [lia|lia|]. contradict Hle. unfold cmp.
    done. }
  cbn. split; [lia|]. apply (Z.lt_le_trans _ _ _ Hp), Z.pow_le_mono_r; lia.
Qed.

Lemma of_Z_100 : of_Z 100 = S754_finite false 7036874417766400 (-46).
Proof. vm_compute. reflexivity. Qed.

(** Clamping to percentages: whatever number of the format goes in. *)
Lemma clamp_percent K a : 7 <= K -> mag K a -> p53 a ->
  between (of_Z 0) (of_Z 100) (clamp a (of_Z 0) (of_Z 100)) /\ mag 7 (clamp a (of_Z 0) (of_Z 100)).
Proof.
  intros HK Ha Hp.
  assert (Hb : between (of_Z 0) (of_Z 100) (clamp a (of_Z 0) (of_Z 100))).
  { apply clamp_between; [done|done|by apply finite_not_nan, (mag_finite K)|by vm_compute]. }
  split; [done|]. change 7 with (-46 + 53). rewrite of_Z_100 in *. eapply (between_mag K); [|by apply clamp_p53|done].
  apply clamp_mag; [done|done|]. apply (mag_mono 7); [done|]. vm_compute. split; [split; discriminate|reflexivity].
Qed.

End Mag.
