(* ===== verification/Drift.v ===== *)
(** * Drift protocol: errors and version (core/src/drift/mod.rs) *)

From S2P Require Import Prelude.

(** [DriftError]; the payloads of the string variants are kept, since callers
    turn them into messages. *)
Inductive DriftError : Type :=
| BufferTooShort (need got : Z)
| InvalidEnvelopeType (b : Z)
| CiphertextTooLarge (n : Z)
| InvalidVersion (v : Z)
| CrcMismatch
| DecompressionFailed (msg : string)
| InvalidFrameType (b : Z)
| Timeout
| IoError (msg : string).

#[export] Instance DriftError_eq_dec : EqDecision DriftError.
Proof. solve_decision. Defined.

Definition DRIFT_VERSION : Z := 1.

(** ** BLAKE3 (crate [blake3]), a parameter of every component that hashes *)

Class Blake3 : Type := blake3_hash : list Z -> list Z.

Class Blake3Spec (B : Blake3) : Prop := {
  blake3_hash_32 : forall d, byte_array 32 (blake3_hash d)
}.

(** A 16-byte message id ([MessageId] of core/src/drift/store.rs). *)
Abbreviation MessageId := (list Z).

(** A hash function for witnesses: the input as a little-endian number. *)
Definition sample_blake3 : Blake3 := fun d => le_bytes 32 (from_le_bytes d).

Lemma sample_blake3_spec : Blake3Spec sample_blake3.
Proof. split. intros d. split; [apply len_le_bytes|apply bytes_le_bytes]. Qed.

(** A message id with the given low bytes. *)
Definition sample_id (z : Z) : MessageId := le_bytes 16 z.

Lemma sample_id_ok z : byte_array 16 (sample_id z).
Proof. split; [apply len_le_bytes|apply bytes_le_bytes]. Qed.
