(* ===== verification/Frame.v ===== *)
(** * Drift frames (core/src/drift/frame.rs)

    The transport framing: a little-endian length, a type byte, the payload
    and a CRC32.  The CRC is the one of the crate [crc32fast], a parameter
    here; the theorems only use that it is a 32-bit number. *)

From S2P Require Import Prelude Drift.

Definition FRAME_READ_TIMEOUT : Z := 5000.
Definition FRAME_MAX_PAYLOAD : Z := 65535.

Inductive FrameType : Type :=
| Data
| SyncReq
| SyncResp
| Ping
| PeerInfo.

#[export] Instance FrameType_eq_dec : EqDecision FrameType.
Proof. solve_decision. Defined.

Module FrameTypeImpl.

Definition from_u8 (value : Z) : outcome DriftError FrameType :=
  match value with
  | 1 => Ok Data
  | 2 => Ok SyncReq
  | 3 => Ok SyncResp
  | 4 => Ok Ping
  | 5 => Ok PeerInfo
  | other => Err (InvalidFrameType other)
  end.

Definition as_u8 (t : FrameType) : Z :=
  match t with
  | Data => 1
  | SyncReq => 2
  | SyncResp => 3
  | Ping => 4
  | PeerInfo => 5
  end.

End FrameTypeImpl.

Module DriftFrame.

Record t : Type := mk { frame_type : FrameType; payload : list Z }.

#[export] Instance t_eq_dec : EqDecision t.
Proof. solve_decision. Defined.

Definition TRANSPORT_OVERHEAD : Z := 7.

(** A byte stream as the reader sees it: each byte with the time (in ms after
    the read began) it becomes available, and what happens after the last one:
    the peer closes the stream at a given time, or stays silent for ever. *)
Record stream : Type := mk_stream { arrivals : list (Z * Z); closed_at : option Z }.

(** The time at which the first [n] bytes are all there. *)
Definition arrival_time (s : stream) (n : Z) : Z :=
  fold_right Z.max 0 (map fst (take (Z.to_nat n) (arrivals s))).

(** What an exact read of [n] bytes does: the bytes with the time it is
    done, an unexpected end of the stream, or no completion. *)
Inductive read_result : Type :=
| ReadDone (at_ms : Z) (buf : list Z) (rest : stream)
| ReadEof (at_ms : Z)
| ReadPending.

Definition read_exact (s : stream) (n : Z) : read_result :=
  if n <=? len (arrivals s)
  then ReadDone (arrival_time s n) (map snd (take (Z.to_nat n) (arrivals s)))
         (mk_stream (drop (Z.to_nat n) (arrivals s)) (closed_at s))
  else match closed_at s with
       | Some at_ms => ReadEof (Z.max at_ms (arrival_time s (len (arrivals s))))
       | None => ReadPending
       end.

(** [tokio::time::timeout]: a result that is ready after the deadline is lost. *)
Definition timeout {A} (deadline at_ms : Z) (r : outcome DriftError A) : outcome DriftError A :=
  if at_ms <=? deadline then r else Err Timeout.

Section WithCrc.
Context (crc32 : list Z -> Z).

Definition to_bytes (self : t) : outcome DriftError (list Z) :=
  let payload_len := 1 + len (payload self) in
  if payload_len >? 65535
  then Err (BufferTooShort payload_len 65535)
  else
    let length := wrap 16 payload_len in
    let buf := u16_to_le_bytes length in
    let buf := buf ++ [FrameTypeImpl.as_u8 (frame_type self)] in
    let buf := buf ++ payload self in
    let crc := crc32 buf in
    Ok (buf ++ u32_to_le_bytes crc).

Definition from_bytes (data : list Z) : outcome DriftError t :=
  if len data <? TRANSPORT_OVERHEAD
  then Err (BufferTooShort TRANSPORT_OVERHEAD (len data))
  else
  let! b0 := index data 0 in
  let! b1 := index data 1 in
  let length := from_le_bytes [b0; b1] in
  if length >? FRAME_MAX_PAYLOAD + 1
  then Err (BufferTooShort FRAME_MAX_PAYLOAD length)
  else
  let expected_total := 2 + length + 4 in
  if negb (len data =? expected_total)
  then Err (BufferTooShort expected_total (len data))
  else
  let crc_offset := len data - 4 in
  let! data_to_check := slice data 0 crc_offset in
  let! c0 := index data crc_offset in
  let! c1 := index data (crc_offset + 1) in
  let! c2 := index data (crc_offset + 2) in
  let! c3 := index data (crc_offset + 3) in
  let received_crc := from_le_bytes [c0; c1; c2; c3] in
  let computed_crc := crc32 data_to_check in
  if negb (computed_crc =? received_crc)
  then Err CrcMismatch
  else
  let! b2 := index data 2 in
  let! frame_type := FrameTypeImpl.from_u8 b2 in
  let! payload := slice data 3 crc_offset in
  Ok (mk frame_type payload).

(** The two exact reads and the parse, under one deadline. *)
Definition read_with_timeout (reader : stream) : outcome DriftError t :=
  match read_exact reader 2 with
  | ReadPending => Err Timeout
  | ReadEof at_ms => timeout FRAME_READ_TIMEOUT at_ms (Err (IoError "early eof"))
  | ReadDone at1 len_buf reader =>
      let length := from_le_bytes len_buf in
      if length >? FRAME_MAX_PAYLOAD + 1
      then timeout FRAME_READ_TIMEOUT at1 (Err (BufferTooShort FRAME_MAX_PAYLOAD length))
      else
      let remaining := length + 4 in
      match read_exact reader remaining with
      | ReadPending => Err Timeout
      | ReadEof at2 => timeout FRAME_READ_TIMEOUT (Z.max at1 at2) (Err (IoError "early eof"))
      | ReadDone at2 rest _ =>
          timeout FRAME_READ_TIMEOUT (Z.max at1 at2) (from_bytes (len_buf ++ rest))
      end
  end.

End WithCrc.

(** A frame whose payload is made of bytes. *)
Definition wf (f : t) : Prop := bytes (payload f).

End DriftFrame.

(** ** Lemmas *)

Section FrameLemmas.
Context (crc32 : list Z -> Z) (crc32_u32 : forall l, u32 (crc32 l)).
Implicit Types (f : DriftFrame.t) (data : list Z).

Lemma from_as_u8 ty : FrameTypeImpl.from_u8 (FrameTypeImpl.as_u8 ty) = Ok ty.
Proof. destruct ty; reflexivity. Qed.

Lemma from_u8_Ok b ty : FrameTypeImpl.from_u8 b = Ok ty -> FrameTypeImpl.as_u8 ty = b.
Proof.
  unfold FrameTypeImpl.from_u8. intros H.
  repeat case_hyp H; inv H; reflexivity.
Qed.

Lemma frame_from_u8_not_Panic b : FrameTypeImpl.from_u8 b <> Panic.
Proof. unfold FrameTypeImpl.from_u8. repeat case_goal; discriminate. Qed.

(** A buffer of at least seven bytes is three header bytes, a payload and four
    CRC bytes. *)
Lemma frame_shape data : 7 <= len data ->
  exists b0 b1 b2 p c0 c1 c2 c3, data = b0 :: b1 :: b2 :: p ++ [c0; c1; c2; c3].
Proof.
  intros H. destruct data as [|b0 [|b1 [|b2 rest]]]; autorewrite with rust_simp in H; try lia.
  assert (Htail : len (drop (length rest - 4) rest) = 4).
  { unfold len in *. rewrite length_drop. lia. }
  destruct (drop (length rest - 4) rest) as [|c0 [|c1 [|c2 [|c3 [|? ?]]]]] eqn:E;
    autorewrite with rust_simp in Htail; try (pose proof (len_nonneg l); lia); try lia.
  exists b0, b1, b2, (take (length rest - 4) rest), c0, c1, c2, c3.
  rewrite <-E, take_drop. done.
Qed.

(** What the parser does on such a buffer: the length, CRC and type checks, in
    this order; no read is out of range and the size guard never fires. *)
Lemma frame_from_bytes_shape b0 b1 b2 p c0 c1 c2 c3 : u8 b0 -> u8 b1 ->
  DriftFrame.from_bytes crc32 (b0 :: b1 :: b2 :: p ++ [c0; c1; c2; c3]) =
  if negb (len p + 1 =? from_le_bytes [b0; b1])
  then Err (BufferTooShort (2 + from_le_bytes [b0; b1] + 4) (len p + 7))
  else if negb (crc32 (b0 :: b1 :: b2 :: p) =? from_le_bytes [c0; c1; c2; c3])
  then Err CrcMismatch
  else let! ty := FrameTypeImpl.from_u8 b2 in Ok (DriftFrame.mk ty p).
Proof.
  intros Hb0 Hb1. pose proof (len_nonneg p) as Hp.
  assert (Hl : from_le_bytes [b0; b1] < 65536).
  { unfold fits in *. cbv [from_le_bytes]. lia. }
  assert (Hlen : len (b0 :: b1 :: b2 :: p ++ [c0; c1; c2; c3]) = len p + 7) by len_lia.
  unfold DriftFrame.from_bytes. rewrite Hlen. unfold DriftFrame.TRANSPORT_OVERHEAD.
  unfold FRAME_MAX_PAYLOAD. zbool. rewrite index_head, index_cons_S by lia.
  replace (1 - 1) with 0 by lia. rewrite index_head. cbv zeta.
  rewrite Z.gtb_ltb. rewrite (proj2 (Z.ltb_ge (65535 + 1) _)) by lia.
  replace (len p + 7 =? 2 + from_le_bytes [b0; b1] + 4) with (len p + 1 =? from_le_bytes [b0; b1])
    by (apply Bool.eq_iff_eq_true; rewrite !Z.eqb_eq; lia).
  destruct (len p + 1 =? from_le_bytes [b0; b1]); [|done]. cbn [negb].
  set (data := b0 :: b1 :: b2 :: p ++ _) in *.
  assert (Hd : data = (b0 :: b1 :: b2 :: p) ++ [c0; c1; c2; c3]) by done.
  rewrite Hd at 1. rewrite slice_app_l by len_lia.
  rewrite Hd. rewrite !index_app_r by len_lia. autorewrite with rust_simp.
  replace (len p + 7 - 4 - (1 + (1 + (1 + len p)))) with 0 by lia.
  replace (len p + 7 - 4 + 1 - (1 + (1 + (1 + len p)))) with 1 by lia.
  replace (len p + 7 - 4 + 2 - (1 + (1 + (1 + len p)))) with 2 by lia.
  replace (len p + 7 - 4 + 3 - (1 + (1 + (1 + len p)))) with 3 by lia.
  change (index [c0; c1; c2; c3] 0) with (@Ok DriftError Z c0).
  change (index [c0; c1; c2; c3] 1) with (@Ok DriftError Z c1).
  change (index [c0; c1; c2; c3] 2) with (@Ok DriftError Z c2).
  change (index [c0; c1; c2; c3] 3) with (@Ok DriftError Z c3).
  cbv iota beta. case_match; [done|].
  change (index ((b0 :: b1 :: b2 :: p) ++ [c0; c1; c2; c3]) 2) with (@Ok DriftError Z b2).
  cbv iota beta. destruct (FrameTypeImpl.from_u8 b2) as [ty| |]; try done.
  change ((b0 :: b1 :: b2 :: p) ++ [c0; c1; c2; c3]) with ([b0; b1; b2] ++ p ++ [c0; c1; c2; c3]).
  rewrite slice_app_r by len_lia. autorewrite with rust_simp.
  replace (3 - (1 + (1 + (1 + 0)))) with 0 by lia.
  rewrite slice_app_l by lia. done.
Qed.

Lemma frame_to_bytes_layout f : len (DriftFrame.payload f) <= 65534 ->
  DriftFrame.to_bytes crc32 f =
  let body := u16_to_le_bytes (1 + len (DriftFrame.payload f))
              ++ [FrameTypeImpl.as_u8 (DriftFrame.frame_type f)] ++ DriftFrame.payload f in
  Ok (body ++ u32_to_le_bytes (crc32 body)).
Proof.
  intros Hl. pose proof (len_nonneg (DriftFrame.payload f)). unfold DriftFrame.to_bytes.
  zbool. rewrite wrap_small by (unfold fits; lia). rewrite <-app_assoc. done.
Qed.

Lemma u16_bytes_eta z : exists b0 b1, u16_to_le_bytes z = [b0; b1] /\ u8 b0 /\ u8 b1.
Proof.
  exists (z mod 256), (z / 256 mod 256). split_and!; [done| |]; unfold fits;
  apply Z.mod_pos_bound; lia.
Qed.

Lemma u32_bytes_eta z : exists b0 b1 b2 b3, u32_to_le_bytes z = [b0; b1; b2; b3].
Proof. repeat eexists. Qed.
End FrameLemmas.

Lemma fold_max_app l1 l2 :
  fold_right Z.max 0 (l1 ++ l2) = Z.max (fold_right Z.max 0 l1) (fold_right Z.max 0 l2).
Proof.
  induction l1 as [|x l1 IH]; simpl; [|rewrite IH; lia].
  assert (0 <= fold_right Z.max 0 l2) by (induction l2; simpl; lia). lia.
Qed.

(** Two consecutive exact reads are one read of the sum. *)
Lemma arrival_time_split s n m : 0 <= n -> 0 <= m ->
  DriftFrame.arrival_time s (n + m) =
  Z.max (DriftFrame.arrival_time s n)
    (DriftFrame.arrival_time
       (DriftFrame.mk_stream (drop (Z.to_nat n) (DriftFrame.arrivals s)) (DriftFrame.closed_at s)) m).
Proof.
  intros Hn Hm. unfold DriftFrame.arrival_time. simpl.
  replace (Z.to_nat (n + m)) with (Z.to_nat n + Z.to_nat m)%nat by lia.
  rewrite <-take_take_drop, map_app, fold_max_app. done.
Qed.

Lemma read_exact_done s n : 0 <= n <= len (DriftFrame.arrivals s) ->
  DriftFrame.read_exact s n =
  DriftFrame.ReadDone (DriftFrame.arrival_time s n)
    (map snd (take (Z.to_nat n) (DriftFrame.arrivals s)))
    (DriftFrame.mk_stream (drop (Z.to_nat n) (DriftFrame.arrivals s)) (DriftFrame.closed_at s)).
Proof. intros H. unfold DriftFrame.read_exact. zbool. done. Qed.

(** ** Theorems *)

Section FrameTheorems.
Context (crc32 : list Z -> Z) (crc32_u32 : forall l, u32 (crc32 l)).

(** C15. A frame with at most 65534 payload bytes serializes, and parsing the
    result gives the frame back. *)
Theorem frame_roundtrip (f : DriftFrame.t) :
  DriftFrame.wf f -> len (DriftFrame.payload f) <= 65534 ->
  exists data, DriftFrame.to_bytes crc32 f = Ok data /\
    len data = len (DriftFrame.payload f) + DriftFrame.TRANSPORT_OVERHEAD /\
    DriftFrame.from_bytes crc32 data = Ok f.
Proof using crc32_u32.
  intros Hwf Hlen. rewrite frame_to_bytes_layout by done. eexists. split; [done|].
  destruct f as [ty p]; cbn [DriftFrame.payload DriftFrame.frame_type app] in *. pose proof (len_nonneg p).
  destruct (u16_bytes_eta (1 + len p)) as (b0 & b1 & Hb & Hb0 & Hb1).
  destruct (u32_bytes_eta (crc32 (u16_to_le_bytes (1 + len p) ++ FrameTypeImpl.as_u8 ty :: p)))
    as (c0 & c1 & c2 & c3 & Hc).
  split; [unfold DriftFrame.TRANSPORT_OVERHEAD; len_lia|].
  rewrite Hc, Hb. simpl app. rewrite frame_from_bytes_shape by done.
  rewrite <-Hb, <-Hc, from_le_u16, from_le_u32 by (apply crc32_u32 || (unfold fits; lia)).
  rewrite Hb. simpl app. rewrite Z.eqb_refl, from_as_u8. zbool. done.
Qed.

(** A buffer that is parsed as [f] is the serialization of [f]. *)
Lemma frame_unique_encoding (data : list Z) (f : DriftFrame.t) :
  bytes data -> DriftFrame.from_bytes crc32 data = Ok f ->
  DriftFrame.to_bytes crc32 f = Ok data.
Proof using Type.
  intros Hd H. destruct (decide (7 <= len data)) as [H7|H7].
  2: { unfold DriftFrame.from_bytes, DriftFrame.TRANSPORT_OVERHEAD in H.
       rewrite (proj2 (Z.ltb_lt _ _)) in H by lia. done. }
  destruct (frame_shape data H7) as (b0 & b1 & b2 & p & c0 & c1 & c2 & c3 & ->).
  change (b0 :: b1 :: b2 :: p ++ [c0; c1; c2; c3])
    with (([b0; b1] ++ [b2] ++ p) ++ [c0; c1; c2; c3]) in *.
  apply bytes_app in Hd as [Hd Hc]. apply bytes_app in Hd as [Hb Hp].
  assert (Hb' := from_le_bytes_range _ Hb). unfold fits, len in Hb'.
  pose proof (le_from_le_bytes _ Hb) as Ec. pose proof (le_from_le_bytes _ Hc) as Ed.
  inversion Hb as [|? ? Hb0 Hb1]; subst. inversion Hb1; subst. simpl app in H.
  rewrite frame_from_bytes_shape in H by done.
  destruct (len p + 1 =? from_le_bytes [b0; b1]) eqn:El; [|done].
  destruct (crc32 _ =? _) eqn:Er; [|done].
  cbn [negb] in H. bool_to_prop.
  destruct (FrameTypeImpl.from_u8 b2) as [ty| |] eqn:Ety; [|done|done].
  inv H. apply from_u8_Ok in Ety as <-. rewrite frame_to_bytes_layout by (simpl in *; lia).
  cbn [DriftFrame.payload DriftFrame.frame_type]. unfold u16_to_le_bytes, u32_to_le_bytes.
  rewrite (Z.add_comm 1), El. simpl length in *. rewrite Ec. simpl app. rewrite Er, Ed. done.
Qed.

(** No input makes the frame parser panic: every index is in range. *)
Lemma frame_from_bytes_no_panic (data : list Z) :
  bytes data -> DriftFrame.from_bytes crc32 data <> Panic.
Proof using Type.
  intros Hd. destruct (decide (7 <= len data)) as [H7|H7].
  - destruct (frame_shape data H7) as (b0 & b1 & b2 & p & c0 & c1 & c2 & c3 & ->).
    inversion Hd as [|? ? Hb0 Hd1]; subst. inversion Hd1; subst.
    rewrite frame_from_bytes_shape by done. repeat case_match; try done.
    apply frame_from_u8_not_Panic in H3. done.
  - unfold DriftFrame.from_bytes, DriftFrame.TRANSPORT_OVERHEAD. zbool. done.
Qed.

(** C16. The parser is total and accepts only what the serializer writes: no
    buffer makes it panic, and a buffer that is parsed as [f] is the
    serialization of [f], so no frame has two encodings. *)
Theorem frame_canonical (data : list Z) :
  bytes data ->
  DriftFrame.from_bytes crc32 data <> Panic /\
  forall f, DriftFrame.from_bytes crc32 data = Ok f -> DriftFrame.to_bytes crc32 f = Ok data.
Proof using Type.
  intros Hd. split; [by apply frame_from_bytes_no_panic|]. intros f. by apply frame_unique_encoding.
Qed.

(** Slow-loris protection: a frame that is read was complete within the
    deadline, used a bounded prefix of the stream, and is the parse of it. *)
Theorem frame_read_within_deadline (s : DriftFrame.stream) (f : DriftFrame.t) :
  bytes (map snd (DriftFrame.arrivals s)) ->
  DriftFrame.read_with_timeout crc32 s = Ok f ->
  exists n, n <= 65541 /\ n <= len (DriftFrame.arrivals s) /\
    DriftFrame.arrival_time s n <= FRAME_READ_TIMEOUT /\
    DriftFrame.from_bytes crc32 (map snd (take (Z.to_nat n) (DriftFrame.arrivals s))) = Ok f.
Proof using Type.
  intros Hb H. unfold DriftFrame.read_with_timeout, DriftFrame.timeout in H.
  destruct (decide (2 <= len (DriftFrame.arrivals s))) as [H2|H2].
  2: { unfold DriftFrame.read_exact in H. rewrite (proj2 (Z.leb_gt _ _)) in H by lia.
       repeat case_hyp H; done. }
  rewrite read_exact_done in H by lia. cbv zeta in H.
  set (l := from_le_bytes _) in H.
  assert (Hl : 0 <= l < 65536).
  { assert (Hr : bytes (map snd (take (Z.to_nat 2) (DriftFrame.arrivals s)))).
    { rewrite <-firstn_map. apply Forall_take. done. }
    apply from_le_bytes_range in Hr. rewrite len_map, len_take in Hr by lia.
    rewrite Z.min_l in Hr by lia. exact Hr. }
  rewrite Z.gtb_ltb in H. rewrite (proj2 (Z.ltb_ge (FRAME_MAX_PAYLOAD + 1) l)) in H
    by (unfold FRAME_MAX_PAYLOAD; lia).
  set (s' := DriftFrame.mk_stream _ _) in H.
  destruct (decide (l + 4 <= len (DriftFrame.arrivals s'))) as [H3|H3].
  2: { unfold DriftFrame.read_exact in H. rewrite (proj2 (Z.leb_gt _ _)) in H by lia.
       repeat case_hyp H; done. }
  rewrite read_exact_done in H by lia. case_hyp H; [|done]. bool_to_prop.
  subst s'. simpl in H3. rewrite len_drop in H3 by lia.
  exists (2 + (l + 4)). split_and!; [lia|lia| |].
  - rewrite arrival_time_split by lia. done.
  - rewrite <-H, <-map_app. replace (Z.to_nat (2 + (l + 4))) with (Z.to_nat 2 + Z.to_nat (l + 4))%nat by lia.
    rewrite <-take_take_drop. done.
Qed.
End FrameTheorems.

(** ** Witnesses

    A table-free CRC-32 (reflected polynomial EDB88320) as the instance of the
    parameter, and the frame of the unit tests. *)

Fixpoint crc_bits (n : nat) (c : Z) : Z :=
  match n with
  | O => c
  | S n => crc_bits n (if Z.odd c then Z.lxor (Z.shiftr c 1) 3988292384 else Z.shiftr c 1)
  end.

Definition sample_crc32 (l : list Z) : Z :=
  Z.lxor (fold_left (fun c b => crc_bits 8 (Z.lxor c b)) l 4294967295) 4294967295 mod 2 ^ 32.

Lemma sample_crc32_u32 l : u32 (sample_crc32 l).
Proof. apply fits_wrap. lia. Qed.

(** The check value of CRC-32: the digest of the ASCII string 123456789. *)
Example sample_crc32_check :
  sample_crc32 [49; 50; 51; 52; 53; 54; 55; 56; 57] = 3421780262.
Proof. reflexivity. Qed.

Definition sample_frame : DriftFrame.t := DriftFrame.mk Ping [1; 2; 255].

Definition sample_frame_bytes : list Z := [4; 0; 4; 1; 2; 255; 218; 147; 199; 187].

Definition sample_stream : DriftFrame.stream :=
  DriftFrame.mk_stream (zip [0; 10; 20; 20; 20; 400; 500; 500; 500; 4999] sample_frame_bytes) None.

Lemma frame_roundtrip_witness :
  exists data, DriftFrame.to_bytes sample_crc32 sample_frame = Ok data /\
    len data = len (DriftFrame.payload sample_frame) + DriftFrame.TRANSPORT_OVERHEAD /\
    DriftFrame.from_bytes sample_crc32 data = Ok sample_frame.
Proof.
  apply (frame_roundtrip sample_crc32 sample_crc32_u32 sample_frame);
    [by_eval | vm_compute; discriminate].
Defined.

Lemma frame_canonical_witness :
  DriftFrame.from_bytes sample_crc32 [7; 0; 1; 2; 3] <> Panic /\
  DriftFrame.to_bytes sample_crc32 sample_frame = Ok sample_frame_bytes.
Proof.
  split; [apply (frame_canonical sample_crc32 [7; 0; 1; 2; 3]); by_eval|].
  apply (frame_canonical sample_crc32 sample_frame_bytes); [by_eval | vm_compute; reflexivity].
Defined.

Lemma frame_read_within_deadline_witness :
  exists n, n <= 65541 /\ n <= len (DriftFrame.arrivals sample_stream) /\
    DriftFrame.arrival_time sample_stream n <= FRAME_READ_TIMEOUT /\
    DriftFrame.from_bytes sample_crc32
      (map snd (take (Z.to_nat n) (DriftFrame.arrivals sample_stream))) = Ok sample_frame.
Proof.
  apply (frame_read_within_deadline sample_crc32 sample_stream sample_frame);
    [by_eval | vm_compute; reflexivity].
Defined.
