(* ===== verification/EnvelopeWire.v ===== *)
(** * Drift envelopes (core/src/drift/envelope.rs, core/src/drift/compress.rs)

    The fixed-width binary envelope: its serializer and parser, the routing
    metadata, the signature input and the conversion from and to the legacy
    envelope of core/src/message/types.rs.

    Parameters: LZ4 (crate [lz4_flex]), BLAKE3 (crate [blake3]), Ed25519
    signing (crate [ed25519_dalek]) and the UUID parser (crate [uuid]). *)

From S2P Require Import Prelude Drift.

Definition COMPRESSION_THRESHOLD : Z := 256.
Definition COMPRESSION_FLAG : Z := 128.

Inductive EnvelopeType : Type :=
| EncryptedMessage
| DeliveryReceipt
| SyncRequest
| SyncResponseType
| PeerAnnouncement
| RouteAdvertisement
| CoverTraffic
| OnionMessage.

#[export] Instance EnvelopeType_eq_dec : EqDecision EnvelopeType.
Proof. solve_decision. Defined.

Module EnvelopeTypeImpl.

Definition from_u8 (value : Z) : outcome DriftError EnvelopeType :=
  match value with
  | 1 => Ok EncryptedMessage
  | 2 => Ok DeliveryReceipt
  | 3 => Ok SyncRequest
  | 4 => Ok SyncResponseType
  | 5 => Ok PeerAnnouncement
  | 6 => Ok RouteAdvertisement
  | 7 => Ok CoverTraffic
  | 8 => Ok OnionMessage
  | other => Err (InvalidEnvelopeType other)
  end.

Definition as_u8 (t : EnvelopeType) : Z :=
  match t with
  | EncryptedMessage => 1
  | DeliveryReceipt => 2
  | SyncRequest => 3
  | SyncResponseType => 4
  | PeerAnnouncement => 5
  | RouteAdvertisement => 6
  | CoverTraffic => 7
  | OnionMessage => 8
  end.

End EnvelopeTypeImpl.

(** ** The legacy envelope of the message layer *)

Module LegacyEnvelope.

Record t : Type := mk {
  sender_public_key : list Z;
  ephemeral_public_key : list Z;
  nonce : list Z;
  ciphertext : list Z;
  ratchet_dh_public : option (list Z);
  ratchet_message_number : option Z
}.

End LegacyEnvelope.

(** ** The crates the envelope code calls *)

Class EnvelopeCrates : Type := {
  lz4_compress : list Z -> list Z;
  lz4_decompress : list Z -> list Z + string;
  envelope_blake3 :: Blake3;
  ed25519_sign : list Z -> list Z -> list Z;
  uuid_parse : string -> list Z + string
}.

(** Documented behaviour of the crates. *)
Class EnvelopeCratesSpec (C : EnvelopeCrates) : Prop := {
  lz4_roundtrip : forall d, bytes d -> lz4_decompress (lz4_compress d) = inl d;
  lz4_compress_bytes : forall d, bytes d -> bytes (lz4_compress d);
  lz4_decompress_bytes : forall d x, lz4_decompress d = inl x -> bytes x;
  envelope_blake3_spec :: Blake3Spec envelope_blake3;
  ed25519_sign_64 : forall k d, byte_array 64 (ed25519_sign k d);
  uuid_parse_16 : forall s x, uuid_parse s = inl x -> byte_array 16 x
}.

Definition compress `{EnvelopeCrates} (data : list Z) : list Z := lz4_compress data.

Definition decompress `{EnvelopeCrates} (data : list Z) : outcome DriftError (list Z) :=
  match lz4_decompress data with
  | inl d => Ok d
  | inr e => Err (DecompressionFailed e)
  end.

Module DriftEnvelope.

Record t : Type := mk {
  version : Z;
  envelope_type : EnvelopeType;
  compressed : bool;
  message_id : list Z;
  recipient_hint : list Z;
  created_at : Z;
  ttl_expiry : Z;
  hop_count : Z;
  priority : Z;
  sender_public_key : list Z;
  ephemeral_public_key : list Z;
  nonce : list Z;
  signature : list Z;
  ciphertext : list Z;
  ratchet_dh_public : option (list Z);
  ratchet_message_number : option Z
}.

#[export] Instance t_eq_dec : EqDecision t.
Proof. solve_decision. Defined.

Definition FIXED_OVERHEAD : Z := 187.
Definition MAX_CIPHERTEXT : Z := 65535.

(** The widths the Rust type gives the fields. *)
Definition wf (e : t) : Prop :=
  u8 (version e) /\ byte_array 16 (message_id e) /\ byte_array 4 (recipient_hint e) /\
  u32 (created_at e) /\ u32 (ttl_expiry e) /\ u8 (hop_count e) /\ u8 (priority e) /\
  byte_array 32 (sender_public_key e) /\ byte_array 32 (ephemeral_public_key e) /\
  byte_array 24 (nonce e) /\ byte_array 64 (signature e) /\ bytes (ciphertext e) /\
  (forall k, ratchet_dh_public e = Some k -> byte_array 32 k) /\
  (forall n, ratchet_message_number e = Some n -> u32 n).

Definition type_byte (e : t) : Z :=
  Z.lor (EnvelopeTypeImpl.as_u8 (envelope_type e))
        (if compressed e then COMPRESSION_FLAG else 0).

(** The ratchet extension: flag byte, then key and message number. *)
Definition ratchet_extension (e : t) : list Z :=
  match ratchet_dh_public e with
  | Some dh_public =>
      [1] ++ dh_public ++ u32_to_le_bytes (default 0 (ratchet_message_number e))
  | None => [0]
  end.

Section WithCrates.
Context `{EnvelopeCrates}.

Definition to_bytes (self : t) : outcome DriftError (list Z) :=
  let ct := if compressed self then compress (ciphertext self) else ciphertext self in
  if len ct >? MAX_CIPHERTEXT
  then Err (CiphertextTooLarge (len ct))
  else
  Ok ([version self] ++ [type_byte self] ++ message_id self
      ++ recipient_hint self
      ++ u32_to_le_bytes (created_at self) ++ u32_to_le_bytes (ttl_expiry self)
      ++ [hop_count self] ++ [priority self]
      ++ sender_public_key self ++ ephemeral_public_key self ++ nonce self ++ signature self
      ++ u16_to_le_bytes (wrap 16 (len ct)) ++ ct
      ++ ratchet_extension self).

(** The last block of [from_bytes]: the optional ratchet extension. *)
Definition read_ratchet (data : list Z) (offset : Z)
    : outcome DriftError (option (list Z) * option Z) :=
  if offset <? len data then
    let! ratchet_flag := index data offset in
    let offset := offset + 1 in
    if ratchet_flag =? 1 then
      if offset + 32 + 4 <=? len data then
        let! dh_key := slice data offset (offset + 32) in
        let offset := offset + 32 in
        let! msg_num := read_u32 data offset in
        Ok (Some dh_key, Some msg_num)
      else Err (BufferTooShort (offset + 32 + 4) (len data))
    else Ok (None, None)
  else Ok (None, None).

Definition from_bytes (data : list Z) : outcome DriftError t :=
  if len data <? FIXED_OVERHEAD
  then Err (BufferTooShort FIXED_OVERHEAD (len data))
  else
  let offset := 0 in
  let! version := index data offset in
  let offset := offset + 1 in
  if negb (version =? DRIFT_VERSION) then Err (InvalidVersion version) else
  let! type_byte := index data offset in
  let compressed := negb (Z.land type_byte COMPRESSION_FLAG =? 0) in
  let! envelope_type :=
    EnvelopeTypeImpl.from_u8 (Z.land type_byte (Z.lxor 255 COMPRESSION_FLAG)) in
  let offset := offset + 1 in
  let! message_id := slice data offset (offset + 16) in
  let offset := offset + 16 in
  let! recipient_hint := slice data offset (offset + 4) in
  let offset := offset + 4 in
  let! created_at := read_u32 data offset in
  let offset := offset + 4 in
  let! ttl_expiry := read_u32 data offset in
  let offset := offset + 4 in
  let! hop_count := index data offset in
  let offset := offset + 1 in
  let! priority := index data offset in
  let offset := offset + 1 in
  let! sender_public_key := slice data offset (offset + 32) in
  let offset := offset + 32 in
  let! ephemeral_public_key := slice data offset (offset + 32) in
  let offset := offset + 32 in
  let! nonce := slice data offset (offset + 24) in
  let offset := offset + 24 in
  let! signature := slice data offset (offset + 64) in
  let offset := offset + 64 in
  let! ciphertext_len := read_u16 data offset in
  let offset := offset + 2 in
  if len data <? offset + ciphertext_len
  then Err (BufferTooShort (offset + ciphertext_len) (len data))
  else
  let! raw := slice data offset (offset + ciphertext_len) in
  let! ciphertext := if compressed then decompress raw else Ok raw in
  let offset := offset + ciphertext_len in
  let! '(ratchet_dh_public, ratchet_message_number) := read_ratchet data offset in
  Ok (mk version envelope_type compressed message_id recipient_hint created_at ttl_expiry
         hop_count priority sender_public_key ephemeral_public_key nonce signature ciphertext
         ratchet_dh_public ratchet_message_number).

Definition hint_from_public_key (public_key : list Z) : list Z :=
  take 4 (blake3_hash public_key).

(** What the signature commits to: the byte string fed to the hasher. *)
Definition sign_preimage (self : t) : list Z :=
  [version self] ++ [type_byte self] ++ message_id self ++ recipient_hint self
  ++ u32_to_le_bytes (created_at self) ++ u32_to_le_bytes (ttl_expiry self)
  ++ [hop_count self] ++ [priority self]
  ++ sender_public_key self ++ ephemeral_public_key self ++ nonce self
  ++ u16_to_le_bytes (wrap 16 (len (ciphertext self))) ++ ciphertext self
  ++ ratchet_extension self.

Definition sign (self : t) (signing_key : list Z) : list Z :=
  ed25519_sign signing_key (blake3_hash (sign_preimage self)).

End WithCrates.

Definition increment_hop (self : t) : t :=
  mk (version self) (envelope_type self) (compressed self) (message_id self)
     (recipient_hint self) (created_at self) (ttl_expiry self)
     (saturating_add 8 (hop_count self) 1) (priority self) (sender_public_key self)
     (ephemeral_public_key self) (nonce self) (signature self) (ciphertext self)
     (ratchet_dh_public self) (ratchet_message_number self).

(** [now] is the clock in seconds since the epoch, before the cast to [u32]. *)
Definition is_expired (self : t) (now : Z) : bool :=
  if ttl_expiry self =? 0 then false else wrap 32 now >? ttl_expiry self.

Definition to_legacy_envelope (self : t) : LegacyEnvelope.t :=
  LegacyEnvelope.mk (sender_public_key self) (ephemeral_public_key self) (nonce self)
    (ciphertext self) (ratchet_dh_public self) (ratchet_message_number self).

Definition with_signature (self : t) (sig : list Z) : t :=
  mk (version self) (envelope_type self) (compressed self) (message_id self)
     (recipient_hint self) (created_at self) (ttl_expiry self) (hop_count self)
     (priority self) (sender_public_key self) (ephemeral_public_key self) (nonce self)
     sig (ciphertext self) (ratchet_dh_public self) (ratchet_message_number self).

(** [Vec<u8>::try_into::<[u8; n]>] with the error message of the call. *)
Definition try_array (n : Z) (msg : string) (v : list Z) : outcome DriftError (list Z) :=
  if len v =? n then Ok v else Err (IoError msg).

Section FromLegacy.
Context `{EnvelopeCrates}.

(** [clock] is the time since the epoch, [None] for a clock set before it. *)
Definition from_legacy_envelope (clock : option Z) (legacy : LegacyEnvelope.t)
    (message_id : string) (recipient_public_key signing_key : list Z) : outcome DriftError t :=
  let! message_id_bytes :=
    match uuid_parse message_id with
    | inl u => Ok u
    | inr e => Err (IoError ("Invalid message ID: " +:+ e))
    end in
  let recipient_hint := hint_from_public_key recipient_public_key in
  let! created_at :=
    match clock with
    | Some secs => Ok (wrap 32 secs)
    | None => Err (IoError "Time error: second time provided was later than self")
    end in
  let ttl_expiry := wrap 32 (created_at + 604800) in
  let! sender_public_key :=
    try_array 32 "Invalid sender public key length" (LegacyEnvelope.sender_public_key legacy) in
  let! ephemeral_public_key :=
    try_array 32 "Invalid ephemeral public key length"
      (LegacyEnvelope.ephemeral_public_key legacy) in
  let! nonce := try_array 24 "Invalid nonce length" (LegacyEnvelope.nonce legacy) in
  let! ratchet_dh_public :=
    match LegacyEnvelope.ratchet_dh_public legacy with
    | Some v => let! k := try_array 32 "Invalid ratchet_dh_public length" v in Ok (Some k)
    | None => Ok None
    end in
  let drift_env :=
    mk DRIFT_VERSION EncryptedMessage
       (len (LegacyEnvelope.ciphertext legacy) >? COMPRESSION_THRESHOLD)
       message_id_bytes recipient_hint created_at ttl_expiry 0 128
       sender_public_key ephemeral_public_key nonce (repeat_byte 0 64)
       (LegacyEnvelope.ciphertext legacy) ratchet_dh_public
       (LegacyEnvelope.ratchet_message_number legacy) in
  Ok (with_signature drift_env (sign drift_env signing_key)).

End FromLegacy.

End DriftEnvelope.

(** ** Lemmas *)

Lemma env_from_as_u8 ty : EnvelopeTypeImpl.from_u8 (EnvelopeTypeImpl.as_u8 ty) = Ok ty.
Proof. destruct ty; reflexivity. Qed.

Lemma env_from_u8_Ok b ty : EnvelopeTypeImpl.from_u8 b = Ok ty -> EnvelopeTypeImpl.as_u8 ty = b.
Proof.
  unfold EnvelopeTypeImpl.from_u8. intros H. repeat case_hyp H; inv H; reflexivity.
Qed.

Lemma env_from_u8_not_Panic b : EnvelopeTypeImpl.from_u8 b <> Panic.
Proof. unfold EnvelopeTypeImpl.from_u8. repeat case_goal; discriminate. Qed.

(** The flag bit and the type number of the type byte are independent. *)
Lemma type_byte_flag ty (c : bool) :
  let tb := Z.lor (EnvelopeTypeImpl.as_u8 ty) (if c then COMPRESSION_FLAG else 0) in
  u8 tb /\ negb (Z.land tb COMPRESSION_FLAG =? 0) = c /\
  EnvelopeTypeImpl.from_u8 (Z.land tb (Z.lxor 255 COMPRESSION_FLAG)) = Ok ty.
Proof. destruct ty, c; vm_compute; done. Qed.

(** The sections of a buffer of at least 186 bytes. *)
Definition envelope_buffer (v tb : Z) (mid hint ca te : list Z) (hop pri : Z)
    (spk epk non sig cl rest : list Z) : list Z :=
  [v] ++ [tb] ++ mid ++ hint ++ ca ++ te ++ [hop] ++ [pri] ++ spk ++ epk ++ non ++ sig ++ cl ++ rest.

Definition envelope_lens (mid hint ca te spk epk non sig cl : list Z) : Prop :=
  len mid = 16 /\ len hint = 4 /\ len ca = 4 /\ len te = 4 /\ len spk = 32 /\ len epk = 32 /\
  len non = 24 /\ len sig = 64 /\ len cl = 2.

Lemma envelope_shape data : 186 <= len data ->
  exists v tb mid hint ca te hop pri spk epk non sig cl rest,
    data = envelope_buffer v tb mid hint ca te hop pri spk epk non sig cl rest /\
    envelope_lens mid hint ca te spk epk non sig cl /\ len data = 186 + len rest.
Proof.
  intros H. unfold envelope_buffer, envelope_lens.
  destruct data as [|v [|tb d]]; autorewrite with rust_simp in *; try lia.
  destruct (split_at 16 d) as (mid & d1 & -> & ? & ?); [lia|].
  destruct (split_at 4 d1) as (hint & d2 & -> & ? & ?); [lia|].
  destruct (split_at 4 d2) as (ca & d3 & -> & ? & ?); [lia|].
  destruct (split_at 4 d3) as (te & d4 & -> & ? & ?); [lia|].
  destruct d4 as [|hop [|pri d5]]; autorewrite with rust_simp in *; try lia.
  destruct (split_at 32 d5) as (spk & d6 & -> & ? & ?); [lia|].
  destruct (split_at 32 d6) as (epk & d7 & -> & ? & ?); [lia|].
  destruct (split_at 24 d7) as (non & d8 & -> & ? & ?); [lia|].
  destruct (split_at 64 d8) as (sig & d9 & -> & ? & ?); [lia|].
  destruct (split_at 2 d9) as (cl & rest & -> & ? & ?); [lia|].
  exists v, tb, mid, hint, ca, te, hop, pri, spk, epk, non, sig, cl, rest.
  split; [done|]. autorewrite with rust_simp in *. split_and!; lia.
Qed.

(** The ratchet extension as the parser reads it from the bytes after the
    ciphertext, which starts at [start] in a buffer of [total] bytes. *)
Definition parse_ratchet (start total : Z) (tail : list Z)
    : outcome DriftError (option (list Z) * option Z) :=
  match tail with
  | [] => Ok (None, None)
  | flag :: t =>
      if flag =? 1 then
        if 36 <=? len t
        then Ok (Some (take 32 t), Some (from_le_bytes (take 4 (drop 32 t))))
        else Err (BufferTooShort (start + 1 + 32 + 4) total)
      else Ok (None, None)
  end.

(** Step over the sections before the offset being read. *)
Ltac len_side := unfold envelope_lens in *; autorewrite with rust_simp; lia.

Ltac skip_sections :=
  repeat first
    [ rewrite slice_app_r by len_side
    | rewrite index_app_r by len_side ].

Lemma slice_prefix {E A} (x post : list A) lo hi : lo = 0 -> hi = len x ->
  @slice E A (x ++ post) lo hi = Ok x.
Proof. intros -> ->. apply slice_app_l. done. Qed.

Lemma index_prefix {E A} (x : A) post o : o = 0 -> @index E A ([x] ++ post) o = Ok x.
Proof. intros ->. done. Qed.

Section EnvelopeReads.
Context {E : Type} (v tb : Z) (mid hint ca te : list Z) (hop pri : Z).
Context (spk epk non sig cl rest : list Z) (Hlens : envelope_lens mid hint ca te spk epk non sig cl).
Local Abbreviation data := (envelope_buffer v tb mid hint ca te hop pri spk epk non sig cl rest).

Local Ltac read_section :=
  unfold envelope_buffer; skip_sections;
  first [ apply slice_prefix | apply index_prefix ]; len_side.

Lemma len_envelope_buffer : len data = 186 + len rest.
Proof using Hlens. unfold envelope_buffer. len_side. Qed.

Lemma envelope_read_header :
  @index E Z data 0 = Ok v /\ @index E Z data 1 = Ok tb /\ @slice E Z data 2 18 = Ok mid.
Proof using Hlens. split_and!; read_section. Qed.

Lemma envelope_read_routing :
  @slice E Z data 18 22 = Ok hint /\ @read_u32 E data 22 = Ok (from_le_bytes ca) /\
  @read_u32 E data 26 = Ok (from_le_bytes te) /\ @index E Z data 30 = Ok hop /\
  @index E Z data 31 = Ok pri.
Proof using Hlens.
  split_and!; [| apply read_u32_slice | apply read_u32_slice | |]; read_section.
Qed.

Lemma envelope_read_crypto :
  @slice E Z data 32 64 = Ok spk /\ @slice E Z data 64 96 = Ok epk /\
  @slice E Z data 96 120 = Ok non /\ @slice E Z data 120 184 = Ok sig /\
  @read_u16 E data 184 = Ok (from_le_bytes cl).
Proof using Hlens. split_and!; [| | | | apply read_u16_slice]; read_section. Qed.

Lemma envelope_read_rest lo hi : 186 <= lo -> lo <= hi ->
  @slice E Z data lo hi = slice rest (lo - 186) (hi - 186).
Proof using Hlens.
  intros H1 H2. unfold envelope_buffer. do 13 (rewrite slice_app_r by len_side).
  f_equal; len_side.
Qed.

End EnvelopeReads.

Lemma read_ratchet_at pre tail :
  DriftEnvelope.read_ratchet (pre ++ tail) (len pre) =
  parse_ratchet (len pre) (len pre + len tail) tail.
Proof.
  unfold DriftEnvelope.read_ratchet. rewrite len_app.
  destruct tail as [|flag t]; autorewrite with rust_simp.
  { rewrite (proj2 (Z.ltb_ge _ _)) by lia. done. }
  pose proof (len_nonneg t). rewrite (proj2 (Z.ltb_lt _ _)) by lia.
  rewrite index_at by done. unfold parse_ratchet. destruct (flag =? 1); [|done].
  replace (len pre + 1 + 32 + 4 <=? len pre + (1 + len t)) with (36 <=? len t)
    by (apply Bool.eq_iff_eq_true; rewrite !Z.leb_le; lia).
  destruct (36 <=? len t) eqn:H36; [|done]. bool_to_prop.
  assert (Hskip : forall lo hi, len pre + 1 <= lo -> lo <= hi ->
    @slice DriftError Z (pre ++ flag :: t) lo hi = slice t (lo - len pre - 1) (hi - len pre - 1)).
  { intros lo hi H1 H2. change (flag :: t) with ([flag] ++ t).
    rewrite !slice_app_r by (rewrite ?len_cons, ?len_nil; lia).
    rewrite len_cons, len_nil. f_equal; lia. }
  rewrite Hskip, slice_in_range by lia.
  rewrite (read_u32_slice _ _ (take 4 (drop 32 t))).
  - replace (len pre + 1 - len pre - 1) with 0 by lia. rewrite drop_0.
    replace (Z.to_nat _) with 32%nat by lia. done.
  - rewrite Hskip, slice_in_range by lia. f_equal. f_equal; [|f_equal]; lia.
Qed.

(** The parser on a buffer cut into its sections. *)
Lemma envelope_from_bytes_shape `{EnvelopeCrates} v tb mid hint ca te hop pri spk epk non sig cl rest :
  envelope_lens mid hint ca te spk epk non sig cl -> bytes cl -> 1 <= len rest ->
  let n := from_le_bytes cl in
  DriftEnvelope.from_bytes
    (envelope_buffer v tb mid hint ca te hop pri spk epk non sig cl rest) =
  if negb (v =? DRIFT_VERSION) then Err (InvalidVersion v) else
  let! ty := EnvelopeTypeImpl.from_u8 (Z.land tb (Z.lxor 255 COMPRESSION_FLAG)) in
  if len rest <? n then Err (BufferTooShort (186 + n) (186 + len rest)) else
  let raw := take (Z.to_nat n) rest in
  let! ct := if negb (Z.land tb COMPRESSION_FLAG =? 0) then decompress raw else Ok raw in
  let! '(k, m) := parse_ratchet (186 + n) (186 + len rest) (drop (Z.to_nat n) rest) in
  Ok (DriftEnvelope.mk v ty (negb (Z.land tb COMPRESSION_FLAG =? 0)) mid hint
        (from_le_bytes ca) (from_le_bytes te) hop pri spk epk non sig ct k m).
Proof.
  intros Hlens Hcl Hrest n.
  assert (Hn : 0 <= n < 65536).
  { apply from_le_bytes_range in Hcl. replace (len cl) with 2 in Hcl by (unfold envelope_lens in *; lia).
    exact Hcl. }
  unfold DriftEnvelope.from_bytes. cbv zeta. norm_offsets.
  rewrite len_envelope_buffer by done. unfold DriftEnvelope.FIXED_OVERHEAD.
  rewrite (proj2 (Z.ltb_ge (186 + len rest) 187)) by lia.
  edestruct (envelope_read_header (E:=DriftError)) as (-> & -> & ->); [exact Hlens|].
  destruct (negb (v =? DRIFT_VERSION)); [done|].
  destruct (EnvelopeTypeImpl.from_u8 _) as [ty| |]; [|done|done].
  edestruct (envelope_read_routing (E:=DriftError)) as (-> & -> & -> & -> & ->); [exact Hlens|].
  edestruct (envelope_read_crypto (E:=DriftError)) as (-> & -> & -> & -> & ->); [exact Hlens|].
  fold n. replace (186 + len rest <? 186 + n) with (len rest <? n)
    by (apply Bool.eq_iff_eq_true; rewrite !Z.ltb_lt; lia).
  destruct (len rest <? n) eqn:Hshort; [done|]. bool_to_prop.
  destruct (split_at n rest) as (raw & tail & -> & Hraw & Htail); [lia|].
  rewrite (take_app_length' raw tail), (drop_app_length' raw tail) by (unfold len in Hraw; lia).
  rewrite envelope_read_rest by (done || lia). rewrite slice_prefix by lia.
  destruct (if negb (Z.land tb COMPRESSION_FLAG =? 0) then _ else _) as [ct| |]; [|done|done].
  replace (envelope_buffer v tb mid hint ca te hop pri spk epk non sig cl (raw ++ tail))
    with (envelope_buffer v tb mid hint ca te hop pri spk epk non sig cl raw ++ tail)
    by (unfold envelope_buffer; rewrite <-!app_assoc; done).
  replace (186 + n) with (len (envelope_buffer v tb mid hint ca te hop pri spk epk non sig cl raw))
    by (rewrite len_envelope_buffer by done; lia).
  rewrite read_ratchet_at, len_envelope_buffer, len_app by done.
  replace (186 + len raw + len tail) with (186 + (len raw + len tail)) by lia. done.
Qed.

Module EnvelopeFacts.
Import DriftEnvelope.

(** The two ratchet fields travel together: a missing number is written as 0
    and a number without a key is not written at all. *)
Definition normalize (e : t) : t :=
  mk (version e) (envelope_type e) (compressed e) (message_id e) (recipient_hint e)
     (created_at e) (ttl_expiry e) (hop_count e) (priority e) (sender_public_key e)
     (ephemeral_public_key e) (nonce e) (signature e) (ciphertext e) (ratchet_dh_public e)
     (match ratchet_dh_public e with
      | Some _ => Some (default 0 (ratchet_message_number e))
      | None => None
      end).

(** The ciphertext as it goes on the wire. *)
Definition wire_ciphertext `{EnvelopeCrates} (e : t) : list Z :=
  if compressed e then compress (ciphertext e) else ciphertext e.

Lemma to_bytes_buffer `{EnvelopeCrates} e : len (wire_ciphertext e) <= MAX_CIPHERTEXT ->
  to_bytes e = Ok (envelope_buffer (version e) (type_byte e) (message_id e) (recipient_hint e)
    (u32_to_le_bytes (created_at e)) (u32_to_le_bytes (ttl_expiry e)) (hop_count e) (priority e)
    (sender_public_key e) (ephemeral_public_key e) (nonce e) (signature e)
    (u16_to_le_bytes (len (wire_ciphertext e))) (wire_ciphertext e ++ ratchet_extension e)).
Proof.
  intros Hl. unfold to_bytes. fold (wire_ciphertext e).
  rewrite Z.gtb_ltb, (proj2 (Z.ltb_ge _ _)) by done.
  rewrite wrap_small; [done|]. pose proof (len_nonneg (wire_ciphertext e)).
  unfold MAX_CIPHERTEXT in Hl. unfold fits. lia.
Qed.

Lemma wf_lens e : wf e ->
  envelope_lens (message_id e) (recipient_hint e) (u32_to_le_bytes (created_at e))
    (u32_to_le_bytes (ttl_expiry e)) (sender_public_key e) (ephemeral_public_key e) (nonce e)
    (signature e) (u16_to_le_bytes (len (ciphertext e))).
Proof.
  unfold wf, envelope_lens, byte_array. intros. destruct_and!. autorewrite with rust_simp. done.
Qed.

Lemma len_ratchet_extension e : wf e ->
  len (ratchet_extension e) = match ratchet_dh_public e with Some _ => 37 | None => 1 end.
Proof.
  intros Hwf. unfold ratchet_extension. destruct (ratchet_dh_public e) as [k|] eqn:Hk; [|done].
  assert (byte_array 32 k) as [Hl _] by (unfold wf in Hwf; destruct_and!; auto).
  autorewrite with rust_simp. lia.
Qed.

Lemma parse_ratchet_extension e start total : wf e ->
  parse_ratchet start total (ratchet_extension e) =
  Ok (ratchet_dh_public (normalize e), ratchet_message_number (normalize e)).
Proof.
  intros Hwf. unfold ratchet_extension, normalize. simpl.
  destruct (ratchet_dh_public e) as [k|] eqn:Hk; [|done].
  assert (byte_array 32 k) as [Hl _] by (unfold wf in Hwf; destruct_and!; auto).
  assert (Hn : u32 (default 0 (ratchet_message_number e))).
  { unfold wf in Hwf. destruct_and!. destruct (ratchet_message_number e); simpl; auto. by_eval. }
  simpl. rewrite len_app, len_u32_to_le_bytes, (proj2 (Z.leb_le _ _)) by lia.
  rewrite take_app_length' by (unfold len in Hl; lia).
  rewrite drop_app_length' by (unfold len in Hl; lia).
  rewrite take_ge by (pose proof (len_u32_to_le_bytes (default 0 (ratchet_message_number e)));
                      unfold len in *; lia).
  rewrite from_le_u32 by done. done.
Qed.

Lemma app_inj_len {A} (a1 a2 b1 b2 : list A) :
  len a1 = len a2 -> a1 ++ b1 = a2 ++ b2 -> a1 = a2 /\ b1 = b2.
Proof. intros Hl. apply app_inj_1. unfold len in Hl. lia. Qed.

Lemma type_byte_inj e1 e2 : type_byte e1 = type_byte e2 ->
  envelope_type e1 = envelope_type e2 /\ compressed e1 = compressed e2.
Proof.
  unfold type_byte. intros H.
  destruct (type_byte_flag (envelope_type e1) (compressed e1)) as (_ & Hc1 & Ht1).
  destruct (type_byte_flag (envelope_type e2) (compressed e2)) as (_ & Hc2 & Ht2).
  cbv zeta in *. rewrite H in Hc1, Ht1. split; congruence.
Qed.

Lemma ratchet_extension_inj e1 e2 : wf e1 -> wf e2 ->
  ratchet_extension e1 = ratchet_extension e2 ->
  ratchet_dh_public (normalize e1) = ratchet_dh_public (normalize e2) /\
  ratchet_message_number (normalize e1) = ratchet_message_number (normalize e2).
Proof.
  intros H1 H2 H.
  pose proof (parse_ratchet_extension e1 0 0 H1) as P1.
  pose proof (parse_ratchet_extension e2 0 0 H2) as P2.
  rewrite H, P2 in P1. split; congruence.
Qed.

(** Compare two concatenations of sections of known lengths. *)
Ltac peel_sections H :=
  repeat (apply app_inj_len in H as [?Hsec H]; [|autorewrite with rust_simp; lia]).

Lemma wf_range e : wf e ->
  u32 (created_at e) /\ u32 (ttl_expiry e) /\ len (message_id e) = 16 /\ len (recipient_hint e) = 4 /\
  len (sender_public_key e) = 32 /\ len (ephemeral_public_key e) = 32 /\ len (nonce e) = 24.
Proof. unfold wf, byte_array. intros. destruct_and!. done. Qed.
End EnvelopeFacts.

(** ** Theorems *)

Section EnvelopeTheorems.
Context `{HC : EnvelopeCrates} {HS : EnvelopeCratesSpec HC}.
Import DriftEnvelope EnvelopeFacts.

Lemma parse_serialized (e : t) :
  wf e -> version e = DRIFT_VERSION -> len (wire_ciphertext e) <= MAX_CIPHERTEXT ->
  exists data, to_bytes e = Ok data /\
    len data = 186 + len (wire_ciphertext e) + len (ratchet_extension e) /\
    from_bytes data = Ok (normalize e).
Proof using HS.
  intros Hwf Hv Hlen. rewrite to_bytes_buffer by done. eexists. split; [done|].
  pose proof (wf_lens e Hwf) as Hlens. pose proof (len_nonneg (wire_ciphertext e)).
  assert (Hlens' : envelope_lens (message_id e) (recipient_hint e) (u32_to_le_bytes (created_at e))
    (u32_to_le_bytes (ttl_expiry e)) (sender_public_key e) (ephemeral_public_key e) (nonce e)
    (signature e) (u16_to_le_bytes (len (wire_ciphertext e)))).
  { unfold envelope_lens in *. autorewrite with rust_simp in *. done. }
  split; [rewrite len_envelope_buffer by done; rewrite len_app; lia|].
  pose proof (len_ratchet_extension e Hwf) as Hr.
  rewrite envelope_from_bytes_shape; [|done|apply bytes_le_bytes|].
  2: { rewrite len_app. destruct (ratchet_dh_public e); lia. }
  rewrite Hv, from_le_u16 by (unfold MAX_CIPHERTEXT in Hlen; unfold fits; lia).
  destruct (type_byte_flag (envelope_type e) (compressed e)) as (_ & Hc & Ht).
  cbv zeta in *. unfold type_byte. rewrite Ht, Hc, Z.eqb_refl. cbn [negb].
  rewrite len_app, (proj2 (Z.ltb_ge _ _)) by (destruct (ratchet_dh_public e); lia).
  rewrite take_app_length', drop_app_length' by (unfold len; lia).
  rewrite parse_ratchet_extension by done.
  pose proof (wf_range e Hwf) as (Hca & Hte & _). rewrite !from_le_u32 by done.
  assert (Hct : (if compressed e then decompress (wire_ciphertext e) else Ok (wire_ciphertext e))
                = @Ok DriftError _ (ciphertext e)).
  { unfold wire_ciphertext, decompress, compress. destruct (compressed e); [|done].
    rewrite lz4_roundtrip; [done|]. unfold wf in Hwf. destruct_and!. done. }
  rewrite Hct. unfold normalize. rewrite Hv. done.
Qed.

(** C8. Serialize then parse: a well-formed envelope of the current version
    whose wire ciphertext fits the 16-bit length serializes to 186 bytes plus
    ciphertext plus ratchet extension, and parses back to itself (with the
    ratchet number normalized), compressed or not. *)
Theorem envelope_roundtrip (e : t) :
  wf e -> version e = DRIFT_VERSION -> len (wire_ciphertext e) <= MAX_CIPHERTEXT ->
  exists data, to_bytes e = Ok data /\
    len data = 186 + len (wire_ciphertext e) + len (ratchet_extension e) /\
    from_bytes data = Ok (normalize e).
Proof using HS. exact (parse_serialized e). Qed.

Lemma from_bytes_no_panic (data : list Z) :
  bytes data -> from_bytes data <> Panic.
Proof using Type.
  intros Hd. destruct (decide (187 <= len data)) as [H|H].
  2: { unfold from_bytes, FIXED_OVERHEAD. rewrite (proj2 (Z.ltb_lt _ _)) by lia. done. }
  destruct (envelope_shape data) as (v & tb & mid & hint & ca & te & hop & pri & spk & epk & non &
    sig & cl & rest & -> & Hlens & Hrest); [lia|].
  assert (bytes cl) by (unfold envelope_buffer in Hd; rewrite !bytes_app in Hd; destruct_and!; done).
  rewrite envelope_from_bytes_shape by (done || lia).
  pose proof (env_from_u8_not_Panic (Z.land tb (Z.lxor 255 COMPRESSION_FLAG))).
  unfold decompress, parse_ratchet. repeat (case_match; try done).
Qed.

Lemma from_bytes_wf (data : list Z) (e : t) :
  bytes data -> from_bytes data = Ok e -> wf e /\ version e = DRIFT_VERSION.
Proof using HS.
  intros Hd Hok. destruct (decide (187 <= len data)) as [H|H].
  2: { unfold from_bytes, FIXED_OVERHEAD in Hok. rewrite (proj2 (Z.ltb_lt _ _)) in Hok by lia. done. }
  destruct (envelope_shape data) as (v & tb & mid & hint & ca & te & hop & pri & spk & epk & non &
    sig & cl & rest & -> & Hlens & Hrest); [lia|].
  unfold envelope_buffer in Hd. rewrite !bytes_app in Hd.
  destruct Hd as (Hv & Htb & Hmid & Hhint & Hca & Hte & Hhop & Hpri & Hspk & Hepk & Hnon & Hsig & Hcl & Hr).
  rewrite envelope_from_bytes_shape in Hok by (done || lia).
  destruct (v =? DRIFT_VERSION) eqn:Ev; [|done]. cbn [negb] in Hok. bool_to_prop.
  destruct (EnvelopeTypeImpl.from_u8 _) as [ty| |]; [|done|done].
  destruct (len rest <? _); [done|]. cbv zeta in Hok.
  destruct (if negb _ then _ else _) as [ct| |] eqn:Ect; [|done|done].
  destruct (parse_ratchet _ _ _) as [[k m]| |] eqn:Er; [|done|done]. inv Hok.
  assert (Hct : bytes ct).
  { unfold decompress in Ect. repeat case_hyp Ect; inv Ect; [eapply lz4_decompress_bytes; eauto|].
    apply Forall_take. done. }
  pose proof (from_le_bytes_range _ Hca) as Rca. pose proof (from_le_bytes_range _ Hte) as Rte.
  unfold envelope_lens in Hlens. destruct_and!.
  replace (len ca) with 4 in Rca by done. replace (len te) with 4 in Rte by done.
  inv Hv. inv Hhop. inv Hpri.
  assert (Hrat : (forall k', k = Some k' -> byte_array 32 k') /\ (forall m', m = Some m' -> u32 m')).
  { apply (Forall_drop _ (Z.to_nat (from_le_bytes cl))) in Hr. unfold parse_ratchet in Er.
    destruct (drop _ rest) as [|flag tl] eqn:Edrop; [inv Er; done|]. inv Hr.
    repeat case_hyp Er; inv Er; try done. bool_to_prop.
    assert (len (take 32 tl) = 32) by (rewrite (len_take 32) by lia; lia).
    assert (len (take 4 (drop 32 tl)) = 4).
    { rewrite (len_take 4), (len_drop 32) by lia. lia. }
    split; intros x Hx; inv Hx; [split; [done|apply Forall_take; done]|].
    pose proof (from_le_bytes_range (take 4 (drop 32 tl)) ltac:(apply Forall_take, Forall_drop; done)) as R.
    replace (len (take 4 (drop 32 tl))) with 4 in R by done. exact R. }
  unfold wf, byte_array. simpl. destruct Hrat. split_and!; done.
Qed.

(** The parser is total on untrusted input and returns well-formed envelopes:
    no byte buffer makes it panic, and in what it returns every field has the
    width of its Rust type and the version is the current one. *)
Theorem envelope_from_bytes_safe (data : list Z) :
  bytes data ->
  from_bytes data <> Panic /\
  forall e, from_bytes data = Ok e -> wf e /\ version e = DRIFT_VERSION.
Proof using HS.
  intros Hd. split; [by apply from_bytes_no_panic|]. intros e. by apply from_bytes_wf.
Qed.

(** C14. The signature commits to every other field: two well-formed envelopes
    with ciphertexts of at most 65535 bytes and the same signed byte string
    agree on all fields but the signature, up to the form the wire gives them (a
    ratchet number without a ratchet key is not sent). *)
Theorem envelope_sign_preimage_injective (e1 e2 : t) (sig : list Z) :
  wf e1 -> wf e2 ->
  len (ciphertext e1) <= MAX_CIPHERTEXT -> len (ciphertext e2) <= MAX_CIPHERTEXT ->
  sign_preimage e1 = sign_preimage e2 ->
  with_signature (normalize e1) sig = with_signature (normalize e2) sig.
Proof using Type.
  intros W1 W2 L1 L2 H. unfold MAX_CIPHERTEXT in *.
  pose proof (wf_range e1 W1) as (?&?&?&?&?&?&?). pose proof (wf_range e2 W2) as (?&?&?&?&?&?&?).
  pose proof (len_nonneg (ciphertext e1)). pose proof (len_nonneg (ciphertext e2)).
  unfold sign_preimage in H. rewrite !wrap_small in H by (unfold fits; lia).
  do 12 (apply app_inj_len in H as [?Hs H]; [|autorewrite with rust_simp; lia]).
  apply le_bytes_inj in Hs10; [|unfold fits in *; lia|unfold fits in *; lia].
  apply app_inj_len in H as [? Hrat]; [|done].
  apply le_bytes_inj in Hs3; [|done|done]. apply le_bytes_inj in Hs4; [|done|done].
  apply ratchet_extension_inj in Hrat as [Hk Hm]; [|done|done].
  injection Hs as Hs. injection Hs0 as Hs0. injection Hs5 as Hs5. injection Hs6 as Hs6.
  apply type_byte_inj in Hs0 as [Hty Hcomp].
  unfold normalize, with_signature in *. simpl in *. f_equal; done.
Qed.

(** Converting a legacy envelope succeeds whenever the message id is a
    UUID, the clock is after the epoch and the keys have their lengths; the
    result is well formed, converts back to the same legacy envelope, carries
    the signature of its own contents, and lives for seven days unless the
    32-bit timestamp overflows. *)
Theorem legacy_envelope_conversion (secs : Z) (legacy : LegacyEnvelope.t) (id : string)
    (rpk sk uuid : list Z) :
  uuid_parse id = inl uuid -> 0 <= secs < 2 ^ 32 - 604800 ->
  byte_array 32 (LegacyEnvelope.sender_public_key legacy) ->
  byte_array 32 (LegacyEnvelope.ephemeral_public_key legacy) ->
  byte_array 24 (LegacyEnvelope.nonce legacy) -> bytes (LegacyEnvelope.ciphertext legacy) ->
  (forall k, LegacyEnvelope.ratchet_dh_public legacy = Some k -> byte_array 32 k) ->
  (forall n, LegacyEnvelope.ratchet_message_number legacy = Some n -> u32 n) ->
  exists e, from_legacy_envelope (Some secs) legacy id rpk sk = Ok e /\
    wf e /\ version e = DRIFT_VERSION /\ to_legacy_envelope e = legacy /\
    signature e = sign e sk /\
    forall d, 0 <= d -> secs + d < 2 ^ 32 ->
      is_expired e (secs + d) = bool_decide (604800 < d).
Proof using HS.
  intros Hu Hs [Hspk Bspk] [Hepk Bepk] [Hnon Bnon] Bct Hk Hn.
  unfold from_legacy_envelope, try_array. rewrite Hu, Hspk, Hepk, Hnon. cbn [Z.eqb Pos.eqb].
  assert (Hdh : match LegacyEnvelope.ratchet_dh_public legacy with
    | Some v => let! k := (if len v =? 32 then Ok v
                           else Err (IoError "Invalid ratchet_dh_public length")) in Ok (Some k)
    | None => Ok None end = @Ok DriftError _ (LegacyEnvelope.ratchet_dh_public legacy)).
  { destruct (LegacyEnvelope.ratchet_dh_public legacy) as [k|]; [|done].
    destruct (Hk k eq_refl) as [-> _]. done. }
  rewrite Hdh. rewrite !wrap_small by (unfold fits in *; rewrite ?wrap_small; unfold fits; lia).
  eexists. split; [done|]. split_and!.
  - pose proof (uuid_parse_16 _ _ Hu). pose proof (blake3_hash_32 rpk) as [Hb1 Hb2].
    unfold wf, with_signature, byte_array, hint_from_public_key. simpl.
    split_and!; try done; try (unfold fits; lia);
      try (apply ed25519_sign_64); try (apply uuid_parse_16 in Hu; apply Hu).
    + rewrite (len_take 4) by lia. lia.
    + apply Forall_take. done.
  - done.
  - destruct legacy; done.
  - done.
  - intros d Hd Hlt. unfold is_expired. simpl. rewrite (proj2 (Z.eqb_neq _ _)) by lia.
    rewrite wrap_small by (unfold fits; lia). rewrite Z.gtb_ltb.
    apply Bool.eq_iff_eq_true. rewrite bool_decide_eq_true, Z.ltb_lt. lia.
Qed.
End EnvelopeTheorems.

(** ** Witnesses *)

(** Crates for the witnesses: a stored (not compressed) LZ4 block, and padded
    little-endian sums for the hash and the signature. *)
#[export] Instance sample_crates : EnvelopeCrates := {
  lz4_compress d := d;
  lz4_decompress d := if decide (bytes d) then inl d else inr "invalid"%string;
  envelope_blake3 := sample_blake3;
  ed25519_sign k d := le_bytes 64 (from_le_bytes (k ++ d));
  uuid_parse s := if decide (s = ""%string) then inr "empty"%string else inl (le_bytes 16 7)
}.

#[export] Instance sample_crates_spec : EnvelopeCratesSpec sample_crates.
Proof.
  split; cbn.
  - intros d Hd. rewrite decide_True by done. done.
  - done.
  - intros d x. case_decide; intros Hx; inv Hx. done.
  - exact sample_blake3_spec.
  - intros k d. split; [apply len_le_bytes|apply bytes_le_bytes].
  - intros s x. case_decide; intros Hx; inv Hx. split; [apply len_le_bytes|apply bytes_le_bytes].
Qed.

Definition sample_envelope : DriftEnvelope.t :=
  DriftEnvelope.mk 1 OnionMessage true (repeat_byte 1 16) (repeat_byte 2 4) 1234567890 1234567900 5 10
    (repeat_byte 3 32) (repeat_byte 4 32) (repeat_byte 5 24) (repeat_byte 6 64) [1; 2; 3]
    (Some (repeat_byte 9 32)) (Some 77).

Definition sample_legacy : LegacyEnvelope.t :=
  LegacyEnvelope.mk (repeat_byte 3 32) (repeat_byte 4 32) (repeat_byte 5 24) [1; 2; 3] None None.

Lemma sample_envelope_wf : DriftEnvelope.wf sample_envelope.
Proof.
  unfold DriftEnvelope.wf. split_and!; try by_eval.
  - intros k Hk. inv Hk. by_eval.
  - intros n Hn. inv Hn. by_eval.
Qed.

Lemma envelope_roundtrip_witness :
  exists data, DriftEnvelope.to_bytes sample_envelope = Ok data /\
    len data = 186 + len (EnvelopeFacts.wire_ciphertext sample_envelope)
               + len (DriftEnvelope.ratchet_extension sample_envelope) /\
    DriftEnvelope.from_bytes data = Ok (EnvelopeFacts.normalize sample_envelope).
Proof.
  apply (envelope_roundtrip sample_envelope);
    [exact sample_envelope_wf | reflexivity | vm_compute; discriminate].
Defined.

Lemma envelope_from_bytes_safe_witness :
  DriftEnvelope.from_bytes (repeat_byte 1 200) <> Panic /\
  exists e, DriftEnvelope.from_bytes (repeat_byte 1 443) = Ok e /\
    DriftEnvelope.wf e /\ DriftEnvelope.version e = DRIFT_VERSION.
Proof.
  split; [apply (envelope_from_bytes_safe (repeat_byte 1 200)); by_eval|].
  eexists. split; [vm_compute; reflexivity|].
  apply (envelope_from_bytes_safe (repeat_byte 1 443)); [by_eval | vm_compute; reflexivity].
Defined.

Lemma envelope_sign_preimage_injective_witness :
  DriftEnvelope.with_signature (EnvelopeFacts.normalize sample_envelope) [] =
  DriftEnvelope.with_signature
    (EnvelopeFacts.normalize (DriftEnvelope.with_signature sample_envelope (repeat_byte 8 64))) [].
Proof.
  apply (envelope_sign_preimage_injective sample_envelope
           (DriftEnvelope.with_signature sample_envelope (repeat_byte 8 64)) []);
    [exact sample_envelope_wf | | vm_compute; discriminate | vm_compute; discriminate | reflexivity].
  unfold DriftEnvelope.wf. split_and!; try by_eval.
  - intros k Hk. inv Hk. by_eval.
  - intros n Hn. inv Hn. by_eval.
Defined.

Lemma legacy_envelope_conversion_witness :
  exists e, DriftEnvelope.from_legacy_envelope (Some 1700000000) sample_legacy "id"
      (repeat_byte 1 32) (repeat_byte 2 32) = Ok e /\
    DriftEnvelope.wf e /\ DriftEnvelope.version e = DRIFT_VERSION /\
    DriftEnvelope.to_legacy_envelope e = sample_legacy /\
    DriftEnvelope.signature e = DriftEnvelope.sign e (repeat_byte 2 32) /\
    forall d, 0 <= d -> 1700000000 + d < 2 ^ 32 ->
      DriftEnvelope.is_expired e (1700000000 + d) = bool_decide (604800 < d).
Proof.
  apply (legacy_envelope_conversion 1700000000 sample_legacy "id" (repeat_byte 1 32)
           (repeat_byte 2 32) (le_bytes 16 7));
    try by_eval; intros ? Hx; inv Hx.
Defined.
