(* ===== verification/Sketch.v ===== *)
(** * Set reconciliation sketches (core/src/drift/sketch.rs)

    The invertible Bloom lookup table: cells with a count, the xor of the keys
    and the xor of the key checks; insertion, removal, subtraction, the
    peeling decoder with its iteration limit, and the wire format.  Counts are
    [i32] and wrap; an index out of range is a panic. *)

From S2P Require Import Prelude Drift.

Definition HASH_COUNT : Z := 3.
Definition CELLS_PER_DIFF : Z := 3.

(** The 4-byte check of a key: [u32::from_le_bytes] of its first four bytes. *)
Definition check_of (key : MessageId) : Z := from_le_bytes (take 4 key).

Module IBLTCell.

Record t : Type := mk { count : Z; key_sum : list Z; key_check : Z }.

#[export] Instance t_eq_dec : EqDecision t.
Proof. solve_decision. Defined.

Definition new : t := mk 0 (repeat_byte 0 16) 0.

Definition is_pure (self : t) : bool := (count self =? 1) || (count self =? -1).

Definition is_empty (self : t) : bool := count self =? 0.

Definition xor_in (key : MessageId) (self : t) : t :=
  mk (count self) (zip_with Z.lxor (key_sum self) key) (Z.lxor (key_check self) (check_of key)).

Definition xor_out (key : MessageId) (self : t) : t := xor_in key self.

Definition add_count (d : Z) (self : t) : t :=
  mk (wrap_i32 (count self + d)) (key_sum self) (key_check self).

End IBLTCell.

Module IBLT.
Import IBLTCell.

Record t : Type := mk { cells : list IBLTCell.t; num_cells : Z }.

#[export] Instance iblt_eq_dec : EqDecision t.
Proof. solve_decision. Defined.

(** [cells[i]] as a place: read, change, write back. *)
Definition modify {E} (f : IBLTCell.t -> IBLTCell.t) (i : Z) (cs : list IBLTCell.t)
    : outcome E (list IBLTCell.t) :=
  let! c := index cs i in Ok (<[Z.to_nat i := f c]> cs).

Definition new (expected_diffs : Z) : t :=
  let n := Z.max expected_diffs 1 * CELLS_PER_DIFF in
  mk (replicate (Z.to_nat n) IBLTCell.new) n.

Definition with_cells (n : Z) : t :=
  mk (replicate (Z.to_nat (Z.max n 1)) IBLTCell.new) (Z.max n 1).

Section WithHash.
Context `{Blake3}.

(** The number read from the digest, before the reduction modulo the table size. *)
Definition hash_value (key : MessageId) (hash_idx : Z) : Z :=
  from_le_bytes (take 8 (blake3_hash ([wrap 8 hash_idx] ++ key))).

Definition hash_to_cell {E} (self : t) (key : MessageId) (hash_idx : Z) : outcome E Z :=
  if num_cells self =? 0 then Panic else Ok (hash_value key hash_idx mod num_cells self).

Definition hash_indices : list Z := map Z.of_nat (seq 0 (Z.to_nat HASH_COUNT)).

Definition insert {E} (key : MessageId) (self : t) : outcome E t :=
  let! cs :=
    for_each (fun hash_idx cs =>
      let! cell_idx := hash_to_cell self key hash_idx in
      let! cs := modify (add_count 1) cell_idx cs in
      modify (xor_in key) cell_idx cs) hash_indices (cells self) in
  Ok (mk cs (num_cells self)).

Definition remove {E} (key : MessageId) (self : t) : outcome E t :=
  let! cs :=
    for_each (fun hash_idx cs =>
      let! cell_idx := hash_to_cell self key hash_idx in
      let! cs := modify (add_count (-1)) cell_idx cs in
      modify (xor_out key) cell_idx cs) hash_indices (cells self) in
  Ok (mk cs (num_cells self)).

Definition subtract_cell (a b : IBLTCell.t) : IBLTCell.t :=
  IBLTCell.mk (wrap_i32 (count a - count b)) (zip_with Z.lxor (key_sum a) (key_sum b))
    (Z.lxor (key_check a) (key_check b)).

Definition subtract (self other : t) : outcome DriftError t :=
  if negb (num_cells self =? num_cells other)
  then Err (BufferTooShort (num_cells self) (num_cells other))
  else
  let result := with_cells (num_cells self) in
  let! cs :=
    for_each (fun i cs =>
      let! a := index (cells self) i in
      let! b := index (cells other) i in
      modify (fun _ => subtract_cell a b) i cs)
      (map Z.of_nat (seq 0 (Z.to_nat (num_cells self)))) (cells result) in
  Ok (mk cs (num_cells result)).

(** [iter().position(|c| c.is_pure())]. *)
Fixpoint position (p : IBLTCell.t -> bool) (l : list IBLTCell.t) : option Z :=
  match l with
  | [] => None
  | c :: l => if p c then Some 0 else (fun i => 1 + i) <$> position p l
  end.

Definition exceeded_msg : string :=
  "IBLT decode failed: exceeded maximum iterations (IBLT likely undersized for differences)".
Definition stuck_msg : string := "IBLT decode failed: cannot peel remaining cells".
Definition mismatch_msg : string :=
  "IBLT decode failed: key_check mismatch, possible hash collision or corruption".

(** The peeling loop; [fuel] is what is left of the source's iteration limit. *)
Fixpoint decode_loop (self : t) (fuel : nat) (cs : list IBLTCell.t)
    (alice_only bob_only : list MessageId) : outcome DriftError (list MessageId * list MessageId) :=
  match fuel with
  | O => Err (DecompressionFailed exceeded_msg)
  | S fuel =>
      match position is_pure cs with
      | None =>
          if forallb is_empty cs then Ok (alice_only, bob_only)
          else Err (DecompressionFailed stuck_msg)
      | Some idx =>
          let! c := index cs idx in
          let key := key_sum c in
          if negb (key_check c =? check_of key) then Err (DecompressionFailed mismatch_msg) else
          let alice_only := if count c =? 1 then alice_only ++ [key] else alice_only in
          let bob_only := if count c =? 1 then bob_only else bob_only ++ [key] in
          let! cs :=
            for_each (fun hash_idx cs =>
              let! cell_idx := hash_to_cell self key hash_idx in
              let! cs := modify (add_count (- count c)) cell_idx cs in
              modify (xor_out key) cell_idx cs) hash_indices cs in
          let! cs := modify (fun _ => IBLTCell.new) idx cs in
          decode_loop self fuel cs alice_only bob_only
      end
  end.

Definition decode (self : t) : outcome DriftError (list MessageId * list MessageId) :=
  let max_iterations := num_cells self * 10 in
  decode_loop self (Z.to_nat max_iterations) (cells self) [] [].

End WithHash.

Definition cell_bytes (c : IBLTCell.t) : list Z :=
  [wrap 8 (count c)] ++ key_sum c ++ u32_to_le_bytes (key_check c).

Definition to_bytes (self : t) : outcome DriftError (list Z) :=
  if num_cells self >? 65535
  then Err (BufferTooShort (num_cells self) 65535)
  else Ok (u16_to_le_bytes (wrap 16 (num_cells self)) ++ concat (map cell_bytes (cells self))).

(** One turn of the loop of [from_bytes]. *)
Definition read_cell (data : list Z) (i : Z) : outcome DriftError IBLTCell.t :=
  let offset := 2 + i * 21 in
  let! count := index data offset in
  let! key_sum := slice data (offset + 1) (offset + 17) in
  let! key_check := read_u32 data (offset + 17) in
  Ok (IBLTCell.mk count key_sum key_check).

Definition from_bytes (data : list Z) : outcome DriftError t :=
  if len data <? 2 then Err (BufferTooShort 2 (len data)) else
  let! n := read_u16 data 0 in
  let expected_len := 2 + n * 21 in
  if negb (len data =? expected_len) then Err (BufferTooShort expected_len (len data)) else
  let! cs :=
    for_each (fun i cs => let! c := read_cell data i in Ok (cs ++ [c]))
      (map Z.of_nat (seq 0 (Z.to_nat n))) [] in
  Ok (mk cs n).

Definition serialized_size (self : t) : Z := 2 + num_cells self * 21.

Definition cell_count (self : t) : Z := num_cells self.

End IBLT.
