(* ===== verification/SketchSpec.v ===== *)
(** * What a sketch denotes

    The abstract reading of an IBLT: a list of signed keys ([(1, k)] for an
    insertion, [(-1, k)] for a removal) and the table it fills.  The operations
    of Sketch.v are shown to compute on tables: insertion and removal add an
    item, subtraction concatenates with the signs of the second table flipped,
    order does not matter and opposite items cancel. *)

From S2P Require Import Prelude Drift Sketch.
Import IBLTCell.

(** A signed key. *)
Abbreviation item := (Z * MessageId)%type.

Definition id_ok (k : MessageId) : Prop := byte_array 16 k.

Definition items_ok (D : list item) : Prop := Forall (fun it => id_ok it.2) D.

Definition negate (D : list item) : list item := map (fun it => (- it.1, it.2)) D.

Definition signed (s : Z) (ks : list MessageId) : list item := map (pair s) ks.

(** One visit of a cell by an item. *)
Definition bump (s : Z) (k : MessageId) (c : IBLTCell.t) : IBLTCell.t := xor_in k (add_count s c).

Definition cell_ok (c : IBLTCell.t) : Prop :=
  length (key_sum c) = 16%nat /\ - 2 ^ 31 <= count c < 2 ^ 31.

Section Tables.
Context `{HB : Blake3} (n : Z).

(** The cell the [i]-th hash function gives a key in a table of [n] cells. *)
Definition cell_at (k : MessageId) (i : Z) : nat := Z.to_nat (IBLT.hash_value k i mod n).

Fixpoint hits_in (k : MessageId) (idxs : list Z) (j : nat) : nat :=
  match idxs with
  | [] => O
  | i :: idxs => ((if decide (cell_at k i = j) then 1 else 0) + hits_in k idxs j)%nat
  end.

(** How many of the three hash functions send the key to cell [j]. *)
Definition hits (k : MessageId) (j : nat) : nat := hits_in k IBLT.hash_indices j.

Fixpoint cell_of (D : list item) (j : nat) : IBLTCell.t :=
  match D with
  | [] => IBLTCell.new
  | it :: D => Nat.iter (hits it.2 j) (bump it.1 it.2) (cell_of D j)
  end.

Definition table_cells (D : list item) : list IBLTCell.t :=
  map (cell_of D) (seq 0 (Z.to_nat n)).

Definition table (D : list item) : IBLT.t := IBLT.mk (table_cells D) n.

Fixpoint total_hits (D : list item) (j : nat) : Z :=
  match D with
  | [] => 0
  | it :: D => Z.of_nat (hits it.2 j) + total_hits D j
  end.

Fixpoint signed_count (D : list item) (j : nat) : Z :=
  match D with
  | [] => 0
  | it :: D => it.1 * Z.of_nat (hits it.2 j) + signed_count D j
  end.
End Tables.

(** ** Cells *)

Lemma wrap_i32_idem a b : wrap_i32 (wrap_i32 a + b) = wrap_i32 (a + b).
Proof.
  unfold wrap_i32. f_equal.
  replace ((a + 2 ^ 31) mod 2 ^ 32 - 2 ^ 31 + b + 2 ^ 31) with ((a + 2 ^ 31) mod 2 ^ 32 + b) by lia.
  rewrite Z.add_mod_idemp_l by lia. f_equal. lia.
Qed.

Lemma wrap_i32_range z : - 2 ^ 31 <= wrap_i32 z < 2 ^ 31.
Proof. unfold wrap_i32. pose proof (Z.mod_pos_bound (z + 2 ^ 31) (2 ^ 32)). lia. Qed.

Lemma zip_lxor_comm (a b c : list Z) :
  zip_with Z.lxor (zip_with Z.lxor a b) c = zip_with Z.lxor (zip_with Z.lxor a c) b.
Proof.
  revert b c. induction a as [|x a IH]; intros [|y b] [|z c]; simpl; try done.
  rewrite IH. f_equal. rewrite !Z.lxor_assoc, (Z.lxor_comm y). done.
Qed.

Lemma zip_lxor_assoc (a b c : list Z) :
  zip_with Z.lxor a (zip_with Z.lxor b c) = zip_with Z.lxor (zip_with Z.lxor a b) c.
Proof.
  revert b c. induction a as [|x a IH]; intros [|y b] [|z c]; simpl; try done.
  rewrite IH, Z.lxor_assoc. done.
Qed.

Lemma zip_lxor_cancel (a b : list Z) :
  length a = length b -> zip_with Z.lxor (zip_with Z.lxor a b) b = a.
Proof.
  revert b. induction a as [|x a IH]; intros [|y b] Hl; simpl in *; try lia; [done|].
  rewrite IH by lia. rewrite Z.lxor_assoc, Z.lxor_nilpotent, Z.lxor_0_r. done.
Qed.

Lemma zip_lxor_zero_l (b : list Z) m :
  length b = m -> zip_with Z.lxor (replicate m 0) b = b.
Proof. intros <-. induction b; simpl; [done|]. f_equal; done. Qed.

Lemma zip_lxor_zero_r (a : list Z) m :
  length a = m -> zip_with Z.lxor a (replicate m 0) = a.
Proof. intros <-. induction a; simpl; [done|]. rewrite Z.lxor_0_r. f_equal; done. Qed.

Lemma id_ok_length k : id_ok k -> length k = 16%nat.
Proof. unfold id_ok, byte_array, len. intros [H _]. lia. Qed.

Lemma cell_ok_new : cell_ok IBLTCell.new.
Proof. split; [done|simpl; lia]. Qed.

Lemma cell_ok_bump s k c : id_ok k -> cell_ok c -> cell_ok (bump s k c).
Proof.
  intros Hk [Hl Hc]. apply id_ok_length in Hk. split; simpl; [|apply wrap_i32_range].
  rewrite length_zip_with. lia.
Qed.

Lemma bump_comm s k s' k' c : bump s k (bump s' k' c) = bump s' k' (bump s k c).
Proof.
  unfold bump, xor_in, add_count. simpl. f_equal.
  - rewrite !wrap_i32_idem. f_equal. lia.
  - apply zip_lxor_comm.
  - rewrite !Z.lxor_assoc. f_equal. apply Z.lxor_comm.
Qed.

Lemma bump_cancel s k c : id_ok k -> cell_ok c -> bump (- s) k (bump s k c) = c.
Proof.
  intros Hk [Hl Hc]. apply id_ok_length in Hk. destruct c as [ct ks kc]. simpl in *.
  unfold bump, xor_in, add_count. simpl. f_equal.
  - rewrite wrap_i32_idem, wrap_i32_small by lia. lia.
  - apply zip_lxor_cancel. lia.
  - rewrite Z.lxor_assoc, Z.lxor_nilpotent, Z.lxor_0_r. done.
Qed.

Lemma iter_preserves {A} (P : A -> Prop) f h x :
  (forall y, P y -> P (f y)) -> P x -> P (Nat.iter h f x).
Proof. intros Hf Hx. induction h; simpl; auto. Qed.

Lemma iter_commute {A} (f g : A -> A) h m x :
  (forall y, f (g y) = g (f y)) -> Nat.iter h f (Nat.iter m g x) = Nat.iter m g (Nat.iter h f x).
Proof.
  intros Hfg.
  assert (H1 : forall m y, f (Nat.iter m g y) = Nat.iter m g (f y)).
  { intros m' y. induction m' as [|m' IH]; simpl; [done|]. rewrite Hfg, IH. done. }
  induction h as [|h IH]; simpl; [done|]. rewrite IH, H1. done.
Qed.

Lemma iter_cancel {A} (P : A -> Prop) (f g : A -> A) h x :
  (forall y, P y -> P (f y)) -> (forall y, P y -> g (f y) = y) -> P x ->
  Nat.iter h g (Nat.iter h f x) = x.
Proof.
  intros Hf Hgf Hx. induction h as [|h IH]; [done|].
  rewrite Nat.iter_succ_r. simpl. rewrite Hgf by (apply iter_preserves; auto). exact IH.
Qed.

(** ** Denotation of a list of items *)

Section Denotation.
Context `{HB : Blake3} (n : Z).
Implicit Types (D : list item).

Lemma cell_ok_cell_of D j : items_ok D -> cell_ok (cell_of n D j).
Proof.
  induction 1 as [|it D Hit HD IH]; simpl; [apply cell_ok_new|].
  apply iter_preserves; [|done]. intros. apply cell_ok_bump; done.
Qed.

(** The order of insertions and removals is irrelevant. *)
Lemma cell_of_perm D1 D2 j : D1 ≡ₚ D2 -> cell_of n D1 j = cell_of n D2 j.
Proof.
  induction 1 as [|it D1 D2 _ IH|x y D|D1 D2 D3 _ IH1 _ IH2]; simpl; [done|congruence| |congruence].
  apply iter_commute. intros. apply bump_comm.
Qed.

Lemma table_perm D1 D2 : D1 ≡ₚ D2 -> table n D1 = table n D2.
Proof.
  intros H. unfold table, table_cells. f_equal. apply map_ext. intros. apply cell_of_perm. done.
Qed.

(** An insertion and a removal of the same key cancel. *)
Lemma cell_of_cancel s k D j : id_ok k -> items_ok D ->
  cell_of n ((- s, k) :: (s, k) :: D) j = cell_of n D j.
Proof.
  intros Hk HD. simpl. apply (iter_cancel cell_ok).
  - intros. apply cell_ok_bump; done.
  - intros. apply bump_cancel; done.
  - apply cell_ok_cell_of. done.
Qed.

Lemma table_cancel s k D : id_ok k -> items_ok D ->
  table n ((- s, k) :: (s, k) :: D) = table n D.
Proof.
  intros Hk HD. unfold table, table_cells. f_equal. apply map_ext.
  intros. apply cell_of_cancel; done.
Qed.

Lemma iter_bump_count h s k c :
  - 2 ^ 31 <= count c < 2 ^ 31 ->
  count (Nat.iter h (bump s k) c) = wrap_i32 (count c + s * Z.of_nat h).
Proof.
  intros Hc. induction h as [|h IH].
  - simpl. rewrite Z.mul_0_r, Z.add_0_r, wrap_i32_small; done.
  - simpl Nat.iter. cbn [bump xor_in add_count count]. rewrite IH, wrap_i32_idem. f_equal. lia.
Qed.

Lemma count_cell_of D j : items_ok D -> count (cell_of n D j) = wrap_i32 (signed_count n D j).
Proof.
  induction 1 as [|it D Hit HD IH]; [done|].
  cbn [cell_of signed_count].
  rewrite iter_bump_count by (apply cell_ok_cell_of; done).
  rewrite IH, wrap_i32_idem. f_equal. lia.
Qed.

Lemma total_hits_nonneg D j : 0 <= total_hits n D j.
Proof. induction D; simpl; lia. Qed.

Lemma total_hits_perm D1 D2 j : D1 ≡ₚ D2 -> total_hits n D1 j = total_hits n D2 j.
Proof. induction 1; simpl; lia. Qed.

Lemma total_hits_zero D j : total_hits n D j = 0 -> cell_of n D j = IBLTCell.new.
Proof.
  induction D as [|it D IH]; simpl; [done|]. pose proof (total_hits_nonneg D j). intros Ht.
  rewrite IH by lia. replace (hits n it.2 j) with 0%nat by lia. done.
Qed.

(** A cell visited once in all holds exactly the item that visited it. *)
Lemma total_hits_one D j : total_hits n D j = 1 ->
  exists it D', D ≡ₚ it :: D' /\ hits n it.2 j = 1%nat /\ total_hits n D' j = 0.
Proof.
  induction D as [|it D IH]; simpl; [done|]. pose proof (total_hits_nonneg D j). intros Ht.
  destruct (decide (total_hits n D j = 0)) as [H0|H0].
  - exists it, D. split_and!; [done|lia|done].
  - destruct IH as (it' & D' & HD & Hh & H0'); [lia|]. exists it', (it :: D').
    split_and!; [|done|simpl; lia]. rewrite HD. apply Permutation_swap.
Qed.

Lemma cell_of_single s k D j : id_ok k -> hits n k j = 1%nat -> total_hits n D j = 0 ->
  cell_of n ((s, k) :: D) j = IBLTCell.mk (wrap_i32 s) k (check_of k).
Proof.
  intros Hk Hh H0. simpl. rewrite Hh, total_hits_zero by done. simpl.
  unfold bump, xor_in, add_count. simpl. f_equal.
  apply (zip_lxor_zero_l k 16). apply id_ok_length. done.
Qed.
End Denotation.

(** ** The operations compute on tables *)

Lemma lookup_map_seq {A} (F : nat -> A) m i :
  map F (seq 0 m) !! i = if decide (i < m)%nat then Some (F i) else None.
Proof.
  change (map F (seq 0 m)) with (F <$> seq 0 m). rewrite list_lookup_fmap.
  case_decide; [rewrite lookup_seq_lt by done; done|].
  rewrite lookup_seq_ge by lia. done.
Qed.

Lemma insert_map_seq {A} (F : nat -> A) m i x :
  <[i := x]> (map F (seq 0 m)) = map (fun j => if decide (j = i) then x else F j) (seq 0 m).
Proof.
  apply list_eq. intros j. rewrite lookup_map_seq.
  destruct (decide (j = i)) as [->|Hne].
  - destruct (decide (i < m)%nat) as [Hi|Hi].
    + rewrite list_lookup_insert_eq by (rewrite length_map, length_seq; done).
      done.
    + apply lookup_ge_None_2. rewrite length_insert, length_map, length_seq. lia.
  - rewrite list_lookup_insert_ne by done. rewrite lookup_map_seq.
    done.
Qed.

Lemma modify_map_seq {E} f i (F : nat -> IBLTCell.t) m : 0 <= i < Z.of_nat m ->
  @IBLT.modify E f i (map F (seq 0 m)) =
  Ok (map (fun j => if decide (j = Z.to_nat i) then f (F j) else F j) (seq 0 m)).
Proof.
  intros Hi. unfold IBLT.modify, index. rewrite (proj2 (Z.leb_le _ _)) by lia.
  rewrite lookup_map_seq, decide_True by lia. rewrite insert_map_seq. f_equal.
  apply map_ext. intros j. case_decide; [subst|]; done.
Qed.

Section Operations.
Context `{HB : Blake3} {E : Type} (n : Z) (Hn : 1 <= n).
Implicit Types (D : list item).

(** The body shared by [insert], [remove] and the peeling step. *)
Definition visit (self : IBLT.t) (s : Z) (k : MessageId) (hash_idx : Z) (cs : list IBLTCell.t)
    : outcome E (list IBLTCell.t) :=
  let! cell_idx := IBLT.hash_to_cell self k hash_idx in
  let! cs := IBLT.modify (add_count s) cell_idx cs in
  IBLT.modify (xor_in k) cell_idx cs.

Lemma visit_map_seq cs0 s k i (F : nat -> IBLTCell.t) :
  visit (IBLT.mk cs0 n) s k i (map F (seq 0 (Z.to_nat n))) =
  Ok (map (fun j => if decide (cell_at n k i = j) then bump s k (F j) else F j) (seq 0 (Z.to_nat n))).
Proof using Hn.
  unfold visit, IBLT.hash_to_cell. simpl. rewrite (proj2 (Z.eqb_neq _ _)) by lia.
  pose proof (Z.mod_pos_bound (IBLT.hash_value k i) n).
  rewrite modify_map_seq by lia. rewrite modify_map_seq by lia. f_equal.
  apply map_ext. intros j. unfold cell_at, bump.
  repeat case_decide; try done; congruence.
Qed.

Lemma visits_map_seq cs0 s k idxs (F : nat -> IBLTCell.t) :
  for_each (visit (IBLT.mk cs0 n) s k) idxs (map F (seq 0 (Z.to_nat n))) =
  Ok (map (fun j => Nat.iter (hits_in n k idxs j) (bump s k) (F j)) (seq 0 (Z.to_nat n))).
Proof using Hn.
  revert F. induction idxs as [|i idxs IH]; intros F; cbn [for_each].
  - done.
  - rewrite visit_map_seq, IH. f_equal. apply map_ext. intros j. cbn [hits_in].
    case_decide; [|done]. rewrite <-Nat.iter_succ_r. done.
Qed.

Lemma visits_table cs0 s k D :
  for_each (visit (IBLT.mk cs0 n) s k) IBLT.hash_indices (table_cells n D) =
  Ok (table_cells n ((s, k) :: D)).
Proof using Hn. unfold table_cells. rewrite visits_map_seq. done. Qed.

Lemma insert_table k D : @IBLT.insert _ E k (table n D) = Ok (table n ((1, k) :: D)).
Proof using Hn.
  unfold IBLT.insert, table. cbn [IBLT.cells IBLT.num_cells].
  change (for_each _ _ _) with
    (for_each (visit (IBLT.mk (table_cells n D) n) 1 k) IBLT.hash_indices (table_cells n D)).
  rewrite visits_table. done.
Qed.

Lemma remove_table k D : @IBLT.remove _ E k (table n D) = Ok (table n ((-1, k) :: D)).
Proof using Hn.
  unfold IBLT.remove, table. cbn [IBLT.cells IBLT.num_cells].
  change (for_each _ _ _) with
    (for_each (visit (IBLT.mk (table_cells n D) n) (-1) k) IBLT.hash_indices (table_cells n D)).
  rewrite visits_table. done.
Qed.

Lemma with_cells_table : IBLT.with_cells n = table n [].
Proof using Hn.
  unfold IBLT.with_cells, table, table_cells. rewrite Z.max_l by lia. f_equal.
  apply list_eq. intros i. rewrite lookup_map_seq. case_decide.
  - rewrite lookup_replicate_2 by done. done.
  - apply lookup_ge_None_2. rewrite length_replicate. lia.
Qed.

(** Building the sketch of a list of ids, as the sync code does. *)
Lemma build_table ks D :
  for_each (fun k t => @IBLT.insert _ E k t) ks (table n D) = Ok (table n (signed 1 (rev ks) ++ D)).
Proof using Hn.
  revert D. induction ks as [|k ks IH]; intros D; cbn [for_each rev]; [done|].
  rewrite insert_table, IH. unfold signed. rewrite map_app, <-app_assoc. done.
Qed.

Lemma table_cells_replicate : table_cells n [] = replicate (Z.to_nat n) IBLTCell.new.
Proof using Hn.
  pose proof with_cells_table as H. unfold IBLT.with_cells, table in H. rewrite Z.max_l in H by lia.
  congruence.
Qed.
End Operations.

(** A loop that writes every entry of a vector. *)
Lemma for_each_write {E} (H : nat -> IBLTCell.t) (g : Z -> outcome E IBLTCell.t) s m cs :
  (s + m <= length cs)%nat ->
  (forall i, (s <= i < s + m)%nat -> g (Z.of_nat i) = Ok (H i)) ->
  for_each (fun i cs => let! x := g i in IBLT.modify (fun _ => x) i cs)
    (map Z.of_nat (seq s m)) cs = Ok (take s cs ++ map H (seq s m) ++ drop (s + m) cs).
Proof.
  revert s cs. induction m as [|m IH]; intros s cs Hl Hg; cbn [seq map for_each].
  - rewrite app_nil_l, Nat.add_0_r, take_drop. done.
  - rewrite Hg by lia. unfold IBLT.modify, index at 1.
    rewrite (proj2 (Z.leb_le _ _)), Nat2Z.id by lia.
    destruct (lookup_lt_is_Some_2 cs s) as [c Hc]; [lia|]. rewrite Hc.
    rewrite IH; [|rewrite length_insert; lia|intros; apply Hg; lia]. f_equal.
    rewrite (take_S_r _ _ (H s)) by (apply list_lookup_insert_eq; lia).
    rewrite take_insert_ge, drop_insert_lt by lia. rewrite <-app_assoc.
    replace (S s + m)%nat with (s + S m)%nat by lia. done.
Qed.
