(* ===== verification/SketchCorrect.v ===== *)
(** * Correctness of subtraction and decoding (core/src/drift/sketch.rs)

    Subtracting two sketches leaves the sketch of the differences.  The
    decoder is exact when the differences can be peeled and no mixed cell looks
    pure; for one-sided differences (one party only lacks messages) the second
    condition always holds, so a successful decode is never wrong. *)

From S2P Require Import Prelude Drift Sketch SketchSpec.
Import IBLTCell.

Section Peeling.
Context `{HB : Blake3} (n : Z).
Implicit Types (D : list item).

(** Items that can be removed one at a time, each from a cell it has for itself. *)
Inductive Peelable : list item -> Prop :=
| peel_nil : Peelable []
| peel_one D s k D' j :
    D ≡ₚ (s, k) :: D' -> (j < Z.to_nat n)%nat -> hits n k j = 1%nat ->
    total_hits n D' j = 0 -> Peelable D' -> Peelable D.

(** No cell of a part of the items looks pure without being visited just once. *)
Definition clean D : Prop :=
  forall D' j, D' ⊆+ D -> (j < Z.to_nat n)%nat ->
    is_pure (cell_of n D' j) = true -> total_hits n D' j = 1.

(** Every nonempty part of the items leaves a count that is not zero. *)
Definition visible D : Prop :=
  forall D', D' ⊆+ D -> D' <> [] ->
    exists j, (j < Z.to_nat n)%nat /\ is_empty (cell_of n D' j) = false.

Definition signs_ok D : Prop := Forall (fun it => it.1 = 1 \/ it.1 = -1) D.

Definition keys_of (s : Z) D : list MessageId := map snd (filter (fun it => it.1 = s) D).
End Peeling.

(** Building the sketch of a list of ids in a table of [n] cells, as the sync
    session does. *)
Definition sketch_of `{Blake3} {E} (n : Z) (ks : list MessageId) : outcome E IBLT.t :=
  for_each (fun k t => IBLT.insert k t) ks (IBLT.with_cells n).

(** ** Subtraction *)

Lemma wrap_i32_sub a b : wrap_i32 (a - wrap_i32 b) = wrap_i32 (a - b).
Proof.
  unfold wrap_i32. f_equal.
  replace (a - ((b + 2 ^ 31) mod 2 ^ 32 - 2 ^ 31) + 2 ^ 31)
    with ((a + 2 ^ 32) - (b + 2 ^ 31) mod 2 ^ 32) by lia.
  rewrite Zminus_mod_idemp_r. replace (a + 2 ^ 32 - (b + 2 ^ 31)) with (a - b + 2 ^ 31) by lia. done.
Qed.

Lemma subtract_cell_bump s k a b :
  IBLT.subtract_cell a (bump s k b) = bump (- s) k (IBLT.subtract_cell a b).
Proof.
  unfold IBLT.subtract_cell, bump, xor_in, add_count. simpl. f_equal.
  - rewrite wrap_i32_sub, wrap_i32_idem. f_equal. lia.
  - apply zip_lxor_assoc.
  - rewrite Z.lxor_assoc. done.
Qed.

Lemma subtract_cell_iter h s k a b :
  IBLT.subtract_cell a (Nat.iter h (bump s k) b) =
  Nat.iter h (bump (- s) k) (IBLT.subtract_cell a b).
Proof. induction h as [|h IH]; simpl; [done|]. rewrite subtract_cell_bump, IH. done. Qed.

Lemma subtract_cell_new a : cell_ok a -> IBLT.subtract_cell a IBLTCell.new = a.
Proof.
  intros [Hl Hc]. destruct a as [c ks kc]. simpl in *.
  unfold IBLT.subtract_cell. simpl. f_equal.
  - rewrite Z.sub_0_r, wrap_i32_small; done.
  - apply (zip_lxor_zero_r ks 16). done.
  - apply Z.lxor_0_r.
Qed.

Section Subtraction.
Context `{HB : Blake3} (n : Z) (Hn : 1 <= n).
Implicit Types (D A B : list item).

Lemma subtract_cell_of A B j : items_ok A ->
  IBLT.subtract_cell (cell_of n A j) (cell_of n B j) = cell_of n (negate B ++ A) j.
Proof.
  intros HA. induction B as [|it B IH]; simpl.
  - apply subtract_cell_new, cell_ok_cell_of. done.
  - rewrite subtract_cell_iter, IH. done.
Qed.

Lemma length_table_cells D : length (table_cells n D) = Z.to_nat n.
Proof. unfold table_cells. rewrite length_map, length_seq. done. Qed.

Lemma index_table_cells {E} D j : (j < Z.to_nat n)%nat ->
  @index E _ (table_cells n D) (Z.of_nat j) = Ok (cell_of n D j).
Proof.
  intros Hj. unfold index, table_cells. rewrite (proj2 (Z.leb_le _ _)), Nat2Z.id by lia.
  rewrite lookup_map_seq, decide_True by done. done.
Qed.

Lemma subtract_table A B : items_ok A ->
  IBLT.subtract (table n A) (table n B) = Ok (table n (negate B ++ A)).
Proof using Hn.
  intros HA. unfold IBLT.subtract, table. cbn [IBLT.cells IBLT.num_cells].
  rewrite Z.eqb_refl. cbn [negb]. rewrite with_cells_table by done. unfold table.
  cbn [IBLT.cells IBLT.num_cells].
  pose (g := fun i => let! a := index (table_cells n A) i in
                      let! b := index (table_cells n B) i in
                      @Ok DriftError _ (IBLT.subtract_cell a b)).
  rewrite (for_each_ext _ (fun i cs => let! x := g i in IBLT.modify (fun _ => x) i cs)).
  2: { intros i cs. unfold g. repeat (case_match; try done). }
  rewrite (for_each_write (cell_of n (negate B ++ A))).
  - rewrite drop_ge by (rewrite length_table_cells; lia). rewrite app_nil_r. done.
  - rewrite length_table_cells. lia.
  - intros i Hi. unfold g. rewrite !index_table_cells by lia.
    rewrite subtract_cell_of by done. done.
Qed.

Lemma items_ok_signed s ks : Forall id_ok ks -> items_ok (signed s ks).
Proof. induction 1; constructor; done. Qed.

Lemma items_ok_app D1 D2 : items_ok (D1 ++ D2) <-> items_ok D1 /\ items_ok D2.
Proof. apply Forall_app. Qed.

Lemma negate_signed s ks : negate (signed s ks) = signed (- s) ks.
Proof. unfold negate, signed. rewrite map_map. done. Qed.

Lemma signed_perm s ks1 ks2 : ks1 ≡ₚ ks2 -> signed s ks1 ≡ₚ signed s ks2.
Proof. apply Permutation_map. Qed.

(** The common elements disappear from a difference of sketches. *)
Lemma table_common (C : list MessageId) D : Forall id_ok C -> items_ok D ->
  table n (signed (-1) C ++ signed 1 C ++ D) = table n D.
Proof.
  intros HC HD. induction HC as [|k C Hk HC IH]; [done|].
  transitivity (table n ((- 1, k) :: (1, k) :: (signed (-1) C ++ signed 1 C ++ D))).
  - apply table_perm. simpl. apply Permutation_skip.
    rewrite (Permutation_app_comm (signed (-1) C) (signed 1 C ++ D)),
      (Permutation_app_comm (signed (-1) C) ((1, k) :: signed 1 C ++ D)). done.
  - rewrite <-IH. apply (table_cancel n 1 k); [done|]. apply items_ok_app. split; [apply items_ok_signed; done|].
    apply items_ok_app. split; [apply items_ok_signed; done|done].
Qed.

Lemma sketch_of_table {E} ks : @sketch_of _ E n ks = Ok (table n (signed 1 ks)).
Proof using Hn.
  unfold sketch_of. rewrite with_cells_table by done. rewrite build_table by done.
  rewrite app_nil_r. f_equal. apply table_perm, signed_perm. symmetry. apply Permutation_rev.
Qed.

Lemma sketch_difference (A B A' B' C : list MessageId) :
  Forall id_ok A -> Forall id_ok B -> A ≡ₚ C ++ A' -> B ≡ₚ C ++ B' ->
  IBLT.subtract (table n (signed 1 A)) (table n (signed 1 B)) =
  Ok (table n (signed 1 A' ++ signed (-1) B')).
Proof using Hn.
  intros HA HB' PA PB. rewrite subtract_table by (apply items_ok_signed; done).
  rewrite negate_signed. f_equal.
  rewrite PA in HA. rewrite PB in HB'. apply Forall_app in HA as [HC HA'].
  apply Forall_app in HB' as [_ HB'].
  rewrite <-(table_common C (signed 1 A' ++ signed (-1) B'));
    [|done|apply items_ok_app; split; apply items_ok_signed; done].
  apply table_perm. rewrite (signed_perm (-(1)) _ _ PB), (signed_perm 1 _ _ PA).
  unfold signed. rewrite !map_app. change (- (1)) with (-1).
  set (nC := map (pair (-1)) C). set (pC := map (pair 1) C). set (pA := map (pair 1) A').
  set (nB := map (pair (-1)) B'). rewrite <-app_assoc. apply Permutation_app_head.
  rewrite (Permutation_app_comm nB), <-app_assoc. done.
Qed.
End Subtraction.

(** ** Peeling *)

Lemma position_Some p l i : IBLT.position p l = Some i ->
  exists c, 0 <= i < len l /\ l !! Z.to_nat i = Some c /\ p c = true.
Proof.
  revert i. induction l as [|c l IH]; intros i Hi; simpl in Hi; [done|]. rewrite len_cons.
  destruct (p c) eqn:Hc.
  - inv Hi. exists c. pose proof (len_nonneg l). split_and!; [lia|lia|done|done].
  - destruct (IBLT.position p l) as [i'|]; [|done]. inv Hi.
    destruct (IH i' eq_refl) as (c' & Hi' & Hl & Hp). exists c'.
    replace (Z.to_nat (1 + i')) with (S (Z.to_nat i')) by lia. split_and!; [lia|lia|done|done].
Qed.

Lemma position_None p l : IBLT.position p l = None -> forall c, c ∈ l -> p c = false.
Proof.
  induction l as [|c l IH]; simpl; intros H c' Hc'; [by apply elem_of_nil in Hc'|].
  destruct (p c) eqn:Hp; [done|]. destruct (IBLT.position p l); [done|].
  apply elem_of_cons in Hc' as [->|Hc']; auto.
Qed.

Section Decoding.
Context `{HB : Blake3} (n : Z) (Hn : 1 <= n).
Implicit Types (D : list item) (a b : list MessageId).

Lemma elem_of_table_cells D j : (j < Z.to_nat n)%nat -> cell_of n D j ∈ table_cells n D.
Proof.
  intros Hj. apply list_elem_of_lookup. exists j. unfold table_cells.
  rewrite lookup_map_seq, decide_True by done. done.
Qed.

Lemma forallb_table_cells p D :
  forallb p (table_cells n D) = true <-> forall j, (j < Z.to_nat n)%nat -> p (cell_of n D j) = true.
Proof.
  rewrite forallb_forall. unfold table_cells. setoid_rewrite in_map_iff. split.
  - intros H j Hj. apply H. exists j. split; [done|]. apply in_seq. lia.
  - intros H c (j & <- & Hj). apply in_seq in Hj. apply H. lia.
Qed.

Lemma clean_submseteq D D' : clean n D -> D' ⊆+ D -> clean n D'.
Proof. intros H Hs D'' j H1. apply H. etrans; done. Qed.

Lemma visible_submseteq D D' : visible n D -> D' ⊆+ D -> visible n D'.
Proof. intros H Hs D'' H1. apply H. etrans; done. Qed.

Lemma submseteq_tail D it D' : D ≡ₚ it :: D' -> D' ⊆+ D.
Proof. intros ->. apply submseteq_cons. done. Qed.

(** Removing the item that owns cell [j] and clearing the cell gives the table
    of the remaining items. *)
Lemma peel_table cs0 s k D D' j : items_ok D -> D ≡ₚ (s, k) :: D' ->
  (j < Z.to_nat n)%nat -> total_hits n D' j = 0 ->
  (let! cs := for_each (@visit _ DriftError (IBLT.mk cs0 n) (- s) k) IBLT.hash_indices (table_cells n D) in
   IBLT.modify (fun _ => IBLTCell.new) (Z.of_nat j) cs) = Ok (table_cells n D').
Proof using Hn.
  intros HD P Hj H0. rewrite visits_table by done.
  assert (HD' : items_ok ((s, k) :: D')) by (unfold items_ok; rewrite <-P; done). inv HD'.
  assert (Ht : table_cells n ((- s, k) :: D) = table_cells n D').
  { assert (Hp : table n ((- s, k) :: D) = table n ((- s, k) :: (s, k) :: D'))
      by (apply table_perm; rewrite P; done).
    rewrite table_cancel in Hp by done. unfold table in Hp. congruence. }
  rewrite Ht. unfold table_cells at 1. rewrite modify_map_seq by lia. f_equal.
  rewrite Nat2Z.id. apply map_ext. intros i. case_decide; [subst|done].
  symmetry. apply total_hits_zero. done.
Qed.

(** One turn of the decoder on a table without deceptive cells. *)
Lemma decode_step cs0 fuel D a b : items_ok D -> signs_ok D -> clean n D ->
  (forall j, (j < Z.to_nat n)%nat -> is_pure (cell_of n D j) = false) /\
    IBLT.decode_loop (IBLT.mk cs0 n) (S fuel) (table_cells n D) a b =
      (if forallb is_empty (table_cells n D) then Ok (a, b)
       else Err (DecompressionFailed IBLT.stuck_msg)) \/
  exists s k D', D ≡ₚ (s, k) :: D' /\
    IBLT.decode_loop (IBLT.mk cs0 n) (S fuel) (table_cells n D) a b =
    IBLT.decode_loop (IBLT.mk cs0 n) fuel (table_cells n D')
      (if s =? 1 then a ++ [k] else a) (if s =? 1 then b else b ++ [k]).
Proof using Hn.
  intros HD HS HC. cbn [IBLT.decode_loop].
  destruct (IBLT.position is_pure (table_cells n D)) as [idx|] eqn:Hpos.
  - right. destruct (position_Some _ _ _ Hpos) as (c & Hidx & Hc & Hp).
    unfold len in Hidx. rewrite length_table_cells in Hidx. set (j := Z.to_nat idx) in *.
    assert (Hj : (j < Z.to_nat n)%nat) by lia. replace idx with (Z.of_nat j) by lia.
    rewrite index_table_cells by done.
    unfold table_cells in Hc. rewrite lookup_map_seq, decide_True in Hc by done. inv Hc.
    assert (H1 : total_hits n D j = 1) by (apply (HC D j); done).
    destruct (total_hits_one n D j H1) as ([s k] & D' & P & Hh & H0). simpl in Hh.
    assert (HD' : items_ok ((s, k) :: D')) by (unfold items_ok; rewrite <-P; done).
    assert (HS' : signs_ok ((s, k) :: D')) by (unfold signs_ok; rewrite <-P; done).
    apply Forall_cons in HD' as [Hk HD']. apply Forall_cons in HS' as [Hs HS'].
    cbn [fst snd] in Hk, Hs.
    rewrite (cell_of_perm n D _ j P), cell_of_single by done. cbn [key_sum key_check count].
    rewrite wrap_i32_small by lia. rewrite Z.eqb_refl. cbn [negb].
    exists s, k, D'. split; [done|].
    pose proof (peel_table cs0 s k D D' j HD P Hj H0) as Hpeel.
    change (for_each _ IBLT.hash_indices (table_cells n D))
      with (for_each (@visit _ DriftError (IBLT.mk cs0 n) (- s) k) IBLT.hash_indices (table_cells n D)).
    destruct (for_each (@visit _ DriftError (IBLT.mk cs0 n) (- s) k) IBLT.hash_indices
                (table_cells n D)) as [cs| |]; [|done|done].
    rewrite Hpeel. done.
  - left. split; [|done]. intros j Hj. apply (position_None _ _ Hpos).
    apply elem_of_table_cells. done.
Qed.

Lemma keys_of_perm s D1 D2 : D1 ≡ₚ D2 -> keys_of s D1 ≡ₚ keys_of s D2.
Proof. intros H. unfold keys_of. rewrite H. done. Qed.

Lemma keys_of_cons s s' k D :
  keys_of s ((s', k) :: D) = (if decide (s' = s) then [k] else []) ++ keys_of s D.
Proof. unfold keys_of. rewrite filter_cons. simpl. case_decide; done. Qed.

(** The order in which the decoder reports the keys. *)
Lemma keys_of_step s k D' a b a' b' D : D ≡ₚ (s, k) :: D' -> s = 1 \/ s = -1 ->
  a' ≡ₚ (if s =? 1 then a ++ [k] else a) ++ keys_of 1 D' ->
  b' ≡ₚ (if s =? 1 then b else b ++ [k]) ++ keys_of (-1) D' ->
  a' ≡ₚ a ++ keys_of 1 D /\ b' ≡ₚ b ++ keys_of (-1) D.
Proof.
  intros P Hs Ha Hb. rewrite (keys_of_perm 1 _ _ P), (keys_of_perm (-1) _ _ P), !keys_of_cons.
  destruct Hs as [-> | ->]; simpl in *; rewrite Ha, Hb, <-?app_assoc; done.
Qed.

Lemma Peelable_submseteq D D2 : Peelable n D -> D2 ⊆+ D -> Peelable n D2.
Proof.
  intros HP. revert D2. induction HP as [|D s k D' j P Hj Hh H0 HP IH]; intros D2 Hs.
  - apply submseteq_nil_r in Hs as ->. constructor.
  - rewrite P in Hs. apply submseteq_cons_r in Hs as [Hs|(D2' & P2 & Hs)]; [auto|].
    apply (peel_one n D2 s k D2' j); auto.
    assert (Hle : forall X Y, X ⊆+ Y -> total_hits n X j <= total_hits n Y j).
    { induction 1; simpl; lia. }
    pose proof (Hle _ _ Hs). pose proof (total_hits_nonneg n D2' j). lia.
Qed.

Lemma Peelable_pure D : items_ok D -> signs_ok D -> Peelable n D -> D <> [] ->
  exists j, (j < Z.to_nat n)%nat /\ is_pure (cell_of n D j) = true.
Proof.
  intros HD HS HP Hne. destruct HP as [|D s k D' j P Hj Hh H0 HP]; [done|].
  assert (HD' : items_ok ((s, k) :: D')) by (unfold items_ok; rewrite <-P; done).
  assert (HS' : signs_ok ((s, k) :: D')) by (unfold signs_ok; rewrite <-P; done).
  apply Forall_cons in HD' as [Hk _]. apply Forall_cons in HS' as [Hs _]. simpl in *.
  exists j. split; [done|]. rewrite (cell_of_perm n _ _ j P), cell_of_single by done.
  unfold is_pure. simpl. rewrite wrap_i32_small by lia. destruct Hs as [-> | ->]; done.
Qed.

(** Each item owns a cell of its own when it is peeled, so there are at most
    as many items as cells. *)
Lemma Peelable_length D : Peelable n D -> (length D <= Z.to_nat n)%nat.
Proof.
  intros HP.
  assert (H : exists js, length js = length D /\ NoDup js /\
    forall j, j ∈ js -> (j < Z.to_nat n)%nat /\ 0 < total_hits n D j).
  { induction HP as [|D s k D' j P Hj Hh H0 HP (js & Hl & Hnd & Hjs)].
    - exists []. split_and!; [done|constructor|]. intros j Hj. by apply elem_of_nil in Hj.
    - exists (j :: js). split_and!.
      + rewrite (Permutation_length P). simpl. lia.
      + apply NoDup_cons. split; [|done]. intros Hin. apply Hjs in Hin. lia.
      + intros i Hi. rewrite (total_hits_perm n _ _ i P). simpl.
        pose proof (total_hits_nonneg n D' i).
        apply elem_of_cons in Hi as [->|Hi]; [split; [done|lia]|].
        apply Hjs in Hi. split; [|lia]. destruct Hi. done. }
  destruct H as (js & <- & Hnd & Hjs).
  rewrite <-(length_seq (Z.to_nat n) 0). apply submseteq_length.
  apply NoDup_submseteq; [done|]. intros j Hj. apply Hjs in Hj. apply elem_of_seq. lia.
Qed.

Lemma decode_complete cs0 fuel D a b :
  items_ok D -> signs_ok D -> clean n D -> Peelable n D -> (length D < fuel)%nat ->
  exists a' b', IBLT.decode_loop (IBLT.mk cs0 n) fuel (table_cells n D) a b = Ok (a', b') /\
    a' ≡ₚ a ++ keys_of 1 D /\ b' ≡ₚ b ++ keys_of (-1) D.
Proof using Hn.
  revert D a b. induction fuel as [|fuel IH]; intros D a b HD HS HC HP Hf; [lia|].
  destruct (decode_step cs0 fuel D a b HD HS HC) as [[Hno ->]|(s & k & D' & P & ->)].
  - destruct D as [|it D].
    + rewrite (proj2 (forallb_table_cells is_empty [])) by done.
      exists a, b. rewrite !app_nil_r. done.
    + exfalso. destruct (Peelable_pure (it :: D)) as (j & Hj & Hp); [done..|].
      rewrite Hno in Hp; done.
  - assert (HD' : items_ok ((s, k) :: D')) by (unfold items_ok; rewrite <-P; done).
    assert (HS' : signs_ok ((s, k) :: D')) by (unfold signs_ok; rewrite <-P; done).
    apply Forall_cons in HD' as [Hk HD']. apply Forall_cons in HS' as [Hs HS'].
    pose proof (submseteq_tail _ _ _ P) as Hsub. pose proof (Permutation_length P) as Hl.
    destruct (IH D' (if s =? 1 then a ++ [k] else a) (if s =? 1 then b else b ++ [k]))
      as (a' & b' & -> & Ha & Hb);
      [done|done|eapply clean_submseteq; done|eapply Peelable_submseteq; done|simpl in Hl; lia|].
    exists a', b'. split; [done|]. eapply keys_of_step; done.
Qed.

Lemma decode_sound cs0 fuel D a b a' b' :
  items_ok D -> signs_ok D -> clean n D -> visible n D ->
  IBLT.decode_loop (IBLT.mk cs0 n) fuel (table_cells n D) a b = Ok (a', b') ->
  a' ≡ₚ a ++ keys_of 1 D /\ b' ≡ₚ b ++ keys_of (-1) D.
Proof using Hn.
  revert D a b. induction fuel as [|fuel IH]; intros D a b HD HS HC HV H; [done|].
  destruct (decode_step cs0 fuel D a b HD HS HC) as [[Hno Heq]|(s & k & D' & P & Heq)];
    rewrite Heq in H.
  - destruct (forallb is_empty (table_cells n D)) eqn:Hall; [|done]. inv H.
    destruct D as [|it D]; [rewrite !app_nil_r; done|]. exfalso.
    destruct (HV (it :: D)) as (j & Hj & Hne); [done|done|].
    rewrite forallb_table_cells in Hall. rewrite Hall in Hne; done.
  - assert (HD' : items_ok ((s, k) :: D')) by (unfold items_ok; rewrite <-P; done).
    assert (HS' : signs_ok ((s, k) :: D')) by (unfold signs_ok; rewrite <-P; done).
    apply Forall_cons in HD' as [Hk HD']. apply Forall_cons in HS' as [Hs HS'].
    pose proof (submseteq_tail _ _ _ P) as Hsub.
    apply IH in H as [Ha Hb]; [|done|done|eapply clean_submseteq; done|eapply visible_submseteq; done].
    eapply keys_of_step; done.
Qed.
End Decoding.

(** ** Linearity of the key check *)

Lemma lxor_mod a b w : 0 <= w -> Z.lxor a b mod 2 ^ w = Z.lxor (a mod 2 ^ w) (b mod 2 ^ w).
Proof.
  intros Hw. apply Z.bits_inj'. intros m Hm. rewrite Z.lxor_spec.
  destruct (decide (m < w)).
  - rewrite !Z.mod_pow2_bits_low by done. rewrite Z.lxor_spec. done.
  - rewrite !Z.mod_pow2_bits_high by lia. done.
Qed.

Lemma u8_lxor a b : u8 a -> u8 b -> u8 (Z.lxor a b).
Proof.
  intros Ha Hb. rewrite <-(wrap_small 8 a Ha), <-(wrap_small 8 b Hb). unfold wrap.
  rewrite <-lxor_mod by lia. apply fits_wrap. lia.
Qed.

Lemma bytes_lxor a b : bytes a -> bytes b -> bytes (zip_with Z.lxor a b).
Proof.
  intros Ha. revert b. induction Ha as [|x a Hx Ha IH]; intros [|y b] Hb; simpl; try constructor.
  - inv Hb. apply u8_lxor; done.
  - inv Hb. apply IH. done.
Qed.

Lemma from_le_bytes_lxor a b : length a = length b -> bytes a -> bytes b ->
  from_le_bytes (zip_with Z.lxor a b) = Z.lxor (from_le_bytes a) (from_le_bytes b).
Proof.
  intros Hl Ha. revert b Hl. induction Ha as [|x a Hx Ha IH]; intros [|y b] Hl Hb; simpl in Hl;
    try lia; [done|].
  inv Hb. change (from_le_bytes (zip_with Z.lxor (x :: a) (y :: b)))
    with (Z.lxor x y + 256 * from_le_bytes (zip_with Z.lxor a b)).
  rewrite IH by (done || lia).
  change (from_le_bytes (x :: a)) with (x + 256 * from_le_bytes a).
  change (from_le_bytes (y :: b)) with (y + 256 * from_le_bytes b).
  set (X := from_le_bytes a). set (Y := from_le_bytes b). unfold fits in *.
  rewrite (Z.div_mod (Z.lxor (x + 256 * X) (y + 256 * Y)) (2 ^ 8)) by lia.
  rewrite lxor_mod, <-Z.shiftr_div_pow2, Z.shiftr_lxor, !Z.shiftr_div_pow2 by lia.
  change (2 ^ 8) with 256. rewrite !(Z.mul_comm 256), !Z.div_add, !Z.mod_add by lia.
  rewrite !Z.div_small, !Z.mod_small, !Z.add_0_l by lia. lia.
Qed.

(** The invariant of a cell: its check is the check of its key sum. *)
Definition cell_linear (c : IBLTCell.t) : Prop :=
  byte_array 16 (key_sum c) /\ key_check c = check_of (key_sum c).

Lemma cell_linear_new : cell_linear IBLTCell.new.
Proof. split; [by_eval|reflexivity]. Qed.

Lemma check_of_lxor a b : byte_array 16 a -> byte_array 16 b ->
  check_of (zip_with Z.lxor a b) = Z.lxor (check_of a) (check_of b).
Proof.
  intros [La Ba] [Lb Bb]. unfold check_of, len in *. rewrite zip_with_take.
  apply from_le_bytes_lxor; [rewrite !length_take; lia|apply Forall_take; done..].
Qed.

Lemma byte_array_lxor a b : byte_array 16 a -> byte_array 16 b ->
  byte_array 16 (zip_with Z.lxor a b).
Proof.
  intros [La Ba] [Lb Bb]. split; [|apply bytes_lxor; done].
  unfold len in *. rewrite length_zip_with. lia.
Qed.

Lemma cell_linear_xor_in k c : id_ok k -> cell_linear c -> cell_linear (xor_in k c).
Proof.
  intros Hk [Hb Hc]. split; simpl; [apply byte_array_lxor; done|].
  rewrite Hc, check_of_lxor by done. done.
Qed.

Lemma cell_linear_add_count d c : cell_linear c -> cell_linear (add_count d c).
Proof. done. Qed.

Lemma cell_linear_cell_of `{Blake3} n D j : items_ok D -> cell_linear (cell_of n D j).
Proof.
  induction 1 as [|it D Hit HD IH]; [apply cell_linear_new|]. simpl.
  apply iter_preserves; [|done]. intros c Hc. apply cell_linear_xor_in; done.
Qed.

Section LinearDecoding.
Context `{HB : Blake3} (self : IBLT.t).
Context (Hn : 1 <= IBLT.num_cells self).
Implicit Types (cs : list IBLTCell.t).

Definition cells_linear cs : Prop :=
  len cs = IBLT.num_cells self /\ Forall cell_linear cs.

Lemma modify_linear {E} f i cs : (forall c, cell_linear c -> cell_linear (f c)) ->
  0 <= i < IBLT.num_cells self -> cells_linear cs ->
  exists cs', @IBLT.modify E f i cs = Ok cs' /\ cells_linear cs'.
Proof.
  intros Hf Hi [Hl Hcs]. unfold IBLT.modify.
  destruct (index_in_range (E := E) cs i) as (c & -> & Hc); [lia|].
  eexists. split; [done|]. split; [rewrite len_insert; done|].
  apply Forall_insert; [done|]. apply Hf. eapply Forall_lookup_1; done.
Qed.

Lemma visits_linear {E} s k idxs cs : id_ok k -> cells_linear cs ->
  exists cs', for_each (@visit _ E self s k) idxs cs = Ok cs' /\ cells_linear cs'.
Proof using Hn.
  intros Hk. revert cs. induction idxs as [|i idxs IH]; intros cs Hcs; cbn [for_each]; [eauto|].
  unfold visit at 1, IBLT.hash_to_cell. rewrite (proj2 (Z.eqb_neq _ _)) by lia.
  pose proof (Z.mod_pos_bound (IBLT.hash_value k i) (IBLT.num_cells self) ltac:(lia)).
  destruct (modify_linear (E := E) (add_count s) (IBLT.hash_value k i mod IBLT.num_cells self) cs)
    as (cs1 & -> & H1); [apply cell_linear_add_count|done|done|].
  destruct (modify_linear (E := E) (xor_in k) (IBLT.hash_value k i mod IBLT.num_cells self) cs1)
    as (cs2 & -> & H2); [intros; apply cell_linear_xor_in; done|done|done|].
  apply IH. done.
Qed.

(** The decoder neither panics nor reports a check mismatch on linear cells. *)
Lemma decode_loop_linear fuel cs a b : cells_linear cs ->
  IBLT.decode_loop self fuel cs a b <> Panic /\
  IBLT.decode_loop self fuel cs a b <> Err (DecompressionFailed IBLT.mismatch_msg).
Proof using Hn.
  revert cs a b. induction fuel as [|fuel IH]; intros cs a b Hcs; [done|].
  cbn [IBLT.decode_loop]. destruct (IBLT.position is_pure cs) as [i|] eqn:Hpos.
  2: { case_match; done. }
  destruct (position_Some _ _ _ Hpos) as (c & Hi & Hc & _).
  destruct (index_in_range (E := DriftError) cs i) as (c' & -> & Hc'); [done|].
  assert (Hlin : cell_linear c') by (eapply Forall_lookup_1; [apply Hcs|done]).
  destruct Hlin as [Hk Hck]. rewrite Hck, Z.eqb_refl. cbn [negb].
  destruct (visits_linear (E := DriftError) (- count c') (key_sum c') IBLT.hash_indices cs)
    as (cs1 & Hv & H1); [done|done|].
  change (for_each _ IBLT.hash_indices cs)
    with (for_each (@visit _ DriftError self (- count c') (key_sum c')) IBLT.hash_indices cs).
  rewrite Hv.
  destruct (modify_linear (E := DriftError) (fun _ => IBLTCell.new) i cs1) as (cs2 & -> & H2);
    [intros; apply cell_linear_new|destruct Hcs; lia|done|].
  apply IH. done.
Qed.
End LinearDecoding.

(** ** Sufficient conditions *)

Section Conditions.
Context `{HB : Blake3} (n : Z) (Hn : 1 <= n).
Implicit Types (D : list item).

Lemma total_hits_submseteq D D' j : D' ⊆+ D -> total_hits n D' j <= total_hits n D j.
Proof. induction 1; simpl; lia. Qed.

Lemma items_ok_submseteq D D' : items_ok D -> D' ⊆+ D -> items_ok D'.
Proof.
  unfold items_ok. rewrite !Forall_forall. intros H Hs it Hit. apply H.
  eapply elem_of_submseteq; done.
Qed.

Lemma pure_hits D j : items_ok D -> is_pure (cell_of n D j) = true -> total_hits n D j <> 0.
Proof. intros HD Hp H0. rewrite total_hits_zero in Hp by done. done. Qed.

(** Items that share no cell are clean. *)
Lemma clean_disjoint D : items_ok D ->
  (forall j, (j < Z.to_nat n)%nat -> total_hits n D j <= 1) -> clean n D.
Proof.
  intros HD H1 D' j Hs Hj Hp. pose proof (total_hits_submseteq D D' j Hs).
  pose proof (pure_hits D' j (items_ok_submseteq _ _ HD Hs) Hp).
  pose proof (total_hits_nonneg n D' j). specialize (H1 j Hj). lia.
Qed.

Lemma hits_in_le k idxs j : (hits_in n k idxs j <= length idxs)%nat.
Proof. induction idxs as [|i idxs IH]; simpl; [lia|]. case_decide; lia. Qed.

Lemma total_hits_le D j : total_hits n D j <= 3 * len D.
Proof.
  induction D as [|it D IH]; [unfold len; simpl; lia|]. cbn [total_hits]. rewrite len_cons.
  assert (hits n it.2 j <= 3)%nat by apply hits_in_le. lia.
Qed.

Lemma signed_count_one_sided s D j : Forall (fun it => it.1 = s) D ->
  signed_count n D j = s * total_hits n D j.
Proof. induction 1 as [|it D Hit _ IH]; simpl; [lia|]. rewrite Hit, IH. lia. Qed.

(** Differences of one sign: the counts are the numbers of visits. *)
Section OneSided.
Context (s : Z) (Hs : s = 1 \/ s = -1) (D : list item).
Context (HD : items_ok D) (HDs : Forall (fun it => it.1 = s) D) (HDl : 3 * len D < 2 ^ 31).

Lemma one_sided_count D' j : D' ⊆+ D -> count (cell_of n D' j) = s * total_hits n D' j.
Proof using HD HDs HDl Hs.
  clear Hn. intros Hsub. rewrite count_cell_of by (eapply items_ok_submseteq; done).
  rewrite (signed_count_one_sided s).
  2: { rewrite Forall_forall in *. intros it Hit. apply HDs. eapply elem_of_submseteq; done. }
  pose proof (total_hits_nonneg n D' j). pose proof (total_hits_submseteq D D' j Hsub).
  pose proof (total_hits_le D j). apply wrap_i32_small. destruct Hs as [-> | ->]; lia.
Qed.

Lemma clean_one_sided : clean n D.
Proof using HD HDs HDl Hs.
  clear Hn. intros D' j Hsub Hj Hp. pose proof (one_sided_count D' j Hsub) as Hc.
  pose proof (total_hits_nonneg n D' j). unfold is_pure in Hp. apply orb_true_iff in Hp.
  rewrite !Z.eqb_eq in Hp. destruct Hs as [-> | ->]; lia.
Qed.

Lemma visible_one_sided : visible n D.
Proof using HD HDs HDl Hs Hn.
  intros D' Hsub Hne. destruct D' as [|it D']; [done|].
  pose (j := cell_at n it.2 0). exists j.
  pose proof (Z.mod_pos_bound (IBLT.hash_value it.2 0) n ltac:(lia)).
  split; [unfold j, cell_at; lia|]. unfold is_empty. rewrite one_sided_count by done.
  apply Z.eqb_neq. cbn [total_hits]. pose proof (total_hits_nonneg n D' j).
  assert (1 <= hits n it.2 j)%nat.
  { unfold hits, IBLT.hash_indices. simpl. rewrite decide_True by done. lia. }
  destruct Hs as [-> | ->]; lia.
Qed.
End OneSided.

Lemma keys_of_signed s ks : keys_of s (signed s ks) = ks.
Proof.
  unfold signed. induction ks as [|k ks IH]; [done|]. cbn [map]. rewrite keys_of_cons, decide_True by done.
  rewrite IH. done.
Qed.

Lemma keys_of_signed_ne s s' ks : s <> s' -> keys_of s (signed s' ks) = [].
Proof.
  intros Hne. unfold signed. induction ks as [|k ks IH]; [done|]. cbn [map].
  rewrite keys_of_cons, decide_False by congruence. done.
Qed.

Lemma keys_of_app s D1 D2 : keys_of s (D1 ++ D2) = keys_of s D1 ++ keys_of s D2.
Proof. unfold keys_of. rewrite filter_app, map_app. done. Qed.

Lemma signs_ok_signed s ks : s = 1 \/ s = -1 -> signs_ok (signed s ks).
Proof. intros Hs. apply Forall_map, Forall_true. done. Qed.
End Conditions.

(** ** Theorems *)

Section SketchTheorems.
Context `{HB : Blake3}.

(** Subtracting and decoding the tables of two id lists gives their differences. *)
Lemma reconcile_tables (n : Z) (A B A' B' C : list MessageId) :
  1 <= n -> Forall id_ok A -> Forall id_ok B -> A ≡ₚ C ++ A' -> B ≡ₚ C ++ B' ->
  clean n (signed 1 A' ++ signed (-1) B') -> Peelable n (signed 1 A' ++ signed (-1) B') ->
  exists diff a b,
    IBLT.subtract (table n (signed 1 A)) (table n (signed 1 B)) = Ok diff /\
    IBLT.decode diff = Ok (a, b) /\ a ≡ₚ A' /\ b ≡ₚ B'.
Proof.
  intros Hn HA HB' PA PB Hc Hp.
  assert (Hit : items_ok (signed 1 A' ++ signed (-1) B')).
  { rewrite PA in HA. rewrite PB in HB'. apply Forall_app in HA as [_ HA].
    apply Forall_app in HB' as [_ HB']. apply items_ok_app. split; apply items_ok_signed; done. }
  assert (Hs : signs_ok (signed 1 A' ++ signed (-1) B')).
  { apply Forall_app. split; apply signs_ok_signed; auto. }
  pose proof (Peelable_length n Hn _ Hp) as Hl.
  destruct (decode_complete n Hn (table_cells n (signed 1 A' ++ signed (-1) B'))
    (Z.to_nat (n * 10)) (signed 1 A' ++ signed (-1) B') [] []) as (a & b & Hd & Ha & Hb);
    [done|done|done|done|lia|].
  rewrite keys_of_app, keys_of_signed, keys_of_signed_ne, app_nil_r in Ha by lia.
  rewrite keys_of_app, keys_of_signed, keys_of_signed_ne in Hb by lia.
  eexists _, a, b. split_and!; [apply (sketch_difference n Hn A B A' B' C); done| |done|done].
  exact Hd.
Qed.

(** C5. Reconciliation works: two parties with ids [A] and [B] that differ by
    [A'] on one side and [B'] on the other build sketches of the same size,
    subtract them and decode.  When the difference can be peeled and is clean (no
    cell that mixes ids looks pure; the check of the code cannot tell, see
    [is_pure]), decoding succeeds within the iteration limit and reports exactly
    [A'] and [B'], however many ids they have in common. *)
Theorem sketch_reconciles (n : Z) (A B A' B' C : list MessageId) :
  1 <= n -> Forall id_ok A -> Forall id_ok B -> A ≡ₚ C ++ A' -> B ≡ₚ C ++ B' ->
  clean n (signed 1 A' ++ signed (-1) B') -> Peelable n (signed 1 A' ++ signed (-1) B') ->
  exists ta tb diff a b,
    @sketch_of _ DriftError n A = Ok ta /\ @sketch_of _ DriftError n B = Ok tb /\
    IBLT.subtract ta tb = Ok diff /\ IBLT.decode diff = Ok (a, b) /\ a ≡ₚ A' /\ b ≡ₚ B'.
Proof.
  intros Hn HA HB' PA PB Hc Hp. rewrite !sketch_of_table by done.
  destruct (reconcile_tables n A B A' B' C) as (diff & a & b & Hd); [done..|].
  eexists _, _, diff, a, b. done.
Qed.

(** When one party only lacks messages (its ids are among the other's), a
    decode that succeeds is exactly right, whatever the hash function does:
    the missing ids [M] are reported on the right side and nothing else is. *)
Theorem sketch_one_sided_exact (n : Z) (A B M : list MessageId) (ta tb diff : IBLT.t)
    (a b : list MessageId) :
  1 <= n -> Forall id_ok A -> Forall id_ok B -> 3 * len M < 2 ^ 31 ->
  @sketch_of _ DriftError n A = Ok ta -> @sketch_of _ DriftError n B = Ok tb ->
  IBLT.subtract ta tb = Ok diff -> IBLT.decode diff = Ok (a, b) ->
  (A ≡ₚ B ++ M -> a ≡ₚ M /\ b = []) /\ (B ≡ₚ A ++ M -> b ≡ₚ M /\ a = []).
Proof.
  intros Hn HA HB' HM Eta Etb Hsub Hdec. rewrite sketch_of_table in Eta, Etb by done.
  simplify_eq.
  assert (Hone : forall s A' B', s = 1 \/ s = -1 -> Forall id_ok M ->
    signed 1 A' ++ signed (-1) B' = signed s M ->
    IBLT.subtract (table n (signed 1 A)) (table n (signed 1 B)) =
      Ok (table n (signed 1 A' ++ signed (-1) B')) ->
    a ≡ₚ keys_of 1 (signed s M) /\ b ≡ₚ keys_of (-1) (signed s M)).
  { intros s A' B' Hs HMok Heq Hsub'. rewrite Heq, Hsub in Hsub'. inv Hsub'.
    assert (Hside : Forall (fun it : item => it.1 = s) (signed s M)) by (apply Forall_map, Forall_true; done).
    assert (Hlen : 3 * len (signed s M) < 2 ^ 31) by (unfold signed; rewrite len_map; done).
    pose proof (items_ok_signed s M HMok) as Hok.
    apply (decode_sound n Hn (table_cells n (signed s M)) (Z.to_nat (n * 10)) (signed s M) [] []);
      [done|apply signs_ok_signed; done|apply (clean_one_sided n s); done
      |apply (visible_one_sided n Hn s); done|exact Hdec]. }
  split; intros P.
  - rewrite P in HA. apply Forall_app in HA as [_ HMok].
    destruct (Hone 1 M [] ltac:(auto) HMok ltac:(apply app_nil_r)) as [Ha Hb].
    + apply (sketch_difference n Hn A B M [] B); [rewrite P; apply Forall_app; done|done|done|].
      rewrite app_nil_r. done.
    + rewrite keys_of_signed in Ha. rewrite keys_of_signed_ne in Hb by lia.
      apply Permutation_nil_r in Hb. done.
  - rewrite P in HB'. apply Forall_app in HB' as [_ HMok].
    destruct (Hone (-1) [] M ltac:(auto) HMok ltac:(done)) as [Ha Hb].
    + apply (sketch_difference n Hn A B [] M A); [done|rewrite P; apply Forall_app; done| |done].
      rewrite app_nil_r. done.
    + rewrite keys_of_signed_ne in Ha by lia. rewrite keys_of_signed in Hb.
      apply Permutation_nil_r in Ha. done.
Qed.

(** The decoder cannot panic on a difference of sketches, and its key-check
    test can never fire there: the check of a cell is always the check of its
    key sum, so it does not tell a mixed cell from a pure one. *)
Lemma key_check_vacuous (n : Z) (A B : list MessageId) :
  1 <= n -> Forall id_ok A -> Forall id_ok B ->
  exists ta tb diff, @sketch_of _ DriftError n A = Ok ta /\ @sketch_of _ DriftError n B = Ok tb /\
    IBLT.subtract ta tb = Ok diff /\
    Forall (fun c => key_check c = check_of (key_sum c)) (IBLT.cells diff) /\
    IBLT.decode diff <> Panic /\
    IBLT.decode diff <> Err (DecompressionFailed IBLT.mismatch_msg).
Proof.
  intros Hn HA HB'. rewrite !sketch_of_table by done. eexists _, _, _.
  split; [done|]. split; [done|].
  rewrite subtract_table by (done || (apply items_ok_signed; done)). rewrite negate_signed.
  split; [done|]. set (D := signed (- (1)) B ++ signed 1 A).
  assert (HD : items_ok D) by (apply items_ok_app; split; apply items_ok_signed; done).
  assert (Hlin : Forall cell_linear (table_cells n D)).
  { apply Forall_map, Forall_true. intros j. apply cell_linear_cell_of. done. }
  assert (Hcl : cells_linear (table n D) (table_cells n D)).
  { split; [|done]. unfold len. rewrite length_table_cells. cbn [table IBLT.num_cells]. lia. }
  split_and!.
  - eapply Forall_impl; [exact Hlin|]. intros c [_ Hc]. done.
  - apply decode_loop_linear; [done|]. done.
  - apply decode_loop_linear; [done|]. done.
Qed.

(** If an id of one party and an id of the other visit the same cells, all
    counts are zero and decoding reports that the parties are in sync. *)
Lemma hidden_difference (n : Z) (x y : MessageId) :
  1 <= n -> id_ok x -> id_ok y -> (forall j, hits n x j = hits n y j) ->
  exists tx ty diff, @sketch_of _ DriftError n [x] = Ok tx /\ @sketch_of _ DriftError n [y] = Ok ty /\
    IBLT.subtract tx ty = Ok diff /\ IBLT.decode diff = Ok ([], []).
Proof.
  intros Hn Hx Hy Hh. rewrite !sketch_of_table by done. eexists _, _, _.
  split; [done|]. split; [done|].
  rewrite subtract_table by (done || (apply items_ok_signed, Forall_singleton; done)).
  split; [done|]. set (D := _ ++ _).
  assert (HD : items_ok D) by (apply Forall_cons; split; [done|apply Forall_singleton; done]).
  assert (H0 : forall j, count (cell_of n D j) = 0).
  { intros j. rewrite count_cell_of by done. simpl. rewrite Hh.
    rewrite wrap_i32_small by lia. lia. }
  clearbody D. unfold IBLT.decode. cbn [table IBLT.cells IBLT.num_cells].
  replace (Z.to_nat (n * 10)) with (S (Z.to_nat (n * 10 - 1))) by lia. cbn [IBLT.decode_loop].
  destruct (IBLT.position is_pure (table_cells n D)) as [i|] eqn:Hpos.
  - exfalso. destruct (position_Some _ _ _ Hpos) as (c & _ & Hc & Hp).
    unfold table_cells in Hc. rewrite lookup_map_seq in Hc. case_decide; [|done]. inv Hc.
    unfold is_pure in Hp. rewrite H0 in Hp. done.
  - rewrite (proj2 (forallb_table_cells n is_empty D)); [done|].
    intros j _. unfold is_empty. rewrite H0. done.
Qed.

(** What the decoder does not see.  On a difference of sketches it cannot
    panic and its key-check test never fires (the check of a cell is always the
    check of its key sum, so it does not tell a mixed cell from a pure one);
    and if an id of one party and an id of the other visit the same cells, all
    counts are zero and a successful decode reports that the parties are in
    sync. *)
Theorem sketch_blind_spots (n : Z) (A B : list MessageId) (x y : MessageId) :
  1 <= n -> Forall id_ok A -> Forall id_ok B -> id_ok x -> id_ok y ->
  (exists ta tb diff, @sketch_of _ DriftError n A = Ok ta /\ @sketch_of _ DriftError n B = Ok tb /\
    IBLT.subtract ta tb = Ok diff /\
    Forall (fun c => key_check c = check_of (key_sum c)) (IBLT.cells diff) /\
    IBLT.decode diff <> Panic /\
    IBLT.decode diff <> Err (DecompressionFailed IBLT.mismatch_msg)) /\
  ((forall j, hits n x j = hits n y j) ->
   exists tx ty diff, @sketch_of _ DriftError n [x] = Ok tx /\ @sketch_of _ DriftError n [y] = Ok ty /\
     IBLT.subtract tx ty = Ok diff /\ IBLT.decode diff = Ok ([], [])).
Proof. intros Hn HA HB' Hx Hy. split; [by apply key_check_vacuous|by apply hidden_difference]. Qed.
End SketchTheorems.

(** ** Witnesses *)

Lemma sample_ids_ok zs : Forall id_ok (map sample_id zs).
Proof. apply Forall_map, Forall_true. intros z. apply sample_id_ok. Qed.

Definition sample_items : list item := signed 1 (map sample_id [1]) ++ signed (-1) (map sample_id [2]).

Lemma sample_items_ok : items_ok sample_items.
Proof. apply items_ok_app. split; apply items_ok_signed, sample_ids_ok. Qed.

Lemma sample_items_peelable : @Peelable sample_blake3 24 sample_items.
Proof.
  apply (@peel_one sample_blake3 24 _ 1 (sample_id 1) [(-1, sample_id 2)] 16); [done|simpl; lia|done|done|].
  apply (@peel_one sample_blake3 24 _ (-1) (sample_id 2) [] 8); [done|simpl; lia|done|done|].
  apply peel_nil.
Qed.

Lemma sample_items_clean : @clean sample_blake3 24 sample_items.
Proof.
  apply clean_disjoint; [lia|exact sample_items_ok|].
  assert (H : Forall (fun j => @total_hits sample_blake3 24 sample_items j <= 1) (seq 0 24)) by by_eval.
  intros j Hj. rewrite Forall_forall in H. apply H, elem_of_seq. simpl in Hj. lia.
Qed.

Lemma sketch_reconciles_witness :
  exists ta tb diff a b,
    @sketch_of sample_blake3 DriftError 24 (map sample_id [3; 1]) = Ok ta /\
    @sketch_of sample_blake3 DriftError 24 (map sample_id [2; 3]) = Ok tb /\
    IBLT.subtract ta tb = Ok diff /\ @IBLT.decode sample_blake3 diff = Ok (a, b) /\
    a ≡ₚ map sample_id [1] /\ b ≡ₚ map sample_id [2].
Proof.
  apply (@sketch_reconciles sample_blake3 24 (map sample_id [3; 1]) (map sample_id [2; 3])
           (map sample_id [1]) (map sample_id [2]) (map sample_id [3]));
    [lia|apply sample_ids_ok|apply sample_ids_ok|done|apply Permutation_swap
    |exact sample_items_clean|exact sample_items_peelable].
Defined.

Lemma sketch_one_sided_exact_witness :
  exists ta tb diff,
    @sketch_of sample_blake3 DriftError 24 (map sample_id [3; 1]) = Ok ta /\
    @sketch_of sample_blake3 DriftError 24 (map sample_id [3]) = Ok tb /\
    IBLT.subtract ta tb = Ok diff /\
    @IBLT.decode sample_blake3 diff = Ok (map sample_id [1], []) /\
    ((map sample_id [3; 1] ≡ₚ map sample_id [3] ++ map sample_id [1] ->
       map sample_id [1] ≡ₚ map sample_id [1] /\ @nil MessageId = []) /\
     (map sample_id [3] ≡ₚ map sample_id [3; 1] ++ map sample_id [1] ->
       @nil MessageId ≡ₚ map sample_id [1] /\ map sample_id [1] = [])).
Proof.
  do 3 eexists. split; [vm_compute; reflexivity|]. split; [vm_compute; reflexivity|].
  split; [vm_compute; reflexivity|]. split; [vm_compute; reflexivity|].
  eapply (@sketch_one_sided_exact sample_blake3 24 (map sample_id [3; 1]) (map sample_id [3])
            (map sample_id [1]));
    [lia|apply sample_ids_ok|apply sample_ids_ok|vm_compute; reflexivity
    |vm_compute; reflexivity|vm_compute; reflexivity|vm_compute; reflexivity|vm_compute; reflexivity].
Defined.

Lemma sketch_blind_spots_witness :
  exists tx ty diff,
    @sketch_of sample_blake3 DriftError 24 [sample_id 1] = Ok tx /\
    @sketch_of sample_blake3 DriftError 24 [sample_id 4] = Ok ty /\
    IBLT.subtract tx ty = Ok diff /\ @IBLT.decode sample_blake3 diff = Ok ([], []).
Proof.
  apply (@sketch_blind_spots sample_blake3 24 (map sample_id [3; 1]) (map sample_id [2; 3]) (sample_id 1) (sample_id 4));
    [lia|apply sample_ids_ok|apply sample_ids_ok|apply sample_id_ok|apply sample_id_ok|].
  intros j; vm_compute; reflexivity.
Defined.
