(* ===== verification/SketchWire.v ===== *)
(** * The wire format of sketches (core/src/drift/sketch.rs, [to_bytes] and [from_bytes]) *)

From S2P Require Import Prelude Drift Sketch.
Import IBLTCell.

(** What the Rust type says of a cell, and of a table built by the code. *)
Definition cell_wf (c : IBLTCell.t) : Prop :=
  - 2 ^ 31 <= count c < 2 ^ 31 /\ byte_array 16 (key_sum c) /\ u32 (key_check c).

Definition iblt_wf (t : IBLT.t) : Prop :=
  len (IBLT.cells t) = IBLT.num_cells t /\ Forall cell_wf (IBLT.cells t).

#[export] Instance cell_wf_dec c : Decision (cell_wf c).
Proof. unfold cell_wf. apply _. Defined.

#[export] Instance iblt_wf_dec t : Decision (iblt_wf t).
Proof. unfold iblt_wf. apply _. Defined.

(** A count survives the trip as its low byte, read back without a sign. *)
Definition wire_cell (c : IBLTCell.t) : IBLTCell.t :=
  IBLTCell.mk (wrap 8 (count c)) (key_sum c) (key_check c).

Definition wire_iblt (t : IBLT.t) : IBLT.t :=
  IBLT.mk (map wire_cell (IBLT.cells t)) (IBLT.num_cells t).

Lemma len_cell_bytes c : cell_wf c -> len (IBLT.cell_bytes c) = 21.
Proof.
  intros (_ & [Hl _] & _). unfold IBLT.cell_bytes. autorewrite with rust_simp. lia.
Qed.

Lemma len_concat_cells cs : Forall cell_wf cs ->
  len (concat (map IBLT.cell_bytes cs)) = 21 * len cs.
Proof.
  induction 1 as [|c cs Hc Hcs IH]; [done|]. cbn [map concat].
  rewrite len_app, len_cons, len_cell_bytes, IH by done. lia.
Qed.

(** Reading a cell where it was written. *)
Lemma read_cell_at hdr pre c post : len hdr = 2 -> cell_wf c -> Forall cell_wf pre ->
  IBLT.read_cell (hdr ++ concat (map IBLT.cell_bytes (pre ++ c :: post))) (len pre) =
  Ok (wire_cell c).
Proof.
  intros Hh Hc Hpre. pose proof (len_concat_cells pre Hpre) as Hl.
  rewrite map_app, concat_app. cbn [map concat].
  set (P := concat (map IBLT.cell_bytes pre)) in *. set (Q := concat _).
  unfold IBLT.cell_bytes. destruct Hc as (_ & [Hk _] & Hcc).
  replace (hdr ++ P ++ ([wrap 8 (count c)] ++ key_sum c ++ u32_to_le_bytes (key_check c)) ++ Q)
    with ((hdr ++ P) ++ wrap 8 (count c) :: (key_sum c ++ u32_to_le_bytes (key_check c) ++ Q))
    by (rewrite <-!app_assoc; done).
  unfold IBLT.read_cell. rewrite index_at by (rewrite len_app; lia).
  replace ((hdr ++ P) ++ wrap 8 (count c) :: (key_sum c ++ u32_to_le_bytes (key_check c) ++ Q))
    with ((hdr ++ P ++ [wrap 8 (count c)]) ++ key_sum c ++ (u32_to_le_bytes (key_check c) ++ Q))
    by (rewrite <-!app_assoc; done).
  rewrite slice_at by (autorewrite with rust_simp; lia).
  replace ((hdr ++ P ++ [wrap 8 (count c)]) ++ key_sum c ++ (u32_to_le_bytes (key_check c) ++ Q))
    with ((hdr ++ P ++ [wrap 8 (count c)] ++ key_sum c) ++ u32_to_le_bytes (key_check c) ++ Q)
    by (rewrite <-!app_assoc; done).
  rewrite read_u32_at by (autorewrite with rust_simp; lia).
  rewrite from_le_u32 by done. done.
Qed.

Lemma for_each_collect {E A} (g : Z -> outcome E A) (H : nat -> A) s m acc :
  (forall i, (s <= i < s + m)%nat -> g (Z.of_nat i) = Ok (H i)) ->
  for_each (fun i cs => let! c := g i in Ok (cs ++ [c])) (map Z.of_nat (seq s m)) acc =
  Ok (acc ++ map H (seq s m)).
Proof.
  revert s acc. induction m as [|m IH]; intros s acc Hg; cbn [seq map for_each].
  - rewrite app_nil_r. done.
  - rewrite Hg by lia. rewrite IH by (intros; apply Hg; lia). rewrite <-app_assoc. done.
Qed.

Lemma read_cell_in_range data n i : bytes data -> len data = 2 + n * 21 -> 0 <= i < n ->
  exists c, IBLT.read_cell data i = Ok c /\ cell_wf c.
Proof.
  intros Hd Hl Hi. unfold IBLT.read_cell.
  destruct (index_in_range (E := DriftError) data (2 + i * 21)) as (ct & Hct & _); [lia|].
  assert (Hct' := Forall_index _ _ _ _ Hd Hct). rewrite Hct.
  pose proof (slice_in_range (E := DriftError) data (2 + i * 21 + 1) (2 + i * 21 + 17)
                ltac:(lia) ltac:(lia)) as Hks.
  pose proof (slice_in_range (E := DriftError) data (2 + i * 21 + 17) (2 + i * 21 + 17 + 4)
                ltac:(lia) ltac:(lia)) as Hkc.
  rewrite Hks, (read_u32_slice _ _ _ Hkc). eexists. split; [done|].
  pose proof (Forall_slice _ _ _ _ _ Hd Hks). pose proof (Forall_slice _ _ _ _ _ Hd Hkc) as Hb.
  apply slice_Ok in Hks as (_ & _ & _ & Hks). apply slice_Ok in Hkc as (_ & _ & _ & Hkc).
  apply from_le_bytes_range in Hb. rewrite Hkc in Hb.
  replace (8 * (2 + i * 21 + 17 + 4 - (2 + i * 21 + 17))) with 32 in Hb by lia.
  unfold cell_wf, byte_array, fits in *. cbn [count key_sum key_check].
  split_and!; [lia|lia|lia|done|lia|lia].
Qed.

Lemma lookup_seq_map {A} (f : IBLTCell.t -> A) cs m d : m = length cs ->
  map (fun i => default d (f <$> cs !! i)) (seq 0 m) = map f cs.
Proof.
  intros ->. induction cs as [|c cs IH]; [done|]. cbn [length seq map]. f_equal.
  rewrite <-seq_shift, map_map. rewrite <-IH. done.
Qed.

(** From a result for each index to a function of the index. *)
Lemma cells_choice (g : Z -> outcome DriftError IBLTCell.t) m :
  (forall i, (i < m)%nat -> exists c, g (Z.of_nat i) = Ok c /\ cell_wf c) ->
  exists H : nat -> IBLTCell.t,
    (forall i, (i < m)%nat -> g (Z.of_nat i) = Ok (H i)) /\ (forall i, (i < m)%nat -> cell_wf (H i)).
Proof.
  intros Hg.
  exists (fun i => match g (Z.of_nat i) with Ok c => c | _ => IBLTCell.new end).
  split; intros i Hi; destruct (Hg i Hi) as (c & Hc & Hwf); rewrite Hc; done.
Qed.

Lemma wire_roundtrip (t : IBLT.t) :
  iblt_wf t -> IBLT.num_cells t <= 65535 ->
  exists data, IBLT.to_bytes t = Ok data /\ len data = IBLT.serialized_size t /\
    IBLT.from_bytes data = Ok (wire_iblt t) /\
    (Forall (fun c => 0 <= count c < 256) (IBLT.cells t) -> IBLT.from_bytes data = Ok t).
Proof.
  intros [Hl Hcs] Hn. destruct t as [cs n]. cbn [IBLT.cells IBLT.num_cells] in *.
  pose proof (len_nonneg cs). pose proof (len_concat_cells cs Hcs) as Hcat.
  unfold IBLT.to_bytes. cbn [IBLT.cells IBLT.num_cells]. zbool.
  rewrite wrap_small by (unfold fits; lia).
  assert (Hfrom : IBLT.from_bytes (u16_to_le_bytes n ++ concat (map IBLT.cell_bytes cs)) =
                  Ok (wire_iblt (IBLT.mk cs n))).
  { unfold IBLT.from_bytes. rewrite len_app, len_u16_to_le_bytes, Hcat.
    rewrite (proj2 (Z.ltb_ge _ _)) by lia.
    rewrite read_u16_prefix by apply len_u16_to_le_bytes.
    rewrite from_le_u16 by (unfold fits; lia). rewrite (proj2 (Z.eqb_eq _ _)) by lia. cbn [negb].
    rewrite (for_each_collect _ (fun i => default IBLTCell.new (wire_cell <$> cs !! i))).
    - unfold wire_iblt. cbn [IBLT.cells IBLT.num_cells app]. f_equal. f_equal.
      rewrite <-(lookup_seq_map wire_cell cs (Z.to_nat n) IBLTCell.new) by (unfold len in Hl; lia). done.
    - intros i Hi. destruct (lookup_lt_is_Some_2 cs i) as [c Hc]; [unfold len in Hl; lia|].
      rewrite Hc. change (default _ _) with (wire_cell c). pose proof (take_drop_middle cs i c Hc) as Hsplit.
      rewrite <-Hsplit in Hcs. apply Forall_app in Hcs as [Hpre Hc']. inv Hc'.
      replace (map IBLT.cell_bytes cs)
        with (map IBLT.cell_bytes (take i cs ++ c :: drop (S i) cs)) by (rewrite Hsplit; done).
      replace (Z.of_nat i) with (len (take i cs))
        by (apply lookup_lt_Some in Hc; unfold len; rewrite length_take; lia).
      apply read_cell_at; [apply len_u16_to_le_bytes|done|done]. }
  eexists. split; [done|]. split_and!; [|done|].
  - unfold IBLT.serialized_size. cbn [IBLT.num_cells]. rewrite len_app, len_u16_to_le_bytes. lia.
  - intros Hsmall. rewrite Hfrom. unfold wire_iblt. cbn [IBLT.cells IBLT.num_cells]. do 2 f_equal.
    rewrite <-(map_id cs) at 2. apply map_ext_Forall. apply (Forall_impl _ _ _ Hsmall).
    intros [ct ks kc] Hc. unfold wire_cell. simpl in *. rewrite wrap_small; done.
Qed.

Lemma from_bytes_safe (data : list Z) :
  bytes data ->
  IBLT.from_bytes data <> Panic /\
  forall t, IBLT.from_bytes data = Ok t -> iblt_wf t /\ 0 <= IBLT.num_cells t <= 65535.
Proof.
  intros Hd. unfold IBLT.from_bytes.
  destruct (len data <? 2) eqn:H2; [done|]. bool_to_prop.
  destruct (split_at 2 data) as (cl & body & -> & Hcl & Hbody); [lia|].
  rewrite read_u16_prefix by done.
  apply bytes_app in Hd as Hd'. destruct Hd' as [Hbc _]. apply from_le_bytes_range in Hbc.
  rewrite Hcl in Hbc. unfold fits in Hbc. set (n := from_le_bytes cl) in *.
  destruct (len (cl ++ body) =? 2 + n * 21) eqn:Hlen; [|done]. cbn [negb]. bool_to_prop.
  assert (Hread : forall i, (i < Z.to_nat n)%nat -> exists c,
    IBLT.read_cell (cl ++ body) (Z.of_nat i) = Ok c /\ cell_wf c).
  { intros i Hi. apply (read_cell_in_range _ n); [done|done|lia]. }
  destruct (cells_choice (IBLT.read_cell (cl ++ body)) (Z.to_nat n) Hread) as (H & HH & Hwf).
  rewrite (for_each_collect _ H) by (intros; apply HH; lia). split; [done|].
  intros t Ht. inv Ht. unfold iblt_wf. cbn [IBLT.cells IBLT.num_cells app].
  split_and!; [unfold len; rewrite length_map, length_seq; lia| |lia|lia].
  apply Forall_map, Forall_forall. intros i Hi. apply Hwf. apply elem_of_seq in Hi. lia.
Qed.

(** ** Theorems *)

(** The wire format of a sketch: a table of at most 65535 cells serializes to
    2 + 21 n bytes and parses back with every count reduced to its low byte
    (so exactly, when the counts are between 0 and 255); parsing untrusted
    bytes never panics, and returns as many cells as the header says, each
    with fields of the right width. *)
Theorem sketch_wire_roundtrip (t : IBLT.t) (bs : list Z) :
  iblt_wf t -> IBLT.num_cells t <= 65535 -> bytes bs ->
  (exists data, IBLT.to_bytes t = Ok data /\ len data = IBLT.serialized_size t /\
    IBLT.from_bytes data = Ok (wire_iblt t) /\
    (Forall (fun c => 0 <= count c < 256) (IBLT.cells t) -> IBLT.from_bytes data = Ok t)) /\
  IBLT.from_bytes bs <> Panic /\
  forall u, IBLT.from_bytes bs = Ok u -> iblt_wf u /\ 0 <= IBLT.num_cells u <= 65535.
Proof. intros Ht Hn Hb. split; [by apply wire_roundtrip|by apply from_bytes_safe]. Qed.

(** ** Witnesses *)

Definition sample_iblt : IBLT.t :=
  IBLT.mk [IBLTCell.mk 2 (sample_id 5) 7; IBLTCell.mk (-1) (sample_id 6) 8] 2.

Lemma sketch_wire_roundtrip_witness :
  (exists data, IBLT.to_bytes sample_iblt = Ok data /\
    IBLT.from_bytes data = Ok (wire_iblt sample_iblt)) /\ IBLT.from_bytes [0; 0] <> Panic.
Proof.
  destruct (sketch_wire_roundtrip sample_iblt [0; 0]) as [(data & H1 & _ & H2 & _) [H3 _]];
    [by_eval | vm_compute; discriminate | by_eval |].
  split; [exists data; split; [exact H1|exact H2]|exact H3].
Defined.
