(* ===== verification/Backend.v ===== *)
(** * Storage backends (core/src/store/backend.rs) and serialization

    The trait [StorageBackend] is a class of operations with its laws stated
    against the abstract contents (a map from keys to values); the stores
    are verified against the laws, and [MemoryStorage] discharges them.  An
    operation of a backend may fail; the laws speak of the ones that succeed.

    [bincode] is a third-party crate: a class, with the round trip that its
    users rely on. *)

From S2P Require Import Prelude.

Abbreviation Bytes := (list Z).

(** [str::as_bytes]: a string is the sequence of its UTF-8 bytes. *)
Definition as_bytes (s : string) : Bytes :=
  map (fun c => Z.of_N (Ascii.N_of_ascii c)) (String.list_ascii_of_string s).

(** [ScanResult]. *)
Definition ScanResult : Type := list (Bytes * Bytes).

(** The trait: methods take the backend's state and return the new one. *)
Class StorageBackend (B : Type) : Type := {
  put : Bytes -> Bytes -> B -> outcome string B;
  get : Bytes -> B -> outcome string (option Bytes);
  remove : Bytes -> B -> outcome string B;
  scan_prefix : Bytes -> B -> outcome string ScanResult;
  count_prefix : Bytes -> B -> outcome string Z;
  flush : B -> outcome string B;
  approximate_size : B -> outcome string Z
}.

(** [for key in keys { let _ = db.remove(&key); }] and [let _ = db.flush();]:
    failures are ignored. *)
Definition remove_all {B} `{StorageBackend B} (keys : list Bytes) (db : B) : B :=
  foldl (fun db key => unwrap_or db (remove key db)) db keys.

Definition flush_ignored {B} `{StorageBackend B} (db : B) : B := unwrap_or db (flush db).

(** The entries of a key-value map whose key starts with a prefix. *)
Definition with_prefix (p : Bytes) (m : gmap Bytes Bytes) : gmap Bytes Bytes :=
  filter (fun kv => p `prefix_of` kv.1) m.

(** What a backend promises to its clients. *)
Class StorageBackendSpec (B : Type) `{StorageBackend B} : Type := {
  contents : B -> gmap Bytes Bytes;
  put_ok : forall k v b b', put k v b = Ok b' -> contents b' = <[k := v]> (contents b);
  get_ok : forall k b r, get k b = Ok r -> r = contents b !! k;
  remove_ok : forall k b b', remove k b = Ok b' -> contents b' = delete k (contents b);
  scan_prefix_ok : forall p b r, scan_prefix p b = Ok r ->
    r ≡ₚ map_to_list (with_prefix p (contents b));
  count_prefix_ok : forall p b n, count_prefix p b = Ok n ->
    n = Z.of_nat (size (with_prefix p (contents b)));
  flush_ok : forall b b', flush b = Ok b' -> contents b' = contents b
}.

(** ** Keys *)

Lemma as_bytes_app a b : as_bytes (a +:+ b) = as_bytes a ++ as_bytes b.
Proof. induction a as [|c a IH]; simpl; [done|]. unfold as_bytes in *. simpl. by rewrite IH. Qed.

Lemma as_bytes_inj a b : as_bytes a = as_bytes b -> a = b.
Proof.
  revert b. induction a as [|c a IH]; intros [|d b]; try done. unfold as_bytes in *. simpl.
  intros H. injection H as Hc Hab. f_equal; [|by apply IH].
  apply N2Z.inj in Hc. rewrite <-(Ascii.ascii_N_embedding c), <-(Ascii.ascii_N_embedding d). by rewrite Hc.
Qed.

(** An id without the separator, as hexadecimal and base-58 ids are. *)
Definition plain (p : string) : Prop := 95 ∉ as_bytes p.

#[export] Instance plain_dec p : Decision (plain p).
Proof. unfold plain. apply _. Defined.

Lemma separator_prefix (a b l l' : Bytes) : 95 ∉ a -> 95 ∉ b ->
  (a ++ 95 :: l) `prefix_of` (b ++ 95 :: l') -> a = b.
Proof.
  revert b. induction a as [|x a IH]; intros [|y b] Ha Hb H; simpl in H; try done.
  - apply prefix_cons_inv_1 in H as <-. destruct Hb. left.
  - apply prefix_cons_inv_1 in H as ->. destruct Ha. left.
  - pose proof (prefix_cons_inv_1 _ _ _ _ H) as ->. apply prefix_cons_inv_2 in H.
    f_equal. apply (IH b); [| |done]; intros Hin; [apply Ha|apply Hb]; by right.
Qed.

(** A backend whose operations succeed. *)
Class Reliable (B : Type) `{StorageBackend B} : Prop := {
  put_total : forall k v (b : B), exists b', put k v b = Ok b';
  get_total : forall k (b : B), exists r, get k b = Ok r;
  remove_total : forall k (b : B), exists b', remove k b = Ok b';
  scan_total : forall p (b : B), exists r, scan_prefix p b = Ok r;
  count_total : forall p (b : B), exists n, count_prefix p b = Ok n;
  flush_total : forall b : B, exists b', flush b = Ok b'
}.

Section ReliableBackend.
Context {B : Type} `{HB : StorageBackend B} {HBS : StorageBackendSpec B} {HBR : Reliable B}.

Lemma flush_contents db : contents (flush_ignored db) = contents db.
Proof.
  unfold flush_ignored. destruct (flush_total db) as [b' Hb']. rewrite Hb'. simpl.
  by apply flush_ok.
Qed.

Lemma remove_all_contents keys db :
  contents (remove_all keys db) = filter (fun kv => kv.1 ∉ keys) (contents db).
Proof.
  revert db. induction keys as [|k keys IH]; intros db; simpl.
  - symmetry. apply map_filter_id. intros i x _ Hin. by apply elem_of_nil in Hin.
  - rewrite IH. destruct (remove_total k db) as [b' Hb']. rewrite Hb'. simpl.
    rewrite (remove_ok _ _ _ Hb'). apply map_eq. intros i. apply option_eq. intros v.
    rewrite !map_lookup_filter_Some, lookup_delete_Some, not_elem_of_cons. simpl. intuition congruence.
Qed.

End ReliableBackend.

Module MemoryStorage.

Definition t : Type := gmap Bytes Bytes.

Definition new : t := ∅.

Section Operations.
Context {MI : MapIter Bytes Bytes}.

Definition put (key value : Bytes) (data : t) : outcome string t := Ok (<[key := value]> data).

Definition get (key : Bytes) (data : t) : outcome string (option Bytes) := Ok (data !! key).

Definition remove (key : Bytes) (data : t) : outcome string t := Ok (delete key data).

Definition scan_prefix (prefix : Bytes) (data : t) : outcome string ScanResult :=
  Ok (foldl (fun results (kv : Bytes * Bytes) =>
       if bool_decide (prefix `prefix_of` kv.1) then results ++ [kv] else results)
     [] (map_iter data)).

Definition count_prefix (prefix : Bytes) (data : t) : outcome string Z :=
  Ok (len (filter (fun k => prefix `prefix_of` k) (map_iter data).*1)).

Definition flush (data : t) : outcome string t := Ok data.

Definition approximate_size (data : t) : outcome string Z :=
  Ok (foldr Z.add 0 (map (fun kv : Bytes * Bytes => len kv.1 + len kv.2) (map_iter data))).

#[export] Instance storage_backend : StorageBackend t :=
  {| Backend.put := put; Backend.get := get; Backend.remove := remove;
     Backend.scan_prefix := scan_prefix; Backend.count_prefix := count_prefix;
     Backend.flush := flush; Backend.approximate_size := approximate_size |}.

Lemma scan_filter prefix data :
  scan_prefix prefix data = Ok (filter (fun kv => prefix `prefix_of` kv.1) (map_iter data)).
Proof.
  unfold scan_prefix. f_equal.
  assert (H : forall acc l, foldl (fun results (kv : Bytes * Bytes) =>
      if bool_decide (prefix `prefix_of` kv.1) then results ++ [kv] else results) acc l =
      acc ++ filter (fun kv => prefix `prefix_of` kv.1) l).
  { intros acc l. revert acc. induction l as [|kv l IH]; intros acc; simpl; [by rewrite app_nil_r|].
    rewrite IH, filter_cons. repeat case_decide; case_bool_decide; try done.
    rewrite <-app_assoc. done. }
  rewrite H. done.
Qed.

Lemma filter_fst_length (p : Bytes) (l : list (Bytes * Bytes)) :
  length (filter (fun k => p `prefix_of` k) l.*1) = length (filter (fun kv => p `prefix_of` kv.1) l).
Proof.
  induction l as [|kv l IH]; [done|]. cbn [fmap list_fmap]. rewrite !filter_cons.
  repeat case_decide; simpl; congruence.
Qed.

#[export] Instance storage_backend_spec : StorageBackendSpec t.
Proof.
  refine {| contents := fun b : t => b |}; simpl.
  - intros k v b b' H. by inv H.
  - intros k b r H. by inv H.
  - intros k b b' H. by inv H.
  - intros p b r H. rewrite scan_filter in H. inv H. apply map_iter_filter.
  - intros p b n H. inv H. unfold len. f_equal. rewrite <-length_map_to_list.
    unfold with_prefix. rewrite <-map_iter_filter. apply filter_fst_length.
  - intros b b' H. by inv H.
Defined.

End Operations.
End MemoryStorage.

Lemma memory_storage_reliable {MI : MapIter Bytes Bytes} : @Reliable MemoryStorage.t (MemoryStorage.storage_backend (MI := MI)).
Proof. split; intros; eexists; reflexivity. Qed.

(** ** [bincode] *)

Class Bincode (A : Type) : Type := {
  bincode_serialize : A -> outcome string Bytes;
  bincode_deserialize : Bytes -> outcome string A
}.

(** What a value that was serialized gives back; reading a buffer never panics. *)
Class BincodeSpec (A : Type) `{Bincode A} : Prop := {
  bincode_roundtrip : forall a d, bincode_serialize a = Ok d -> bincode_deserialize d = Ok a;
  bincode_serialize_total : forall a : A, exists d, bincode_serialize a = Ok d;
  bincode_no_panic : forall d, bincode_deserialize d <> Panic
}.

(** Values as sequences of strings and numbers: a compact enumeration of record
    types, for the codecs of witnesses. *)
Class Layout (A : Type) : Type := {
  to_atoms : A -> list (string + Z);
  from_atoms : list (string + Z) -> option (A * list (string + Z));
  from_to_atoms : forall a l, from_atoms (to_atoms a ++ l) = Some (a, l)
}.

#[export] Instance layout_string : Layout string.
Proof.
  refine {| to_atoms s := [inl s];
            from_atoms l := match l with inl s :: l => Some (s, l) | _ => None end |}.
  done.
Defined.

#[export] Instance layout_Z : Layout Z.
Proof.
  refine {| to_atoms z := [inr z];
            from_atoms l := match l with inr z :: l => Some (z, l) | _ => None end |}.
  done.
Defined.

#[export] Instance layout_prod {A B} `{Layout A, Layout B} : Layout (A * B).
Proof.
  refine {| to_atoms p := to_atoms p.1 ++ to_atoms p.2;
            from_atoms l := '(a, l) ← from_atoms l; '(b, l) ← from_atoms l; Some ((a, b), l) |}.
  intros [a b] l. cbn. rewrite <-app_assoc, from_to_atoms. cbn. by rewrite from_to_atoms.
Defined.

#[export] Instance layout_option {A} `{Layout A} : Layout (option A).
Proof.
  refine {| to_atoms o := match o with None => [inr 0] | Some a => inr 1 :: to_atoms a end;
            from_atoms l :=
              match l with
              | inr n :: l => if n =? 0 then Some (None, l) else '(a, l) ← from_atoms l; Some (Some a, l)
              | _ => None
              end |}.
  intros [a|] l; cbn; [by rewrite from_to_atoms|done].
Defined.

Fixpoint take_atoms {A} `{Layout A} (n : nat) (l : list (string + Z)) : option (list A * list (string + Z)) :=
  match n with
  | O => Some ([], l)
  | S n => '(a, l) ← from_atoms l; '(r, l) ← take_atoms n l; Some (a :: r, l)
  end.

#[export] Instance layout_list {A} `{Layout A} : Layout (list A).
Proof.
  refine {| to_atoms l := inr (len l) :: concat (map to_atoms l);
            from_atoms l := match l with inr n :: l => take_atoms (Z.to_nat n) l | _ => None end |}.
  intros r l. cbn. unfold len. rewrite Nat2Z.id. induction r as [|a r IH]; cbn; [done|].
  rewrite <-app_assoc, from_to_atoms. cbn. by rewrite IH.
Defined.

(** A type of records, by its tuple of fields. *)
Definition layout_iso {A B} `{Layout B} (f : A -> B) (g : B -> A) (Hgf : forall a, g (f a) = a) : Layout A.
Proof.
  refine {| to_atoms a := to_atoms (f a);
            from_atoms l := '(b, l) ← from_atoms l; Some (g b, l) |}.
  intros a l. cbn. rewrite from_to_atoms. cbn. by rewrite Hgf.
Defined.

Definition layout_countable {A} `{EqDecision A} `{Layout A} : Countable A.
Proof.
  apply (inj_countable to_atoms (fun l => fst <$> from_atoms l)).
  intros a. rewrite <-(app_nil_r (to_atoms a)), from_to_atoms. done.
Defined.

(** A codec for witnesses: the enumeration of a countable type, base 256. *)
Definition sample_bincode (A : Type) `{Countable A} : Bincode A :=
  {| bincode_serialize a :=
       let z := Z.pos (encode a) in Ok (le_bytes (Z.to_nat (Z.log2 z / 8 + 1)) z);
     bincode_deserialize d :=
       match decode (Z.to_pos (from_le_bytes d)) with
       | Some a => Ok a
       | None => Err "invalid data"%string
       end |}.

Lemma sample_bincode_spec (A : Type) `{Countable A} : @BincodeSpec A (sample_bincode A).
Proof.
  split; simpl.
  - intros a d Hd. injection Hd as <-. rewrite from_le_le_bytes.
    set (z := Z.pos (encode a)).
    assert (Hz : 0 < z) by (unfold z; lia).
    assert (Hb : 0 <= z < 2 ^ (8 * Z.of_nat (Z.to_nat (Z.log2 z / 8 + 1)))).
    { split; [lia|]. pose proof (Z.log2_nonneg z). pose proof (Z.div_pos (Z.log2 z) 8).
      rewrite Z2Nat.id by lia. apply Z.log2_lt_pow2; [done|].
      pose proof (Z.div_mod (Z.log2 z) 8). pose proof (Z.mod_pos_bound (Z.log2 z) 8). lia. }
    rewrite Z.mod_small by done. unfold z. simpl. rewrite decode_encode. done.
  - intros a. eauto.
  - intros d. destruct (decode _); done.
Qed.

(** ** [serde_json] *)

Class SerdeJson (A : Type) : Type := {
  json_to_string : A -> outcome string Bytes;
  json_from_str : Bytes -> outcome string A
}.

Class SerdeJsonSpec (A : Type) `{SerdeJson A} : Prop := {
  json_roundtrip : forall a d, json_to_string a = Ok d -> json_from_str d = Ok a;
  json_total : forall a : A, exists d, json_to_string a = Ok d;
  json_no_panic : forall d, json_from_str d <> Panic
}.
