(* ===== verification/State.v ===== *)
(** * Computations with a shared state and errors

    Code that threads a store through many fallible calls is written in the
    monad [M S E]: a computation takes the state and returns the state together
    with an [outcome], so the effects before an error stay.  [holds] is its
    Hoare logic: a postcondition for the results and one for the errors. *)

From S2P Require Import Prelude.

Definition M (S E A : Type) : Type := S -> S * outcome E A.

#[export] Instance M_ret {S E} : MRet (M S E) := fun A a s => (s, Ok a).

#[export] Instance M_bind {S E} : MBind (M S E) := fun A B k m s =>
  match m s with
  | (s, Ok a) => k a s
  | (s, Err e) => (s, Err e)
  | (s, Panic) => (s, Panic)
  end.

Section Operations.
Context {S E : Type}.

Definition fail {A} (e : E) : M S E A := fun s => (s, Err e).

Definition gets {A} (f : S -> A) : M S E A := fun s => (s, Ok (f s)).

Definition modify (f : S -> S) : M S E unit := fun s => (f s, Ok tt).

(** A result that does not touch the state. *)
Definition lift {A} (r : outcome E A) : M S E A := fun s => (s, r).

(** [.ok()] and [let _ = ..]: go on after an error. *)
Definition attempt {F A} (m : M S F A) : M S E (option A) := fun s =>
  match m s with
  | (s, Ok a) => (s, Ok (Some a))
  | (s, Err _) => (s, Ok None)
  | (s, Panic) => (s, Panic)
  end.

(** [.map_err(f)]. *)
Definition map_error {F A} (f : F -> E) (m : M S F A) : M S E A := fun s =>
  match m s with
  | (s, Ok a) => (s, Ok a)
  | (s, Err e) => (s, Err (f e))
  | (s, Panic) => (s, Panic)
  end.

(** [for x in l { acc = body }]. *)
Fixpoint for_loop {A X} (f : X -> A -> M S E A) (l : list X) (acc : A) : M S E A :=
  match l with
  | [] => mret acc
  | x :: l => acc ← f x acc; for_loop f l acc
  end.
End Operations.

(** ** Hoare triples

    [holds P m Q R]: from a state with [P], a result [a] leaves [Q a], and an
    error or a panic leaves [R]. *)

Definition holds {S E A} (P : S -> Prop) (m : M S E A) (Q : A -> S -> Prop) (R : S -> Prop) : Prop :=
  forall s, P s -> match (m s).2 with Ok a => Q a (m s).1 | _ => R (m s).1 end.

(** The invariant [I] survives whatever the outcome; a result satisfies [Q]. *)
Definition keeps {S E A} (I : S -> Prop) (m : M S E A) (Q : A -> Prop) : Prop :=
  holds I m (fun a s => I s /\ Q a) I.

(** [m] returns a result in every state. *)
Definition succeeds {S E A} (m : M S E A) : Prop := forall s, exists a, (m s).2 = Ok a.

Section Rules.
Context {S E : Type}.
Implicit Types (P R I : S -> Prop).

Lemma holds_ret {A} P R (a : A) (Q : A -> S -> Prop) : (forall s, P s -> Q a s) -> holds P (mret a : M S E A) Q R.
Proof. intros H s Hs. by apply H. Qed.

Lemma holds_bind {A B} P R (m : M S E A) (k : A -> M S E B) (Q' : A -> S -> Prop) Q :
  holds P m Q' R -> (forall a, holds (Q' a) (k a) Q R) -> holds P (m ≫= k) Q R.
Proof.
  intros Hm Hk s Hs. specialize (Hm s Hs). unfold mbind, M_bind. destruct (m s) as [s' [a|e|]]; [|done..].
  by apply Hk.
Qed.

Lemma holds_conseq {A} P P' R R' (m : M S E A) (Q Q' : A -> S -> Prop) :
  holds P' m Q' R' -> (forall s, P s -> P' s) -> (forall a s, Q' a s -> Q a s) -> (forall s, R' s -> R s) ->
  holds P m Q R.
Proof. intros Hm HP HQ HR s Hs. specialize (Hm s (HP s Hs)). destruct (m s) as [s' [a|e|]]; cbn in *; auto. Qed.

Lemma holds_fail {A} P R (e : E) (Q : A -> S -> Prop) : (forall s, P s -> R s) -> holds P (fail e) Q R.
Proof. intros H s Hs. by apply H. Qed.

Lemma holds_gets {A} P R (f : S -> A) (Q : A -> S -> Prop) :
  (forall s, P s -> Q (f s) s) -> holds P (gets f : M S E A) Q R.
Proof. intros H s Hs. by apply H. Qed.

Lemma holds_lift {A} P R (r : outcome E A) (Q : A -> S -> Prop) :
  (forall a s, r = Ok a -> P s -> Q a s) -> (forall s, P s -> R s) -> holds P (lift r) Q R.
Proof. intros HQ HR s Hs. unfold lift. destruct r; cbn; auto. Qed.

(** An invariant of the state that mentions the accumulator and what is left. *)
Lemma holds_for_loop {A X} R (f : X -> A -> M S E A) (l : list X) (acc : A) (J : list X -> A -> S -> Prop) :
  (forall x rest acc, holds (J (x :: rest) acc) (f x acc) (fun acc' => J rest acc') R) ->
  holds (J l acc) (for_loop f l acc) (fun acc' => J [] acc') R.
Proof.
  intros Hf. revert acc. induction l as [|x l IH]; intros acc; simpl.
  - by apply holds_ret.
  - eapply holds_bind; [apply Hf|]. intros acc'. apply IH.
Qed.

(** *** Invariants *)

Lemma keeps_ret {A} I (a : A) (Q : A -> Prop) : Q a -> keeps I (mret a : M S E A) Q.
Proof. intros Ha. by apply holds_ret. Qed.

Lemma keeps_bind {A B} I (m : M S E A) (k : A -> M S E B) (Q : A -> Prop) (Q' : B -> Prop) :
  keeps I m Q -> (forall a, Q a -> keeps I (k a) Q') -> keeps I (m ≫= k) Q'.
Proof.
  intros Hm Hk. eapply holds_bind; [exact Hm|]. intros a s [Hs Ha]. by apply (Hk a Ha).
Qed.

Lemma keeps_weaken {A} I (m : M S E A) (Q Q' : A -> Prop) :
  keeps I m Q -> (forall a, Q a -> Q' a) -> keeps I m Q'.
Proof. intros Hm HQ. eapply holds_conseq; [exact Hm|done| |done]. intros a s [? ?]. auto. Qed.

(** An invariant used as a triple. *)
Lemma keeps_holds {A} I R (m : M S E A) (Q : A -> Prop) :
  keeps I m Q -> (forall s, I s -> R s) -> holds I m (fun _ => I) R.
Proof. intros Hm HR. eapply holds_conseq; [exact Hm|done| |done]. by intros a s []. Qed.

Lemma keeps_fail {A} I (e : E) (Q : A -> Prop) : keeps I (fail e) Q.
Proof. by apply holds_fail. Qed.

Lemma keeps_gets {A} I (f : S -> A) : keeps I (gets f : M S E A) (fun _ => True).
Proof. by apply holds_gets. Qed.

Lemma keeps_modify I (f : S -> S) : (forall s, I s -> I (f s)) -> keeps I (modify f : M S E unit) (fun _ => True).
Proof. intros Hf s Hs. cbn. auto. Qed.

Lemma keeps_lift {A} I (r : outcome E A) (Q : A -> Prop) : (forall a, r = Ok a -> Q a) -> keeps I (lift r) Q.
Proof. intros Hr. apply holds_lift; auto. Qed.

Lemma keeps_lift_eq {A} I (r : outcome E A) : keeps I (lift r) (fun a => r = Ok a).
Proof. by apply keeps_lift. Qed.

Lemma holds_pure {A} P R (phi : Prop) (m : M S E A) (Q : A -> S -> Prop) :
  (phi -> holds P m Q R) -> holds (fun s => P s /\ phi) m Q R.
Proof. intros H s [Hs Hphi]. by apply H. Qed.

Lemma keeps_for_loop {A X} I (f : X -> A -> M S E A) (l : list X) (P : X -> Prop) (Q : A -> Prop) acc :
  Forall P l -> Q acc -> (forall x acc, P x -> Q acc -> keeps I (f x acc) Q) ->
  keeps I (for_loop f l acc) Q.
Proof.
  intros Hl Hacc Hf. revert acc Hacc. induction Hl as [|x l Hx _ IH]; intros acc Hacc; simpl; [by apply keeps_ret|].
  eapply keeps_bind; [by apply Hf|]. intros acc' Hacc'. by apply IH.
Qed.

Lemma keeps_state {A} I (m : M S E A) (Q : A -> Prop) s : keeps I m Q -> I s -> I (m s).1.
Proof. intros Hm Hs. specialize (Hm s Hs). destruct (m s) as [s' [a|e|]]; cbn in *; tauto. Qed.
End Rules.

Section Success.
Context {S E : Type}.

Lemma succeeds_ret {A} (a : A) : succeeds (mret a : M S E A).
Proof. intros s. by eexists. Qed.

Lemma succeeds_bind {A B} (m : M S E A) (k : A -> M S E B) :
  succeeds m -> (forall a, succeeds (k a)) -> succeeds (m ≫= k).
Proof.
  intros Hm Hk s. destruct (Hm s) as [a Ha]. unfold mbind, M_bind. destruct (m s) as [s' r]. cbn in Ha. subst.
  apply Hk.
Qed.

Lemma succeeds_lift {A} (r : outcome E A) : (exists a, r = Ok a) -> succeeds (lift r : M S E A).
Proof. intros H s. exact H. Qed.

Lemma succeeds_for_loop {A X} (f : X -> A -> M S E A) l acc :
  (forall x acc, succeeds (f x acc)) -> succeeds (for_loop f l acc).
Proof.
  intros Hf. revert acc. induction l as [|x l IH]; intros acc; cbn; [apply succeeds_ret|].
  apply succeeds_bind; [apply Hf|exact IH].
Qed.
End Success.

Lemma keeps_attempt {S E F A} (I : S -> Prop) (m : M S F A) (Q : A -> Prop) :
  keeps I m Q -> keeps I (attempt m : M S E (option A)) (fun r => match r with Some a => Q a | None => True end).
Proof.
  intros Hm s Hs. specialize (Hm s Hs). unfold attempt. destruct (m s) as [s' [a|e|]]; cbn in *; auto.
Qed.

Lemma keeps_map_error {S E F A} (I : S -> Prop) (f : F -> E) (m : M S F A) (Q : A -> Prop) :
  keeps I m Q -> keeps I (map_error f m) Q.
Proof.
  intros Hm s Hs. specialize (Hm s Hs). unfold map_error. destruct (m s) as [s' [a|e|]]; cbn in *; auto.
Qed.

Create HintDb keeps.
#[export] Hint Resolve keeps_ret keeps_fail keeps_gets keeps_attempt keeps_map_error : keeps.

(** Run through a computation: binds, tests and matches; what is left are the
    calls that change the state. *)
Ltac keeps_step :=
  match goal with
  | |- keeps _ (mbind _ _) _ => eapply keeps_bind; [|intros ? ?; cbn beta in *]
  | |- keeps _ (mret _) _ => apply keeps_ret
  | |- keeps _ (fail _) _ => apply keeps_fail
  | |- keeps _ (lift _) _ => first [apply keeps_lift_eq | apply keeps_lift; intros ? ?]
  | |- keeps _ (map_error _ _) _ => apply keeps_map_error
  | |- keeps _ (attempt _) _ => apply keeps_attempt
  | |- keeps _ (match ?x with _ => _ end) _ => destruct x eqn:?
  end.
