(* ===== verification/Records.v ===== *)
(** * Tables of JSON records in a shared backend

    The application gives contacts, history, block list and logs the same
    storage backend; each keeps its records as JSON under keys with a prefix of
    its own.  Their operations are computations [M B IronCoreError] on the
    backend.  A [schema] says where a table lies; [table] relates the contents
    of the backend to the map the table stands for, and survives whatever is
    written under other prefixes.  [runs] is the rule-based way to execute such
    a computation on a backend whose calls succeed. *)

From S2P Require Import Prelude Backend State.

(** The errors of the application (core/src/lib.rs). *)
Inductive IronCoreError : Type :=
| NotInitialized | AlreadyRunning | StorageError | CryptoError | NetworkError | InvalidInput | Blocked
| ConsentRequired | Internal | CorruptionDetected.

#[export] Instance IronCoreError_eq_dec : EqDecision IronCoreError.
Proof. solve_decision. Defined.

(** ** The calls *)

Section Calls.
Context {B : Type} `{HB : StorageBackend B}.

Definition kv_update (f : B -> outcome string B) : M B string unit := fun b =>
  match f b with
  | Ok b => (b, Ok tt)
  | Err e => (b, Err e)
  | Panic => (b, Panic)
  end.

Definition kv_put (k v : Bytes) : M B string unit := kv_update (put k v).
Definition kv_remove (k : Bytes) : M B string unit := kv_update (Backend.remove k).
Definition kv_flush : M B string unit := kv_update flush.
Definition kv_get (k : Bytes) : M B string (option Bytes) := fun b => (b, get k b).
Definition kv_scan (p : Bytes) : M B string ScanResult := fun b => (b, scan_prefix p b).
Definition kv_count (p : Bytes) : M B string Z := fun b => (b, count_prefix p b).

(** [.map_err(|_| IronCoreError::StorageError)]. *)
Definition stored {A} (m : M B string A) : M B IronCoreError A := map_error (fun _ => StorageError) m.

(** [serde_json::to_vec(..)] and [from_slice(..)] with [Internal] as the error. *)
Definition to_vec {A} `{SerdeJson A} (a : A) : M B IronCoreError Bytes :=
  lift (map_err (fun _ => Internal) (json_to_string a)).

Definition from_slice {A} `{SerdeJson A} (d : Bytes) : M B IronCoreError A :=
  lift (map_err (fun _ => Internal) (json_from_str d)).

(** The two halves of nearly every operation. *)
Definition put_json {A} `{SerdeJson A} (k : Bytes) (a : A) : M B IronCoreError unit :=
  value ← to_vec a; stored (kv_put k value).

Definition get_json {A} `{SerdeJson A} (k : Bytes) : M B IronCoreError (option A) :=
  r ← stored (kv_get k);
  match r with
  | Some data => a ← from_slice data; mret (Some a)
  | None => mret None
  end.

(** [for (key, value) in all { let record = from_slice(&value)?; .. }]. *)
Definition for_records {A X} `{SerdeJson A} (f : Bytes -> A -> X -> M B IronCoreError X) (all : ScanResult) (acc : X)
    : M B IronCoreError X :=
  for_loop (fun kv acc => a ← from_slice kv.2; f kv.1 a acc) all acc.
End Calls.

(** [sort_by_key(|x| Reverse(f(x)))]. *)
Definition newest {A} (f : A -> Z) (a b : A) : comparison := Z.compare (f b) (f a).

#[export] Instance newest_order {A} (f : A -> Z) : CmpOrder (newest f).
Proof.
  split; unfold newest.
  - intros x y. apply Z.compare_antisym.
  - intros x y z. unfold cmp_le. rewrite !Z.compare_le_iff. lia.
Qed.

Lemma sort_by_map {A C} (cmp : C -> C -> comparison) (f : A -> C) l :
  sort_by cmp (map f l) = map f (sort_by (fun x y => cmp (f x) (f y)) l).
Proof.
  assert (Hi : forall x l, sort_insert cmp (f x) (map f l) = map f (sort_insert (fun x y => cmp (f x) (f y)) x l)).
  { intros x k. induction k as [|y k IH]; cbn; [done|]. destruct (cmp (f x) (f y)); cbn; by rewrite ?IH. }
  unfold sort_by.
  assert (H : forall acc, fold_left (fun acc x => sort_insert cmp x acc) (map f l) (map f acc) =
    map f (fold_left (fun acc x => sort_insert (fun x y => cmp (f x) (f y)) x acc) l acc)).
  { induction l as [|x l IH]; intros acc; cbn; [done|]. rewrite Hi. apply IH. }
  apply (H []).
Qed.

Lemma fold_snd {A C} (l : list (A * C)) acc : fold_left (fun acc kv => acc ++ [kv.2]) l acc = acc ++ l.*2.
Proof. revert acc. induction l as [|kv l IH]; intros acc; cbn; [by rewrite app_nil_r|]. by rewrite IH, <-app_assoc. Qed.

Lemma StronglySorted_filter {A} (R : A -> A -> Prop) (P : A -> Prop) `{forall x, Decision (P x)} l :
  StronglySorted R l -> StronglySorted R (filter P l).
Proof.
  induction 1 as [|x l Hl IH Hx]; [constructor|]. rewrite filter_cons. case_decide; [|done]. constructor; [done|].
  rewrite Forall_forall in *. intros y [_ Hy]%list_elem_of_filter. by apply Hx.
Qed.

(** [Result::map]. *)
Definition map_ok {E A C} (f : A -> C) (r : outcome E A) : outcome E C :=
  match r with Ok a => Ok (f a) | Err e => Err e | Panic => Panic end.

(** ** Running a computation *)

Definition runs {S E A} (m : M S E A) (s : S) (Q : outcome E A -> S -> Prop) : Prop := Q (m s).2 (m s).1.

Section Runs.
Context {S E : Type}.

Lemma runs_eq {A} (m : M S E A) s Q : runs m s Q -> exists s' r, m s = (s', r) /\ Q r s'.
Proof. unfold runs. destruct (m s) as [s' r]. eauto. Qed.

Lemma runs_ret {A} (a : A) s (Q : outcome E A -> S -> Prop) : Q (Ok a) s -> runs (mret a) s Q.
Proof. done. Qed.

Lemma runs_fail {A} (e : E) s (Q : outcome E A -> S -> Prop) : Q (Err e) s -> runs (fail e) s Q.
Proof. done. Qed.

Lemma runs_lift {A} (r : outcome E A) s (Q : outcome E A -> S -> Prop) : Q r s -> runs (lift r) s Q.
Proof. done. Qed.

Lemma runs_bind {A C} (m : M S E A) (k : A -> M S E C) s (Q : outcome E C -> S -> Prop) :
  runs m s (fun r s' => match r with Ok a => runs (k a) s' Q | Err e => Q (Err e) s' | Panic => Q Panic s' end) ->
  runs (m ≫= k) s Q.
Proof. unfold runs, mbind, M_bind. destruct (m s) as [s' [a|e|]]; done. Qed.

Lemma runs_conseq {A} (m : M S E A) s (Q Q' : outcome E A -> S -> Prop) :
  runs m s Q' -> (forall r s', Q' r s' -> Q r s') -> runs m s Q.
Proof. unfold runs. auto. Qed.

(** A loop every turn of which succeeds and keeps [J] of what is done and what is left. *)
Lemma runs_for_loop {A X} (f : X -> A -> M S E A) (J : list X -> list X -> A -> S -> Prop) l acc s
    (Q : outcome E A -> S -> Prop) :
  J [] l acc s ->
  (forall done x rest acc s, l = done ++ x :: rest -> J done (x :: rest) acc s ->
    runs (f x acc) s (fun r s' => exists acc', r = Ok acc' /\ J (done ++ [x]) rest acc' s')) ->
  (forall acc s, J l [] acc s -> Q (Ok acc) s) ->
  runs (for_loop f l acc) s Q.
Proof.
  intros H0 Hstep HQ.
  assert (H : forall rest done acc s, l = done ++ rest -> J done rest acc s -> runs (for_loop f rest acc) s Q).
  { induction rest as [|x rest IH]; intros done acc' s' Hl HJ; cbn [for_loop].
    - rewrite app_nil_r in Hl. subst. by apply runs_ret, HQ.
    - apply runs_bind. eapply runs_conseq; [by apply (Hstep done)|].
      intros r s1 (acc1 & -> & HJ1). apply (IH (done ++ [x])); [by rewrite <-app_assoc|done]. }
  by apply (H l []).
Qed.
End Runs.

Lemma runs_map_error {S E F A} (f : F -> E) (m : M S F A) s (Q : outcome E A -> S -> Prop) :
  runs m s (fun r s' => Q (map_err f r) s') -> runs (map_error f m) s Q.
Proof. unfold runs, map_error. destruct (m s) as [s' [a|e|]]; done. Qed.

Lemma runs_attempt {S E F A} (m : M S F A) s (Q : outcome E (option A) -> S -> Prop) :
  runs m s (fun r s' => match r with Ok a => Q (Ok (Some a)) s' | Err _ => Q (Ok None) s' | Panic => Q Panic s' end) ->
  runs (attempt m) s Q.
Proof. unfold runs, attempt. destruct (m s) as [s' [a|e|]]; done. Qed.

(** ** Where a table lies *)

Record schema (K V : Type) : Type := {
  area : Bytes;
  key_of : K -> Bytes;
  valid : K -> Prop;
  key_area : forall k, area `prefix_of` key_of k;
  key_inj : forall k k', valid k -> valid k' -> key_of k = key_of k' -> k = k'
}.

Arguments area {K V}.
Arguments key_of {K V}.
Arguments valid {K V}.
Arguments key_area {K V}.
Arguments key_inj {K V}.

(** A table whose keys are a prefix followed by a string. *)
Definition prefixed (V : Type) (p : string) : schema string V.
Proof.
  refine {| area := as_bytes p; key_of k := as_bytes (p +:+ k); valid _ := True |}.
  - abstract (intros k; rewrite as_bytes_app; by eexists).
  - abstract (intros k k' _ _ H; rewrite !as_bytes_app in H; apply app_inv_head in H; by apply as_bytes_inj).
Defined.

(** Two areas without a common key. *)
Definition apart (p q : Bytes) : Prop := forall b, p `prefix_of` b -> ~ q `prefix_of` b.

Lemma apart_sym p q : apart p q -> apart q p.
Proof. intros H b Hq Hp. by apply (H b). Qed.

Lemma apart_prefixes p q : ~ p `prefix_of` q -> ~ q `prefix_of` p -> apart p q.
Proof. intros H1 H2 b Hp Hq. destruct (prefix_weak_total p q b Hp Hq) as [H|H]; [by apply H1|by apply H2]. Qed.

Lemma Forall2_elem_r {X Y} (P : X -> Y -> Prop) l k y : Forall2 P l k -> y ∈ k -> exists x, x ∈ l /\ P x y.
Proof.
  intros H [i Hi]%list_elem_of_lookup. destruct (Forall2_lookup_r _ _ _ _ _ H Hi) as (x & Hx & HP).
  exists x. split; [|done]. by apply list_elem_of_lookup_2 in Hx.
Qed.

Lemma Forall2_elem_l {X Y} (P : X -> Y -> Prop) l k x : Forall2 P l k -> x ∈ l -> exists y, y ∈ k /\ P x y.
Proof.
  intros H [i Hi]%list_elem_of_lookup. destruct (Forall2_lookup_l _ _ _ _ _ H Hi) as (y & Hy & HP).
  exists y. split; [|done]. by apply list_elem_of_lookup_2 in Hy.
Qed.

Section Table.
Context {K V : Type} `{Countable K} `{HJ : SerdeJson V} {HJS : SerdeJsonSpec V} (s : schema K V).
Implicit Types (t : gmap K V) (c : gmap Bytes Bytes).

Definition table t c : Prop :=
  (forall k v, t !! k = Some v -> valid s k /\ exists d, json_to_string v = Ok d /\ c !! key_of s k = Some d) /\
  (forall b d, c !! b = Some d -> area s `prefix_of` b -> exists k v, b = key_of s k /\ t !! k = Some v).

Lemma table_empty c : (forall b, area s `prefix_of` b -> c !! b = None) -> table ∅ c.
Proof.
  intros Hc. split; [intros k v Hk; by rewrite lookup_empty in Hk|].
  intros b d Hb Hp. by rewrite (Hc b Hp) in Hb.
Qed.

Lemma table_get t c k : table t c -> valid s k ->
  match t !! k with
  | Some v => exists d, c !! key_of s k = Some d /\ json_from_str d = Ok v
  | None => c !! key_of s k = None
  end.
Proof.
  intros [H1 H2] Hk. destruct (t !! k) as [v|] eqn:Hv.
  - destruct (H1 k v Hv) as (_ & d & Hd & Hc). exists d. split; [done|]. by apply json_roundtrip.
  - destruct (c !! key_of s k) as [d|] eqn:Hc; [|done].
    destruct (H2 _ _ Hc (key_area s k)) as (k' & v & Hkk & Hv').
    destruct (H1 k' v Hv') as [Hk' _]. apply (key_inj s) in Hkk; [|done..]. congruence.
Qed.

Lemma table_put t c k v d : table t c -> valid s k -> json_to_string v = Ok d ->
  table (<[k := v]> t) (<[key_of s k := d]> c).
Proof.
  intros [H1 H2] Hk Hd. split.
  - intros k' v' Hv'. apply lookup_insert_Some in Hv' as [[<- <-]|[Hne Hv']].
    + split; [done|]. exists d. by rewrite lookup_insert_eq.
    + destruct (H1 k' v' Hv') as (Hk' & d' & Hd' & Hc). split; [done|]. exists d'. split; [done|].
      rewrite lookup_insert_ne; [done|]. intros Heq. apply Hne. by apply (key_inj s).
  - intros b d' Hb Hp. apply lookup_insert_Some in Hb as [[<- <-]|[Hne Hb]].
    + exists k, v. by rewrite lookup_insert_eq.
    + destruct (H2 b d' Hb Hp) as (k' & v' & -> & Hv'). exists k', v'. split; [done|].
      rewrite lookup_insert_ne; [done|]. intros ->. done.
Qed.

Lemma table_remove t c k : table t c -> valid s k -> table (delete k t) (delete (key_of s k) c).
Proof.
  intros [H1 H2] Hk. split.
  - intros k' v' [Hne Hv']%lookup_delete_Some. destruct (H1 k' v' Hv') as (Hk' & d' & Hd' & Hc).
    split; [done|]. exists d'. split; [done|]. rewrite lookup_delete_ne; [done|].
    intros Heq. apply Hne. by apply (key_inj s).
  - intros b d' [Hne Hb]%lookup_delete_Some Hp. destruct (H2 b d' Hb Hp) as (k' & v' & -> & Hv').
    exists k', v'. split; [done|]. rewrite lookup_delete_ne; [done|]. intros ->. done.
Qed.

Lemma table_agree t c c' : (forall b, area s `prefix_of` b -> c' !! b = c !! b) -> table t c -> table t c'.
Proof.
  intros Hc [H1 H2]. split.
  - intros k v Hv. rewrite (Hc _ (key_area s k)). by apply H1.
  - intros b d Hb Hp. rewrite (Hc b Hp) in Hb. by apply (H2 b d).
Qed.

Lemma table_put_other t c b d : ~ area s `prefix_of` b -> table t c -> table t (<[b := d]> c).
Proof. intros Hb. apply table_agree. intros b' Hb'. apply lookup_insert_ne. by intros ->. Qed.

Lemma table_remove_other t c b : ~ area s `prefix_of` b -> table t c -> table t (delete b c).
Proof. intros Hb. apply table_agree. intros b' Hb'. apply lookup_delete_ne. by intros ->. Qed.

(** An entry of a scan and the record it stands for. *)
Definition entry (kd : Bytes * Bytes) (kv : K * V) : Prop :=
  kd.1 = key_of s kv.1 /\ json_to_string kv.2 = Ok kd.2.

Lemma table_scan t c r : table t c -> r ≡ₚ map_to_list (with_prefix (area s) c) ->
  exists l, Forall2 entry r l /\ l ≡ₚ map_to_list t.
Proof.
  intros [H1 H2] Hr.
  assert (Hin : forall kd, kd ∈ r -> exists kv, entry kd kv /\ t !! kv.1 = Some kv.2).
  { intros [b d] Hbd. rewrite Hr, elem_of_map_to_list in Hbd.
    apply map_lookup_filter_Some in Hbd as [Hb Hp]. destruct (H2 b d Hb Hp) as (k & v & -> & Hv).
    exists (k, v). split; [|done]. split; [done|]. destruct (H1 k v Hv) as (_ & d' & Hd' & Hc). cbn in *. congruence. }
  assert (Hl : exists l, Forall2 entry r l /\ Forall (fun kv => t !! kv.1 = Some kv.2) l).
  { clear Hr. induction r as [|kd r IH]; [exists []; by split; constructor|].
    destruct IH as (l & Hl1 & Hl2); [intros kd' ?; apply Hin; by right|].
    destruct (Hin kd) as (kv & Hkv & Ht); [left|]. exists (kv :: l). by split; constructor. }
  destruct Hl as (l & Hl1 & Hl2). exists l. split; [done|].
  rewrite Forall_forall in Hl2. apply NoDup_Permutation; [|apply NoDup_map_to_list|].
  - assert (Hnd : NoDup r.*1) by (rewrite Hr; apply NoDup_fst_map_to_list).
    clear Hr Hin. induction Hl1 as [|kd kv r l [Hk Hd] Hl1 IH]; [constructor|].
    cbn in Hnd. apply NoDup_cons in Hnd as [Hni Hnd]. constructor; [|apply IH; [intros x Hx; apply Hl2; by right|done]].
    intros Hkv. apply Hni. destruct (Forall2_elem_r _ _ _ _ Hl1 Hkv) as (kd' & Hkd' & Hk' & _).
    rewrite Hk, <-Hk'. by apply list_elem_of_fmap_2.
  - intros [k v]. rewrite elem_of_map_to_list. split; [by intros ?%Hl2|]. intros Hv.
    destruct (H1 k v Hv) as (Hk & d & Hd & Hc).
    assert (Hr' : (key_of s k, d) ∈ r).
    { rewrite Hr, elem_of_map_to_list. apply map_lookup_filter_Some. split; [done|]. apply key_area. }
    destruct (Forall2_elem_l _ _ _ _ Hl1 Hr') as ([k' v'] & Hkv & Hkk & _). cbn in Hkk.
    pose proof (Hl2 _ Hkv) as Hv'. cbn in Hv'. destruct (H1 k' v' Hv') as [Hk' _].
    apply (key_inj s) in Hkk; [|done..]. subst k'. replace v with v' by congruence. done.
Qed.

Lemma table_count t c : table t c -> size (with_prefix (area s) c) = size t.
Proof.
  intros Ht. destruct (table_scan t c _ Ht (reflexivity _)) as (l & Hl & Hp).
  rewrite <-!length_map_to_list, <-Hp. by apply Forall2_length in Hl.
Qed.
End Table.

(** ** Rules for a backend whose calls succeed *)

Section Reliable.
Context {B : Type} `{HB : StorageBackend B} {HBS : StorageBackendSpec B} {HBR : Reliable B}.
Implicit Types (b : B).

Lemma runs_put k v b (Q : outcome string unit -> B -> Prop) :
  (forall b', contents b' = <[k := v]> (contents b) -> Q (Ok tt) b') -> runs (kv_put k v) b Q.
Proof.
  intros HQ. unfold runs, kv_put, kv_update. destruct (put_total k v b) as [b' Hb']. rewrite Hb'. cbn.
  apply HQ. by apply put_ok.
Qed.

Lemma runs_remove k b (Q : outcome string unit -> B -> Prop) :
  (forall b', contents b' = delete k (contents b) -> Q (Ok tt) b') -> runs (kv_remove k) b Q.
Proof.
  intros HQ. unfold runs, kv_remove, kv_update. destruct (remove_total k b) as [b' Hb']. rewrite Hb'. cbn.
  apply HQ. by apply remove_ok.
Qed.

Lemma runs_flush b (Q : outcome string unit -> B -> Prop) :
  (forall b', contents b' = contents b -> Q (Ok tt) b') -> runs kv_flush b Q.
Proof.
  intros HQ. unfold runs, kv_flush, kv_update. destruct (flush_total b) as [b' Hb']. rewrite Hb'. cbn.
  apply HQ. by apply flush_ok.
Qed.

Lemma runs_get k b (Q : outcome string (option Bytes) -> B -> Prop) :
  Q (Ok (contents b !! k)) b -> runs (kv_get k) b Q.
Proof.
  intros HQ. unfold runs, kv_get. cbn. destruct (get_total k b) as [r Hr]. rewrite Hr.
  by rewrite (get_ok _ _ _ Hr).
Qed.

Lemma runs_scan p b (Q : outcome string ScanResult -> B -> Prop) :
  (forall r, r ≡ₚ map_to_list (with_prefix p (contents b)) -> Q (Ok r) b) -> runs (kv_scan p) b Q.
Proof.
  intros HQ. unfold runs, kv_scan. cbn. destruct (scan_total p b) as [r Hr]. rewrite Hr.
  apply HQ. by apply scan_prefix_ok.
Qed.

Lemma runs_count p b (Q : outcome string Z -> B -> Prop) :
  Q (Ok (Z.of_nat (size (with_prefix p (contents b))))) b -> runs (kv_count p) b Q.
Proof.
  intros HQ. unfold runs, kv_count. cbn. destruct (count_total p b) as [r Hr]. rewrite Hr.
  by rewrite (count_prefix_ok _ _ _ Hr).
Qed.

Section Json.
Context {A : Type} `{HJ : SerdeJson A} {HJS : SerdeJsonSpec A}.

Lemma runs_put_json k (a : A) b (Q : outcome IronCoreError unit -> B -> Prop) :
  (forall b' d, json_to_string a = Ok d -> contents b' = <[k := d]> (contents b) -> Q (Ok tt) b') ->
  runs (put_json k a) b Q.
Proof.
  intros HQ. destruct (json_total a) as [d Hd]. unfold put_json, to_vec, stored. rewrite Hd.
  apply runs_bind, runs_lift. cbn. apply runs_map_error, runs_put. intros b' Hb'. cbn. by apply (HQ b' d).
Qed.

Context {K : Type} `{Countable K} (s : schema K A).

Lemma runs_get_json t k b (Q : outcome IronCoreError (option A) -> B -> Prop) :
  table s t (contents b) -> valid s k -> Q (Ok (t !! k)) b -> runs (get_json (key_of s k)) b Q.
Proof.
  intros Ht Hk HQ. unfold get_json, stored. apply runs_bind, runs_map_error, runs_get. cbn.
  pose proof (table_get s _ _ k Ht Hk) as Hg. destruct (t !! k) as [v|].
  - destruct Hg as (d & -> & Hd). cbn beta iota. unfold from_slice. rewrite Hd. by apply runs_bind, runs_lift, runs_ret.
  - rewrite Hg. by apply runs_ret.
Qed.

(** A scan of the area of a table. *)
Lemma runs_scan_table t b (Q : outcome IronCoreError ScanResult -> B -> Prop) :
  table s t (contents b) ->
  (forall r l, Forall2 (entry s) r l -> l ≡ₚ map_to_list t -> Q (Ok r) b) ->
  runs (stored (kv_scan (area s))) b Q.
Proof.
  intros Ht HQ. apply runs_map_error, runs_scan. intros r Hr. cbn.
  destruct (table_scan s t _ r Ht Hr) as (l & Hl & Hp). by apply (HQ r l).
Qed.

(** The loop over a scan sees the records of the table. *)
Lemma runs_for_records {X} (f : Bytes -> A -> X -> M B IronCoreError X) (J : list (K * A) -> list (K * A) -> X -> B -> Prop)
    r l acc b (Q : outcome IronCoreError X -> B -> Prop) :
  Forall2 (entry s) r l -> J [] l acc b ->
  (forall done k v rest acc b, l = done ++ (k, v) :: rest -> J done ((k, v) :: rest) acc b ->
    runs (f (key_of s k) v acc) b (fun r b' => exists acc', r = Ok acc' /\ J (done ++ [(k, v)]) rest acc' b')) ->
  (forall acc b, J l [] acc b -> Q (Ok acc) b) ->
  runs (for_records f r acc) b Q.
Proof.
  intros Hrl H0 Hstep HQ. unfold for_records.
  set (J' := fun (before rest : ScanResult) (acc : X) (b : B) => exists ld lr, l = ld ++ lr /\
    Forall2 (entry s) before ld /\ Forall2 (entry s) rest lr /\ J ld lr acc b).
  apply (runs_for_loop _ J').
  - exists [], l. split_and!; [done|constructor|done|done].
  - intros before [bk d] rest acc' b' Hr (ld & lr & Hl & Hd & Hre & HJ').
    inversion Hre as [|? [k v] ? lr' [Hk Hv] Hre']; subst lr. cbn in Hk, Hv. subst bk.
    apply runs_bind. cbn [fst snd]. unfold from_slice. rewrite (json_roundtrip _ _ Hv). apply runs_lift.
    eapply runs_conseq; [by apply (Hstep ld k v lr')|]. intros r' b1 (acc1 & -> & HJ1).
    exists acc1. split; [done|]. exists (ld ++ [(k, v)]), lr'. split_and!; [by rewrite <-app_assoc| |done|done].
    apply Forall2_app; [done|]. by constructor; [|constructor].
  - intros acc' b' (ld & lr & Hl & Hd & Hre & HJ'). inversion Hre; subst lr. rewrite app_nil_r in Hl. subst ld. by apply HQ.
Qed.

(** Without effects: a fold over the records. *)
Lemma runs_fold_records {X} (f : Bytes -> A -> X -> M B IronCoreError X) (g : K * A -> X -> X) r l acc b
    (Q : outcome IronCoreError X -> B -> Prop) :
  Forall2 (entry s) r l -> (forall k v acc b, f (key_of s k) v acc b = (b, Ok (g (k, v) acc))) ->
  Q (Ok (fold_left (fun acc kv => g kv acc) l acc)) b ->
  runs (for_records f r acc) b Q.
Proof.
  intros Hrl Hf HQ.
  apply (runs_for_records f (fun done rest acc' b' => b' = b /\ acc' = fold_left (fun acc kv => g kv acc) done acc) r l);
    [done|done| |].
  - intros done k v rest acc' b' _ [-> ->]. unfold runs. rewrite Hf. cbn. eexists. split; [done|]. split; [done|].
    by rewrite fold_left_app.
  - by intros acc' b' [-> ->].
Qed.
End Json.
End Reliable.

(** ** What a group of operations leaves alone *)

Definition outside (areas : list Bytes) (k : Bytes) : Prop := Forall (fun p => ~ p `prefix_of` k) areas.

Definition touches (areas : list Bytes) (c c' : gmap Bytes Bytes) : Prop :=
  forall k, outside areas k -> c' !! k = c !! k.

Lemma touches_refl areas c : touches areas c c.
Proof. by intros k _. Qed.

Lemma touches_trans areas c1 c2 c3 : touches areas c1 c2 -> touches areas c2 c3 -> touches areas c1 c3.
Proof. intros H1 H2 k Hk. by rewrite H2, H1. Qed.

Lemma touches_put areas p c c' k d : p ∈ areas -> p `prefix_of` k -> touches areas c c' -> touches areas c (<[k := d]> c').
Proof.
  intros Hp Hk Hc k' Hk'. rewrite lookup_insert_ne; [by apply Hc|]. intros ->.
  eapply (proj1 (Forall_forall _ _) Hk' p); done.
Qed.

Lemma touches_remove areas p c c' k : p ∈ areas -> p `prefix_of` k -> touches areas c c' -> touches areas c (delete k c').
Proof.
  intros Hp Hk Hc k' Hk'. rewrite lookup_delete_ne; [by apply Hc|]. intros ->.
  eapply (proj1 (Forall_forall _ _) Hk' p); done.
Qed.

Lemma table_touches {K V : Type} `{Countable K} `{SerdeJson V} (s : schema K V) areas t c c' :
  Forall (apart (area s)) areas -> touches areas c c' -> table s t c -> table s t c'.
Proof.
  intros Ha Hc. apply table_agree. intros b Hb. apply Hc. eapply Forall_impl; [exact Ha|].
  intros p Hp. by apply Hp.
Qed.

(** ** Loops that amend the records of a table

    [f] says what becomes of a record: [None] leaves it, [Some None] removes
    it, [Some (Some v)] writes [v] in its place. *)

Section Amend.
Context {K V : Type} `{Countable K}.
Implicit Types (f : V -> option (option V)) (t : gmap K V).

Definition outcome_of f (v : V) : option V := match f v with None => Some v | Some o => o end.

Definition amend f t (l : list (K * V)) : gmap K V :=
  fold_left (fun t kv => match f kv.2 with
                         | None => t
                         | Some None => delete kv.1 t
                         | Some (Some v) => <[kv.1 := v]> t
                         end) l t.

Lemma amend_lookup f t l k : NoDup l.*1 -> (forall k v, (k, v) ∈ l -> t !! k = Some v) ->
  amend f t l !! k = if bool_decide (k ∈ l.*1) then t !! k ≫= outcome_of f else t !! k.
Proof.
  revert t. induction l as [|[k1 v1] l IH]; intros t Hnd Hin; [done|].
  change (amend f t ((k1, v1) :: l)) with
    (amend f (match f v1 with None => t | Some None => delete k1 t | Some (Some v) => <[k1 := v]> t end) l).
  cbn [fmap list_fmap fst] in *. apply NoDup_cons in Hnd as [Hni Hnd]. pose proof (Hin k1 v1 ltac:(left)) as Hv1.
  rewrite IH; [|done|].
  - destruct (decide (k = k1)) as [->|Hne].
    + rewrite bool_decide_false by done. rewrite bool_decide_true by left. rewrite Hv1. cbn. unfold outcome_of.
      destruct (f v1) as [[v|]|]; [by rewrite lookup_insert_eq|by rewrite lookup_delete_eq|done].
    + assert (Hk : forall o, (match o with None => t | Some None => delete k1 t | Some (Some v) => <[k1 := v]> t end) !! k = t !! k).
      { intros [[v|]|]; [by rewrite lookup_insert_ne|by rewrite lookup_delete_ne|done]. }
      rewrite Hk. case_bool_decide as Hl; [rewrite bool_decide_true by (by right)|rewrite bool_decide_false]; [done|done|].
      by intros [?|?]%elem_of_cons.
  - intros k2 v2 Hk2. assert (k2 <> k1) by (intros ->; apply Hni; by apply (list_elem_of_fmap_2 fst) in Hk2).
    pose proof (Hin k2 v2 ltac:(by right)) as Hv2.
    destruct (f v1) as [[v|]|]; [by rewrite lookup_insert_ne|by rewrite lookup_delete_ne|done].
Qed.

Lemma amend_all f t l : l ≡ₚ map_to_list t -> amend f t l = omap (outcome_of f) t.
Proof.
  intros Hl. apply map_eq. intros k. rewrite amend_lookup.
  - rewrite lookup_omap. case_bool_decide as Hk; [done|]. destruct (t !! k) as [v|] eqn:Hv; [|done].
    destruct Hk. rewrite Hl. apply (list_elem_of_fmap_2 fst _ (k, v)). by apply elem_of_map_to_list.
  - rewrite Hl. apply NoDup_fst_map_to_list.
  - intros k' v' Hk'. rewrite Hl in Hk'. by apply elem_of_map_to_list.
Qed.

(** Some of the records are removed. *)
Lemma remove_list t (l : list (K * V)) :
  fold_left (fun t kv => delete kv.1 t) l t = filter (fun kv => kv.1 ∉ l.*1) t.
Proof.
  revert t. induction l as [|[k1 v1] l IH]; intros t; cbn.
  - symmetry. apply map_filter_id. intros k v _ Hin. by apply elem_of_nil in Hin.
  - rewrite IH. apply map_eq. intros k. apply option_eq. intros v.
    rewrite !map_lookup_filter_Some, lookup_delete_Some, not_elem_of_cons. cbn. intuition congruence.
Qed.
End Amend.

Section RunsAmend.
Context {B : Type} `{HB : StorageBackend B} {HBS : StorageBackendSpec B} {HBR : Reliable B}.
Context {K V : Type} `{Countable K} `{HJ : SerdeJson V} {HJS : SerdeJsonSpec V} (s : schema K V).

(** The turn of such a loop. *)
Definition amend_turn {X} (f : V -> option (option V)) (g : V -> X -> X) (k : Bytes) (v : V) (acc : X) : M B IronCoreError X :=
  match f v with
  | None => mret (g v acc)
  | Some None => stored (kv_remove k);; mret (g v acc)
  | Some (Some v') => put_json k v';; mret (g v acc)
  end.

Lemma runs_amend {X} (body : Bytes -> V -> X -> M B IronCoreError X) f (g : V -> X -> X) t r l acc (b : B)
    (Q : outcome IronCoreError X -> B -> Prop) :
  table s t (contents b) -> Forall2 (entry s) r l -> l ≡ₚ map_to_list t ->
  (forall k v acc b, t !! k = Some v -> body (key_of s k) v acc b = amend_turn f g (key_of s k) v acc b) ->
  (forall b', table s (omap (outcome_of f) t) (contents b') -> touches [area s] (contents b) (contents b') ->
    Q (Ok (fold_left (fun acc kv => g kv.2 acc) l acc)) b') ->
  runs (for_records body r acc) b Q.
Proof.
  intros Ht Hrl Hl Hbody HQ.
  set (J := fun (before _ : list (K * V)) (acc' : X) (b' : B) => table s (amend f t before) (contents b') /\
    touches [area s] (contents b) (contents b') /\ acc' = fold_left (fun acc kv => g kv.2 acc) before acc).
  apply (runs_for_records s body J r l).
  - done.
  - split_and!; [done|apply touches_refl|done].
  - intros before k v rest acc' b' Hsplit (Ht' & Hto & ->).
    assert (Hv : t !! k = Some v).
    { apply elem_of_map_to_list. rewrite <-Hl, Hsplit. apply elem_of_app. right. left. }
    assert (Hk : valid s k) by (by apply (proj1 Ht k v)).
    unfold runs. rewrite (Hbody k v _ b' Hv).
    change (runs (amend_turn f g (key_of s k) v (fold_left (fun acc kv => g kv.2 acc) before acc)) b'
      (fun r b'0 => exists acc', r = Ok acc' /\ J (before ++ [(k, v)]) rest acc' b'0)).
    assert (HJ' : forall b1, table s (match f v with None => amend f t before | Some None => delete k (amend f t before)
        | Some (Some v') => <[k := v']> (amend f t before) end) (contents b1) -> touches [area s] (contents b) (contents b1) ->
      exists acc', Ok (g v (fold_left (fun acc kv => g kv.2 acc) before acc)) = Ok (E := IronCoreError) acc' /\ J (before ++ [(k, v)]) rest acc' b1).
    { intros b1 Ht1 Hto1. eexists. split; [done|]. unfold J, amend. rewrite !fold_left_app. by split_and!. }
    unfold amend_turn. destruct (f v) as [[v'|]|].
    + apply runs_bind, runs_put_json. intros b1 d Hd Hc. apply runs_ret, HJ'; rewrite Hc; [by apply table_put|].
      apply (touches_put _ (area s)); [left|apply key_area|done].
    + apply runs_bind, runs_map_error, runs_remove. intros b1 Hc. apply runs_ret, HJ'; rewrite Hc; [by apply table_remove|].
      apply (touches_remove _ (area s)); [left|apply key_area|done].
    + by apply runs_ret, HJ'.
  - intros acc' b' (Ht' & Hto & ->). apply HQ; [|done]. by rewrite <-(amend_all f t l).
Qed.

(** A loop that removes the entries of a list of records. *)
Lemma runs_remove_entries {Y} (ys : list Y) (key : Y -> Bytes) (ks : list (K * V)) t (b : B)
    (Q : outcome IronCoreError unit -> B -> Prop) :
  table s t (contents b) -> Forall2 (fun y kv => key y = key_of s kv.1 /\ valid s kv.1) ys ks ->
  (forall b', table s (filter (fun kv => kv.1 ∉ ks.*1) t) (contents b') -> touches [area s] (contents b) (contents b') ->
    Q (Ok tt) b') ->
  runs (for_loop (fun y _ => stored (kv_remove (key y))) ys tt) b Q.
Proof.
  intros Ht Hys HQ. rewrite <-(remove_list t ks) in HQ.
  assert (H' : forall t1 b1, table s t1 (contents b1) -> touches [area s] (contents b) (contents b1) ->
    (forall b', table s (fold_left (fun t kv => delete kv.1 t) ks t1) (contents b') -> touches [area s] (contents b) (contents b') -> Q (Ok tt) b') ->
    runs (for_loop (fun y _ => stored (kv_remove (key y))) ys tt) b1 Q).
  { clear Ht HQ. induction Hys as [|y [k v] ys ks [Hk Hv] Hys IH]; intros t1 b1 Ht1 Hto HQ; cbn [for_loop fold_left] in *.
    - by apply runs_ret, HQ.
    - apply runs_bind, runs_map_error, runs_remove. intros b2 Hc. cbn [fst] in *. rewrite Hk in Hc. cbn [map_err].
      apply (IH (delete k t1)); [rewrite Hc; by apply table_remove| |done].
      rewrite Hc. apply (touches_remove _ (area s)); [left|apply key_area|done]. }
  apply (H' t b Ht); [apply touches_refl|done].
Qed.
End RunsAmend.
