(* ===== verification/Text.v ===== *)
(** * Strings as the code uses them

    A string is the sequence of its UTF-8 bytes.  [trim] removes the
    white-space characters of Unicode at both ends; [to_lowercase] changes the
    letters A to Z (the code calls the Unicode function only on strings that
    are then required to be hexadecimal digits, and no character outside ASCII
    becomes one); numbers are printed in decimal, with zeros in front up to a
    width where the format asks for it. *)

From S2P Require Import Prelude Backend.
From stdpp Require Import pretty.
#[local] Open Scope Z_scope.

(** [str::contains]. *)
Fixpoint contains_bytes (pattern s : Bytes) : bool :=
  bool_decide (pattern `prefix_of` s) || match s with [] => false | _ :: s => contains_bytes pattern s end.

Definition str_contains (s pattern : string) : bool := contains_bytes (as_bytes pattern) (as_bytes s).

(** The encodings of the characters of the property White_Space. *)
Definition white_space : list Bytes :=
  [[9]; [10]; [11]; [12]; [13]; [32]; [194; 133]; [194; 160]; [225; 154; 128];
   [226; 128; 128]; [226; 128; 129]; [226; 128; 130]; [226; 128; 131]; [226; 128; 132];
   [226; 128; 133]; [226; 128; 134]; [226; 128; 135]; [226; 128; 136]; [226; 128; 137];
   [226; 128; 138]; [226; 128; 168]; [226; 128; 169]; [226; 128; 175]; [226; 129; 159];
   [227; 128; 128]].

(** Drop encodings of [ws] from the front; every turn drops at least one byte. *)
Fixpoint strip (ws : list Bytes) (fuel : nat) (s : Bytes) : Bytes :=
  match fuel with
  | O => s
  | S fuel =>
      match List.find (fun w => bool_decide (w `prefix_of` s)) ws with
      | Some w => strip ws fuel (drop (length w) s)
      | None => s
      end
  end.

Definition trim_bytes (s : Bytes) : Bytes :=
  let s := strip white_space (length s) s in
  reverse (strip (map reverse white_space) (length s) (reverse s)).

Definition of_bytes (s : Bytes) : string :=
  String.string_of_list_ascii (map (fun z => Ascii.ascii_of_N (Z.to_N z)) s).

Definition trim (s : string) : string := of_bytes (trim_bytes (as_bytes s)).

Definition lower_byte (b : Z) : Z := if (65 <=? b) && (b <=? 90) then b + 32 else b.

Definition to_lowercase (s : string) : string := of_bytes (map lower_byte (as_bytes s)).

(** [str::eq_ignore_ascii_case]. *)
Definition eq_ignore_ascii_case (a b : string) : bool :=
  bool_decide (map lower_byte (as_bytes a) = map lower_byte (as_bytes b)).

(** [u8::is_ascii_hexdigit]. *)
Definition is_ascii_hexdigit (b : Z) : bool :=
  ((48 <=? b) && (b <=? 57)) || ((97 <=? b) && (b <=? 102)) || ((65 <=? b) && (b <=? 70)).

Definition str_is_empty (s : string) : bool := bool_decide (s = ""%string).

(** [format!("{}", n)] and [format!("{:0w}", n)]. *)
Definition show (n : Z) : string := pretty (Z.to_N n).

Definition zeros (n : nat) : string := String.string_of_list_ascii (replicate n (Ascii.ascii_of_nat 48)).

Definition show_padded (w : nat) (n : Z) : string :=
  let d := show n in zeros (w - String.length d) +:+ d.

(** [String::from_utf8]: well-formed UTF-8, without overlong forms and surrogates. *)
Definition in_range (lo hi b : Z) : bool := (lo <=? b) && (b <=? hi).

Definition lead3 (a b : Z) : bool :=
  ((a =? 224) && in_range 160 191 b) || ((in_range 225 236 a || in_range 238 239 a) && in_range 128 191 b) ||
  ((a =? 237) && in_range 128 159 b).

Definition lead4 (a b : Z) : bool :=
  ((a =? 240) && in_range 144 191 b) || (in_range 241 243 a && in_range 128 191 b) ||
  ((a =? 244) && in_range 128 143 b).

Fixpoint utf8_valid (l : Bytes) : bool :=
  match l with
  | [] => true
  | a :: l1 =>
      if in_range 0 127 a then utf8_valid l1 else
      match l1 with
      | [] => false
      | b :: l2 =>
          if in_range 194 223 a && in_range 128 191 b then utf8_valid l2 else
          match l2 with
          | [] => false
          | c :: l3 =>
              if lead3 a b && in_range 128 191 c then utf8_valid l3 else
              match l3 with
              | [] => false
              | d :: l4 => lead4 a b && in_range 128 191 c && in_range 128 191 d && utf8_valid l4
              end
          end
      end
  end.

(** [str::parse::<u64>]: decimal digits after an optional plus sign. *)
Definition is_digit (c : Z) : bool := in_range 48 57 c.

Definition dec_value (l : Bytes) : Z := fold_left (fun acc c => acc * 10 + (c - 48)) l 0.

Definition strip_plus (l : Bytes) : Bytes :=
  match l with
  | c :: (_ :: _) as rest => if c =? 43 then rest else l
  | _ => l
  end.

Definition parse_u64 (s : string) : option Z :=
  let digits := strip_plus (as_bytes s) in
  if negb (bool_decide (digits = [])) && forallb is_digit digits then
    let n := dec_value digits in if n <? 2 ^ 64 then Some n else None
  else None.

(** ** Lemmas *)

Lemma as_of_bytes s : bytes s -> as_bytes (of_bytes s) = s.
Proof.
  unfold as_bytes, of_bytes. rewrite String.list_ascii_of_string_of_list_ascii, map_map. induction 1 as [|b l Hb _ IH]; [done|].
  simpl. rewrite IH. f_equal. unfold fits in Hb. rewrite Ascii.N_ascii_embedding by lia. lia.
Qed.

Lemma bytes_as_bytes s : bytes (as_bytes s).
Proof.
  unfold as_bytes, bytes. apply Forall_map, Forall_true. intros c. unfold fits. simpl.
  pose proof (Ascii.N_ascii_bounded c). lia.
Qed.

Lemma length_as_bytes s : length (as_bytes s) = String.length s.
Proof. unfold as_bytes. rewrite length_map. induction s; simpl; auto. Qed.

Definition digit (b : Z) : Prop := 48 <= b <= 57.

Lemma show_go_digits n s : Forall digit (as_bytes s) -> Forall digit (as_bytes (pretty_N_go n s)).
Proof.
  revert s. induction (N.lt_wf_0 n) as [n _ IH]. intros s Hs.
  destruct (decide (n = 0)%N) as [->|Hn]; [by rewrite pretty_N_go_0|].
  rewrite pretty_N_go_step by lia. apply IH; [apply N.div_lt; lia|].
  constructor; [|done]. pose proof (N.mod_lt n 10 ltac:(lia)) as Hm.
  generalize dependent (n `mod` 10)%N. intros d Hd. unfold digit, pretty_N_char.
  destruct d as [|[[[p|p|]|[p|p|]|]|[[p|p|]|[p|p|]|]|]]; try (by vm_compute); try lia;
    destruct p; try (by vm_compute); lia.
Qed.

Lemma digit_char d : (d < 10)%N ->
  as_bytes (String (pretty_N_char d) "") = [48 + Z.of_N d].
Proof.
  intros Hd. destruct d as [|[[[p|p|]|[p|p|]|]|[[p|p|]|[p|p|]|]|]]; try reflexivity; try lia;
    destruct p; try reflexivity; lia.
Qed.

Lemma dec_value_app l k : dec_value (l ++ k) = dec_value l * 10 ^ len k + dec_value k.
Proof.
  unfold dec_value. rewrite fold_left_app. generalize (fold_left (fun acc c => acc * 10 + (c - 48)) l 0) as a.
  induction k as [|c k IH] using rev_ind; intros a.
  { change (len (@nil Z)) with 0. rewrite Z.pow_0_r. cbn. lia. }
  rewrite !fold_left_app. cbn [fold_left]. rewrite IH, len_app. change (len [c]) with 1.
  pose proof (len_nonneg k). rewrite Z.pow_add_r by lia. lia.
Qed.

Lemma dec_value_go n s : dec_value (as_bytes (pretty_N_go n s)) = Z.of_N n * 10 ^ len (as_bytes s) + dec_value (as_bytes s).
Proof.
  revert s. induction (N.lt_wf_0 n) as [n _ IH]. intros s.
  destruct (decide (n = 0)%N) as [->|Hn]; [rewrite pretty_N_go_0; change (Z.of_N 0) with 0; lia|].
  rewrite pretty_N_go_step by lia. rewrite IH by (apply N.div_lt; lia).
  pose proof (N.mod_lt n 10 ltac:(lia)) as Hm.
  change (String (pretty_N_char (n `mod` 10)%N) s) with (String (pretty_N_char (n `mod` 10)%N) "" +:+ s).
  rewrite as_bytes_app, digit_char by done. rewrite dec_value_app, len_app. change (len [48 + Z.of_N (n `mod` 10)]) with 1.
  pose proof (len_nonneg (as_bytes s)). rewrite Z.pow_add_r by lia.
  pose proof (N.div_mod n 10 ltac:(lia)). replace (Z.of_N n) with (Z.of_N (n `div` 10) * 10 + Z.of_N (n `mod` 10)) by lia.
  change (dec_value [48 + Z.of_N (n `mod` 10)]) with (0 * 10 + (48 + Z.of_N (n `mod` 10) - 48)). rewrite Z.pow_1_r. ring.
Qed.

Lemma show_digits n : Forall digit (as_bytes (show n)) /\ as_bytes (show n) <> [].
Proof.
  unfold show, pretty, pretty_N. case_decide as Hn; [split; [by repeat constructor|done]|].
  split; [apply show_go_digits; constructor|]. intros He. pose proof (dec_value_go (Z.to_N n) "") as Hv. rewrite He in Hv.
  change (len (as_bytes "")) with 0 in Hv. change (dec_value []) with 0 in Hv. change (dec_value (as_bytes "")) with 0 in Hv. lia.
Qed.

(** A number that was printed parses to itself. *)
Lemma parse_show n : 0 <= n < 2 ^ 64 -> parse_u64 (show n) = Some n.
Proof.
  intros Hn. unfold parse_u64. destruct (show_digits n) as [Hd Hne].
  assert (Hv : dec_value (as_bytes (show n)) = n).
  { unfold show, pretty, pretty_N. case_decide as H0; [cbn; lia|]. rewrite dec_value_go.
    change (len (as_bytes "")) with 0. change (dec_value (as_bytes "")) with 0. lia. }
  set (l := as_bytes (show n)) in *.
  assert (Hl : strip_plus l = l).
  { destruct Hd as [|c [|c' l'] Hc Hd]; [done|done|]. unfold digit in Hc. cbn.
    by rewrite (proj2 (Z.eqb_neq c 43)) by lia. }
  rewrite Hl, bool_decide_false by done. cbn [negb andb].
  assert (forallb is_digit l = true) as ->.
  { apply forallb_forall. intros c Hc. rewrite Forall_forall in Hd. apply list_elem_of_In in Hc. specialize (Hd c Hc).
    unfold digit in Hd. unfold is_digit, in_range. by zbool. }
  rewrite Hv, (proj2 (Z.ltb_lt _ _)) by lia. done.
Qed.

(** ** Hexadecimal text, for the codecs of witnesses *)

Definition hex_digit (n : Z) : Z := if n <? 10 then 48 + n else 87 + n.

Definition hex_value (c : Z) : option Z :=
  if in_range 48 57 c then Some (c - 48) else if in_range 97 102 c then Some (c - 87) else None.

Fixpoint to_hex (b : Bytes) : Bytes :=
  match b with
  | [] => []
  | x :: b => hex_digit (x / 16) :: hex_digit (x mod 16) :: to_hex b
  end.

Fixpoint from_hex (s : Bytes) : option Bytes :=
  match s with
  | [] => Some []
  | h :: l :: s => x ← hex_value h; y ← hex_value l; b ← from_hex s; Some (16 * x + y :: b)
  | _ => None
  end.

Lemma hex_value_digit n : 0 <= n < 16 -> hex_value (hex_digit n) = Some n.
Proof.
  intros Hn. unfold hex_digit, hex_value, in_range. destruct (Z.ltb_spec n 10); zbool; f_equal; lia.
Qed.

Lemma from_to_hex b : bytes b -> from_hex (to_hex b) = Some b.
Proof.
  induction 1 as [|x b Hx _ IH]; [done|]. unfold fits in Hx. cbn.
  pose proof (Z.mod_pos_bound x 16). pose proof (Z.div_mod x 16).
  assert (0 <= x / 16 < 16) by (split; [apply Z.div_pos; lia|apply Z.div_lt_upper_bound; lia]).
  rewrite !hex_value_digit by lia. cbn. rewrite IH. cbn. f_equal. f_equal. lia.
Qed.

Lemma from_hex_length s b : from_hex s = Some b -> length s = (2 * length b)%nat.
Proof.
  revert b. induction s as [s IH] using (induction_ltof1 _ length). unfold ltof in IH.
  destruct s as [|h [|l s]]; cbn; intros b Hb; [by inv Hb|done|].
  destruct (hex_value h); [|done]. destruct (hex_value l); [|done]. cbn in Hb.
  destruct (from_hex s) as [b'|] eqn:Hs; [|done]. cbn in Hb. inv Hb. cbn.
  rewrite (IH s ltac:(cbn; lia) b' Hs). lia.
Qed.

Definition ascii (c : Z) : Prop := 0 <= c <= 127.

Lemma to_hex_ascii b : bytes b -> Forall ascii (to_hex b).
Proof.
  induction 1 as [|x b Hx _ IH]; [constructor|]. unfold fits in Hx.
  assert (Hd : forall n, 0 <= n < 16 -> ascii (hex_digit n)).
  { intros n Hn. unfold ascii, hex_digit. destruct (Z.ltb_spec n 10); lia. }
  pose proof (Z.mod_pos_bound x 16).
  assert (0 <= x / 16 < 16) by (split; [apply Z.div_pos; lia|apply Z.div_lt_upper_bound; lia]).
  constructor; [apply Hd; lia|]. constructor; [apply Hd; lia|done].
Qed.

Lemma ascii_utf8 s : Forall ascii s -> utf8_valid s = true.
Proof.
  induction 1 as [|c s Hc _ IH]; [done|]. unfold ascii in Hc. cbn. unfold in_range at 1. zbool. exact IH.
Qed.

(** ** A text codec for witnesses

    The enumeration of a countable type in hexadecimal: an instance of the
    interface of serde_json whose output is valid UTF-8. *)

Definition hex_json (A : Type) `{Countable A} : SerdeJson A :=
  {| json_to_string a := let! d := @bincode_serialize _ (sample_bincode A) a in Ok (to_hex d);
     json_from_str d := match from_hex d with
                        | Some b => @bincode_deserialize _ (sample_bincode A) b
                        | None => Err "bad json"%string end |}.

Lemma hex_json_spec (A : Type) `{Countable A} : @SerdeJsonSpec A (hex_json A).
Proof.
  pose proof (sample_bincode_spec A) as [Hrt Htot Hnp]. split.
  - intros a d Hd. cbn [json_to_string json_from_str hex_json] in *.
    destruct (@bincode_serialize _ (sample_bincode A) a) as [b| |] eqn:Hb; [|done..]. injection Hd as <-.
    rewrite from_to_hex by (cbn in Hb; injection Hb as <-; apply bytes_le_bytes). by apply Hrt.
  - intros a. cbn [json_to_string hex_json]. destruct (Htot a) as [d ->]. eauto.
  - intros d. cbn [json_from_str hex_json]. destruct (from_hex d); [apply Hnp|done].
Qed.

Lemma hex_json_utf8 (A : Type) `{Countable A} (a : A) d : @json_to_string A (hex_json A) a = Ok d -> utf8_valid d = true.
Proof.
  cbn [json_to_string hex_json]. destruct (@bincode_serialize _ (sample_bincode A) a) as [b| |] eqn:Hb; [|done..].
  intros Hd. injection Hd as <-. apply ascii_utf8, to_hex_ascii. cbn in Hb. injection Hb as <-. apply bytes_le_bytes.
Qed.
