(* ===== verification/MeshStore.v ===== *)
(** * The mesh message store (core/src/drift/store.rs)

    The grow-only set of stored envelopes with priority eviction: its
    operations, the score that orders eviction, the proof of state, saving and
    loading.

    The clock is an argument [now] (seconds since the epoch), read once per
    operation.  Parameters: BLAKE3, the hex encoder, [f64::exp], the iteration
    order of the hash map, the storage backend and [bincode]. *)

From S2P Require Import Prelude Drift Float64 Backend.

Definition MAX_MESSAGES : Z := 10000.

Module StoredEnvelope.

Record t : Type := mk {
  envelope_data : list Z;
  message_id : MessageId;
  recipient_hint : list Z;
  created_at : Z;
  ttl_expiry : Z;
  hop_count : Z;
  priority : Z;
  received_at : Z
}.

#[export] Instance t_eq_dec : EqDecision t.
Proof. solve_decision. Defined.

#[export] Instance t_countable : Countable t.
Proof.
  refine (inj_countable'
    (fun e => (envelope_data e, message_id e, recipient_hint e, created_at e, ttl_expiry e,
               hop_count e, priority e, received_at e))
    (fun '(a, b, c, d, e, f, g, h) => mk a b c d e f g h) _).
  by intros [].
Defined.

(** The fields at their widths. *)
Definition wf (e : t) : Prop :=
  bytes (envelope_data e) /\ byte_array 16 (message_id e) /\ byte_array 4 (recipient_hint e) /\
  u32 (created_at e) /\ u32 (ttl_expiry e) /\ u8 (hop_count e) /\ u8 (priority e) /\
  u64 (received_at e).

#[export] Instance wf_dec e : Decision (wf e).
Proof. unfold wf. apply _. Defined.

Section Score.
Context `{Libm} (now : Z).

Definition priority_score (self : t) : f64 :=
  let now := F64.of_Z now in
  let age_hours := F64.div (F64.sub now (F64.of_Z (created_at self))) (F64.of_Z 3600) in
  let recency := f64_exp (F64.div (F64.neg age_hours) (F64.of_Z 24)) in
  let hop_penalty := F64.div (F64.of_Z 1) (F64.add (F64.of_Z 1) (F64.of_Z (hop_count self))) in
  let ttl_factor :=
    if ttl_expiry self =? 0 then F64.of_Z 1
    else
      let total_lifetime := F64.sub (F64.of_Z (ttl_expiry self)) (F64.of_Z (created_at self)) in
      let remaining := F64.sub (F64.of_Z (ttl_expiry self)) now in
      if F64.leb total_lifetime (F64.of_Z 0) || F64.leb remaining (F64.of_Z 0) then F64.of_Z 0
      else F64.clamp (F64.div remaining total_lifetime) (F64.of_Z 0) (F64.of_Z 1) in
  F64.mul (F64.mul (F64.mul (F64.of_Z (priority self)) recency) hop_penalty) ttl_factor.
End Score.

End StoredEnvelope.

(** The hex encoder (crate [hex]). *)
Class Hex : Type := hex_encode : list Z -> string.

Module MeshStore.
Import StoredEnvelope.

Record t : Type := mk_store {
  messages : gmap MessageId StoredEnvelope.t;
  max_messages : Z
}.

Definition set_messages (self : t) (m : gmap MessageId StoredEnvelope.t) : t :=
  mk_store m (max_messages self).

Definition new : t := mk_store ∅ MAX_MESSAGES.

Definition with_capacity (max : Z) : t := mk_store ∅ max.

Definition length (self : t) : Z := Z.of_nat (size (messages self)).

Definition is_empty (self : t) : bool := length self =? 0.

Definition get (id : MessageId) (self : t) : option StoredEnvelope.t := messages self !! id.

Definition contains (id : MessageId) (self : t) : bool := bool_decide (is_Some (messages self !! id)).

Definition remove (id : MessageId) (self : t) : bool * t :=
  (contains id self, set_messages self (delete id (messages self))).

Definition remove_expired (now : Z) (self : t) : Z * t :=
  let now := wrap 32 now in
  let kept := filter (fun kv : MessageId * StoredEnvelope.t =>
                        ttl_expiry kv.2 = 0 \/ ttl_expiry kv.2 > now) (messages self) in
  (length self - Z.of_nat (size kept), set_messages self kept).

Section Operations.
Context `{Libm} {MI : MapIter MessageId StoredEnvelope.t}.

Definition message_ids (self : t) : list MessageId := (map_iter (messages self)).*1.

Definition values (self : t) : list StoredEnvelope.t := (map_iter (messages self)).*2.

Definition messages_for_recipient (hint : list Z) (self : t) : list StoredEnvelope.t :=
  filter (fun e => recipient_hint e = hint) (values self).

Definition by_priority (now : Z) (self : t) : list StoredEnvelope.t :=
  sort_by (fun a b => F64.cmp (priority_score now b) (priority_score now a)) (values self).

(** The comparator of the eviction. *)
Definition evict_cmp (now : Z) (a b : MessageId * StoredEnvelope.t) : comparison :=
  F64.cmp (priority_score now a.2) (priority_score now b.2).

(** The [while] loop; a turn removes a message, so the number of messages is
    enough fuel ([evict_size] below). *)
Fixpoint evict_loop (now : Z) (fuel : nat) (self : t) : t :=
  if length self >? max_messages self then
    match fuel with
    | O => self
    | S fuel =>
        match fst <$> min_by (evict_cmp now) (map_iter (messages self)) with
        | Some id => evict_loop now fuel (set_messages self (delete id (messages self)))
        | None => self
        end
    end
  else self.

Definition evict_if_over_budget (now : Z) (self : t) : t :=
  evict_loop now (size (messages self)) self.

Definition insert (now : Z) (envelope : StoredEnvelope.t) (self : t) : bool * t :=
  if contains (message_id envelope) self then (false, self)
  else
    (true, evict_if_over_budget now
             (set_messages self (<[message_id envelope := envelope]> (messages self)))).

Definition merge (now : Z) (other : t) (self : t) : t :=
  let self :=
    foldl (fun self (kv : MessageId * StoredEnvelope.t) =>
             if contains kv.1 self then self
             else set_messages self (<[kv.1 := kv.2]> (messages self)))
      self (map_iter (messages other)) in
  evict_if_over_budget now self.

(** [ids.sort()] on byte arrays: lexicographic. *)
Fixpoint id_cmp (a b : list Z) : comparison :=
  match a, b with
  | [], [] => Eq
  | [], _ => Lt
  | _, [] => Gt
  | x :: a, y :: b => match Z.compare x y with Eq => id_cmp a b | c => c end
  end.

(** The bytes the hasher is fed with. *)
Definition proof_input (self : t) : list Z := concat (sort_by id_cmp (message_ids self)).

Definition generate_proof `{Blake3, Hex} (self : t) : string :=
  hex_encode (blake3_hash (proof_input self)).

(** The bytes of the literal [b"drift:"]. *)
Definition drift_prefix : Bytes := [100; 114; 105; 102; 116; 58].

Definition storage_key (id : MessageId) : Bytes := drift_prefix ++ id.

Definition save {B} `{StorageBackend B} `{HC : Bincode StoredEnvelope.t} (self : t) (backend : B)
    : outcome string B :=
  for_each (fun (kv : MessageId * StoredEnvelope.t) backend =>
    let! value := map_err (fun e => ("Failed to serialize envelope: " ++ e)%string)
                    (bincode_serialize kv.2) in
    put (storage_key kv.1) value backend) (map_iter (messages self)) backend.

(** One entry of [load]: the store, and how many were loaded and failed. *)
Definition load_entry `{Bincode StoredEnvelope.t} (now : Z) (entry : Bytes * Bytes)
    (st : t * Z * Z) : outcome string (t * Z * Z) :=
  let '(self, loaded, failed) := st in
  match bincode_deserialize entry.2 with
  | Ok envelope =>
      let '(new, self) := insert now envelope self in
      Ok (self, if new then loaded + 1 else loaded, failed)
  | Err _ => Ok (self, loaded, failed + 1)
  | Panic => Panic
  end.

Definition load {B} `{StorageBackend B} `{HC : Bincode StoredEnvelope.t} (now : Z) (backend : B) (self : t)
    : outcome string (Z * t) :=
  let! entries := scan_prefix drift_prefix backend in
  let! ' (self, loaded, _) := for_each (load_entry now) entries (self, 0, 0) in
  Ok (loaded, self).

End Operations.
End MeshStore.
