(* ===== verification/MeshStoreProps.v ===== *)
(** * Properties of the mesh message store

    The capacity invariant and well-formedness over every history of
    operations, merging as a left-biased union, what eviction removes, the
    proof of state, and the round trip through a storage backend. *)

From stdpp Require Import sorting.
From S2P Require Import Prelude Drift Float64 Backend MeshStore.
Import StoredEnvelope MeshStore.

Section Store.
Context `{Libm} {MI : MapIter MessageId StoredEnvelope.t}.
Implicit Types (s : MeshStore.t).

(** ** Eviction *)

Lemma evict_noop now fuel s : length s <= max_messages s -> evict_loop now fuel s = s.
Proof. intros Hle. destruct fuel; simpl; zbool; done. Qed.

(** The message a turn of the loop removes. *)
Lemma evict_choice now s : 0 <= max_messages s < length s ->
  exists id e, messages s !! id = Some e /\
    min_by (evict_cmp now) (map_iter (messages s)) = Some (id, e).
Proof.
  intros Hlt. destruct (min_by _ _) as [[id e]|] eqn:Hm.
  - exists id, e. split; [|done]. apply elem_of_map_iter, (min_by_elem _ _ _ Hm).
  - apply min_by_None in Hm. unfold length in Hlt. rewrite <-length_map_iter, Hm in Hlt.
    simpl in Hlt. lia.
Qed.

Lemma length_delete s id e : messages s !! id = Some e ->
  length (set_messages s (delete id (messages s))) = length s - 1.
Proof.
  intros He. unfold length. cbn [messages set_messages]. rewrite map_size_delete_Some by eauto.
  enough (size (messages s) <> 0%nat) by lia. apply map_size_non_empty_iff. intros Hn.
  rewrite Hn in He. done.
Qed.

(** Eviction keeps a part of the store, of the size of the budget. *)
Lemma evict_loop_spec now fuel s : 0 <= max_messages s -> length s <= max_messages s + Z.of_nat fuel ->
  messages (evict_loop now fuel s) ⊆ messages s /\
  max_messages (evict_loop now fuel s) = max_messages s /\
  length (evict_loop now fuel s) = Z.min (length s) (max_messages s).
Proof.
  revert s. induction fuel as [|fuel IH]; intros s Hmax Hf.
  { rewrite evict_noop by lia. split_and!; [done|done|lia]. }
  destruct (decide (length s <= max_messages s)).
  { rewrite evict_noop by lia. split_and!; [done|done|lia]. }
  destruct (evict_choice now s) as (id & e & He & Hm); [lia|].
  cbn [evict_loop]. zbool. rewrite Hm. cbn [fmap option_fmap option_map fst].
  set (s' := set_messages s (delete id (messages s))).
  assert (Hl : length s' = length s - 1) by (apply (length_delete s id e He)).
  destruct (IH s') as (H1 & H2 & H3); [done|cbn; lia|]. split_and!; [|done|].
  - etrans; [exact H1|]. apply delete_subseteq.
  - rewrite H3, Hl. cbn [max_messages s' set_messages]. lia.
Qed.

Lemma evict_size now s : 0 <= max_messages s ->
  messages (evict_if_over_budget now s) ⊆ messages s /\
  max_messages (evict_if_over_budget now s) = max_messages s /\
  length (evict_if_over_budget now s) = Z.min (length s) (max_messages s).
Proof. intros Hmax. apply evict_loop_spec; unfold length; lia. Qed.

(** Scores of all messages are numbers. *)
Definition no_nan now s : Prop :=
  map_Forall (fun _ e => F64.is_nan (priority_score now e) = false) (messages s).

Lemma evict_cmp_min now s id e id' e' : no_nan now s ->
  min_by (evict_cmp now) (map_iter (messages s)) = Some (id, e) -> messages s !! id' = Some e' ->
  F64.le (priority_score now e) (priority_score now e').
Proof.
  intros Hn Hm He. apply elem_of_map_iter in He.
  refine (min_by_le (evict_cmp now) (fun kv => F64.is_nan (priority_score now kv.2) = false)
    _ _ _ _ _ _ Hm He).
  - intros x y Hx Hy. apply F64.cmp_antisym; done.
  - intros x y z Hx Hy Hz. apply F64.le_trans; done.
  - apply Forall_forall. intros [k v] Hkv. apply elem_of_map_iter in Hkv. apply (Hn _ _ Hkv).
Qed.

(** What is evicted scores no more than what is kept. *)
Lemma evict_loop_lowest now fuel s id e id' e' :
  0 <= max_messages s -> length s <= max_messages s + Z.of_nat fuel -> no_nan now s ->
  messages s !! id = Some e -> messages (evict_loop now fuel s) !! id = None ->
  messages (evict_loop now fuel s) !! id' = Some e' ->
  F64.le (priority_score now e) (priority_score now e').
Proof.
  revert s. induction fuel as [|fuel IH]; intros s Hmax Hf Hn He Hout Hin.
  { rewrite evict_noop in Hout by lia. congruence. }
  destruct (decide (length s <= max_messages s)).
  { rewrite evict_noop in Hout by lia. congruence. }
  destruct (evict_choice now s) as (i & x & Hx & Hm); [lia|].
  assert (Hin' : messages s !! id' = Some e').
  { eapply lookup_weaken; [exact Hin|]. apply evict_loop_spec; done. }
  cbn [evict_loop] in *. revert Hout Hin. zbool. rewrite Hm. cbn [fmap option_fmap option_map fst].
  intros Hout Hin. destruct (decide (id = i)) as [->|Hne].
  { rewrite Hx in He. inv He. eapply evict_cmp_min; eauto. }
  eapply IH; [| | | |exact Hout|exact Hin]; cbn [max_messages set_messages messages].
  - done.
  - rewrite (length_delete s i x Hx). lia.
  - intros k v Hk. apply (Hn k v). cbn [messages set_messages] in Hk. apply lookup_delete_Some in Hk. tauto.
  - rewrite lookup_delete_ne by done. done.
Qed.

(** ** Merging *)

Lemma merge_fold l s : NoDup l.*1 ->
  foldl (fun self (kv : MessageId * StoredEnvelope.t) =>
           if contains kv.1 self then self
           else set_messages self (<[kv.1 := kv.2]> (messages self))) s l =
  set_messages s (messages s ∪ list_to_map l).
Proof.
  revert s. induction l as [|[k v] l IH]; intros s Hnd; simpl.
  - rewrite map_union_empty. by destruct s.
  - inv Hnd. rewrite IH by done. unfold contains. case_bool_decide as Hc.
    + unfold set_messages. f_equal. apply map_eq. intros i.
      rewrite !lookup_union. destruct (decide (i = k)) as [->|].
      * destruct Hc as [x ->]. rewrite !union_Some_l. done.
      * rewrite lookup_insert_ne by done. done.
    + unfold set_messages. cbn [messages max_messages]. f_equal.
      rewrite <-insert_union_l, <-insert_union_r; [done|].
      apply eq_None_not_Some. done.
Qed.

Lemma list_to_map_iter (m : gmap MessageId StoredEnvelope.t) : list_to_map (map_iter m) = m.
Proof.
  rewrite <-(list_to_map_to_list m) at 2. apply list_to_map_proper; [|apply map_iter_perm].
  apply NoDup_map_iter_keys.
Qed.

Lemma merge_union now other s :
  merge now other s = evict_if_over_budget now (set_messages s (messages s ∪ messages other)).
Proof. unfold merge. rewrite merge_fold, list_to_map_iter by apply NoDup_map_iter_keys. done. Qed.

(** ** The invariant *)

Definition keyed (m : gmap MessageId StoredEnvelope.t) : Prop :=
  map_Forall (fun id e => message_id e = id /\ wf e) m.

Definition Inv s : Prop :=
  0 <= max_messages s /\ length s <= max_messages s /\ keyed (messages s).

Lemma keyed_subseteq m m' : m' ⊆ m -> keyed m -> keyed m'.
Proof. intros Hs Hk id e He. apply Hk. eapply lookup_weaken; done. Qed.

Lemma evict_inv now s : 0 <= max_messages s -> keyed (messages s) ->
  Inv (evict_if_over_budget now s) /\ max_messages (evict_if_over_budget now s) = max_messages s.
Proof.
  intros Hmax Hk. destruct (evict_size now s Hmax) as (H1 & H2 & H3).
  split; [|done]. unfold Inv. rewrite H2, H3. split_and!; [done|lia|].
  eapply keyed_subseteq; done.
Qed.

Lemma insert_inv now e s : wf e -> Inv s ->
  Inv (insert now e s).2 /\ max_messages (insert now e s).2 = max_messages s.
Proof.
  intros He (Hmax & Hl & Hk). unfold insert. case_goal; [by split|]. cbn [snd].
  refine (evict_inv now (set_messages s _) _ _); [done|]. cbn [messages set_messages].
  apply map_Forall_insert_2; [done|done].
Qed.

Lemma merge_inv now other s : keyed (messages other) -> Inv s ->
  Inv (merge now other s) /\ max_messages (merge now other s) = max_messages s.
Proof.
  intros Ho (Hmax & Hl & Hk). rewrite merge_union.
  refine (evict_inv now (set_messages s _) _ _); [done|].
  cbn [messages set_messages]. apply map_Forall_union_2; done.
Qed.

(** A smaller set of messages under the same budget. *)
Lemma shrink_inv s m : m ⊆ messages s -> Inv s -> Inv (set_messages s m).
Proof.
  intros Hs (Hmax & Hl & Hk). split_and!; [done| |eapply keyed_subseteq; done].
  unfold length in *. cbn [messages set_messages max_messages].
  apply map_subseteq_size in Hs. lia.
Qed.

Section Histories.
Context {B : Type} `{StorageBackend B} `{Bincode StoredEnvelope.t}.

(** One operation on a store; the arguments are values of their Rust types. *)
Inductive step : MeshStore.t -> MeshStore.t -> Prop :=
| step_insert now e s : wf e -> step s (insert now e s).2
| step_merge now other s : keyed (messages other) -> step s (merge now other s)
| step_remove id s : step s (remove id s).2
| step_remove_expired now s : step s (remove_expired now s).2
| step_load now b n s s' : load now b s = Ok (n, s') -> step s s'.

Context (typed : forall d e, bincode_deserialize d = Ok e -> wf e).

Lemma load_inv now b n s s' : Inv s -> load now b s = Ok (n, s') ->
  Inv s' /\ max_messages s' = max_messages s.
Proof using typed.
  unfold load. intros Hs. destruct (scan_prefix _ _) as [entries| |]; [|done..].
  destruct (for_each _ _ _) as [[[s1 l1] f1]| |] eqn:Hf; [|done..]. intros Heq. injection Heq as <- <-.
  refine (for_each_inv (fun st : MeshStore.t * Z * Z =>
    Inv st.1.1 /\ max_messages st.1.1 = max_messages s) _ _ _ _ _ _ Hf); [|by split].
  intros a [[u l] f] u' _ [Hu Hm]. unfold load_entry.
  destruct (bincode_deserialize a.2) as [e| |] eqn:He; intros Heq; [|by injection Heq as <-|done].
  destruct (insert now e u) as [b1 u1] eqn:Hi. injection Heq as <-. cbn [fst snd] in *.
  destruct (insert_inv now e u (typed _ _ He) Hu) as [Hi1 Hi2]. rewrite Hi in *. cbn [snd] in *.
  split; [done|congruence].
Qed.

Lemma step_inv s s' : step s s' -> Inv s -> Inv s' /\ max_messages s' = max_messages s.
Proof using typed.
  destruct 1; intros Hs.
  - apply insert_inv; done.
  - apply merge_inv; done.
  - split; [|done]. apply shrink_inv; [|done]. apply delete_subseteq.
  - split; [|done]. apply shrink_inv; [|done]. apply map_filter_subseteq.
  - eapply load_inv; done.
Qed.

(** C6. Whatever sequence of inserts, merges, removals, expiry sweeps and loads
    is applied, the store never holds more than its budget, every message
    is filed under its own id with fields at their widths, and the budget
    does not change. *)
Theorem store_invariant s s' : rtc step s s' -> Inv s ->
  length s' <= max_messages s /\ keyed (messages s') /\ max_messages s' = max_messages s.
Proof using typed.
  intros Hr Hs. enough (Inv s' /\ max_messages s' = max_messages s) as [(_ & Hl & Hk) <-] by done.
  induction Hr as [s|s s1 s' Hst Hr IH]; [done|].
  destruct (step_inv _ _ Hst Hs) as [Hs1 <-]. apply IH. done.
Qed.
End Histories.

(** ** Inserting *)

(** [insert] of a known id changes nothing and says so.  Of a new id it
    answers [true] and leaves as many messages as fit, taken from the old ones
    and the new one; when no score is NaN, a message that had to go scores no
    more than any that stayed.  (The new message itself may be the one that
    goes.) *)
Theorem store_insert_spec now e s : Inv s ->
  (is_Some (messages s !! message_id e) -> insert now e s = (false, s)) /\
  (messages s !! message_id e = None ->
   let all := set_messages s (<[message_id e := e]> (messages s)) in
   let s' := (insert now e s).2 in
   (insert now e s).1 = true /\
   messages s' ⊆ messages all /\
   length s' = Z.min (length s + 1) (max_messages s) /\
   (no_nan now all -> forall id x id' y, messages all !! id = Some x -> messages s' !! id = None ->
     messages s' !! id' = Some y -> F64.le (priority_score now x) (priority_score now y))).
Proof.
  intros (Hmax & Hl & Hk). unfold insert, contains. split; intros He.
  { rewrite bool_decide_true by done. done. }
  rewrite bool_decide_false by (apply eq_None_not_Some; done). cbn [fst snd].
  set (all := set_messages s (<[message_id e:=e]> (messages s))).
  assert (Hmax' : 0 <= max_messages all) by done.
  assert (Hall : length all = length s + 1).
  { unfold length, all. cbn [messages set_messages]. rewrite map_size_insert_None by done. lia. }
  destruct (evict_size now all) as (H1 & H2 & H3); [done|].
  split; [done|]. split; [done|]. split; [rewrite H3, Hall; done|].
  intros Hn id x id' y. apply evict_loop_lowest; unfold length; [done|lia|done].
Qed.

(** ** Merging under the budget *)

Lemma merge_fits now other s : length (set_messages s (messages s ∪ messages other)) <= max_messages s ->
  merge now other s = set_messages s (messages s ∪ messages other).
Proof. intros Hfit. rewrite merge_union. apply evict_noop. done. Qed.

Lemma length_fits s m m' : m' ⊆ m -> Z.of_nat (size m) <= max_messages s ->
  length (set_messages s m') <= max_messages s.
Proof. intros Hs Hm. unfold length. cbn [messages set_messages]. apply map_subseteq_size in Hs. lia. Qed.

Lemma size_union_comm (m1 m2 : gmap MessageId StoredEnvelope.t) : size (m1 ∪ m2) = size (m2 ∪ m1).
Proof. rewrite <-!(size_dom (D := gset MessageId)), !dom_union_L. f_equal. apply (comm_L (∪)). Qed.

Lemma size_union_le (m m' : gmap MessageId StoredEnvelope.t) : (size m <= size (m' ∪ m))%nat.
Proof. rewrite size_union_comm. apply map_subseteq_size, map_union_subseteq_l. Qed.

(** When the union of the stores fits the budget, [merge] is a join: the
    result holds exactly the ids of both stores, a store keeps its own copy of
    a message it already had, merging with itself changes nothing, the
    grouping of merges does not matter, and the two orders of a merge agree
    on the ids. *)
Theorem store_merge_join now a b c :
  max_messages a = max_messages b ->
  Z.of_nat (size (messages a ∪ messages b ∪ messages c)) <= max_messages a ->
  messages (MeshStore.merge now b a) = messages a ∪ messages b /\
  (forall id e, messages a !! id = Some e -> messages (MeshStore.merge now b a) !! id = Some e) /\
  MeshStore.merge now a a = a /\
  MeshStore.merge now c (MeshStore.merge now b a) = MeshStore.merge now (MeshStore.merge now c b) a /\
  dom (messages (MeshStore.merge now b a)) = dom (messages (MeshStore.merge now a b)).
Proof.
  intros Hm Hfit.
  assert (Hab : merge now b a = set_messages a (messages a ∪ messages b)).
  { apply merge_fits, (length_fits _ _ _ (map_union_subseteq_l _ (messages c)) Hfit). }
  assert (Ha : messages a ⊆ messages a ∪ messages b ∪ messages c).
  { rewrite <-(assoc_L (∪)). apply map_union_subseteq_l. }
  rewrite Hab. split_and!.
  - done.
  - intros id e He. cbn [messages set_messages]. apply lookup_union_Some_l. done.
  - rewrite merge_fits; rewrite map_union_idemp; [by destruct a|].
    apply (length_fits _ _ _ Ha Hfit).
  - assert (Hbc : merge now c b = set_messages b (messages b ∪ messages c)).
    { apply merge_fits. unfold length. cbn [messages set_messages]. rewrite <-Hm.
      rewrite <-(assoc_L (∪)) in Hfit. pose proof (size_union_le (messages b ∪ messages c) (messages a)). lia. }
    rewrite Hbc. rewrite !merge_fits; cbn [messages set_messages max_messages].
    + unfold set_messages. cbn [messages max_messages]. rewrite (assoc_L (∪)). done.
    + apply (length_fits _ _ _ (reflexivity _)). rewrite (assoc_L (∪)). done.
    + apply (length_fits a _ _ (reflexivity _)). done.
  - rewrite merge_fits; cbn [messages set_messages].
    + rewrite !dom_union_L. apply (comm_L (∪)).
    + unfold length. cbn [messages set_messages max_messages]. rewrite size_union_comm, <-Hm.
      apply (length_fits a _ _ (map_union_subseteq_l _ (messages c)) Hfit).
Qed.

End Store.

(** ** The proof of state *)

Lemma id_cmp_spec a : forall b,
  id_cmp a b = CompOpp (id_cmp b a) /\ (id_cmp a b = Eq -> a = b).
Proof.
  induction a as [|x a IH]; intros [|y b]; simpl; try done. destruct (IH b) as [H1 H2].
  rewrite (Z.compare_antisym y x). destruct (Z.compare_spec y x); simpl; try done. subst.
  split; [done|]. intros Hc. f_equal. auto.
Qed.

Lemma id_cmp_trans a : forall b c,
  cmp_le id_cmp a b -> cmp_le id_cmp b c -> cmp_le id_cmp a c.
Proof.
  unfold cmp_le. induction a as [|x a IH]; intros [|y b] [|z c]; simpl; try done.
  destruct (Z.compare_spec x y), (Z.compare_spec y z); try done; subst; intros Hab Hbc.
  - rewrite Z.compare_refl. eauto.
  - rewrite (proj2 (Z.compare_lt_iff _ _)) by lia. done.
  - rewrite (proj2 (Z.compare_lt_iff _ _)) by lia. done.
  - rewrite (proj2 (Z.compare_lt_iff _ _)) by lia. done.
Qed.

#[export] Instance id_cmp_order : CmpOrder id_cmp.
Proof. split; [intros x y; apply id_cmp_spec|exact id_cmp_trans]. Qed.

Lemma sort_ids_unique l1 l2 : l1 ≡ₚ l2 -> sort_by id_cmp l1 = sort_by id_cmp l2.
Proof.
  intros Hp.
  assert (Ha : AntiSymm (=) (cmp_le id_cmp)).
  { intros x y. unfold cmp_le. destruct (id_cmp_spec x y) as [H1 H2]. rewrite H1 in *.
    destruct (id_cmp y x); try done. auto. }
  apply (StronglySorted_unique (cmp_le id_cmp)); [apply sort_by_ordered, _..|].
  rewrite !sort_by_perm. done.
Qed.

Lemma concat_ids_inj (l1 l2 : list MessageId) :
  Forall (byte_array 16) l1 -> Forall (byte_array 16) l2 -> concat l1 = concat l2 -> l1 = l2.
Proof.
  intros H1. revert l2. induction H1 as [|a l1 [Ha _] H1 IH]; intros l2 H2; destruct H2 as [|b l2 [Hb _] H2];
    simpl; intros Heq; [done|exfalso..|].
  - destruct b; [done|]. done.
  - destruct a; [done|]. done.
  - apply app_inj_1 in Heq as [-> Heq]; [|unfold len in *; lia]. f_equal. auto.
Qed.

Lemma sort_ids_keyed {MI : MapIter MessageId StoredEnvelope.t} s : keyed (messages s) ->
  Forall (byte_array 16) (sort_by id_cmp (message_ids s)).
Proof.
  intros Hk. rewrite sort_by_perm. apply Forall_forall. intros id Hid.
  apply elem_of_map_iter_keys in Hid as [e He]. destruct (Hk _ _ He) as [<- (_ & Hw & _)]. done.
Qed.

Lemma message_ids_elem {MI : MapIter MessageId StoredEnvelope.t} s id :
  id ∈ message_ids s <-> id ∈ dom (messages s).
Proof. unfold message_ids. rewrite elem_of_map_iter_keys, elem_of_dom. done. Qed.

(** The proof of state depends on nothing but the set of ids: two stores
    with the same ids have the same proof, whatever order their hash maps
    iterate in; and two stores with the same proof have the same ids,
    unless they exhibit a collision of BLAKE3. *)
Theorem store_proof_spec `{Blake3, Hex} (MI1 MI2 : MapIter MessageId StoredEnvelope.t) s1 s2 :
  keyed (messages s1) -> keyed (messages s2) -> Inj (=) (=) hex_encode ->
  (dom (messages s1) = dom (messages s2) ->
   generate_proof (MI := MI1) s1 = generate_proof (MI := MI2) s2) /\
  (generate_proof (MI := MI1) s1 = generate_proof (MI := MI2) s2 ->
   dom (messages s1) = dom (messages s2) \/
   exists x y, x <> y /\ blake3_hash x = blake3_hash y).
Proof.
  intros Hk1 Hk2 Hinj. unfold generate_proof, proof_input. split; intros Heq.
  - do 3 f_equal. apply sort_ids_unique, NoDup_Permutation; [apply NoDup_map_iter_keys..|].
    intros id. rewrite !message_ids_elem, Heq. done.
  - apply (inj _) in Heq.
    destruct (decide (concat (sort_by id_cmp (message_ids (MI := MI1) s1)) =
      concat (sort_by id_cmp (message_ids (MI := MI2) s2)))) as [Hc|Hc]; [left|right; eauto].
    apply concat_ids_inj in Hc; [|apply sort_ids_keyed; done..]. apply set_eq. intros id.
    rewrite <-(message_ids_elem (MI := MI1)), <-(message_ids_elem (MI := MI2)).
    rewrite <-(sort_by_perm id_cmp (message_ids s1)), Hc, sort_by_perm. done.
Qed.

(** ** Saving and loading *)

Section Persistence.
Context `{Libm} {MI : MapIter MessageId StoredEnvelope.t}.
Context {B : Type} `{HB : StorageBackend B} {HBS : StorageBackendSpec B}.
Context `{HC : Bincode StoredEnvelope.t} {HCS : BincodeSpec StoredEnvelope.t}.

(** The backend entry of a message. *)
Definition entry_of (kv : MessageId * StoredEnvelope.t) : Bytes * Bytes :=
  (storage_key kv.1, match bincode_serialize kv.2 with Ok d => d | _ => [] end).

Lemma entry_of_spec id e : exists d, bincode_serialize e = Ok d /\
  entry_of (id, e) = (storage_key id, d) /\ bincode_deserialize d = Ok e.
Proof.
  destruct (bincode_serialize_total e) as [d Hd]. exists d. unfold entry_of. cbn [fst snd].
  rewrite Hd. split_and!; [done..|]. apply bincode_roundtrip. done.
Qed.

Lemma save_loop l b b' : NoDup l.*1 ->
  for_each (fun (kv : MessageId * StoredEnvelope.t) backend =>
    let! value := map_err (fun e => ("Failed to serialize envelope: " ++ e)%string)
                    (bincode_serialize kv.2) in
    put (storage_key kv.1) value backend) l b = Ok b' ->
  forall k, contents b' !! k = (list_to_map (entry_of <$> l) ∪ contents b) !! k.
Proof.
  revert b. induction l as [|[id e] l IH]; intros b Hnd Hf k.
  { simpl in Hf. injection Hf as <-. simpl. rewrite map_empty_union. done. }
  destruct (entry_of_spec id e) as (d & Hd & He & _).
  cbn [for_each snd fst] in Hf. rewrite Hd in Hf. cbn [map_err] in Hf.
  destruct (put _ _ _) as [b1| |] eqn:Hp; [|done..]. apply put_ok in Hp. apply NoDup_cons in Hnd as [Hni Hnd].
  rewrite (IH b1) by done. rewrite fmap_cons, He. cbn [list_to_map foldr uncurry fst snd].
  rewrite Hp. rewrite <-insert_union_l, insert_union_r; [done|].
  apply not_elem_of_list_to_map. rewrite <-list_fmap_compose. intros Hin.
  apply list_elem_of_fmap in Hin as ([id' e'] & Hk & Hin). cbn in Hk.
  injection Hk as <-. apply Hni. apply list_elem_of_fmap. exists (id, e'). done.
Qed.

(** What [save] leaves in the backend. *)
Lemma save_contents s b b' : save s b = Ok b' ->
  contents b' = list_to_map (entry_of <$> map_iter (messages s)) ∪ contents b.
Proof.
  intros Hs. apply map_eq. intros k. eapply save_loop; [|exact Hs]. apply NoDup_map_iter_keys.
Qed.

Lemma NoDup_entries l : NoDup l.*1 -> NoDup (entry_of <$> l).*1.
Proof.
  rewrite <-list_fmap_compose. change (fst ∘ entry_of) with (storage_key ∘ @fst MessageId StoredEnvelope.t).
  rewrite list_fmap_compose. apply NoDup_fmap_2. intros x y Hxy. by apply app_inv_head in Hxy.
Qed.

Lemma saved_entries s b b' entries : save s b = Ok b' ->
  with_prefix drift_prefix (contents b) = ∅ -> scan_prefix drift_prefix b' = Ok entries ->
  entries ≡ₚ entry_of <$> map_to_list (messages s).
Proof.
  intros Hs Hb Hscan. apply scan_prefix_ok in Hscan. rewrite Hscan, (save_contents _ _ _ Hs).
  rewrite <-(map_iter_perm (messages s)).
  assert (Hnd := NoDup_entries _ (NoDup_map_iter_keys (messages s))).
  apply NoDup_Permutation; [apply NoDup_map_to_list|by eapply NoDup_fmap_1|]. intros [k v].
  rewrite elem_of_map_to_list. unfold with_prefix. rewrite map_lookup_filter_Some, lookup_union_Some_raw.
  rewrite <-elem_of_list_to_map by done. cbn [fst]. split.
  - intros [[Hin|[_ Hin]] Hp]; [done|]. exfalso.
    apply (lookup_empty_Some (M := gmap Bytes) k v). rewrite <-Hb.
    apply map_lookup_filter_Some. done.
  - intros Hin. split; [by left|]. apply list_elem_of_fmap in Hin as ([id e] & Heq & _).
    unfold entry_of in Heq. inv Heq. exists id. done.
Qed.

(** A new message that fits is simply added. *)
Lemma insert_fresh now e s : messages s !! message_id e = None -> length s + 1 <= max_messages s ->
  insert now e s = (true, set_messages s (<[message_id e := e]> (messages s))) /\
  length (set_messages s (<[message_id e := e]> (messages s))) = length s + 1.
Proof.
  intros Hn Hfit.
  assert (Hl : length (set_messages s (<[message_id e := e]> (messages s))) = length s + 1).
  { unfold length. cbn [messages set_messages]. rewrite map_size_insert_None by done. lia. }
  split; [|done]. unfold insert, contains.
  rewrite bool_decide_false by (apply eq_None_not_Some; done).
  unfold evict_if_over_budget. rewrite evict_noop by (rewrite Hl; cbn; lia). done.
Qed.

Lemma load_loop now l s n f :
  NoDup l.*1 -> Forall (fun kv => message_id kv.2 = kv.1) l ->
  (forall id, id ∈ l.*1 -> messages s !! id = None) ->
  length s + len l <= max_messages s ->
  for_each (load_entry now) (entry_of <$> l) (s, n, f) =
  Ok (set_messages s (list_to_map l ∪ messages s), n + len l, f).
Proof.
  revert s n. induction l as [|[id e] l IH]; intros s n Hnd Hid Hnew Hfit.
  { simpl. rewrite map_empty_union, len_nil, Z.add_0_r. by destruct s. }
  destruct (entry_of_spec id e) as (d & _ & He & Hd).
  apply NoDup_cons in Hnd as [Hni Hnd]. apply Forall_cons in Hid as [Hid0 Hid]. cbn in Hid0. subst id.
  rewrite fmap_cons, He. cbn [for_each load_entry snd]. rewrite Hd.
  assert (Hn0 : messages s !! message_id e = None) by (apply Hnew; constructor).
  rewrite len_cons in *. pose proof (len_nonneg l).
  destruct (insert_fresh now e s) as [-> Hl]; [done|lia|].
  rewrite IH; [|done|done| |rewrite Hl; cbn [max_messages set_messages]; lia].
  - unfold set_messages. cbn [messages max_messages list_to_map foldr uncurry fst snd].
    rewrite <-insert_union_r by (apply not_elem_of_list_to_map; done).
    rewrite <-insert_union_l. do 3 f_equal. lia.
  - intros id Hin. cbn [messages set_messages]. rewrite lookup_insert_ne; [|intros <-; done].
    apply Hnew. by constructor.
Qed.

(** Saving a store to a backend that holds no mesh messages and loading it
    into a fresh store of the same budget gives the store back; saving leaves
    every key outside the "drift:" prefix alone. *)
Theorem store_save_load now s b b' : Inv s ->
  with_prefix drift_prefix (contents b) = ∅ -> save s b = Ok b' ->
  (forall k, ~ drift_prefix `prefix_of` k -> contents b' !! k = contents b !! k) /\
  (forall entries, scan_prefix drift_prefix b' = Ok entries ->
    load now b' (with_capacity (max_messages s)) = Ok (length s, s)).
Proof.
  intros (Hmax & Hl & Hk) Hb Hs. split.
  - intros k Hp. rewrite (save_contents _ _ _ Hs). apply lookup_union_r, not_elem_of_list_to_map.
    rewrite <-list_fmap_compose. intros Hin. apply list_elem_of_fmap in Hin as ([id e] & -> & _).
    apply Hp. exists id. done.
  - intros entries Hscan. pose proof (saved_entries _ _ _ _ Hs Hb Hscan) as Hp.
    apply Permutation_map_inv in Hp as (l & -> & Hp). unfold load. rewrite Hscan.
    assert (Hnd : NoDup l.*1) by (rewrite <-Hp; apply NoDup_fst_map_to_list).
    assert (Hlen : len l = length s).
    { unfold len, length. rewrite <-Hp, length_map_to_list. done. }
    change (map entry_of l) with (entry_of <$> l). rewrite load_loop; [|done| |done|].
    + rewrite Hlen, Z.add_0_l. do 2 f_equal. unfold with_capacity, set_messages. cbn.
      rewrite map_union_empty, <-(list_to_map_proper _ _ (NoDup_fst_map_to_list (messages s)) Hp),
        list_to_map_to_list. by destruct s.
    + rewrite <-Hp. apply Forall_forall. intros [id e] Hin. apply elem_of_map_to_list in Hin.
      apply (Hk _ _ Hin).
    + unfold length, with_capacity in *. cbn. rewrite map_size_empty. lia.
Qed.
End Persistence.

(** ** Concrete stores *)

Module StoreSamples.

Definition envelope (id priority : Z) : StoredEnvelope.t :=
  mk [1; 2; 3] (sample_id id) [1; 2; 3; 4] 1000 0 0 priority 0.

Definition full : MeshStore.t :=
  mk_store {[ sample_id 1 := envelope 1 5; sample_id 2 := envelope 2 100 ]} 2.

Definition single (id priority max : Z) : MeshStore.t :=
  mk_store {[ sample_id id := envelope id priority ]} max.

(** A codec that yields only values with fields in range. *)
Definition checked_bincode : Bincode StoredEnvelope.t :=
  {| bincode_serialize := @bincode_serialize _ (sample_bincode StoredEnvelope.t);
     bincode_deserialize d :=
       match @bincode_deserialize _ (sample_bincode StoredEnvelope.t) d with
       | Ok e => if decide (wf e) then Ok e else Err "field out of range"%string
       | r => r
       end |}.

Lemma checked_bincode_typed d e : @bincode_deserialize _ checked_bincode d = Ok e -> wf e.
Proof.
  unfold checked_bincode. simpl. destruct (decode _); [|done]. case_decide; [|done].
  intros Heq. by injection Heq as <-.
Qed.

#[export] Instance libm : Libm := sample_libm.
#[export] Instance iter : MapIter MessageId StoredEnvelope.t := map_iter_default.
#[export] Instance iter_bytes : MapIter Bytes Bytes := map_iter_reverse.
#[export] Instance blake3 : Blake3 := sample_blake3.
#[export] Existing Instance MemoryStorage.storage_backend.
#[export] Existing Instance MemoryStorage.storage_backend_spec.

(** An injective encoder: the enumeration of the byte strings, in binary. *)
Fixpoint bits (p : positive) : string :=
  match p with
  | xH => ""
  | xO p => "0" ++ bits p
  | xI p => "1" ++ bits p
  end.

Lemma bits_inj p q : bits p = bits q -> p = q.
Proof.
  revert q. induction p as [p IH|p IH|]; intros [q|q|]; simpl; intros Heq; try done;
    injection Heq as Heq; f_equal; auto.
Qed.

#[export] Instance hex : Hex := fun l => bits (encode l).

Lemma hex_inj : Inj (=) (=) (@hex_encode hex).
Proof. intros x y Hxy. apply bits_inj, (inj encode) in Hxy. done. Qed.

End StoreSamples.
Import StoreSamples.

Lemma store_invariant_witness :
  let s := with_capacity 1 in
  let s' := (insert 5000 (envelope 2 9) (merge 5000 full s)).2 in
  length s' <= max_messages s /\ keyed (messages s') /\ max_messages s' = max_messages s.
Proof.
  intros s s'.
  refine (store_invariant (B := MemoryStorage.t) (H1 := checked_bincode) checked_bincode_typed
    s s' _ _); [|by_eval].
  eapply rtc_l; [apply (step_merge 5000 full); by_eval|].
  eapply rtc_l; [apply (step_insert 5000 (envelope 2 9)); by_eval|].
  apply rtc_refl.
Defined.

Lemma store_insert_spec_witness :
  let all := set_messages full (<[sample_id 3 := envelope 3 50]> (messages full)) in
  let s' := (insert 5000 (envelope 3 50) full).2 in
  messages s' = {[ sample_id 2 := envelope 2 100; sample_id 3 := envelope 3 50 ]} /\
  F64.le (priority_score 5000 (envelope 1 5)) (priority_score 5000 (envelope 3 50)).
Proof.
  intros all s'. split; [by_eval|].
  destruct (store_insert_spec 5000 (envelope 3 50) full) as [_ Hnew]; [by_eval|].
  destruct Hnew as (_ & _ & _ & Hlow); [by_eval|].
  apply (Hlow ltac:(by_eval) (sample_id 1) _ (sample_id 3) _); by_eval.
Defined.

Lemma store_merge_join_witness :
  messages (merge 5000 (single 2 7 3) (single 1 5 3)) =
    {[ sample_id 1 := envelope 1 5; sample_id 2 := envelope 2 7 ]} /\
  merge 5000 (single 1 5 3) (single 1 5 3) = single 1 5 3.
Proof.
  destruct (store_merge_join 5000 (single 1 5 3) (single 2 7 3) (single 1 6 3)) as (Hm & _ & Hi & _);
    [by_eval..|].
  split; [rewrite Hm; by_eval|exact Hi].
Defined.

Lemma store_proof_spec_witness :
  generate_proof (MI := map_iter_default) full =
  generate_proof (MI := map_iter_reverse) (mk_store (messages full) 7).
Proof.
  destruct (store_proof_spec map_iter_default map_iter_reverse full (mk_store (messages full) 7))
    as [Hp _]; [by_eval|by_eval|apply hex_inj|].
  apply Hp. reflexivity.
Defined.

Lemma store_save_load_witness :
  exists b, save (B := MemoryStorage.t) (HC := sample_bincode _) full MemoryStorage.new = Ok b /\
    load (B := MemoryStorage.t) (HC := sample_bincode _) 5000 b (with_capacity 2) = Ok (2, full).
Proof.
  assert (Hok : is_ok (save (B := MemoryStorage.t) (HC := sample_bincode _) full MemoryStorage.new) = true)
    by (vm_compute; reflexivity).
  destruct (save full MemoryStorage.new) as [b| |] eqn:Hs in Hok; [|discriminate Hok..].
  exists b. split; [exact Hs|].
  destruct (store_save_load (B := MemoryStorage.t) (HCS := sample_bincode_spec _)
    5000 full MemoryStorage.new b) as [_ Hl]; [by_eval|by_eval|exact Hs|].
  exact (Hl _ eq_refl).
Defined.
