(* ===== verification/Sync.v ===== *)
(** * Mesh synchronization sessions (core/src/drift/sync.rs)

    The three-message protocol: an offer with a sketch, a response with a
    sketch and the envelopes the initiator lacks, a completion with the
    envelopes the responder lacks.

    A method that fails may already have changed the session, so an operation
    returns the session it leaves behind together with its outcome.  The clock
    is the argument [now]; [bincode] and BLAKE3 are parameters. *)

From S2P Require Import Prelude Drift Float64 Frame Sketch Backend MeshStore.
Import MeshStore.

Definition SYNC_SCHEMA_VERSION : Z := 1.

Inductive SyncMessage : Type :=
| SyncOffer (iblt_data : list Z) (message_count sketch_capacity : Z) (peer_proof : string)
    (timestamp : Z)
| SyncResponse (iblt_data : list Z) (message_count : Z) (missing_envelopes : list (list Z))
| SyncComplete (missing_envelopes : list (list Z)).

#[export] Instance SyncMessage_eq_dec : EqDecision SyncMessage.
Proof. solve_decision. Defined.

(** The variant of core/src/error.rs that this module raises. *)
Inductive MeshError : Type :=
| VersionMismatch (received expected : Z).

Definition MeshError_to_string (e : MeshError) : string :=
  match e with
  | VersionMismatch received expected =>
      ("sync protocol version mismatch: got " ++ pretty.pretty received ++
       ", expected " ++ pretty.pretty expected)%string
  end.

Module VersionedSyncMessage.

Record t : Type := mk { schema_version : Z; payload : SyncMessage }.

Definition new (payload : SyncMessage) : t := mk SYNC_SCHEMA_VERSION payload.

Definition validate (self : t) : outcome MeshError unit :=
  if negb (schema_version self =? SYNC_SCHEMA_VERSION)
  then Err (VersionMismatch (schema_version self) SYNC_SCHEMA_VERSION)
  else Ok tt.

Definition to_bytes `{Bincode t} (self : t) : outcome DriftError (list Z) :=
  map_err DecompressionFailed (bincode_serialize self).

Definition from_bytes `{Bincode t} (data : list Z) : outcome DriftError t :=
  let! msg := map_err DecompressionFailed (bincode_deserialize data) in
  let! _ := map_err (fun e => DecompressionFailed (MeshError_to_string e)) (validate msg) in
  Ok msg.

End VersionedSyncMessage.

Module SyncMessageImpl.

Definition to_bytes `{Bincode SyncMessage} (self : SyncMessage) : outcome DriftError (list Z) :=
  map_err DecompressionFailed (bincode_serialize self).

Definition from_bytes `{Bincode SyncMessage} (data : list Z) : outcome DriftError SyncMessage :=
  map_err DecompressionFailed (bincode_deserialize data).

Definition frame_type (self : SyncMessage) : FrameType :=
  match self with
  | SyncOffer _ _ _ _ _ => SyncReq
  | SyncResponse _ _ _ => SyncResp
  | SyncComplete _ => SyncResp
  end.

End SyncMessageImpl.

Inductive SyncState : Type :=
| Ready
| AwaitingResponse
| ProcessingResponse
| Complete
| Failed.

#[export] Instance SyncState_eq_dec : EqDecision SyncState.
Proof. solve_decision. Defined.

Module SyncSession.

Record t : Type := mk {
  state : SyncState;
  our_iblt : option IBLT.t;
  peer_iblt : option IBLT.t;
  peer_missing : list MessageId;
  our_missing : list MessageId;
  peer_message_count : Z
}.

#[local] Existing Instance IBLT.iblt_eq_dec.

#[export] Instance t_eq_dec : EqDecision t.
Proof. solve_decision. Defined.

(** Leave with the session as it is now when [c] fails. *)
Notation "'try!' x := c 'at' s 'in' k" :=
  (match c with Ok x => k | Err e => (s, Err e) | Panic => (s, Panic) end)
  (at level 10, x name, c at level 200, s at level 200, k at level 200) : rust_scope.

Notation "'try!' ' p := c 'at' s 'in' k" :=
  (match c with Ok p => k | Err e => (s, Err e) | Panic => (s, Panic) end)
  (at level 10, p pattern, c at level 200, s at level 200, k at level 200) : rust_scope.

Definition new : t := mk Ready None None [] [] 0.

Definition set_state (s : SyncState) (self : t) : t :=
  mk s (our_iblt self) (peer_iblt self) (peer_missing self) (our_missing self) (peer_message_count self).
Definition set_our_iblt (i : IBLT.t) (self : t) : t :=
  mk (state self) (Some i) (peer_iblt self) (peer_missing self) (our_missing self) (peer_message_count self).
Definition set_peer (i : IBLT.t) (count : Z) (self : t) : t :=
  mk (state self) (our_iblt self) (Some i) (peer_missing self) (our_missing self) count.
Definition set_missing (theirs ours : list MessageId) (self : t) : t :=
  mk (state self) (our_iblt self) (peer_iblt self) theirs ours (peer_message_count self).

Section Operations.
Context `{Blake3} `{Hex} {MI : MapIter MessageId StoredEnvelope.t} `{HC : Bincode StoredEnvelope.t}.

(** [for msg_id in store.message_ids() { iblt.insert(&msg_id) }]. *)
Definition insert_all {E} (store : MeshStore.t) (iblt : IBLT.t) : outcome E IBLT.t :=
  for_each (fun msg_id iblt => IBLT.insert msg_id iblt) (message_ids store) iblt.

(** [filter_map(|id| store.get(id).and_then(|env| bincode::serialize(env).ok()))]. *)
Definition gather (store : MeshStore.t) (ids : list MessageId) : list (list Z) :=
  omap (fun msg_id =>
    match MeshStore.get msg_id store with
    | Some env => match bincode_serialize env with Ok d => Some d | _ => None end
    | None => None
    end) ids.

Definition initiate (now : Z) (store : MeshStore.t) (self : t) : t * outcome DriftError SyncMessage :=
  if negb (bool_decide (state self = Ready)) then
    (self, Err (DecompressionFailed "SyncSession already initiated"))
  else
  let message_count := wrap 32 (length store) in
  let iblt_capacity := Z.max (message_count * 4 + 8) 1 in
  try! iblt := insert_all store (IBLT.new iblt_capacity) at self in
  try! iblt_data := IBLT.to_bytes iblt at self in
  let sketch_capacity := wrap 32 (IBLT.cell_count iblt) in
  let peer_proof := generate_proof store in
  let timestamp := now in
  let self := set_our_iblt iblt self in
  let self := set_state AwaitingResponse self in
  (self, Ok (SyncOffer iblt_data message_count sketch_capacity peer_proof timestamp)).

Definition respond (store : MeshStore.t) (offer : SyncMessage) (self : t)
    : t * outcome DriftError (SyncMessage * list StoredEnvelope.t) :=
  if negb (bool_decide (state self = Ready)) then
    (self, Err (DecompressionFailed "SyncSession in wrong state for respond"))
  else
  match offer with
  | SyncOffer iblt_data peer_msg_count _ _ _ =>
      try! peer_iblt := IBLT.from_bytes iblt_data at self in
      let self := set_peer peer_iblt peer_msg_count self in
      let peer_capacity := IBLT.cell_count peer_iblt in
      try! our_iblt := insert_all store (IBLT.with_cells peer_capacity) at self in
      try! diff := IBLT.subtract our_iblt peer_iblt at self in
      try! ' (they_have_not, they_have_we_dont) := IBLT.decode diff at self in
      let self := set_missing they_have_not they_have_we_dont self in
      try! our_iblt_data := IBLT.to_bytes our_iblt at self in
      let self := set_our_iblt our_iblt self in
      let missing_envelopes := gather store they_have_not in
      let self := set_state ProcessingResponse self in
      (self,
       Ok (SyncResponse our_iblt_data (wrap 32 (length store)) missing_envelopes,
           omap (fun msg_id => MeshStore.get msg_id store) (our_missing self)))
  | _ => (self, Err (DecompressionFailed "Expected SyncOffer message"))
  end.

(** The envelopes of a message that deserialize. *)
Fixpoint deserialize_all (l : list (list Z)) : outcome DriftError (list StoredEnvelope.t) :=
  match l with
  | [] => Ok []
  | d :: l =>
      match bincode_deserialize d with
      | Ok env => let! rest := deserialize_all l in Ok (env :: rest)
      | Err _ => deserialize_all l
      | Panic => Panic
      end
  end.

Definition complete (store : MeshStore.t) (response : SyncMessage) (self : t)
    : t * outcome DriftError (SyncMessage * list StoredEnvelope.t) :=
  if negb (bool_decide (state self = AwaitingResponse)) then
    (self, Err (DecompressionFailed "SyncSession not awaiting response"))
  else
  match response with
  | SyncResponse iblt_data _ their_envelopes =>
      try! peer_iblt := IBLT.from_bytes iblt_data at self in
      match our_iblt self with
      | None => (self, Err (DecompressionFailed "No local IBLT stored"))
      | Some our_iblt =>
          try! diff := IBLT.subtract our_iblt peer_iblt at self in
          try! ' (we_have_only, they_have_only) := IBLT.decode diff at self in
          let self := set_missing we_have_only they_have_only self in
          let missing_envelopes := gather store we_have_only in
          let self := set_state Complete self in
          try! their_missing_envelopes := deserialize_all their_envelopes at self in
          (self, Ok (SyncComplete missing_envelopes, their_missing_envelopes))
      end
  | _ => (self, Err (DecompressionFailed "Expected SyncResponse message"))
  end.

End Operations.
End SyncSession.

(** [merge_envelopes]: the number of envelopes that were new, and the store. *)
Definition merge_envelopes `{Libm} {MI : MapIter MessageId StoredEnvelope.t} (now : Z)
    (store : MeshStore.t) (envelopes : list StoredEnvelope.t) : Z * MeshStore.t :=
  foldl (fun '(count, store) envelope =>
    let '(new, store) := MeshStore.insert now envelope store in
    (if new then count + 1 else count, store)) (0, store) envelopes.
