(* ===== verification/SyncProps.v ===== *)
(** * Properties of synchronization sessions

    The session's state machine and its safety against arbitrary messages,
    the size limit of an offer, and the convergence of two stores. *)

From S2P Require Import Prelude Drift Float64 Frame Sketch SketchSpec SketchCorrect SketchWire.
From S2P Require Import Backend MeshStore MeshStoreProps Sync.
Import StoredEnvelope MeshStore SyncSession IBLTCell.

(** ** Sketches of untrusted origin *)

(** A table that has as many cells as it says. *)
Definition sized (t : IBLT.t) : Prop := len (IBLT.cells t) = IBLT.num_cells t.

Section Untrusted.
Context `{HB : Blake3}.

Lemma modify_sized {E} f i cs : 0 <= i < len cs ->
  exists cs', @IBLT.modify E f i cs = Ok cs' /\ len cs' = len cs.
Proof.
  intros Hi. unfold IBLT.modify. destruct (index_in_range (E := E) cs i) as (c & -> & _); [done|].
  eexists. split; [done|]. apply len_insert.
Qed.

Lemma visits_sized {E} (self : IBLT.t) s k idxs cs : 1 <= IBLT.num_cells self ->
  len cs = IBLT.num_cells self ->
  exists cs', for_each (@visit _ E self s k) idxs cs = Ok cs' /\ len cs' = IBLT.num_cells self.
Proof.
  intros Hn Hcs. apply for_each_total; [|done]. intros i cs1 _ Hl.
  unfold visit, IBLT.hash_to_cell. rewrite (proj2 (Z.eqb_neq _ _)) by lia.
  pose proof (Z.mod_pos_bound (IBLT.hash_value k i) (IBLT.num_cells self) ltac:(lia)).
  destruct (modify_sized (E := E) (add_count s) (IBLT.hash_value k i mod IBLT.num_cells self) cs1)
    as (cs2 & -> & Hl2); [lia|].
  destruct (modify_sized (E := E) (xor_in k) (IBLT.hash_value k i mod IBLT.num_cells self) cs2)
    as (cs3 & -> & Hl3); [lia|].
  eexists. split; [done|]. lia.
Qed.

(** The errors of the decoder. *)
Definition decode_errors : list string := [IBLT.exceeded_msg; IBLT.stuck_msg; IBLT.mismatch_msg].

Definition decode_outcome_ok {A} (r : outcome DriftError A) : Prop :=
  match r with
  | Ok _ => True
  | Err e => exists m, m ∈ decode_errors /\ e = DecompressionFailed m
  | Panic => False
  end.

Lemma decode_loop_outcome self fuel cs a b : len cs = IBLT.num_cells self ->
  decode_outcome_ok (IBLT.decode_loop self fuel cs a b).
Proof.
  assert (Herr : forall m, m ∈ decode_errors ->
    decode_outcome_ok (@Err _ (list MessageId * list MessageId) (DecompressionFailed m))).
  { intros m Hm. exists m. done. }
  revert cs a b. induction fuel as [|fuel IH]; intros cs a b Hcs; [apply Herr; by_eval|].
  cbn [IBLT.decode_loop]. destruct (IBLT.position is_pure cs) as [i|] eqn:Hpos.
  2: { case_match; [done|apply Herr; by_eval]. }
  destruct (position_Some _ _ _ Hpos) as (c & Hi & Hc & _).
  destruct (index_in_range (E := DriftError) cs i) as (c' & -> & _); [done|].
  case_match; [apply Herr; by_eval|].
  destruct (visits_sized (E := DriftError) self (- count c') (key_sum c') IBLT.hash_indices cs)
    as (cs1 & Hv & Hl1); [lia|done|].
  change (for_each _ IBLT.hash_indices cs)
    with (for_each (@visit _ DriftError self (- count c') (key_sum c')) IBLT.hash_indices cs).
  rewrite Hv.
  destruct (modify_sized (E := DriftError) (fun _ => IBLTCell.new) i cs1) as (cs2 & -> & Hl2); [lia|].
  apply IH. lia.
Qed.

Lemma decode_outcome t : sized t -> decode_outcome_ok (IBLT.decode t).
Proof. apply decode_loop_outcome. Qed.

(** Subtraction of sized tables returns a sized table or the size error. *)
Lemma subtract_sized a b : sized a -> sized b ->
  (exists d, IBLT.subtract a b = Ok d /\ sized d) \/
  IBLT.subtract a b = Err (BufferTooShort (IBLT.num_cells a) (IBLT.num_cells b)).
Proof.
  unfold sized, IBLT.subtract. intros Ha Hb. case_goal; [by right|]. bool_to_prop. left.
  match goal with |- context [for_each ?f ?l ?cs0] => destruct (for_each_total
    (fun cs => len cs = IBLT.num_cells (IBLT.with_cells (IBLT.num_cells a))) f l cs0)
    as (cs & Hcs & Hl) end;
    [| |rewrite Hcs; eauto].
  - intros i cs Hi Hl. apply list_elem_of_In, in_map_iff in Hi as (j & <- & Hj). apply in_seq in Hj.
    destruct (index_in_range (E := DriftError) (IBLT.cells a) (Z.of_nat j)) as (x & -> & _); [lia|].
    destruct (index_in_range (E := DriftError) (IBLT.cells b) (Z.of_nat j)) as (y & -> & _); [lia|].
    destruct (modify_sized (E := DriftError) (fun _ => IBLT.subtract_cell x y) (Z.of_nat j) cs)
      as (cs' & Hm & Hl'); [cbn in Hl; lia|]. exists cs'. split; [exact Hm|lia].
  - unfold IBLT.with_cells. cbn [IBLT.cells IBLT.num_cells]. rewrite len_replicate. lia.
Qed.
End Untrusted.

(** ** The session's state machine *)

Section Sessions.
Context `{HB : Blake3} `{HH : Hex} {MI : MapIter MessageId StoredEnvelope.t}.
Context `{HC : Bincode StoredEnvelope.t} {HCS : BincodeSpec StoredEnvelope.t}.

Lemma insert_all_table {E} n store : 1 <= n ->
  @insert_all _ _ E store (IBLT.with_cells n) = Ok (table n (signed 1 (message_ids store))).
Proof. intros Hn. apply sketch_of_table. done. Qed.

Lemma new_with_cells c : 1 <= c -> IBLT.new c = IBLT.with_cells (3 * c).
Proof.
  intros Hc. unfold IBLT.new, IBLT.with_cells, CELLS_PER_DIFF.
  rewrite (Z.max_l (3 * c)), (Z.max_l c), Z.mul_comm by lia. done.
Qed.

Lemma sized_table n D : 1 <= n -> sized (table n D).
Proof. intros Hn. unfold sized, len. cbn. rewrite length_table_cells. lia. Qed.

(** [with_cells 0] has one cell, so an empty offer fails the size check of
    [subtract]. *)
Lemma with_cells_max n : IBLT.with_cells n = IBLT.with_cells (Z.max n 1).
Proof. unfold IBLT.with_cells. rewrite (Z.max_l (Z.max n 1)) by lia. done. Qed.

(** The byte fields of a message hold bytes; nothing else is assumed of it. *)
Definition message_bytes (m : SyncMessage) : Prop :=
  match m with
  | SyncOffer d _ _ _ _ | SyncResponse d _ _ => bytes d
  | SyncComplete _ => True
  end.

Lemma deserialize_all_total l : exists es, deserialize_all l = Ok es.
Proof.
  induction l as [|d l (es & IH)]; simpl; [eauto|].
  pose proof (bincode_no_panic d). destruct (bincode_deserialize d); [|eauto|done].
  rewrite IH. eauto.
Qed.

(** What a session satisfies between two operations. *)
Definition session_ok (self : SyncSession.t) : Prop :=
  state self <> Failed /\
  (forall t, our_iblt self = Some t -> sized t) /\
  (state self = AwaitingResponse -> our_iblt self <> None).

(** The state changes the protocol allows. *)
Definition allowed (old new : SyncState) : Prop :=
  old = new \/
  (old, new) = (Ready, AwaitingResponse) \/ (old, new) = (Ready, ProcessingResponse) \/
  (old, new) = (AwaitingResponse, Complete).

(** Summary of an operation: no panic, the invariant, the allowed transition,
    and no effect at all when the state does not admit the operation. *)
Definition op_ok {A} (from : SyncState) (self : SyncSession.t)
    (r : SyncSession.t * outcome DriftError A) : Prop :=
  r.2 <> Panic /\ r.2 <> Err (DecompressionFailed "No local IBLT stored") /\
  session_ok r.1 /\ allowed (state self) (state r.1) /\
  (state self <> from -> r.1 = self /\ is_ok r.2 = false) /\
  (state self = from -> is_ok r.2 = true <-> state r.1 <> from).

Lemma op_ok_refused {A} from self e : session_ok self -> state self <> from ->
  e <> "No local IBLT stored"%string ->
  op_ok from self (self, @Err _ A (DecompressionFailed e)).
Proof.
  intros Hs Hne He. split_and!; simpl; [done|congruence|done|by left|done|done].
Qed.

(** Failing in the middle of an operation: the state is still the old one. *)
Lemma op_ok_failed {A} from self self' e : session_ok self' -> state self' = state self ->
  state self = from -> e <> DecompressionFailed "No local IBLT stored" ->
  op_ok from self (self', @Err _ A e).
Proof.
  intros Hs Heq Hst He. split_and!; simpl; [done|congruence|done|left; congruence|done|].
  intros _. split; [done|congruence].
Qed.

Lemma op_ok_done {A} from self self' (a : A) : state self = from -> state self' <> from ->
  session_ok self' -> allowed (state self) (state self') -> op_ok from self (self', Ok a).
Proof. intros Hst Hne Hs Ha. split_and!; simpl; try done. Qed.

Lemma initiate_ok now store self : session_ok self -> op_ok Ready self (initiate now store self).
Proof.
  intros Hs. unfold initiate. destruct (bool_decide (state self = Ready)) eqn:Hst; bool_to_prop; cbn [negb].
  2: { apply op_ok_refused; done. }
  rewrite new_with_cells, insert_all_table by lia.
  destruct (IBLT.to_bytes _) as [d|e|] eqn:Hd.
  - apply op_ok_done; [done|done| |rewrite Hst; right; left; done].
    split_and!; [done| |done]. intros t Ht. injection Ht as <-. apply sized_table. lia.
  - apply op_ok_failed; [done..|]. unfold IBLT.to_bytes in Hd. case_hyp Hd; congruence.
  - unfold IBLT.to_bytes in Hd. case_hyp Hd; done.
Qed.

Lemma from_bytes_err data e : IBLT.from_bytes data = Err e -> bytes data -> exists a b, e = BufferTooShort a b.
Proof.
  unfold IBLT.from_bytes. intros He Hd. case_hyp He; [injection He as <-; eauto|]. bool_to_prop.
  destruct (split_at 2 data) as (cl & body & -> & Hcl & _); [lia|].
  rewrite read_u16_prefix in He by done. case_hyp He; [injection He as <-; eauto|]. bool_to_prop.
  exfalso.
  destruct (for_each_total (E := DriftError) (fun _ => True) (fun i cs =>
    let! c := IBLT.read_cell (cl ++ body) i in Ok (cs ++ [c]))
    (map Z.of_nat (seq 0 (Z.to_nat (from_le_bytes cl)))) []) as (cs & Hcs & _); [|done|rewrite Hcs in He; done].
  intros i cs Hi _. apply list_elem_of_In, in_map_iff in Hi as (j & <- & Hj). apply in_seq in Hj.
  destruct (read_cell_in_range (cl ++ body) (from_le_bytes cl) (Z.of_nat j)) as (c & -> & _);
    [done|done|lia|eauto].
Qed.

(** The part [respond] and [complete] share: parse a sketch, subtract it from
    ours and decode. *)
Lemma decode_sub_cases ours peer : sized ours -> sized peer ->
  (exists diff a b, IBLT.subtract ours peer = Ok diff /\ IBLT.decode diff = Ok (a, b)) \/
  (exists a b, IBLT.subtract ours peer = Err (BufferTooShort a b)) \/
  (exists diff m, IBLT.subtract ours peer = Ok diff /\
    IBLT.decode diff = Err (DecompressionFailed m) /\ m ∈ decode_errors).
Proof.
  intros Ho Hp. destruct (subtract_sized ours peer Ho Hp) as [(diff & Hs & Hsz)|Hs]; [|eauto].
  pose proof (decode_outcome diff Hsz) as Hd.
  destruct (IBLT.decode diff) as [[a b]|e|] eqn:Hdec; [eauto 6|right; right|done].
  destruct Hd as (m & Hm & ->). eauto.
Qed.

Lemma not_no_local m : m ∈ decode_errors ->
  DecompressionFailed m <> DecompressionFailed "No local IBLT stored".
Proof. intros Hm Heq. injection Heq as ->. revert Hm. by_eval. Qed.

Lemma respond_ok store offer self : message_bytes offer -> session_ok self ->
  op_ok Ready self (respond store offer self).
Proof.
  intros Hb Hs. unfold respond.
  destruct (bool_decide (state self = Ready)) eqn:Hst; bool_to_prop; cbn [negb].
  2: { apply op_ok_refused; done. }
  destruct offer as [data cnt cap prf ts|data cnt envs|envs]; [|apply op_ok_failed; done..].
  destruct (from_bytes_safe data Hb) as [Hnp Hwf].
  destruct (IBLT.from_bytes data) as [peer|e|] eqn:Hd; [| |done].
  2: { destruct (from_bytes_err _ _ Hd Hb) as (x & y & ->). apply op_ok_failed; done. }
  destruct (Hwf peer eq_refl) as [[Hsz _] Hn].
  rewrite with_cells_max, insert_all_table by lia. set (ours := table _ _).
  assert (Hours : sized ours) by (apply sized_table; lia).
  set (self1 := set_peer peer cnt self).
  assert (H1 : session_ok self1) by (destruct Hs as (? & ? & ?); done).
  destruct (decode_sub_cases ours peer Hours Hsz) as
    [(diff & a & b & -> & ->)|[(x & y & ->)|(diff & m & -> & -> & Hm)]].
  2: { apply op_ok_failed; done. }
  2: { apply op_ok_failed; [done..|]. apply not_no_local. done. }
  destruct (IBLT.to_bytes ours) as [d|e|] eqn:Hto.
  - apply op_ok_done; [done|done| |rewrite Hst; right; right; left; done].
    split_and!; [done| |done]. intros t Ht. injection Ht as <-. done.
  - apply op_ok_failed; [|done|done|].
    + destruct Hs as (? & ? & ?). done.
    + unfold IBLT.to_bytes in Hto. case_hyp Hto; congruence.
  - unfold IBLT.to_bytes in Hto. case_hyp Hto; done.
Qed.

Lemma complete_ok store response self : message_bytes response -> session_ok self ->
  op_ok AwaitingResponse self (complete store response self).
Proof.
  intros Hb Hs. unfold complete.
  destruct (bool_decide (state self = AwaitingResponse)) eqn:Hst; bool_to_prop; cbn [negb].
  2: { apply op_ok_refused; done. }
  destruct response as [data cnt cap prf ts|data cnt envs|envs]; [apply op_ok_failed; done| |apply op_ok_failed; done].
  destruct (from_bytes_safe data Hb) as [Hnp Hwf].
  destruct (IBLT.from_bytes data) as [peer|e|] eqn:Hd; [| |done].
  2: { destruct (from_bytes_err _ _ Hd Hb) as (x & y & ->). apply op_ok_failed; done. }
  destruct (Hwf peer eq_refl) as [[Hsz _] _]. destruct Hs as (Hnf & Hours & Hsome).
  destruct (our_iblt self) as [ours|] eqn:Ho; [|by destruct (Hsome Hst)].
  specialize (Hours ours eq_refl).
  assert (Hs : session_ok self) by (split_and!; [done|congruence|congruence]).
  destruct (decode_sub_cases ours peer Hours Hsz) as
    [(diff & a & b & -> & ->)|[(x & y & ->)|(diff & m & -> & -> & Hm)]].
  2: { apply op_ok_failed; done. }
  2: { apply op_ok_failed; [done..|]. apply not_no_local. done. }
  destruct (deserialize_all_total envs) as [es ->].
  apply op_ok_done; [done|done| |rewrite Hst; right; right; right; done].
  split_and!; [done| |done]. intros t Ht. cbn in Ht. rewrite Ho in Ht. congruence.
Qed.

(** One call on a session, with any store and any message. *)
Inductive sync_step : SyncSession.t -> SyncSession.t -> Prop :=
| step_initiate now store self : sync_step self (initiate now store self).1
| step_respond store offer self : message_bytes offer -> sync_step self (respond store offer self).1
| step_complete store response self :
    message_bytes response -> sync_step self (complete store response self).1.

Lemma session_ok_reachable self self' : rtc sync_step self self' -> session_ok self -> session_ok self'.
Proof.
  induction 1 as [|s s1 s2 Hstep _ IH]; [done|]. intros Hs. apply IH.
  destruct Hstep as [now store s|store offer s Hb|store response s Hb].
  - destruct (initiate_ok now store s Hs) as (_ & _ & Hok & _). done.
  - destruct (respond_ok store offer s Hb Hs) as (_ & _ & Hok & _). done.
  - destruct (complete_ok store response s Hb Hs) as (_ & _ & Hok & _). done.
Qed.

Lemma session_ok_new : session_ok SyncSession.new.
Proof. split_and!; done. Qed.

(** C13. Whatever messages a peer sends, in whatever order the calls come: no
    call on a session panics or finds its sketch missing, the session is
    never in the state [Failed], a call that the state does not admit
    changes nothing, a call that succeeds makes one of the transitions
    Ready-AwaitingResponse, Ready-ProcessingResponse,
    AwaitingResponse-Complete, and a call that fails leaves the state as it
    was. *)
Theorem sync_session_safe self : rtc sync_step SyncSession.new self ->
  state self <> Failed /\
  (forall now store, op_ok Ready self (initiate now store self)) /\
  (forall store offer, message_bytes offer -> op_ok Ready self (respond store offer self)) /\
  (forall store response, message_bytes response ->
    op_ok AwaitingResponse self (complete store response self)).
Proof using HCS.
  intros Hr. pose proof (session_ok_reachable _ _ Hr session_ok_new) as Hs. split_and!.
  - apply Hs.
  - intros now store. apply initiate_ok. done.
  - intros store offer Hb. apply respond_ok; done.
  - intros store response Hb. apply complete_ok; done.
Qed.

Lemma initiate_table now store : length store < 2 ^ 32 ->
  let n := 12 * length store + 24 in
  let t := table n (signed 1 (message_ids store)) in
  initiate now store SyncSession.new =
  match IBLT.to_bytes t with
  | Ok data => (set_state AwaitingResponse (set_our_iblt t SyncSession.new),
                Ok (SyncOffer data (length store) n (generate_proof store) now))
  | Err e => (SyncSession.new, Err e)
  | Panic => (SyncSession.new, Panic)
  end.
Proof.
  intros Hl n t. assert (0 <= length store) by (unfold length; lia).
  unfold initiate. rewrite bool_decide_true by done. cbn [negb].
  rewrite (wrap_small 32 (length store)) by (unfold fits; lia).
  rewrite Z.max_l, new_with_cells, insert_all_table by lia.
  replace (3 * (length store * 4 + 8)) with n by lia. fold t.
  unfold IBLT.to_bytes. cbn [t table IBLT.num_cells]. destruct (n >? 65535) eqn:Hn; [done|].
  bool_to_prop. unfold IBLT.cell_count, t. cbn [table IBLT.num_cells].
  rewrite (wrap_small 32 n) by (unfold fits; lia). done.
Qed.

Lemma ids_ok store : keyed (messages store) -> Forall id_ok (message_ids store).
Proof.
  intros Hk. rewrite <-(sort_by_perm id_cmp (message_ids store)). apply sort_ids_keyed. done.
Qed.

Lemma table_wf n D : 1 <= n -> items_ok D -> iblt_wf (table n D).
Proof.
  intros Hn HD. split; [apply sized_table; done|]. apply Forall_map, Forall_true. intros j.
  destruct (cell_ok_cell_of n D j HD) as [_ Hc]. destruct (cell_linear_cell_of n D j HD) as [Hk Hck].
  split; [done|]. split; [done|]. rewrite Hck. unfold check_of.
  assert (Hb : bytes (take 4 (key_sum (cell_of n D j)))) by (apply Forall_take, Hk).
  apply from_le_bytes_range in Hb. destruct Hk as [Hl _].
  change (take 4) with (take (A := Z) (Z.to_nat 4)) in *. rewrite len_take in Hb by lia.
  rewrite Hl in Hb. exact Hb.
Qed.

(** The size of an offer: a store of up to 5459 messages is offered with a
    sketch of 12 m + 24 cells, and a larger one (the store admits 10000) is
    refused by [initiate], which leaves the session as it was. *)
Theorem sync_initiate_limit now store : keyed (messages store) -> length store < 2 ^ 32 ->
  let n := 12 * length store + 24 in
  (length store <= 5459 -> exists self data,
    SyncSession.initiate now store SyncSession.new =
      (self, Ok (SyncOffer data (length store) n (generate_proof store) now)) /\
    state self = AwaitingResponse /\ len data = 2 + 21 * n) /\
  (length store > 5459 ->
    SyncSession.initiate now store SyncSession.new = (SyncSession.new, Err (BufferTooShort n 65535))).
Proof.
  intros Hk Hl n. assert (0 <= length store) by (unfold length; lia).
  rewrite initiate_table by done. fold n. unfold IBLT.to_bytes. cbn [table IBLT.num_cells].
  split; intros Hm; zbool.
  - eexists _, _. split; [done|]. split; [done|]. rewrite len_app, len_u16_to_le_bytes.
    destruct (table_wf n (signed 1 (message_ids store))) as [Hs Hw];
      [lia|apply items_ok_signed, ids_ok; done|].
    rewrite len_concat_cells by done. cbn [table IBLT.num_cells] in Hs. rewrite Hs. done.
  - done.
Qed.

End Sessions.

(** ** Witnesses *)

Import StoreSamples.

Lemma sync_session_safe_witness :
  let self := (initiate 5000 full SyncSession.new).1 in
  state self <> Failed /\
  op_ok AwaitingResponse self (complete (HC := sample_bincode _) full (SyncResponse [7; 7] 1 []) self).
Proof.
  destruct (sync_session_safe (HC := sample_bincode _) (HCS := sample_bincode_spec _)
    (initiate 5000 full SyncSession.new).1) as (Hs & _ & _ & Hc).
  - apply rtc_once, (step_initiate (HC := sample_bincode _) 5000 full).
  - split; [exact Hs|]. apply (Hc full (SyncResponse [7; 7] 1 [])). by_eval.
Defined.

Lemma sync_initiate_limit_witness :
  exists self data, initiate 5000 full SyncSession.new =
      (self, Ok (SyncOffer data 2 48 (generate_proof full) 5000)) /\
    state self = AwaitingResponse /\ len data = 1010.
Proof.
  destruct (sync_initiate_limit 5000 full) as [Hok _]; [by_eval|by_eval|].
  exact (Hok ltac:(by_eval)).
Defined.
