(* ===== verification/SyncConverge.v ===== *)
(** * Convergence of two stores (core/src/drift/sync.rs)

    The composition of [initiate], [respond], [complete] and
    [merge_envelopes]: after one exchange both stores hold the union. *)

From S2P Require Import Prelude Drift Float64 Frame Sketch SketchSpec SketchCorrect SketchWire.
From S2P Require Import Backend MeshStore MeshStoreProps Sync SyncProps.
Import StoredEnvelope MeshStore SyncSession IBLTCell.

(** ** Differences seen from the other side *)

Section Negation.
Context `{HB : Blake3} (n : Z).
Implicit Types (D : list item).

Lemma negate_negate D : negate (negate D) = D.
Proof.
  unfold negate. rewrite map_map. rewrite <-(map_id D) at 2. apply map_ext. intros [s k]. simpl.
  f_equal. lia.
Qed.

Lemma negate_submseteq D D' : D' ⊆+ D -> negate D' ⊆+ negate D.
Proof. intros Hs. apply (fmap_submseteq (fun it : item => (- it.1, it.2))). done. Qed.

Lemma negate_perm D D' : D ≡ₚ D' -> negate D ≡ₚ negate D'.
Proof. apply Permutation_map. Qed.

Lemma total_hits_negate D j : total_hits n (negate D) j = total_hits n D j.
Proof. induction D as [|it D IH]; simpl; lia. Qed.

Lemma signed_count_negate D j : signed_count n (negate D) j = - signed_count n D j.
Proof. induction D as [|it D IH]; simpl; lia. Qed.

Lemma items_ok_negate D : items_ok D -> items_ok (negate D).
Proof. intros HD. apply Forall_map. done. Qed.

Lemma wrap_i32_opp x : wrap_i32 x = 1 \/ wrap_i32 x = -1 ->
  wrap_i32 (- x) = 1 \/ wrap_i32 (- x) = -1.
Proof. unfold wrap_i32. intros Hx. Z.div_mod_to_equations. lia. Qed.

Lemma is_pure_negate D j : items_ok D ->
  is_pure (cell_of n D j) = true -> is_pure (cell_of n (negate D) j) = true.
Proof.
  intros HD. unfold is_pure. rewrite !count_cell_of, signed_count_negate by
    first [done | apply items_ok_negate; done].
  rewrite !orb_true_iff, !Z.eqb_eq. apply wrap_i32_opp.
Qed.

Lemma clean_negate D : items_ok D -> clean n D -> clean n (negate D).
Proof.
  intros HD Hc D' j Hs Hj Hp. rewrite <-total_hits_negate.
  assert (HD' : items_ok D').
  { eapply items_ok_submseteq; [|exact Hs]. apply items_ok_negate. done. }
  apply Hc; [|done|apply is_pure_negate; done].
  rewrite <-(negate_negate D). apply negate_submseteq. done.
Qed.

Lemma Peelable_negate D : Peelable n D -> Peelable n (negate D).
Proof.
  induction 1 as [|D s k D' j P Hj Hh H0 HP IH]; [constructor|].
  apply (peel_one n _ (- s) k (negate D') j); [|done|done|rewrite total_hits_negate; done|done].
  apply (negate_perm _ _ P).
Qed.
End Negation.

Section Exchange.
Context `{HB : Blake3} `{HH : Hex} `{HL : Libm} {MI : MapIter MessageId StoredEnvelope.t}.
Context `{HC : Bincode StoredEnvelope.t} {HCS : BincodeSpec StoredEnvelope.t}.
Implicit Types (a b s : MeshStore.t).

(** The ids that only the first of two stores has. *)
Definition only a b : list MessageId :=
  filter (fun id => id ∉ dom (messages b)) (message_ids a).

Definition common a b : list MessageId :=
  filter (fun id => id ∈ dom (messages b)) (message_ids a).

Lemma NoDup_message_ids s : NoDup (message_ids s).
Proof. apply NoDup_map_iter_keys. Qed.

Lemma elem_of_only a b id : id ∈ only a b <-> id ∈ dom (messages a) /\ id ∉ dom (messages b).
Proof. unfold only. rewrite list_elem_of_filter, message_ids_elem. tauto. Qed.

Lemma elem_of_common a b id : id ∈ common a b <-> id ∈ dom (messages a) /\ id ∈ dom (messages b).
Proof. unfold common. rewrite list_elem_of_filter, message_ids_elem. tauto. Qed.

Lemma split_ids a b : message_ids a ≡ₚ common a b ++ only a b.
Proof.
  apply NoDup_Permutation; [apply NoDup_message_ids| |].
  - apply NoDup_app. split_and!; [apply NoDup_filter, NoDup_message_ids| |apply NoDup_filter, NoDup_message_ids].
    intros id. rewrite elem_of_common, elem_of_only. tauto.
  - intros id. rewrite elem_of_app, elem_of_common, elem_of_only, message_ids_elem.
    destruct (decide (id ∈ dom (messages b))); tauto.
Qed.

Lemma common_comm a b : common a b ≡ₚ common b a.
Proof.
  apply NoDup_Permutation; [apply NoDup_filter, NoDup_message_ids..|].
  intros id. rewrite !elem_of_common. tauto.
Qed.

(** ** Shipping envelopes *)

Lemma deserialize_gather s ids :
  deserialize_all (gather s ids) = Ok (omap (fun id => MeshStore.get id s) ids).
Proof.
  induction ids as [|id ids IH]; [done|]. unfold gather in *. cbn [omap list_omap].
  destruct (MeshStore.get id s) as [e|]; [|exact IH].
  destruct (bincode_serialize_total e) as [d Hd]. rewrite Hd. cbn [deserialize_all].
  rewrite (bincode_roundtrip e d Hd). cbn [omap list_omap] in IH. rewrite IH. done.
Qed.

(** Merging messages that are new and fit adds them all. *)
Lemma merge_envelopes_fresh now es s :
  NoDup (message_id <$> es) -> (forall e, e ∈ es -> messages s !! message_id e = None) ->
  length s + len es <= max_messages s ->
  merge_envelopes now s es =
  (len es, set_messages s (list_to_map ((fun e => (message_id e, e)) <$> es) ∪ messages s)).
Proof.
  unfold merge_envelopes. rewrite <-(Z.add_0_l (len es)) at 2. generalize 0 as c.
  revert s. induction es as [|e es IH]; intros s c Hnd Hnew Hfit.
  { simpl. rewrite map_empty_union, len_nil, Z.add_0_r. by destruct s. }
  rewrite fmap_cons in Hnd. apply NoDup_cons in Hnd as [Hni Hnd].
  rewrite len_cons in *. pose proof (len_nonneg es). cbn [foldl].
  destruct (insert_fresh now e s) as [-> Hl]; [apply Hnew; constructor|lia|].
  rewrite IH; [|done| |rewrite Hl; cbn [max_messages set_messages]; lia].
  - rewrite fmap_cons. unfold set_messages. cbn [messages max_messages list_to_map foldr uncurry fst snd].
    rewrite <-insert_union_r, <-insert_union_l; [f_equal; lia|].
    apply not_elem_of_list_to_map. rewrite <-list_fmap_compose. done.
  - intros x Hx. cbn [messages set_messages]. rewrite lookup_insert_ne; [apply Hnew; by constructor|].
    intros Heq. apply Hni. rewrite Heq. apply list_elem_of_fmap. eauto.
Qed.

(** The envelopes a store looks up for ids of its own. *)
Lemma omap_get s (ids : list MessageId) : keyed (messages s) -> (forall id, id ∈ ids -> id ∈ dom (messages s)) ->
  message_id <$> omap (fun id => MeshStore.get id s) ids = ids.
Proof.
  intros Hk Hin. induction ids as [|id ids IH]; [done|]. simpl.
  destruct (MeshStore.get id s) as [e|] eqn:He.
  - rewrite fmap_cons. f_equal; [apply (Hk _ _ He)|]. apply IH. intros i Hi. apply Hin. by constructor.
  - exfalso. specialize (Hin id ltac:(constructor)). apply elem_of_dom in Hin as [e Hx].
    unfold MeshStore.get in He. congruence.
Qed.

(** Shipping what the other store lacks turns it into the union. *)
Lemma ship_union now s o (ids : list MessageId) : keyed (messages o) -> ids ≡ₚ only o s ->
  Z.of_nat (size (messages s ∪ messages o)) <= max_messages s ->
  merge_envelopes now s (omap (fun id => MeshStore.get id o) ids) =
  (len (only o s), set_messages s (messages s ∪ messages o)).
Proof.
  intros Hk Hp Hfit. set (es := omap _ ids).
  assert (Hids : forall id, id ∈ ids <-> id ∈ dom (messages o) /\ id ∉ dom (messages s)).
  { intros id. rewrite Hp. apply elem_of_only. }
  assert (Hmap : message_id <$> es = ids) by (apply omap_get; [done|]; intros id Hid; apply Hids; done).
  assert (Hnd : NoDup ids) by (rewrite Hp; apply NoDup_filter, NoDup_message_ids).
  assert (Hes : forall e, e ∈ es <-> messages o !! message_id e = Some e /\ message_id e ∈ ids).
  { intros e. unfold es. rewrite list_elem_of_omap. unfold MeshStore.get. split.
    - intros (id & Hid & He). destruct (Hk _ _ He) as [-> _]. done.
    - intros [He Hid]. eauto. }
  assert (Hlen : len es = len (only o s)).
  { unfold len. rewrite <-(Permutation_length Hp), <-Hmap, length_fmap. done. }
  pose (m := list_to_map ((fun e => (message_id e, e)) <$> es) : gmap MessageId StoredEnvelope.t).
  assert (Hnd' : NoDup ((fun e => (message_id e, e)) <$> es).*1)
    by (rewrite <-list_fmap_compose; change (NoDup (message_id <$> es)); rewrite Hmap; done).
  assert (Hm : forall id e, m !! id = Some e <->
    messages o !! id = Some e /\ id ∉ dom (messages s)).
  { intros id e. unfold m. rewrite <-elem_of_list_to_map by done. rewrite list_elem_of_fmap. split.
    - intros (x & Heq & Hx). inv Heq. apply Hes in Hx as [Ho Hid]. apply Hids in Hid. tauto.
    - intros [Ho Hid]. exists e. destruct (Hk _ _ Ho) as [<- _]. split; [done|]. apply Hes.
      split; [done|]. apply Hids. split; [|done]. apply elem_of_dom. eauto. }
  assert (Hdisj : m ##ₘ messages s).
  { apply map_disjoint_spec. intros id x y Hx Hy. apply Hm in Hx as [_ Hx]. apply Hx, elem_of_dom. eauto. }
  assert (Hunion : m ∪ messages s = messages s ∪ messages o).
  { rewrite map_union_comm by done. apply map_eq. intros id. apply option_eq. intros e.
    rewrite !lookup_union_Some_raw, Hm, not_elem_of_dom. tauto. }
  rewrite merge_envelopes_fresh; [|rewrite Hmap; done| |].
  - fold m. rewrite Hunion, Hlen. done.
  - intros e He. apply Hes in He as [_ Hid]. apply Hids in Hid as [_ Hid]. by apply not_elem_of_dom.
  - rewrite <-Hunion, map_size_disj_union in Hfit by done. unfold m in Hfit.
    rewrite map_size_list_to_map, length_fmap in Hfit by done. unfold length, len. lia.
Qed.

(** ** One exchange *)

(** What distinguishes the two stores, as signed keys. *)
Definition differences a b : list item := signed 1 (only a b) ++ signed (-1) (only b a).

(** No cell is visited more than 255 times, so that the counts, which travel as
    one byte, arrive unchanged. *)
Definition sketch_fits n s : Prop :=
  forall j, (j < Z.to_nat n)%nat -> total_hits n (signed 1 (message_ids s)) j < 256.

Lemma sketch_travels n s : 1 <= n <= 65535 -> keyed (messages s) -> sketch_fits n s ->
  let t := table n (signed 1 (message_ids s)) in
  exists data, IBLT.to_bytes t = Ok data /\ IBLT.from_bytes data = Ok t.
Proof.
  intros Hn Hk Hfit t.
  assert (Hit : items_ok (signed 1 (message_ids s))) by (apply items_ok_signed, ids_ok; done).
  destruct (wire_roundtrip t (table_wf n _ ltac:(lia) Hit)) as (data & Hto & _ & _ & Hfrom); [apply Hn|].
  exists data. split; [done|]. apply Hfrom. apply Forall_forall.
  intros c Hc. apply list_elem_of_In, in_map_iff in Hc as (j & <- & Hj). apply in_seq in Hj.
  rewrite count_cell_of, (signed_count_one_sided n 1) by (done || apply Forall_map, Forall_true; done).
  specialize (Hfit j ltac:(lia)). pose proof (total_hits_nonneg n (signed 1 (message_ids s)) j).
  rewrite wrap_i32_small; lia.
Qed.

(** Decoding our sketch minus theirs. *)
Lemma decode_stores n a b : 1 <= n -> keyed (messages a) -> keyed (messages b) ->
  clean n (differences a b) -> Peelable n (differences a b) ->
  exists diff x y,
    IBLT.subtract (table n (signed 1 (message_ids a))) (table n (signed 1 (message_ids b))) = Ok diff /\
    IBLT.decode diff = Ok (x, y) /\ x ≡ₚ only a b /\ y ≡ₚ only b a.
Proof.
  intros Hn Ha Hb Hc Hp. apply (reconcile_tables n _ _ _ _ (common a b)); try done.
  - apply ids_ok. done.
  - apply ids_ok. done.
  - apply split_ids.
  - rewrite common_comm. apply split_ids.
Qed.

Lemma differences_swap a b : differences b a ≡ₚ negate (differences a b).
Proof.
  unfold differences, negate. rewrite map_app. fold (negate (signed 1 (only a b))).
  fold (negate (signed (-1) (only b a))). rewrite !negate_signed. apply Permutation_app_comm.
Qed.

Lemma differences_ok a b : keyed (messages a) -> keyed (messages b) -> items_ok (differences a b).
Proof.
  assert (H : forall a b, keyed (messages a) -> Forall id_ok (only a b)).
  { intros a' b' Hk. apply ids_ok in Hk.
    rewrite (split_ids a' b') in Hk. apply Forall_app in Hk. tauto. }
  intros Ha Hb. apply items_ok_app. split; apply items_ok_signed; auto.
Qed.

(** The differences as the other side sees them are as good. *)
Lemma differences_flip n a b : 1 <= n -> keyed (messages a) -> keyed (messages b) ->
  clean n (differences a b) -> Peelable n (differences a b) ->
  clean n (differences b a) /\ Peelable n (differences b a).
Proof.
  intros Hn Ha Hb Hc Hp.
  assert (Hs : differences b a ⊆+ negate (differences a b)) by (rewrite differences_swap; done).
  split.
  - eapply clean_submseteq; [|exact Hs]. apply clean_negate; [|done]. apply differences_ok; done.
  - eapply Peelable_submseteq; [done| |exact Hs]. apply Peelable_negate. done.
Qed.

Lemma only_get_none a b ids : ids ≡ₚ only a b -> omap (fun id => MeshStore.get id b) ids = [].
Proof.
  intros Hp. assert (H : forall id, id ∈ ids -> MeshStore.get id b = None).
  { intros id. rewrite Hp, elem_of_only, not_elem_of_dom. tauto. }
  clear Hp. induction ids as [|id ids IH]; [done|]. cbn [omap list_omap].
  rewrite H by constructor. apply IH. intros i Hi. apply H. by constructor.
Qed.

Lemma length_nonneg s : 0 <= length s.
Proof. unfold length. lia. Qed.

Context (now : Z) (a b : MeshStore.t).

(** The setting of an exchange: stores in good order, an offer that can be
    sent, sketches whose counts fit their byte, a difference the decoder can
    peel, and room for the union on both sides. *)
Record exchange_ok : Prop := {
  ex_a : Inv a;
  ex_b : Inv b;
  ex_size : 12 * length a + 24 <= 65535;
  ex_fits_a : sketch_fits (12 * length a + 24) a;
  ex_fits_b : sketch_fits (12 * length a + 24) b;
  ex_clean : clean (12 * length a + 24) (differences a b);
  ex_peel : Peelable (12 * length a + 24) (differences a b);
  ex_room_a : Z.of_nat (size (messages a ∪ messages b)) <= max_messages a;
  ex_room_b : Z.of_nat (size (messages b ∪ messages a)) <= max_messages b
}.

Lemma initiate_exchange : exchange_ok -> exists data,
  let n := 12 * length a + 24 in
  let t := table n (signed 1 (message_ids a)) in
  IBLT.from_bytes data = Ok t /\
  initiate now a SyncSession.new =
    (set_state AwaitingResponse (set_our_iblt t SyncSession.new),
     Ok (SyncOffer data (length a) n (generate_proof a) now)).
Proof.
  intros []. pose proof (length_nonneg a).
  destruct (sketch_travels (12 * length a + 24) a) as (data & Hto & Hfrom); [lia|apply ex_a0|done|].
  exists data. split; [done|]. rewrite initiate_table by lia. rewrite Hto. done.
Qed.

Lemma respond_exchange data cnt cap prf ts : exchange_ok ->
  let n := 12 * length a + 24 in
  IBLT.from_bytes data = Ok (table n (signed 1 (message_ids a))) ->
  exists sb rdata ids,
    respond b (SyncOffer data cnt cap prf ts) SyncSession.new =
      (sb, Ok (SyncResponse rdata (wrap 32 (length b)) (gather b ids), [])) /\
    ids ≡ₚ only b a /\ IBLT.from_bytes rdata = Ok (table n (signed 1 (message_ids b))) /\
    state sb = ProcessingResponse.
Proof.
  intros [] n Hfrom. pose proof (length_nonneg a). unfold respond. rewrite bool_decide_true by done.
  cbn [negb]. rewrite Hfrom. unfold IBLT.cell_count. cbn [table IBLT.num_cells].
  rewrite insert_all_table by lia.
  destruct (differences_flip n a b) as [Hc Hp]; [lia|apply ex_a0|apply ex_b0|done|done|].
  destruct (decode_stores n b a) as (diff & x & y & -> & -> & Hx & Hy);
    [lia|apply ex_b0|apply ex_a0|done|done|].
  destruct (sketch_travels n b) as (rdata & -> & Hr); [lia|apply ex_b0|done|].
  eexists _, rdata, x. cbn [set_state set_our_iblt set_missing our_missing].
  rewrite (only_get_none a b) by done. split; [reflexivity|done].
Qed.

Lemma complete_exchange cnt rdata envs : exchange_ok ->
  let n := 12 * length a + 24 in
  let self := set_state AwaitingResponse
    (set_our_iblt (table n (signed 1 (message_ids a))) SyncSession.new) in
  IBLT.from_bytes rdata = Ok (table n (signed 1 (message_ids b))) ->
  exists sa ids es,
    complete a (SyncResponse rdata cnt envs) self = (sa, Ok (SyncComplete (gather a ids), es)) /\
    ids ≡ₚ only a b /\ deserialize_all envs = Ok es /\ state sa = Complete.
Proof.
  intros [] n self Hfrom. pose proof (length_nonneg a). unfold complete. rewrite bool_decide_true by done.
  cbn [negb]. rewrite Hfrom. cbn [self set_state set_our_iblt our_iblt].
  destruct (decode_stores n a b) as (diff & x & y & -> & -> & Hx & Hy);
    [lia|apply ex_a0|apply ex_b0|done|done|].
  destruct (deserialize_all_total envs) as [es ->]. eexists _, x, es. done.
Qed.

(** C4. One exchange makes two stores converge, in the setting [exchange_ok]:
    both stores satisfy their invariant; the sketch of 12 cells per message of [a]
    and 24 more has at most 65535 cells and its counts survive the byte they
    travel in; no mixed cell of the difference looks pure and the difference can be
    peeled; and both stores have room for the union.  The offer of [a] is answered
    by [b] and completed by [a]; the envelopes that [a] is handed are exactly what
    it lacked, those of the completion exactly what [b] lacked, and after merging
    them both stores hold the union of the two (each keeping its own copy of a
    message both had).  The envelopes [respond] returns for immediate insertion
    are none. *)
Theorem sync_converges : exchange_ok ->
  exists sa offer sb response sa' for_b from_b from_a,
    initiate now a SyncSession.new = (sa, Ok offer) /\
    respond b offer SyncSession.new = (sb, Ok (response, [])) /\
    complete a response sa = (sa', Ok (SyncComplete for_b, from_b)) /\
    deserialize_all for_b = Ok from_a /\
    merge_envelopes now a from_b = (len (only b a), set_messages a (messages a ∪ messages b)) /\
    merge_envelopes now b from_a = (len (only a b), set_messages b (messages b ∪ messages a)) /\
    state sa' = Complete /\ state sb = ProcessingResponse.
Proof using HCS.
  intros Hex. destruct (initiate_exchange Hex) as (data & Hfrom & Hinit).
  destruct (respond_exchange data (length a) (12 * length a + 24) (generate_proof a) now Hex Hfrom)
    as (sb & rdata & idsb & Hresp & Hpb & Hrfrom & Hsb).
  destruct (complete_exchange (wrap 32 (length b)) rdata (gather b idsb) Hex Hrfrom)
    as (sa' & idsa & es & Hcomp & Hpa & Hes & Hsa).
  rewrite deserialize_gather in Hes. injection Hes as <-. destruct Hex.
  eexists _, _, sb, _, sa', (gather a idsa), _, _.
  split; [exact Hinit|]. split; [exact Hresp|]. split; [exact Hcomp|].
  split; [apply deserialize_gather|]. split_and!; [| |done|done].
  - apply ship_union; [apply ex_b0|done|done].
  - apply ship_union; [apply ex_a0|done|done].
Qed.

End Exchange.

(** ** Witness: two stores with one message in common *)

Import StoreSamples.

Module ExchangeSamples.

Definition a : MeshStore.t :=
  mk_store {[ sample_id 1 := envelope 1 5; sample_id 2 := envelope 2 100 ]} 10.
Definition b : MeshStore.t :=
  mk_store {[ sample_id 2 := envelope 2 7; sample_id 3 := envelope 3 9 ]} 10.

Lemma items_eq : differences a b = [(1, sample_id 1); (-1, sample_id 3)].
Proof. vm_compute. reflexivity. Qed.

Lemma items_peelable : Peelable 48 [(1, sample_id 1); (-1, sample_id 3)].
Proof.
  apply (peel_one 48 _ 1 (sample_id 1) [(-1, sample_id 3)] 16); [done|simpl; lia|by_eval|by_eval|].
  apply (peel_one 48 _ (-1) (sample_id 3) [] 0); [done|simpl; lia|by_eval|by_eval|].
  apply peel_nil.
Qed.

Lemma below_all (P : nat -> Prop) (n : nat) : Forall P (seq 0 n) -> forall j, (j < n)%nat -> P j.
Proof. rewrite Forall_forall. intros H j Hj. apply H, elem_of_seq. lia. Qed.

Lemma setting : exchange_ok a b.
Proof.
  split; try by_eval; change (12 * length a + 24) with 48.
  - refine (below_all (fun j => total_hits 48 (signed 1 (message_ids a)) j < 256) 48 _). by_eval.
  - refine (below_all (fun j => total_hits 48 (signed 1 (message_ids b)) j < 256) 48 _). by_eval.
  - rewrite items_eq. apply clean_disjoint; [lia|by_eval|].
    refine (below_all (fun j => total_hits 48 _ j <= 1) 48 _). by_eval.
  - rewrite items_eq. exact items_peelable.
Qed.

End ExchangeSamples.

Lemma sync_converges_witness :
  exists sa offer sb response sa' for_b from_b from_a,
    initiate 5000 ExchangeSamples.a SyncSession.new = (sa, Ok offer) /\
    respond (HC := sample_bincode _) ExchangeSamples.b offer SyncSession.new = (sb, Ok (response, [])) /\
    complete (HC := sample_bincode _) ExchangeSamples.a response sa = (sa', Ok (SyncComplete for_b, from_b)) /\
    deserialize_all (HC := sample_bincode _) for_b = Ok from_a /\
    (merge_envelopes 5000 ExchangeSamples.a from_b).1 = 1 /\
    (merge_envelopes 5000 ExchangeSamples.b from_a).1 = 1.
Proof.
  destruct (sync_converges (HC := sample_bincode _) (HCS := sample_bincode_spec _) 5000
    ExchangeSamples.a ExchangeSamples.b ExchangeSamples.setting)
    as (sa & offer & sb & response & sa' & for_b & from_b & from_a & H1 & H2 & H3 & H4 & H5 & H6 & _).
  exists sa, offer, sb, response, sa', for_b, from_b, from_a.
  split_and!; [exact H1|exact H2|exact H3|exact H4|rewrite H5; by_eval|rewrite H6; by_eval].
Defined.
