(* ===== verification/RateLimit.v ===== *)
(** * Rate limiting of sync requests (core/src/drift/rate_limit.rs)

    The sliding-window limiter, and the theorem that no window of its length
    ever contains more admitted requests of a peer than the limit, whatever the
    sequence of requests and cleanups.  Instants and durations are numbers of
    nanoseconds; [duration_since] saturates at zero. *)

From S2P Require Import Prelude.

Module SyncRateLimiter.

Record t : Type := mk {
  limits : gmap string (list Z);
  window : Z;
  max_per_window : Z
}.

Definition new (window max_per_window : Z) : t := mk ∅ window max_per_window.

(** [timestamps.retain(|&t| now.duration_since(t) < self.window)]. *)
Definition retain (w now : Z) (timestamps : list Z) : list Z :=
  filter (fun t => saturating_sub now t < w) timestamps.

Definition allow_sync (now : Z) (peer_id : string) (self : t) : bool * t :=
  let timestamps := default [] (limits self !! peer_id) in
  let timestamps := retain (window self) now timestamps in
  if len timestamps >=? max_per_window self
  then (false, mk (<[peer_id := timestamps]> (limits self)) (window self) (max_per_window self))
  else (true, mk (<[peer_id := timestamps ++ [now]]> (limits self)) (window self) (max_per_window self)).

Definition cleanup_expired (now : Z) (self : t) : t :=
  let kept := omap (fun timestamps =>
    let timestamps := retain (window self) now timestamps in
    if bool_decide (timestamps = []) then None else Some timestamps) (limits self) in
  mk kept (window self) (max_per_window self).

Definition tracked_peer_count (self : t) : Z := Z.of_nat (size (limits self)).

Definition peer_sync_count (peer_id : string) (self : t) : Z :=
  match limits self !! peer_id with Some v => len v | None => 0 end.

End SyncRateLimiter.

(** ** Histories *)

Module RateLimitHistory.
Import SyncRateLimiter.

Inductive call : Type :=
| Allow (now : Z) (peer : string)
| Cleanup (now : Z).

Definition time_of (c : call) : Z := match c with Allow now _ | Cleanup now => now end.

(** Run calls in order; the result also lists the admitted requests. *)
Fixpoint run (cs : list call) (self : t) : t * list (string * Z) :=
  match cs with
  | [] => (self, [])
  | Allow now peer :: cs =>
      let '(ok, self) := allow_sync now peer self in
      let '(self, log) := run cs self in
      (self, if ok then (peer, now) :: log else log)
  | Cleanup now :: cs => run cs (cleanup_expired now self)
  end.

(** The times at which a peer was admitted. *)
Definition admitted (peer : string) (log : list (string * Z)) : list Z :=
  (filter (fun e => e.1 = peer) log).*2.

(** The calls come in the order of the clock, which is monotone. *)
Fixpoint ordered (t0 : Z) (cs : list call) : Prop :=
  match cs with
  | [] => True
  | c :: cs => t0 <= time_of c /\ ordered (time_of c) cs
  end.

#[export] Instance ordered_dec t0 cs : Decision (ordered t0 cs).
Proof. revert t0. induction cs; simpl; apply _. Defined.

(** The stamps of a peer. *)
Definition stamps (peer : string) (self : t) : list Z := default [] (limits self !! peer).

(** How many of the times fall into the window of length [w] from [x]. *)
Definition in_window (w x : Z) (l : list Z) : list Z := filter (fun t => x <= t < x + w) l.

Lemma in_window_app w x l1 l2 : in_window w x (l1 ++ l2) = in_window w x l1 ++ in_window w x l2.
Proof. apply filter_app. Qed.

(** Stamps that a later clock drops cannot share a window with it. *)
Lemma retain_in_window w x now l : Forall (fun t => t <= now) l -> x <= now < x + w ->
  in_window w x (retain w now l) = in_window w x l.
Proof.
  intros Hl Hx. unfold in_window, retain. induction Hl as [|t l Ht Hl IH]; [done|].
  rewrite (filter_cons _ t l). case_decide as Hs; rewrite !filter_cons, IH; [done|].
  rewrite decide_False; [done|]. unfold saturating_sub in Hs. lia.
Qed.

Lemma length_in_window w x l : len (in_window w x l) <= len l.
Proof. unfold len, in_window. pose proof (length_filter (fun t => x <= t < x + w) l). lia. Qed.

Lemma stamps_cleanup peer now self :
  stamps peer (cleanup_expired now self) = retain (window self) now (stamps peer self).
Proof.
  unfold stamps, cleanup_expired. cbn [limits]. rewrite lookup_omap.
  destruct (limits self !! peer) as [l|]; [|done]. simpl. case_bool_decide as Hr; [by rewrite Hr|done].
Qed.

Lemma stamps_allow peer now p self :
  stamps peer (allow_sync now p self).2 =
  if decide (p = peer) then
    retain (window self) now (stamps peer self) ++ (if (allow_sync now p self).1 then [now] else [])
  else stamps peer self.
Proof.
  unfold allow_sync, stamps. case_decide; subst; case_goal; cbn [fst snd limits];
    first [rewrite lookup_insert_eq | rewrite lookup_insert_ne by done]; simpl; rewrite ?app_nil_r; done.
Qed.

Lemma allow_sync_max now p self : (allow_sync now p self).1 = true ->
  len (retain (window self) now (stamps p self)) < max_per_window self.
Proof. unfold allow_sync, stamps. case_goal; [done|]. bool_to_prop. intros _. lia. Qed.

Lemma allow_sync_config now p self :
  window (allow_sync now p self).2 = window self /\
  max_per_window (allow_sync now p self).2 = max_per_window self.
Proof. unfold allow_sync. case_goal; done. Qed.

(** Stamps do not lie in the future. *)
Definition past (now : Z) (self : t) : Prop := forall p, Forall (fun t => t <= now) (stamps p self).

Lemma past_retain w now t0 l : t0 <= now -> Forall (fun t => t <= t0) l ->
  Forall (fun t => t <= now) (retain w now l).
Proof.
  intros Hle Hl. apply Forall_forall. intros t Ht. apply list_elem_of_filter in Ht as [_ Ht].
  rewrite Forall_forall in Hl. specialize (Hl t Ht). lia.
Qed.

Lemma past_allow now p t0 self : t0 <= now -> past t0 self -> past now (allow_sync now p self).2.
Proof.
  intros Hle Hp q. rewrite stamps_allow. case_decide; subst.
  - apply Forall_app. split; [eapply past_retain; eauto|]. case_goal; repeat constructor. lia.
  - eapply Forall_impl; [apply Hp|]. simpl. lia.
Qed.

Lemma past_cleanup now t0 self : t0 <= now -> past t0 self -> past now (cleanup_expired now self).
Proof. intros Hle Hp q. rewrite stamps_cleanup. eapply past_retain; eauto. Qed.

(** Stamps before the window are not in it. *)
Lemma in_window_before w x now l : now < x -> Forall (fun t => t <= now) l -> in_window w x l = [].
Proof.
  intros Hx Hl. unfold in_window. induction Hl as [|t l Ht Hl IH]; [done|].
  rewrite filter_cons, decide_False by lia. done.
Qed.

Lemma in_window_after w x l : Forall (fun t => x + w <= t) l -> in_window w x l = [].
Proof.
  intros Hl. unfold in_window. induction Hl as [|t l Ht Hl IH]; [done|].
  rewrite filter_cons, decide_False by lia. done.
Qed.

Lemma admitted_cons peer e log :
  admitted peer (e :: log) = (if decide (e.1 = peer) then [e.2] else []) ++ admitted peer log.
Proof. unfold admitted. rewrite filter_cons. case_decide; done. Qed.

(** Nothing is admitted before the first call. *)
Lemma run_after cs peer t0 self : ordered t0 cs -> Forall (fun t => t0 <= t) (admitted peer (run cs self).2).
Proof.
  revert t0 self. induction cs as [|c cs IH]; intros t0 self Ho; [constructor|].
  destruct Ho as [Ht Ho].
  assert (Hmono : forall self', Forall (fun t => t0 <= t) (admitted peer (run cs self').2)).
  { intros self'. eapply Forall_impl; [apply (IH _ self' Ho)|]. simpl. lia. }
  destruct c as [now p|now]; cbn [run time_of] in *; [|apply Hmono].
  destruct (allow_sync now p self) as [ok self']. specialize (Hmono self').
  destruct (run cs self') as [self'' log]. destruct ok; [|done]. cbn [snd] in *.
  rewrite admitted_cons. case_decide; [|done]. constructor; done.
Qed.

Lemma keep_window w x now t0 l : t0 <= now -> now < x + w -> Forall (fun t => t <= t0) l ->
  in_window w x (retain w now l) = in_window w x l.
Proof.
  intros Ht Hx Hl.
  assert (Hl' : Forall (fun t => t <= now) l) by (eapply Forall_impl; [exact Hl|]; simpl; lia).
  destruct (decide (now < x)); [|apply retain_in_window; [done|lia]].
  rewrite (in_window_before w x now l), (in_window_before w x now (retain w now l)); try done.
  eapply past_retain; eauto.
Qed.

(** Admissions to come, together with the stamps that still matter. *)
Lemma run_window cs peer t0 self x :
  ordered t0 cs -> past t0 self -> 0 <= max_per_window self ->
  len (in_window (window self) x (stamps peer self)) <= max_per_window self ->
  len (in_window (window self) x (stamps peer self)) +
  len (in_window (window self) x (admitted peer (run cs self).2)) <= max_per_window self.
Proof.
  revert t0 self. induction cs as [|c cs IH]; intros t0 self Ho Hp Hm Hst.
  { change (len (in_window _ _ (admitted _ _))) with 0. lia. }
  pose proof (run_after (c :: cs) peer (time_of c) self) as Hafter.
  destruct Ho as [Ht Ho]. specialize (Hafter (conj (Z.le_refl _) Ho)).
  destruct (decide (x + window self <= time_of c)) as [Hlate|Hlate].
  { rewrite (in_window_after _ _ (admitted _ _)); [rewrite len_nil; lia|].
    eapply Forall_impl; [exact Hafter|]. simpl. lia. }
  clear Hafter.
  assert (Hkeep := keep_window (window self) x (time_of c) t0 (stamps peer self) Ht ltac:(lia) (Hp peer)).
  destruct c as [now p|now]; cbn [run time_of] in *.
  - pose proof (stamps_allow peer now p self) as Hs. pose proof (allow_sync_max now p self) as Hmax.
    pose proof (past_allow now p t0 self Ht Hp) as Hp'. destruct (allow_sync_config now p self) as [Hw Hmx].
    destruct (allow_sync now p self) as [ok self'] in *. cbn [fst snd] in *.
    specialize (IH now self' Ho Hp' ltac:(lia)). rewrite Hw, Hmx, Hs in IH.
    destruct (run cs self') as [self'' log]. cbn [snd] in *.
    case_decide; subst; rewrite ?in_window_app, ?Hkeep in IH.
    + destruct ok; rewrite ?admitted_cons, ?in_window_app; cbn [fst snd]; rewrite ?decide_True by done.
      * specialize (Hmax eq_refl). rewrite <-Hkeep, !len_app in *.
        pose proof (length_in_window (window self) x (retain (window self) now (stamps peer self))).
        pose proof (length_in_window (window self) x [now]). rewrite len_cons, len_nil in *. lia.
      * rewrite app_nil_r in IH. apply IH. done.
    + destruct ok; rewrite ?admitted_cons; cbn [fst snd]; rewrite ?decide_False by done; apply IH; done.
  - specialize (IH now (cleanup_expired now self) Ho (past_cleanup _ _ _ Ht Hp) Hm).
    rewrite stamps_cleanup in IH. cbn [cleanup_expired window max_per_window] in IH.
    rewrite Hkeep in IH. apply IH. done.
Qed.

(** C10. The limiter keeps its promise: whatever requests of whatever peers and
    whatever cleanups happen, in any window of the configured length at most
    [max_per_window] requests of a peer are admitted. *)
Theorem rate_limit_window (w max : Z) (cs : list call) (peer : string) (t0 x : Z) :
  0 <= max -> ordered t0 cs ->
  len (in_window w x (admitted peer (run cs (new w max)).2)) <= max.
Proof.
  intros Hm Ho. pose proof (run_window cs peer t0 (new w max) x Ho) as H. cbn in H.
  enough (past t0 (new w max)) as Hp by (specialize (H Hp Hm Hm); exact H).
  intros p. constructor.
Qed.

Lemma rate_limit_window_witness :
  let cs := [Allow 5 "p"; Allow 6 "p"; Allow 7 "p"; Cleanup 14; Allow 15 "p"; Allow 16 "p"] in
  admitted "p" (run cs (new 10 2)).2 = [5; 6; 15; 16] /\
  len (in_window 10 6 (admitted "p" (run cs (new 10 2)).2)) <= 2.
Proof.
  intros cs. split; [vm_compute; reflexivity|].
  apply (rate_limit_window 10 2 cs "p" 0 6); by_eval.
Defined.


End RateLimitHistory.
