(* ===== verification/Cover.v ===== *)
(** * Cover traffic (core/src/privacy/cover.rs)

    Configuration checks, the generator and the scheduler of dummy messages.
    Times are nanoseconds since the epoch; the random generator is a parameter
    (what [fill_bytes] writes for a buffer of a given length at a draw). *)

From S2P Require Import Prelude.

(** [rand::thread_rng().fill_bytes]: the [i]-th buffer drawn, of length [n]. *)
Class Rng : Type := fill_bytes : Z -> Z -> list Z.

Class RngSpec (R : Rng) : Prop := {
  fill_bytes_array : forall i n, 0 <= n -> byte_array n (fill_bytes i n)
}.

Inductive CoverTrafficError : Type :=
| InvalidConfig (msg : string)
| InvalidMessageSize.

Module CoverConfig.

Record t : Type := mk { rate_per_minute : Z; message_size : Z; enabled : bool }.

Definition default : t := mk 10 1024 true.

Definition validate (self : t) : outcome CoverTrafficError unit :=
  if (rate_per_minute self =? 0) && enabled self
  then Err (InvalidConfig "rate_per_minute must be > 0 when enabled") else
  if message_size self =? 0 then Err (InvalidConfig "message_size must be > 0") else
  if message_size self >? 65536
  then Err (InvalidConfig "message_size exceeds maximum (65536 bytes)") else
  Ok tt.

Definition message_interval_ms (self : t) : Z :=
  if rate_per_minute self =? 0 then 0 else Z.max (60000 / rate_per_minute self) 1.

End CoverConfig.

Module CoverMessage.

Record t : Type := mk {
  recipient_hint : list Z;
  encrypted_payload : list Z;
  ephemeral_key : list Z;
  is_cover : bool
}.

Definition is_cover_traffic (self : t) : bool := is_cover self.

End CoverMessage.

Module CoverTrafficGenerator.

Record t : Type := mk { config : CoverConfig.t }.

Definition new (config : CoverConfig.t) : outcome CoverTrafficError t :=
  let! _ := CoverConfig.validate config in Ok (mk config).

(** [draw] is the number of buffers drawn before; three are drawn here. *)
Definition generate_cover_message `{Rng} (draw : Z) (self : t) : outcome CoverTrafficError CoverMessage.t :=
  if negb (CoverConfig.enabled (config self))
  then Err (InvalidConfig "Cover traffic generation is disabled") else
  let recipient_hint := fill_bytes draw 32 in
  let encrypted_payload := fill_bytes (draw + 1) (CoverConfig.message_size (config self)) in
  let ephemeral_key := fill_bytes (draw + 2) 32 in
  Ok (CoverMessage.mk recipient_hint encrypted_payload ephemeral_key true).

Definition generate_batch `{Rng} (draw : Z) (count : Z) (self : t)
    : outcome CoverTrafficError (list CoverMessage.t) :=
  for_each (fun i acc => let! m := generate_cover_message (draw + 3 * i) self in Ok (acc ++ [m]))
    (map Z.of_nat (seq 0 (Z.to_nat count))) [].

End CoverTrafficGenerator.

Module CoverTrafficScheduler.

Record t : Type := mk { config : CoverConfig.t; last_generation_time : Z }.

Definition new (config : CoverConfig.t) : outcome CoverTrafficError t :=
  let! _ := CoverConfig.validate config in Ok (mk config 0).

(** [elapsed] fails, and traffic is due, when the clock is behind the last time. *)
Definition should_generate_cover_traffic (now : Z) (self : t) : bool :=
  if negb (CoverConfig.enabled (config self)) || (CoverConfig.rate_per_minute (config self) =? 0)
  then false
  else if last_generation_time self <=? now
  then now - last_generation_time self >? CoverConfig.message_interval_ms (config self) * 1000000
  else true.

Definition generate_and_update `{Rng} (draw now : Z) (self : t)
    : t * outcome CoverTrafficError CoverMessage.t :=
  match CoverTrafficGenerator.new (config self) with
  | Ok generator =>
      match CoverTrafficGenerator.generate_cover_message draw generator with
      | Ok message => (mk (config self) now, Ok message)
      | Err e => (self, Err e)
      | Panic => (self, Panic)
      end
  | Err e => (self, Err e)
  | Panic => (self, Panic)
  end.

Definition reset_timer (self : t) : t := mk (config self) 0.

Definition next_generation_time (self : t) : option Z :=
  if negb (CoverConfig.enabled (config self)) then None
  else Some (last_generation_time self + CoverConfig.message_interval_ms (config self) * 1000000).

End CoverTrafficScheduler.

Definition is_cover_traffic (decryption_attempt_failed : bool) : bool := decryption_attempt_failed.

(** ** Lemmas *)

Lemma validate_ok config : CoverConfig.validate config = Ok tt <->
  (CoverConfig.enabled config = true -> CoverConfig.rate_per_minute config <> 0) /\
  CoverConfig.message_size config <> 0 /\ CoverConfig.message_size config <= 65536.
Proof.
  unfold CoverConfig.validate. destruct config as [r m e]. simpl.
  destruct (Z.eqb_spec r 0), e, (Z.eqb_spec m 0), (Z.gtb_spec m 65536); simpl; split; try done; try lia; naive_solver lia.
Qed.

Lemma interval_positive config : 0 < CoverConfig.rate_per_minute config ->
  1 <= CoverConfig.message_interval_ms config.
Proof. intros Hr. unfold CoverConfig.message_interval_ms. case_goal; bool_to_prop; lia. Qed.

(** A scheduler that was accepted generates messages of exactly the shape the
    configuration asks for (32-byte hint, 32-byte key, [message_size] bytes)
    when traffic is due, and the next one is not due before a full interval
    has passed. *)
Theorem cover_schedule `{Rng} {RS : RngSpec _} (config : CoverConfig.t) (s : CoverTrafficScheduler.t)
    (draw now : Z) :
  0 <= CoverConfig.rate_per_minute config -> 0 <= CoverConfig.message_size config ->
  CoverTrafficScheduler.new config = Ok s ->
  CoverTrafficScheduler.should_generate_cover_traffic now s = true ->
  exists m,
    CoverTrafficScheduler.generate_and_update draw now s =
      (CoverTrafficScheduler.mk config now, Ok m) /\
    byte_array 32 (CoverMessage.recipient_hint m) /\ byte_array 32 (CoverMessage.ephemeral_key m) /\
    byte_array (CoverConfig.message_size config) (CoverMessage.encrypted_payload m) /\
    CoverMessage.is_cover m = true /\
    forall later, now <= later ->
      (CoverTrafficScheduler.should_generate_cover_traffic later (CoverTrafficScheduler.mk config now) = true <->
       CoverConfig.message_interval_ms config * 1000000 < later - now).
Proof.
  intros Hr Hm Hnew Hdue. unfold CoverTrafficScheduler.new in Hnew.
  destruct (CoverConfig.validate config) as [[]| |] eqn:Hv; [|done..]. inv Hnew.
  assert (Hen : CoverConfig.enabled config = true /\ CoverConfig.rate_per_minute config <> 0).
  { unfold CoverTrafficScheduler.should_generate_cover_traffic in Hdue. cbn in Hdue.
    case_hyp Hdue; [done|]. bool_to_prop. done. }
  destruct Hen as [Hen Hrate].
  unfold CoverTrafficScheduler.generate_and_update, CoverTrafficGenerator.new,
    CoverTrafficGenerator.generate_cover_message. cbn. rewrite Hv. cbn. rewrite Hen. cbn.
  eexists. split; [done|]. cbn. split_and!; try (apply fill_bytes_array; lia); [done|].
  intros later Hl. unfold CoverTrafficScheduler.should_generate_cover_traffic. cbn. rewrite Hen.
  rewrite (proj2 (Z.eqb_neq _ _)) by done. cbn. zbool. rewrite Z.ltb_lt. done.
Qed.

(** A generator for witnesses. *)
Definition sample_rng : Rng := fun i n => repeat_byte (i mod 256) n.

Lemma sample_rng_spec : RngSpec sample_rng.
Proof.
  split. intros i n Hn. unfold fill_bytes, sample_rng, repeat_byte. split.
  - rewrite len_replicate. lia.
  - apply bytes_replicate. unfold fits. pose proof (Z.mod_pos_bound i 256). lia.
Qed.

Lemma cover_schedule_witness :
  exists m, @CoverTrafficScheduler.generate_and_update sample_rng 0 7000000000
      (CoverTrafficScheduler.mk CoverConfig.default 0) =
      (CoverTrafficScheduler.mk CoverConfig.default 7000000000, Ok m) /\
    byte_array 1024 (CoverMessage.encrypted_payload m).
Proof.
  destruct (@cover_schedule sample_rng sample_rng_spec CoverConfig.default
    (CoverTrafficScheduler.mk CoverConfig.default 0)
    0 7000000000) as (m & Hg & _ & _ & Hp & _);
    [by_eval|by_eval|reflexivity|reflexivity|].
  exists m. split; [exact Hg|exact Hp].
Defined.
