(* ===== verification/Relay.v ===== *)
(** * The relay engine (core/src/drift/relay.rs)

    The toggle that couples relaying with messaging, the routing decision for
    every incoming envelope, the hourly relay budget, housekeeping and cover
    traffic.

    The clock is an argument: [now] in milliseconds since the epoch.  The
    reputation manager (core/src/abuse/reputation.rs) is seen through the
    interface [ReputationManager]; the security audit hook, which passes an
    envelope to the optimizer pipeline of core/src/dspy, is not modelled. *)

From S2P Require Import Prelude Drift Float64 EnvelopeWire Backend MeshStore Cover.

Inductive NetworkState : Type := Active | Dormant.

#[export] Instance NetworkState_eq_dec : EqDecision NetworkState.
Proof. solve_decision. Defined.

Module RelayConfig.

Record t : Type := mk {
  max_relay_per_hour : Z;
  max_hop_count : Z;
  min_relay_priority : Z;
  battery_floor_percent : Z;
  relay_opaque : bool
}.

Definition default : t := mk 1000 16 0 20 true.

End RelayConfig.

Inductive DropReason : Type :=
| Expired
| MaxHopsExceeded
| RateLimited
| DropNetworkDormant
| LowPriority
| StoreFull.

#[export] Instance DropReason_eq_dec : EqDecision DropReason.
Proof. solve_decision. Defined.

Inductive RelayDecision : Type :=
| DeliverLocal (message_id : MessageId)
| StoreAndRelay (message_id : MessageId)
| Duplicate (message_id : MessageId)
| Dropped (message_id : MessageId) (reason : DropReason).

#[export] Instance RelayDecision_eq_dec : EqDecision RelayDecision.
Proof. solve_decision. Defined.

Inductive RelayError : Type :=
| RelayNetworkDormant
| SerializationFailed (e : DriftError)
| InvalidEnvelope (msg : string).

Record MaintenanceReport : Type := mk_report {
  expired_removed : Z;
  store_size : Z;
  evictions : Z
}.

(** What the engine asks of a reputation manager: the score of a peer. *)
Class ReputationManager (R : Type) : Type := {
  base_is_abusive : R -> string -> bool;
  spam_confidence : R -> string -> f64
}.

(** [EnhancedReputationScore::is_abusive] (core/src/abuse/reputation.rs). *)
Definition is_abusive {R} `{ReputationManager R} (r : R) (peer : string) : bool :=
  base_is_abusive r peer || F64.ltb (F64.lit 8 10) (spam_confidence r peer).

Module RelayEngine.

Section Engine.
Context {R : Type} `{RM : ReputationManager R}.

Record t : Type := mk {
  state : NetworkState;
  config : RelayConfig.t;
  store : MeshStore.t;
  local_hint : list Z;
  relay_count_this_hour : Z;
  hour_start : Z;
  cover_scheduler : option CoverTrafficScheduler.t;
  reputation_manager : option R
}.

Definition set_network_state (s : NetworkState) (self : t) : t :=
  mk s (config self) (store self) (local_hint self) (relay_count_this_hour self) (hour_start self)
     (cover_scheduler self) (reputation_manager self).

Definition network_state (self : t) : NetworkState := state self.

Definition set_store (s : MeshStore.t) (self : t) : t :=
  mk (state self) (config self) s (local_hint self) (relay_count_this_hour self) (hour_start self)
     (cover_scheduler self) (reputation_manager self).

Definition set_rate (count start : Z) (self : t) : t :=
  mk (state self) (config self) (store self) (local_hint self) count start
     (cover_scheduler self) (reputation_manager self).

Definition set_cover_scheduler (c : option CoverTrafficScheduler.t) (self : t) : t :=
  mk (state self) (config self) (store self) (local_hint self) (relay_count_this_hour self)
     (hour_start self) c (reputation_manager self).

Definition set_reputation_manager (r : R) (self : t) : t :=
  mk (state self) (config self) (store self) (local_hint self) (relay_count_this_hour self)
     (hour_start self) (cover_scheduler self) (Some r).

Definition apply_policy_config (c : RelayConfig.t) (self : t) : t :=
  mk (state self) c (store self) (local_hint self) (relay_count_this_hour self) (hour_start self)
     (cover_scheduler self) (reputation_manager self).

Definition set_cover_traffic (enabled : bool) (rate_per_minute : Z) (self : t) : t :=
  if enabled then
    let config := CoverConfig.mk (Z.max rate_per_minute 1) 512 true in
    set_cover_scheduler
      (match CoverTrafficScheduler.new config with Ok s => Some s | _ => None end) self
  else set_cover_scheduler None self.

(** [now_ns] is the clock in nanoseconds, [draw] the position of the random generator. *)
Definition generate_cover_traffic_if_due `{Rng} (draw now_ns : Z) (self : t) : t * option (list Z) :=
  match cover_scheduler self with
  | None => (self, None)
  | Some scheduler =>
      if negb (CoverTrafficScheduler.should_generate_cover_traffic now_ns scheduler)
      then (self, None)
      else
        let '(scheduler, r) := CoverTrafficScheduler.generate_and_update draw now_ns scheduler in
        (set_cover_scheduler (Some scheduler) self,
         match r with
         | Ok m => Some (CoverMessage.ephemeral_key m ++ CoverMessage.recipient_hint m ++
                         CoverMessage.encrypted_payload m)
         | _ => None
         end)
  end.

Definition HOUR_MS : Z := 3600 * 1000.

Definition check_rate_limit (now : Z) (self : t) : t :=
  if wrap 64 (now - hour_start self) >? HOUR_MS then set_rate 0 now self else self.

Definition maintenance (now : Z) (self : t) : t * MaintenanceReport :=
  let '(expired_removed, store) := MeshStore.remove_expired (now / 1000) (store self) in
  (set_store store self, mk_report expired_removed (MeshStore.length store) 0).

Section WithCrates.
Context `{EC : EnvelopeCrates} `{HL : Libm} {MI : MapIter MessageId StoredEnvelope.t}.

Definition new (now : Z) (local_public_key : list Z) (config : RelayConfig.t) : t :=
  mk Dormant config MeshStore.new (DriftEnvelope.hint_from_public_key local_public_key) 0 now
     None None.

(** The envelope as it is kept for relaying. *)
Definition stored_of (now : Z) (envelope_data : list Z) (e : DriftEnvelope.t) : StoredEnvelope.t :=
  StoredEnvelope.mk envelope_data (DriftEnvelope.message_id e) (DriftEnvelope.recipient_hint e)
    (DriftEnvelope.created_at e) (DriftEnvelope.ttl_expiry e) (DriftEnvelope.hop_count e)
    (DriftEnvelope.priority e) (now / 1000).

(** The reputation check at the head of [process_incoming]. *)
Definition rejects_sender (self : t) : bool :=
  match reputation_manager self with
  | Some r => is_abusive r "unknown" && F64.ltb (F64.lit 8 10) (spam_confidence r "unknown")
  | None => false
  end.

Definition process_incoming (now : Z) (envelope_data : list Z) (self : t)
    : t * outcome DriftError RelayDecision :=
  match DriftEnvelope.from_bytes envelope_data with
  | Err e => (self, Err e)
  | Panic => (self, Panic)
  | Ok envelope =>
  let id := DriftEnvelope.message_id envelope in
  if rejects_sender self then (self, Ok (Dropped id RateLimited)) else
  if DriftEnvelope.is_expired envelope (now / 1000) then (self, Ok (Dropped id Expired)) else
  if MeshStore.contains id (store self) then (self, Ok (Duplicate id)) else
  let is_cover_traffic := bool_decide (DriftEnvelope.envelope_type envelope = CoverTraffic) in
  let is_onion := bool_decide (DriftEnvelope.envelope_type envelope = OnionMessage) in
  if bool_decide (DriftEnvelope.recipient_hint envelope = local_hint self) then
    if is_onion || negb is_cover_traffic then (self, Ok (DeliverLocal id))
    else (self, Ok (Dropped id Expired))
  else
  if bool_decide (state self = Dormant) then (self, Ok (Dropped id DropNetworkDormant)) else
  if DriftEnvelope.hop_count envelope >=? RelayConfig.max_hop_count (config self)
  then (self, Ok (Dropped id MaxHopsExceeded)) else
  if DriftEnvelope.priority envelope <? RelayConfig.min_relay_priority (config self)
  then (self, Ok (Dropped id LowPriority)) else
  let self := if is_cover_traffic then self else check_rate_limit now self in
  if negb is_cover_traffic && (RelayConfig.max_relay_per_hour (config self) >? 0) &&
     (relay_count_this_hour self >=? RelayConfig.max_relay_per_hour (config self))
  then (self, Ok (Dropped id RateLimited)) else
  let '(inserted, store) :=
    MeshStore.insert (now / 1000) (stored_of now envelope_data envelope) (store self) in
  let self := set_store store self in
  if negb inserted then (self, Ok (Duplicate id)) else
  let self :=
    if is_cover_traffic then self
    else set_rate (wrap 32 (relay_count_this_hour self + 1)) (hour_start self) self in
  (self, Ok (StoreAndRelay id))
  end.

Definition prepare_outgoing (envelope : DriftEnvelope.t) (self : t) : outcome RelayError (list Z) :=
  if bool_decide (state self = Dormant) then Err RelayNetworkDormant
  else map_err SerializationFailed (DriftEnvelope.to_bytes envelope).

Definition messages_for_sync (now : Z) (max_count : Z) (self : t) : list StoredEnvelope.t :=
  take (Z.to_nat max_count) (MeshStore.by_priority (now / 1000) (store self)).

Definition messages_for_recipient (hint : list Z) (self : t) : list StoredEnvelope.t :=
  MeshStore.messages_for_recipient hint (store self).

End WithCrates.
End Engine.
Arguments t R : clear implicits.
End RelayEngine.
