(* ===== verification/RelayProps.v ===== *)
(** * Properties of the relay engine

    The coupling of relaying and messaging, the exact condition under which
    an envelope is relayed, the hourly budget, safety over every history of
    operations, and housekeeping. *)

From S2P Require Import Prelude Drift Float64 EnvelopeWire Backend MeshStore MeshStoreProps Cover Relay.
Import RelayEngine.

Section RelayTheorems.
Context {R : Type} `{RM : ReputationManager R}.
Context `{EC : EnvelopeCrates} {ECS : EnvelopeCratesSpec EC}.
Context `{HL : Libm} {MI : MapIter MessageId StoredEnvelope.t}.
Implicit Types (self : RelayEngine.t R) (e : DriftEnvelope.t).

(** C7. The coupling: a dormant engine relays nothing, keeps nothing (an incoming
    envelope leaves it exactly as it was) and refuses every message it is
    asked to send; an active one sends whatever serializes. *)
Theorem relay_coupling self :
  (state self = Dormant ->
   (forall now data, (process_incoming now data self).1 = self /\
     forall id, (process_incoming now data self).2 <> Ok (StoreAndRelay id)) /\
   (forall e, prepare_outgoing e self = Err RelayNetworkDormant)) /\
  (state self = Active ->
   forall e, prepare_outgoing e self = map_err SerializationFailed (DriftEnvelope.to_bytes e)).
Proof using Type.
  split; intros Hs.
  - split.
    + intros now data. unfold process_incoming. rewrite (bool_decide_true _ Hs).
      destruct (DriftEnvelope.from_bytes data); [|done..]. cbv iota. repeat (case_goal; try done).
    + intros e. unfold prepare_outgoing. rewrite bool_decide_true by done. done.
  - intros e. unfold prepare_outgoing. rewrite bool_decide_false; [done|congruence].
Qed.

(** When an envelope is taken for relaying. *)
Definition admissible (now : Z) self e : Prop :=
  rejects_sender self = false /\
  DriftEnvelope.is_expired e (now / 1000) = false /\
  MeshStore.messages (store self) !! DriftEnvelope.message_id e = None /\
  DriftEnvelope.recipient_hint e <> local_hint self /\
  state self = Active /\
  DriftEnvelope.hop_count e < RelayConfig.max_hop_count (config self) /\
  RelayConfig.min_relay_priority (config self) <= DriftEnvelope.priority e /\
  (DriftEnvelope.envelope_type e = CoverTraffic \/
   RelayConfig.max_relay_per_hour (config self) <= 0 \/
   relay_count_this_hour (check_rate_limit now self) < RelayConfig.max_relay_per_hour (config self)).

(** The engine after an envelope was taken. *)
Definition taken (now : Z) (data : list Z) self e : RelayEngine.t R :=
  let self1 :=
    if bool_decide (DriftEnvelope.envelope_type e = CoverTraffic) then self
    else let self1 := check_rate_limit now self in
         set_rate (wrap 32 (relay_count_this_hour self1 + 1)) (hour_start self1) self1 in
  set_store (MeshStore.insert (now / 1000) (stored_of now data e) (store self)).2 self1.

Lemma check_rate_limit_frame now self :
  config (check_rate_limit now self) = config self /\ store (check_rate_limit now self) = store self.
Proof using Type. unfold check_rate_limit. case_goal; done. Qed.

Lemma contains_false id (s : MeshStore.t) :
  MeshStore.contains id s = false <-> MeshStore.messages s !! id = None.
Proof using Type. unfold MeshStore.contains. rewrite bool_decide_eq_false, eq_None_not_Some. done. Qed.

Lemma process_taken now data self e : DriftEnvelope.from_bytes data = Ok e -> admissible now self e ->
  process_incoming now data self = (taken now data self e, Ok (StoreAndRelay (DriftEnvelope.message_id e))).
Proof using Type.
  intros Hp (Hrep & Hexp & Hnew & Hhint & Hact & Hhop & Hprio & Hbud).
  assert (Hins : forall s, MeshStore.messages s !! DriftEnvelope.message_id e = None ->
    (MeshStore.insert (now / 1000) (stored_of now data e) s).1 = true).
  { intros s Hs. unfold MeshStore.insert. cbn. rewrite (proj2 (contains_false _ s)) by done. done. }
  unfold process_incoming, taken. rewrite Hp, Hrep, Hexp, (proj2 (contains_false _ _) Hnew).
  rewrite (bool_decide_false _ Hhint), bool_decide_false by congruence. zbool.
  destruct (check_rate_limit_frame now self) as [Hc Hst].
  destruct (bool_decide (DriftEnvelope.envelope_type e = CoverTraffic)) eqn:Hcov; cbn [negb andb].
  - specialize (Hins _ Hnew). revert Hins.
    destruct (MeshStore.insert _ _ (store self)) as [ok s]. cbn [fst snd]. intros ->. cbn [negb]. done.
  - bool_to_prop. rewrite Hc, Hst.
    rewrite (proj2 (andb_false_iff _ _)).
    2: { destruct Hbud as [?|[?|?]]; [done|left|right]; zbool; done. }
    specialize (Hins _ Hnew). revert Hins.
    destruct (MeshStore.insert _ _ (store self)) as [ok s]. cbn [fst snd]. intros ->. cbn [negb].
    done.
Qed.

#[export] Instance admissible_dec now self e : Decision (admissible now self e).
Proof using Type. unfold admissible. apply _. Defined.

(** What the engine is left as when the envelope is not taken. *)
Lemma process_refused now data self :
  (forall e, DriftEnvelope.from_bytes data = Ok e -> ~ admissible now self e) ->
  ((process_incoming now data self).1 = self \/
   (process_incoming now data self).1 = check_rate_limit now self) /\
  (DriftEnvelope.from_bytes data <> Panic -> (process_incoming now data self).2 <> Panic) /\
  forall id, (process_incoming now data self).2 <> Ok (StoreAndRelay id).
Proof using Type.
  intros Hno. unfold process_incoming. destruct (DriftEnvelope.from_bytes data) as [e| |] eqn:Hp; [|split_and!; auto..].
  specialize (Hno e eq_refl). destruct (check_rate_limit_frame now self) as [Hc Hst].
  destruct (rejects_sender self) eqn:H1; [split_and!; auto; done|].
  destruct (DriftEnvelope.is_expired e (now / 1000)) eqn:H2; [split_and!; auto; done|].
  destruct (MeshStore.contains _ _) eqn:H3; [split_and!; auto; done|].
  destruct (bool_decide (DriftEnvelope.recipient_hint e = local_hint self)) eqn:H4;
    [case_goal; split_and!; auto; done|].
  destruct (bool_decide (state self = Dormant)) eqn:H5; [split_and!; auto; done|].
  destruct (_ >=? _) eqn:H6 in |- *; [split_and!; auto; done|].
  destruct (DriftEnvelope.priority e <? _) eqn:H7; [split_and!; auto; done|].
  set (cover := bool_decide (DriftEnvelope.envelope_type e = CoverTraffic)).
  set (self1 := if cover then self else check_rate_limit now self).
  assert (Hself1 : self1 = self \/ self1 = check_rate_limit now self) by (unfold self1; destruct cover; auto).
  destruct (_ && _ && _) eqn:H8 in |- *; [split_and!; [done|done|done]|].
  exfalso. apply Hno. apply contains_false in H3. bool_to_prop.
  split_and!; try done; try lia; [destruct (state self); done|].
  subst self1 cover. destruct (bool_decide (_ = CoverTraffic)) eqn:Hcov in H8; bool_to_prop; [by left|].
  cbn [negb] in H8. rewrite andb_true_l, Hc, andb_false_iff in H8. right.
  destruct H8; bool_to_prop; [left|right]; lia.
Qed.


(** ** The hourly budget *)

(** 1 when an envelope that is charged to the budget was taken. *)
Definition charged (now : Z) (data : list Z) self : Z :=
  match (process_incoming now data self).2, DriftEnvelope.from_bytes data with
  | Ok (StoreAndRelay _), Ok e =>
      if bool_decide (DriftEnvelope.envelope_type e = CoverTraffic) then 0 else 1
  | _, _ => 0
  end.

(** Incoming envelopes with the times they arrive at; how many were charged. *)
Fixpoint run_incoming (calls : list (Z * list Z)) self : RelayEngine.t R * Z :=
  match calls with
  | [] => (self, 0)
  | (now, data) :: calls =>
      let '(self', n) := run_incoming calls (process_incoming now data self).1 in
      (self', charged now data self + n)
  end.

(** The clock is within the hour that started at [hour_start]. *)
Definition same_hour self (now : Z) : Prop :=
  0 <= hour_start self <= now /\ now <= hour_start self + HOUR_MS.

Lemma check_rate_limit_same now self : same_hour self now -> check_rate_limit now self = self.
Proof using Type.
  intros [[H0 H1] H2]. unfold check_rate_limit, HOUR_MS in *. rewrite wrap_small by (unfold fits; lia).
  zbool. done.
Qed.

(** One envelope within the hour. *)
Lemma process_same_hour now data self : same_hour self now ->
  0 <= relay_count_this_hour self <= RelayConfig.max_relay_per_hour (config self) ->
  0 < RelayConfig.max_relay_per_hour (config self) < 2 ^ 32 ->
  let self' := (process_incoming now data self).1 in
  config self' = config self /\ hour_start self' = hour_start self /\
  relay_count_this_hour self' = relay_count_this_hour self + charged now data self /\
  0 <= relay_count_this_hour self' <= RelayConfig.max_relay_per_hour (config self).
Proof using Type.
  intros Hh Hc Hm self'. unfold self', charged. clear self'.
  destruct (DriftEnvelope.from_bytes data) as [e| |] eqn:Hp.
  1: destruct (decide (admissible now self e)) as [Ha|Ha].
  1: { rewrite (process_taken _ _ _ _ Hp Ha). destruct Ha as (_ & _ & _ & _ & _ & _ & _ & Hb).
    unfold taken. rewrite check_rate_limit_same in * by done.
    case_bool_decide; cbn; [split_and!; lia || done|].
    rewrite wrap_small by (unfold fits; destruct Hb as [?|[?|?]]; [done|lia|lia]).
    destruct Hb as [?|[?|?]]; [done|lia|]. split_and!; lia || done. }
  all: destruct (process_refused now data self) as (Heng & _ & Hdec);
    [intros e' He'; rewrite Hp in He'; (discriminate He' || by injection He' as <-)|].
  all: rewrite check_rate_limit_same in Heng by done.
  all: destruct (process_incoming now data self) as [self' r]; cbn [fst snd] in *.
  all: assert (self' = self) as -> by tauto.
  all: destruct r as [[]| |]; try (split_and!; lia || done).
  exfalso. by eapply Hdec.
Qed.

(** C12. The budget, for a positive [max_relay_per_hour] (zero means no limit):
    within the hour a window covers, the engine relays no more envelopes (cover
    traffic aside) than that, whatever arrives and however often; the counter is
    exactly the number relayed. *)
Theorem relay_budget calls self :
  0 <= relay_count_this_hour self <= RelayConfig.max_relay_per_hour (config self) ->
  0 < RelayConfig.max_relay_per_hour (config self) < 2 ^ 32 ->
  Forall (fun c => same_hour self c.1) calls ->
  let r := run_incoming calls self in
  relay_count_this_hour r.1 = relay_count_this_hour self + r.2 /\
  0 <= r.2 <= RelayConfig.max_relay_per_hour (config self) - relay_count_this_hour self.
Proof using Type.
  intros Hc Hm Hcalls r. unfold r. clear r. revert self Hc Hm Hcalls.
  induction calls as [|[now data] calls IH]; intros self Hc Hm Hcalls; cbn [run_incoming]; [simpl; lia|].
  apply Forall_cons in Hcalls as [Hh Hcalls]. cbn [fst] in Hh.
  destruct (process_same_hour now data self Hh Hc Hm) as (Hcfg & Hst & Hcnt & Hle).
  specialize (IH (process_incoming now data self).1). rewrite Hcfg in IH.
  destruct IH as [IH1 IH2]; [lia|done| |].
  { eapply Forall_impl; [exact Hcalls|]. unfold same_hour. rewrite Hst. done. }
  assert (0 <= charged now data self) by (unfold charged; repeat case_match; lia).
  destruct (run_incoming calls _) as [self'' n]. cbn [fst snd] in *. lia.
Qed.

(** ** Safety over every history *)

Lemma stored_of_wf now data e : bytes data -> 0 <= now < 2 ^ 64 -> DriftEnvelope.wf e ->
  StoredEnvelope.wf (stored_of now data e).
Proof using Type.
  intros Hb Hn Hw. destruct Hw as (_ & Hid & Hh & Hc & Ht & Hhop & Hp & _).
  split_and!; try done. cbn. unfold fits.
  pose proof (Z.div_pos now 1000). pose proof (Z.div_le_upper_bound now 1000 now). lia.
Qed.

(** The engine's invariant. *)
Definition engine_ok self : Prop :=
  Inv (store self) /\ MeshStore.max_messages (store self) = MAX_MESSAGES.

Lemma engine_ok_store self self' : store self' = store self -> engine_ok self -> engine_ok self'.
Proof using Type. unfold engine_ok. intros ->. done. Qed.

Lemma process_engine_ok now data self : bytes data -> 0 <= now < 2 ^ 64 -> engine_ok self ->
  engine_ok (process_incoming now data self).1 /\ (process_incoming now data self).2 <> Panic.
Proof using ECS.
  intros Hb Hn [Hinv Hmax]. pose proof (from_bytes_no_panic data Hb) as Hnp.
  destruct (DriftEnvelope.from_bytes data) as [e| |] eqn:Hp.
  1: destruct (decide (admissible now self e)) as [Ha|Ha].
  1: { rewrite (process_taken _ _ _ _ Hp Ha). split; [|done].
    destruct (from_bytes_wf data e Hb Hp) as [Hw _].
    destruct (insert_inv (now / 1000) (stored_of now data e) (store self)) as [Hi Hm];
      [apply stored_of_wf; done|done|]. split; [exact Hi|]. unfold taken. cbn. congruence. }
  all: destruct (process_refused now data self) as (Heng & Hpan & _);
    [intros e' He'; rewrite Hp in He'; (discriminate He' || by injection He' as <-)|].
  all: split; [|apply Hpan; congruence].
  all: apply (engine_ok_store self); [|split; done].
  all: destruct Heng as [->| ->]; [done|apply check_rate_limit_frame].
Qed.

(** One operation on an engine. *)
Inductive relay_step : RelayEngine.t R -> RelayEngine.t R -> Prop :=
| relay_incoming now data self : bytes data -> 0 <= now < 2 ^ 64 ->
    relay_step self (process_incoming now data self).1
| relay_maintenance now self : relay_step self (maintenance now self).1
| relay_toggle s self : relay_step self (set_network_state s self)
| relay_policy c self : relay_step self (apply_policy_config c self)
| relay_cover b rate self : relay_step self (set_cover_traffic b rate self)
| relay_generate `{Rng} draw now self : relay_step self (generate_cover_traffic_if_due draw now self).1
| relay_reputation r self : relay_step self (set_reputation_manager r self)
| relay_sync now (x : StoredEnvelope.t) self : StoredEnvelope.wf x ->
    relay_step self (set_store (MeshStore.insert now x (store self)).2 self).

Lemma relay_step_ok self self' : relay_step self self' -> engine_ok self -> engine_ok self'.
Proof using ECS.
  intros Hstep Hok.
  destruct Hstep as [now data self Hb Hn|now self|s self|c self|b rate self|RN draw now self|r self|now e self Hw].
  - apply process_engine_ok; done.
  - destruct Hok as [Hinv Hmax]. split; [|exact Hmax]. apply shrink_inv; [|done].
    apply map_filter_subseteq.
  - done.
  - done.
  - eapply engine_ok_store; [|exact Hok]. unfold set_cover_traffic. case_goal; done.
  - eapply engine_ok_store; [|exact Hok]. unfold generate_cover_traffic_if_due.
    destruct (cover_scheduler self); [|done]. case_goal; [done|].
    destruct (CoverTrafficScheduler.generate_and_update _ _ _). done.
  - done.
  - destruct Hok as [Hinv Hmax]. destruct (insert_inv now e (store self) Hw Hinv) as [Hi Hm].
    split; [exact Hi|]. cbn. congruence.
Qed.

(** Whatever happens to an engine after it was created - envelopes of any
    content, toggling, policy changes, cover traffic, synchronization,
    housekeeping - it holds at most 10000 messages, each filed under its own
    id, and the next incoming buffer does not make it panic. *)
Theorem relay_safety now0 key cfg self : rtc relay_step (new now0 key cfg) self ->
  MeshStore.length (store self) <= 10000 /\ keyed (MeshStore.messages (store self)) /\
  forall now data, bytes data -> 0 <= now < 2 ^ 64 -> (process_incoming now data self).2 <> Panic.
Proof using ECS.
  intros Hr. assert (Hok : engine_ok self).
  { remember (new now0 key cfg) as s0. assert (engine_ok s0) as H0.
    { subst s0. split; [|done]. split_and!; done. }
    clear Heqs0. induction Hr as [|s1 s2 s3 Hstep _ IH]; [done|]. apply IH.
    eapply relay_step_ok; done. }
  pose proof Hok as [(_ & Hl & Hk) Hmax]. rewrite Hmax in Hl.
  split_and!; [done|done|]. intros now data Hb Hn. apply process_engine_ok; done.
Qed.

(** ** Housekeeping *)

(** Maintenance removes exactly the messages whose time to live is over
    (all that [is_expired] reports, and those that expire this very second),
    keeps every other one untouched, and reports the numbers. *)
Theorem relay_maintenance_spec now self :
  let r := maintenance now self in
  (forall id x, MeshStore.messages (store r.1) !! id = Some x <->
    MeshStore.messages (store self) !! id = Some x /\
    (StoredEnvelope.ttl_expiry x = 0 \/ StoredEnvelope.ttl_expiry x > wrap 32 (now / 1000))) /\
  expired_removed r.2 = MeshStore.length (store self) - MeshStore.length (store r.1) /\
  store_size r.2 = MeshStore.length (store r.1) /\
  (forall id data t e, MeshStore.messages (store r.1) !! id = Some (stored_of t data e) ->
    DriftEnvelope.is_expired e (now / 1000) = false).
Proof using Type.
  intros r. unfold r, maintenance, MeshStore.remove_expired. cbn.
  assert (Hl : forall id x, filter (fun kv : MessageId * StoredEnvelope.t =>
      StoredEnvelope.ttl_expiry kv.2 = 0 \/ StoredEnvelope.ttl_expiry kv.2 > wrap 32 (now / 1000))
      (MeshStore.messages (store self)) !! id = Some x <->
    MeshStore.messages (store self) !! id = Some x /\
    (StoredEnvelope.ttl_expiry x = 0 \/ StoredEnvelope.ttl_expiry x > wrap 32 (now / 1000))).
  { intros id x. rewrite map_lookup_filter_Some. done. }
  split_and!; [exact Hl|done|done|]. intros id data t e He. apply Hl in He as [_ He]. cbn in He.
  unfold DriftEnvelope.is_expired. case_goal; [done|]. bool_to_prop. zbool. done.
Qed.

End RelayTheorems.

(** ** Witnesses *)

Import StoreSamples.

Module RelaySamples.

(** A reputation manager that knows nothing bad of anyone. *)
#[export] Instance trusting : ReputationManager unit :=
  {| base_is_abusive _ _ := false; spam_confidence _ _ := F64.of_Z 0 |}.

Definition engine (s : NetworkState) : RelayEngine.t unit :=
  mk s RelayConfig.default MeshStore.new [9; 9; 9; 9] 0 5000 None None.

(** The sample envelope, without an expiry. *)
Definition envelope : DriftEnvelope.t :=
  DriftEnvelope.mk 1 EncryptedMessage false (sample_id 7) [1; 2; 3; 4] 1000 0 3 128
    (repeat_byte 1 32) (repeat_byte 2 32) (repeat_byte 3 24) (repeat_byte 4 64) [1; 2; 3] None None.

Definition data : list Z :=
  match DriftEnvelope.to_bytes envelope with Ok d => d | _ => [] end.

End RelaySamples.
Import RelaySamples.

Lemma relay_coupling_witness :
  prepare_outgoing RelaySamples.envelope (engine Dormant) = Err RelayNetworkDormant /\
  prepare_outgoing RelaySamples.envelope (engine Active) = Ok data /\
  (process_incoming 6000 data (engine Dormant)).1 = engine Dormant.
Proof.
  split_and!.
  - apply (relay_coupling (engine Dormant)). reflexivity.
  - etransitivity; [apply (relay_coupling (engine Active)); reflexivity|reflexivity].
  - apply (relay_coupling (engine Dormant)). reflexivity.
Defined.


Lemma relay_budget_witness :
  let r := run_incoming [(6000, data); (6001, data); (7000, [])] (engine Active) in
  relay_count_this_hour r.1 = 1 /\ r.2 <= 1000.
Proof.
  destruct (relay_budget [(6000, data); (6001, data); (7000, [])] (engine Active)) as [Hc Hr];
    [by_eval|by_eval|by_eval|].
  split; [vm_compute; reflexivity|]. apply Hr.
Defined.

Lemma relay_safety_witness :
  let self := (process_incoming 6000 data (set_network_state Active (new (R := unit) 5000 [1] RelayConfig.default))).1 in
  MeshStore.length (store self) <= 10000 /\ (process_incoming 6000 [255] self).2 <> Panic.
Proof.
  intros self. destruct (relay_safety (R := unit) 5000 [1] RelayConfig.default self) as (Hl & _ & Hp).
  - eapply rtc_l; [apply (relay_toggle Active)|].
    eapply rtc_l; [apply (relay_incoming 6000 data); by_eval|]. apply rtc_refl.
  - split; [exact Hl|]. apply Hp; by_eval.
Defined.
