(* ===== verification/Policy.v ===== *)
(** * Relay policy (core/src/drift/policy.rs)

    The engine that derives the relay parameters from the state of the device,
    with the user's overrides. *)

From S2P Require Import Prelude Relay.

Module DeviceState.
Record t : Type := mk {
  battery_percent : Z;
  is_charging : bool;
  has_wifi : bool;
  is_moving : bool;
  timestamp : Z
}.
End DeviceState.

Inductive RelayProfile : Type := Maximum | High | Standard | Reduced | Minimal.

#[export] Instance RelayProfile_eq_dec : EqDecision RelayProfile.
Proof. solve_decision. Defined.

Inductive PolicyError : Type := RelayBudgetCannotBeZero.

Module PolicyEngine.
Import DeviceState.

Record t : Type := mk {
  scan_interval_override : option Z;
  relay_budget_override : option Z;
  battery_floor_override : option Z;
  current_profile : RelayProfile
}.

Definition new : t := mk None None None Standard.

Definition compute_profile (state : DeviceState.t) : RelayProfile :=
  if is_charging state && has_wifi state then Maximum
  else if is_charging state then High
  else if (51 <=? battery_percent state) && (battery_percent state <=? 100) then Standard
  else if (20 <=? battery_percent state) && (battery_percent state <=? 50) then Reduced
  else Minimal.

Definition update_device_state (state : DeviceState.t) (self : t) : RelayProfile * t :=
  let p := compute_profile state in
  (p, mk (scan_interval_override self) (relay_budget_override self) (battery_floor_override self) p).

Definition scan_interval_ms (self : t) : Z :=
  match scan_interval_override self with
  | Some v => v
  | None =>
      match current_profile self with
      | Maximum => 500
      | High => 1000
      | Standard => 5000
      | Reduced => 15000
      | Minimal => 60000
      end
  end.

Definition relay_budget_per_hour (self : t) : Z :=
  match relay_budget_override self with
  | Some v => v
  | None =>
      match current_profile self with
      | Maximum => 5000
      | High => 3000
      | Standard => 1000
      | Reduced => 300
      | Minimal => 50
      end
  end.

Definition to_relay_config (self : t) : RelayConfig.t :=
  let battery_floor :=
    default (match current_profile self with
      | Maximum => 10
      | High => 15
      | Standard => 20
      | Reduced => 30
      | Minimal => 50
      end) (battery_floor_override self) in
  RelayConfig.mk (relay_budget_per_hour self) 16 0 battery_floor true.

Definition set_scan_interval_override (ms : option Z) (self : t) : t :=
  mk ms (relay_budget_override self) (battery_floor_override self) (current_profile self).

Definition set_relay_budget_override (budget : option Z) (self : t) : t * outcome PolicyError unit :=
  match budget with
  | Some 0 => (self, Err RelayBudgetCannotBeZero)
  | _ => (mk (scan_interval_override self) budget (battery_floor_override self) (current_profile self),
          Ok tt)
  end.

Definition set_battery_floor_override (percent : option Z) (self : t) : t :=
  mk (scan_interval_override self) (relay_budget_override self) percent (current_profile self).

Definition should_reduce (self : t) : bool :=
  match current_profile self with Reduced | Minimal => true | _ => false end.

End PolicyEngine.

(** ** Properties *)

Section PolicyTheorems.
Import PolicyEngine.

(** The calls that change an engine; a budget is a [u32]. *)
Inductive policy_step : PolicyEngine.t -> PolicyEngine.t -> Prop :=
| policy_device state self : policy_step self (update_device_state state self).2
| policy_scan ms self : policy_step self (set_scan_interval_override ms self)
| policy_budget b self : (forall v, b = Some v -> u32 v) ->
    policy_step self (set_relay_budget_override b self).1
| policy_floor p self : policy_step self (set_battery_floor_override p self).

Definition override_ok (self : PolicyEngine.t) : Prop :=
  forall v, relay_budget_override self = Some v -> 0 < v < 2 ^ 32.

Lemma override_ok_reachable self self' : rtc policy_step self self' -> override_ok self -> override_ok self'.
Proof.
  induction 1 as [|s1 s2 s3 Hstep _ IH]; [done|]. intros Hok. apply IH.
  destruct Hstep as [st s|ms s|b s Hb|p s]; [done|done| |done].
  intros v. destruct b as [[|z|z]|]; cbn; intros Hv; [auto| | |done];
    specialize (Hb _ eq_refl); unfold fits in Hb; injection Hv as <-; lia.
Qed.

(** The policy never switches relaying off: whatever the device reports and
    the user sets, the budget handed to the relay engine is positive and a
    [u32] (zero would mean "unlimited" there), the hop limit is 16 and
    everything is relayed regardless of priority. *)
Theorem policy_budget_positive self : rtc policy_step PolicyEngine.new self ->
  let c := to_relay_config self in
  0 < RelayConfig.max_relay_per_hour c < 2 ^ 32 /\ RelayConfig.max_hop_count c = 16 /\
  RelayConfig.min_relay_priority c = 0 /\ RelayConfig.relay_opaque c = true.
Proof.
  intros Hr c. unfold c, to_relay_config. cbn.
  pose proof (override_ok_reachable _ _ Hr ltac:(done)) as Hov.
  split; [|done]. unfold relay_budget_per_hour.
  destruct (relay_budget_override self) as [v|] eqn:Ho; [apply Hov; done|].
  destruct (current_profile self); lia.
Qed.

(** How much a profile relays and scans. *)
Definition rank (p : RelayProfile) : Z :=
  match p with Maximum => 4 | High => 3 | Standard => 2 | Reduced => 1 | Minimal => 0 end.

(** The profile follows the device: a device that is better off (more battery,
    charging, on WiFi) never gets a lower profile, and a higher profile never
    relays less or scans less often.  This needs a battery level of at most
    100: above it an uncharged device is treated as empty. *)
Theorem policy_monotone (s1 s2 : DeviceState.t) (self : PolicyEngine.t) :
  0 <= DeviceState.battery_percent s1 <= DeviceState.battery_percent s2 ->
  DeviceState.battery_percent s2 <= 100 ->
  (DeviceState.is_charging s1 = true -> DeviceState.is_charging s2 = true) ->
  (DeviceState.has_wifi s1 = true -> DeviceState.has_wifi s2 = true) ->
  let e1 := (update_device_state s1 self).2 in
  let e2 := (update_device_state s2 self).2 in
  rank (current_profile e1) <= rank (current_profile e2) /\
  relay_budget_per_hour e1 <= relay_budget_per_hour e2 /\
  scan_interval_ms e2 <= scan_interval_ms e1.
Proof.
  intros Hb Hle Hc Hw e1 e2. unfold e1, e2. cbn. unfold compute_profile, relay_budget_per_hour, scan_interval_ms. cbn.
  destruct s1 as [b1 c1 w1 m1 t1], s2 as [b2 c2 w2 m2 t2]; cbn in *.
  destruct c1, c2, w1, w2; cbn in *; try (specialize (Hc eq_refl); done);
    try (specialize (Hw eq_refl); done); repeat case_goal; bool_to_prop; cbn; try lia.
Qed.

End PolicyTheorems.

Import PolicyEngine.

Lemma policy_budget_positive_witness :
  0 < RelayConfig.max_relay_per_hour
        (to_relay_config (set_relay_budget_override (Some 7) PolicyEngine.new).1).
Proof.
  apply (policy_budget_positive (set_relay_budget_override (Some 7) PolicyEngine.new).1).
  apply rtc_once, policy_budget. intros v Hv. injection Hv as <-. by_eval.
Defined.

Lemma policy_monotone_witness :
  rank (compute_profile (DeviceState.mk 19 false true false 0)) <=
  rank (compute_profile (DeviceState.mk 60 false true false 0)).
Proof.
  apply (policy_monotone (DeviceState.mk 19 false true false 0) (DeviceState.mk 60 false true false 0)
    PolicyEngine.new); [by_eval|by_eval|intros Hc; exact Hc|intros Hw; exact Hw].
Defined.
