(* ===== verification/Ratchet.v ===== *)
(** * Double Ratchet sessions (core/src/crypto/ratchet.rs)

    Chains, the session state, encryption and decryption with out-of-order
    delivery, the DH ratchet step and the forced ratchet.

    A method that fails may already have changed the session, so decryption
    returns the session it leaves behind with its outcome.  Random bytes are
    arguments.  Parameters: X25519 (crate [x25519_dalek]), BLAKE3 key
    derivation (crate [blake3]), XChaCha20-Poly1305 (crate [chacha20poly1305]);
    erasing keys from memory has no counterpart in the model. *)

From S2P Require Import Prelude Drift MeshStore.

Definition RATCHET_KDF_CONTEXT : string := "iron-core ratchet v1 2026-04-15".
Definition ROOT_KDF_CONTEXT : string := "iron-core root-chain v1 2026-04-15".
Definition MAX_SKIP_KEYS : Z := 256.
Definition MAX_RATCHET_STEPS : Z := 10000.

(** Keys and secrets are 32-byte strings ([RatchetKey], [X25519StaticSecret]). *)
Abbreviation RatchetKey := (list Z).
Abbreviation Secret := (list Z).
Abbreviation PublicKey := (list Z).

(** ** The crates the ratchet calls *)

Class RatchetCrates : Type := {
  x25519_public : Secret -> PublicKey;
  diffie_hellman : Secret -> PublicKey -> list Z;
  blake3_derive_key : string -> list Z -> list Z;
  blake3_hash_hex : string -> string;
  aead_encrypt : RatchetKey -> list Z -> list Z -> list Z -> outcome string (list Z);
  aead_decrypt : RatchetKey -> list Z -> list Z -> list Z -> outcome string (list Z)
}.

(** Documented behaviour: the two parties of a Diffie-Hellman exchange agree,
    keys and derived keys are 32 bytes, a cipher opens what it sealed under the
    same key, nonce and associated data, and never panics. *)
Class RatchetCratesSpec (C : RatchetCrates) : Prop := {
  dh_agree : forall a b, diffie_hellman a (x25519_public b) = diffie_hellman b (x25519_public a);
  x25519_public_32 : forall a, len (x25519_public a) = 32;
  aead_total : forall k n ad m, exists c, aead_encrypt k n ad m = Ok c;
  aead_open : forall k n ad m c, aead_encrypt k n ad m = Ok c -> aead_decrypt k n ad c = Ok m;
  aead_no_panic : forall k n ad c, aead_decrypt k n ad c <> Panic
}.

Section KDF.
Context `{RatchetCrates}.

Definition derive_key_with_info (key : RatchetKey) (info : string) : RatchetKey :=
  blake3_derive_key (RATCHET_KDF_CONTEXT ++ ":" ++ blake3_hash_hex info)%string key.

Definition root_key_ratchet (root_key : RatchetKey) (dh_output : list Z) : RatchetKey * RatchetKey :=
  let combined := blake3_derive_key ROOT_KDF_CONTEXT (root_key ++ dh_output) in
  let new_root := blake3_derive_key (ROOT_KDF_CONTEXT ++ ":root")%string combined in
  let chain_key := blake3_derive_key (ROOT_KDF_CONTEXT ++ ":chain")%string combined in
  (new_root, chain_key).

Definition derive_root_key (prior_root : RatchetKey) (shared_secret : list Z) : RatchetKey :=
  blake3_derive_key ROOT_KDF_CONTEXT (prior_root ++ shared_secret).

End KDF.

Module Chain.

Record t : Type := mk { chain_key : RatchetKey; index : Z }.

#[export] Instance t_eq_dec : EqDecision t.
Proof. solve_decision. Defined.

Definition new (chain_key : RatchetKey) : t := mk chain_key 0.

Definition new_with_index (chain_key : RatchetKey) (index : Z) : t := mk chain_key index.

Definition next_message_key `{RatchetCrates} (self : t) : RatchetKey * t :=
  let msg_key := derive_key_with_info (chain_key self) "message-key" in
  (msg_key, mk (derive_key_with_info (chain_key self) "chain-key") (wrap 32 (index self + 1))).

End Chain.

Module RatchetEncryptResult.
Record t : Type := mk {
  ciphertext : list Z;
  nonce : list Z;
  message_number : Z;
  our_dh_public : PublicKey
}.
End RatchetEncryptResult.

Module RatchetSession.

Record t : Type := mk {
  our_dh_secret : Secret;
  our_dh_public : PublicKey;
  their_dh_public : option PublicKey;
  root_key : RatchetKey;
  sending_chain : option Chain.t;
  receiving_chain : option Chain.t;
  dh_step_count : Z;
  skipped_keys : gmap (PublicKey * Z) RatchetKey;
  initialized : bool;
  our_identity_secret : option Secret
}.

(** The order of the keys of the hash map: the tuple's. *)
Definition skip_cmp (a b : (PublicKey * Z) * RatchetKey) : comparison :=
  match MeshStore.id_cmp a.1.1 b.1.1 with
  | Eq => Z.compare a.1.2 b.1.2
  | c => c
  end.

Definition reconstruct (our_dh_secret : Secret) (our_dh_public : PublicKey)
    (their_dh_public : option PublicKey) (root_key : RatchetKey)
    (sending_chain receiving_chain : option Chain.t) (dh_step_count : Z) (initialized : bool)
    (our_identity_secret : option Secret) : t :=
  mk our_dh_secret our_dh_public their_dh_public root_key sending_chain receiving_chain
     dh_step_count ∅ initialized our_identity_secret.

Definition set_sending (c : Chain.t) (self : t) : t :=
  mk (our_dh_secret self) (our_dh_public self) (their_dh_public self) (root_key self) (Some c)
     (receiving_chain self) (dh_step_count self) (skipped_keys self) (initialized self)
     (our_identity_secret self).

Definition set_receiving (c : Chain.t) (sk : gmap (PublicKey * Z) RatchetKey) (self : t) : t :=
  mk (our_dh_secret self) (our_dh_public self) (their_dh_public self) (root_key self)
     (sending_chain self) (Some c) (dh_step_count self) sk (initialized self)
     (our_identity_secret self).

Definition set_skipped (sk : gmap (PublicKey * Z) RatchetKey) (self : t) : t :=
  mk (our_dh_secret self) (our_dh_public self) (their_dh_public self) (root_key self)
     (sending_chain self) (receiving_chain self) (dh_step_count self) sk (initialized self)
     (our_identity_secret self).

Section Operations.
Context `{RatchetCrates}.

(** [fresh]: the 32 random bytes of the new secret; [identity]: the signing key
    converted to X25519. *)
Definition init_as_sender (fresh identity : Secret) (their_identity_public : PublicKey) : t :=
  let our_dh_secret := fresh in
  let our_dh_public := x25519_public our_dh_secret in
  let shared_secret := diffie_hellman identity their_identity_public in
  let root_key := derive_root_key (repeat_byte 0 32) shared_secret in
  let dh_output := diffie_hellman our_dh_secret their_identity_public in
  let '(new_root_key, sending_chain_key) := root_key_ratchet root_key dh_output in
  mk our_dh_secret our_dh_public (Some their_identity_public) new_root_key
     (Some (Chain.new sending_chain_key)) None 1 ∅ true None.

Definition init_as_receiver (fresh identity : Secret) (sender_identity_public : PublicKey) : t :=
  let our_dh_secret := fresh in
  let our_dh_public := x25519_public our_dh_secret in
  let shared_secret := diffie_hellman identity sender_identity_public in
  let root_key := derive_root_key (repeat_byte 0 32) shared_secret in
  mk our_dh_secret our_dh_public None root_key None None 0 ∅ false (Some identity).

(** [nonce]: 24 random bytes. *)
Definition encrypt (nonce plaintext aad : list Z) (self : t)
    : t * outcome string RatchetEncryptResult.t :=
  match sending_chain self with
  | None => (self, Err "Sending chain not initialized"%string)
  | Some chain =>
      if dh_step_count self >=? MAX_RATCHET_STEPS
      then (self, Err "Ratchet session has exceeded maximum steps"%string)
      else
      let '(message_key, chain) := Chain.next_message_key chain in
      let self := set_sending chain self in
      let message_number := wrap 32 (Chain.index chain - 1) in
      match aead_encrypt message_key nonce aad plaintext with
      | Ok ciphertext =>
          (self, Ok (RatchetEncryptResult.mk ciphertext nonce message_number (our_dh_public self)))
      | Err e => (self, Err ("Encryption failed: " ++ e)%string)
      | Panic => (self, Panic)
      end
  end.

(** [fresh]: the random secret drawn for the next sending chain. *)
Definition handle_dh_ratchet (fresh : Secret) (their_new_dh : PublicKey) (self : t) : t :=
  let first_dh_secret := default (our_dh_secret self) (our_identity_secret self) in
  let dh_output := diffie_hellman first_dh_secret their_new_dh in
  let '(new_root_key, receiving_chain_key) := root_key_ratchet (root_key self) dh_output in
  let new_dh_secret := fresh in
  let new_dh_public := x25519_public new_dh_secret in
  let dh_output_2 := diffie_hellman new_dh_secret their_new_dh in
  let '(new_root_key_2, sending_chain_key) := root_key_ratchet new_root_key dh_output_2 in
  mk new_dh_secret new_dh_public (Some their_new_dh) new_root_key_2
     (Some (Chain.new sending_chain_key)) (Some (Chain.new receiving_chain_key))
     (wrap 32 (dh_step_count self + 1)) (skipped_keys self) true None.

(** Remove the least key when there are too many. *)
Definition trim_skipped (sk : gmap (PublicKey * Z) RatchetKey) : gmap (PublicKey * Z) RatchetKey :=
  if Z.of_nat (size sk) >? MAX_SKIP_KEYS then
    match min_by skip_cmp (map_to_list sk) with
    | Some oldest => delete oldest.1 sk
    | None => sk
    end
  else sk.

(** The [while] loop, [n] turns: each derives a key and stores it. *)
Fixpoint skip_keys (their_dh : PublicKey) (n : nat) (chain : Chain.t)
    (sk : gmap (PublicKey * Z) RatchetKey) : Chain.t * gmap (PublicKey * Z) RatchetKey :=
  match n with
  | O => (chain, sk)
  | S n =>
      let '(skipped_key, chain) := Chain.next_message_key chain in
      let skipped_number := wrap 32 (Chain.index chain - 1) in
      skip_keys their_dh n chain (trim_skipped (<[(their_dh, skipped_number) := skipped_key]> sk))
  end.

Definition get_message_key (their_dh : PublicKey) (target_number : Z) (self : t)
    : t * outcome string RatchetKey :=
  match skipped_keys self !! (their_dh, target_number) with
  | Some key => (set_skipped (delete (their_dh, target_number) (skipped_keys self)) self, Ok key)
  | None =>
      match receiving_chain self with
      | None => (self, Err "Receiving chain not initialized"%string)
      | Some chain =>
          if target_number <? Chain.index chain
          then (self, Err "Message number is behind current chain position"%string)
          else
          let skip_count := target_number - Chain.index chain in
          if skip_count >? MAX_SKIP_KEYS then (self, Err "Too many skipped messages"%string)
          else
          let '(chain, sk) := skip_keys their_dh (Z.to_nat skip_count) chain (skipped_keys self) in
          let '(key, chain) := Chain.next_message_key chain in
          (set_receiving chain sk self, Ok key)
      end
  end.

(** The DH key is copied into an array, and the nonce read as an [XNonce]. *)
Definition decrypt (fresh : Secret) (their_dh_public_bytes : list Z) (message_number : Z)
    (nonce ciphertext aad : list Z) (self : t) : t * outcome string (list Z) :=
  if negb (len their_dh_public_bytes =? 32) then (self, Err "Invalid DH public key length"%string)
  else
  match array_from_slice 32 their_dh_public_bytes with
  | Ok their_dh =>
  let dh_changed :=
    match their_dh_public self with
    | None => true
    | Some their_current => negb (bool_decide (their_current = their_dh))
    end in
  let self := if dh_changed then handle_dh_ratchet fresh their_dh self else self in
  let '(self, r) := get_message_key their_dh message_number self in
  match r with
  | Ok message_key =>
      (self,
       let! nonce_obj := array_from_slice 24 nonce in
       map_err (fun _ => "Decryption failed"%string) (aead_decrypt message_key nonce_obj aad ciphertext))
  | Err e => (self, Err e)
  | Panic => (self, Panic)
  end
  | Err e => (self, Err e)
  | Panic => (self, Panic)
  end.

Definition force_ratchet (fresh : Secret) (self : t) : t * PublicKey :=
  let our_dh_secret := fresh in
  let our_dh_public := x25519_public our_dh_secret in
  let '(root, sending) :=
    match their_dh_public self with
    | Some their_dh =>
        let dh_output := diffie_hellman our_dh_secret their_dh in
        let '(new_root_key, sending_chain_key) := root_key_ratchet (root_key self) dh_output in
        (new_root_key, Some (Chain.new sending_chain_key))
    | None => (root_key self, sending_chain self)
    end in
  (mk our_dh_secret our_dh_public (their_dh_public self) root sending (receiving_chain self)
      (wrap 32 (dh_step_count self + 1)) (skipped_keys self) (initialized self)
      (our_identity_secret self), our_dh_public).

End Operations.
End RatchetSession.
