(* ===== verification/RatchetProps.v ===== *)
(** * Agreement of ratchet sessions

    Two sessions that exchange messages in order decrypt every one of them, in
    any interleaving of the two directions. *)

From S2P Require Import Prelude Drift Ratchet.
Import RatchetSession.

Section Agreement.
Context `{RC : RatchetCrates} {RS : RatchetCratesSpec RC}.
Implicit Types (A B : RatchetSession.t).

(** The secret the next DH ratchet step will use. *)
Definition dh_secret_of A : Secret := default (our_dh_secret A) (our_identity_secret A).

(** [A] has performed its DH step and [B] has not seen it yet: [A]'s sending chain
    is the one [B] will derive on [A]'s next message, and what [B] can still
    send is on the chain [A] receives with. *)
Record Ahead A B : Prop := {
  ah_identity : our_identity_secret A = None;
  ah_public : our_dh_public A = x25519_public (our_dh_secret A);
  ah_public_b : our_dh_public B = x25519_public (our_dh_secret B);
  ah_their : their_dh_public A = Some (x25519_public (dh_secret_of B));
  ah_their_b : their_dh_public B <> Some (our_dh_public A);
  ah_chain :
    let r := root_key_ratchet (root_key B) (diffie_hellman (dh_secret_of B) (our_dh_public A)) in
    root_key A = r.1 /\ sending_chain A = Some (Chain.new r.2);
  ah_back : forall c, sending_chain B = Some c ->
    receiving_chain A = Some c /\ our_identity_secret B = None /\ u32 (Chain.index c);
  ah_skipped : skipped_keys A = ∅ /\ skipped_keys B = ∅
}.

(** Send one message from [X] to [Y] and read it there. *)
Definition exchange (fresh nonce plaintext aad : list Z) (X Y : RatchetSession.t)
    : RatchetSession.t * RatchetSession.t * outcome string (list Z) :=
  let '(X, r) := encrypt nonce plaintext aad X in
  match r with
  | Ok m =>
      let '(Y, p) := decrypt fresh (RatchetEncryptResult.our_dh_public m)
                       (RatchetEncryptResult.message_number m) (RatchetEncryptResult.nonce m)
                       (RatchetEncryptResult.ciphertext m) aad Y in
      (X, Y, p)
  | Err e => (X, Y, Err e)
  | Panic => (X, Y, Panic)
  end.

Lemma next_index c : u32 (Chain.index c) ->
  wrap 32 (Chain.index (Chain.next_message_key c).2 - 1) = Chain.index c /\
  u32 (Chain.index (Chain.next_message_key c).2).
Proof using Type.
  intros Hi. cbn. split; [|apply fits_wrap; lia]. unfold wrap, fits in *.
  rewrite Zminus_mod_idemp_l. replace (Chain.index c + 1 - 1) with (Chain.index c) by lia.
  apply Z.mod_small. done.
Qed.

(** A key request at the chain's position advances the chain by one. *)
Lemma get_message_key_next dh self c : receiving_chain self = Some c -> skipped_keys self = ∅ ->
  get_message_key dh (Chain.index c) self =
  (set_receiving (Chain.next_message_key c).2 ∅ self, Ok (Chain.next_message_key c).1).
Proof using Type.
  intros Hc Hs. unfold get_message_key. rewrite Hs, lookup_empty, Hc, Z.ltb_irrefl, Z.sub_diag.
  cbn [Z.gtb Z.compare MAX_SKIP_KEYS Z.to_nat skip_keys]. done.
Qed.

(** The DH ratchet step, with its two key derivations named. *)
Lemma handle_dh_ratchet_eq fresh K B :
  let r1 := root_key_ratchet (root_key B) (diffie_hellman (dh_secret_of B) K) in
  let r2 := root_key_ratchet r1.1 (diffie_hellman fresh K) in
  handle_dh_ratchet fresh K B =
  mk fresh (x25519_public fresh) (Some K) r2.1 (Some (Chain.new r2.2)) (Some (Chain.new r1.2))
     (wrap 32 (dh_step_count B + 1)) (skipped_keys B) true None.
Proof using Type.
  unfold handle_dh_ratchet. fold (dh_secret_of B). destruct (root_key_ratchet _ _) as [r ck].
  cbn [fst snd]. destruct (root_key_ratchet r _). done.
Qed.

(** Encrypting on a chain: the chain's key and number go on the message. *)
Lemma encrypt_on nonce plaintext aad A c : sending_chain A = Some c -> u32 (Chain.index c) ->
  dh_step_count A < MAX_RATCHET_STEPS ->
  exists ct, aead_encrypt (Chain.next_message_key c).1 nonce aad plaintext = Ok ct /\
    encrypt nonce plaintext aad A =
      (set_sending (Chain.next_message_key c).2 A,
       Ok (RatchetEncryptResult.mk ct nonce (Chain.index c) (our_dh_public A))).
Proof using RS.
  intros Hc Hu Hs. destruct (next_index c Hu) as [Hn _].
  destruct (aead_total (Chain.next_message_key c).1 nonce aad plaintext) as [ct Hct].
  exists ct. split; [done|]. unfold encrypt. rewrite Hc. zbool.
  destruct (Chain.next_message_key c) as [key c']. cbn [fst snd] in *. rewrite Hct, Hn. done.
Qed.

(** Decrypting at the position of the chain of the key the message names. *)
Lemma decrypt_at fresh K nonce ct aad B c plaintext : len K = 32 -> len nonce = 24 ->
  let B1 := if decide (their_dh_public B = Some K) then B else handle_dh_ratchet fresh K B in
  receiving_chain B1 = Some c -> skipped_keys B1 = ∅ ->
  aead_decrypt (Chain.next_message_key c).1 nonce aad ct = Ok plaintext ->
  decrypt fresh K (Chain.index c) nonce ct aad B =
  (set_receiving (Chain.next_message_key c).2 ∅ B1, Ok plaintext).
Proof using Type.
  intros HK Hn B1 Hc Hs Hd. unfold decrypt. rewrite (array_from_slice_ok 32 K HK), HK. cbn [Z.eqb Pos.eqb negb].
  assert (Hch : (if match their_dh_public B with
    | None => true | Some k => negb (bool_decide (k = K)) end
    then handle_dh_ratchet fresh K B else B) = B1).
  { unfold B1. destruct (their_dh_public B) as [k|]; [|rewrite decide_False by done; done].
    case_bool_decide; subst; [rewrite decide_True by done|rewrite decide_False by congruence]; done. }
  rewrite Hch, (get_message_key_next _ _ _ Hc Hs), (array_from_slice_ok 24 nonce Hn), Hd. done.
Qed.

Context (fresh nonce plaintext aad : list Z) (Hnonce : len nonce = 24).

(** The side that is ahead sends: the other catches up and is ahead in turn. *)
Lemma exchange_forward A B : Ahead A B -> dh_step_count A < MAX_RATCHET_STEPS ->
  their_dh_public A <> Some (x25519_public fresh) ->
  exists A' B', exchange fresh nonce plaintext aad A B = (A', B', Ok plaintext) /\
    Ahead B' A' /\ dh_step_count A' = dh_step_count A /\
    dh_step_count B' = wrap 32 (dh_step_count B + 1) /\
    their_dh_public A' = their_dh_public A /\ our_dh_public A' = our_dh_public A /\
    their_dh_public B' = Some (our_dh_public A) /\ our_dh_public B' = x25519_public fresh /\
    is_Some (sending_chain A').
Proof using RS Hnonce.
  intros [Hid HpA HpB Hth Hne [Hroot Hsend] Hback [HsA HsB]] Hsteps Hfresh.
  set (r := root_key_ratchet (root_key B) (diffie_hellman (dh_secret_of B) (our_dh_public A))) in *.
  destruct (encrypt_on nonce plaintext aad A _ Hsend) as (ct & Hct & Henc); [by_eval|done|].
  unfold exchange. rewrite Henc.
  cbn [RatchetEncryptResult.our_dh_public RatchetEncryptResult.message_number
       RatchetEncryptResult.nonce RatchetEncryptResult.ciphertext].
  pose proof (handle_dh_ratchet_eq fresh (our_dh_public A) B) as Hh. cbn zeta in Hh. fold r in Hh.
  pose proof (decrypt_at fresh (our_dh_public A) nonce ct aad B (Chain.new r.2) plaintext) as Hdec.
  cbn zeta in Hdec. rewrite decide_False, Hh in Hdec by done.
  change (Chain.index (Chain.new r.2)) with 0 in *.
  rewrite Hdec; [|rewrite HpA; apply x25519_public_32|done|done|exact HsB|apply aead_open; done].
  eexists _, _. split; [reflexivity|]. cbn [set_receiving set_sending their_dh_public our_dh_public
    dh_step_count our_dh_secret our_identity_secret root_key sending_chain receiving_chain skipped_keys].
  assert (HsecA : dh_secret_of A = our_dh_secret A) by (unfold dh_secret_of; rewrite Hid; done).
  split; [|split_and!; done].
  split; cbn [set_receiving set_sending their_dh_public our_dh_public dh_step_count our_dh_secret
    our_identity_secret root_key sending_chain receiving_chain skipped_keys]; try done.
  - unfold dh_secret_of. cbn. rewrite Hid. cbn. rewrite HpA. done.
  - unfold dh_secret_of. cbn [set_sending our_dh_secret our_identity_secret]. rewrite Hid. cbn [default from_option id].
    rewrite Hroot. replace (diffie_hellman (our_dh_secret A) (x25519_public fresh))
      with (diffie_hellman fresh (our_dh_public A)) by (rewrite HpA; apply dh_agree). done.
  - intros c Hc. injection Hc as <-. split_and!; [done|done|].
    destruct (next_index (Chain.new r.2)) as [_ Hu]; [by_eval|exact Hu].
Qed.

(** The side that is behind sends on the chain it has: nobody takes a DH step. *)
Lemma exchange_back A B c : Ahead A B -> sending_chain B = Some c -> dh_step_count B < MAX_RATCHET_STEPS ->
  exists A' B', exchange fresh nonce plaintext aad B A = (B', A', Ok plaintext) /\
    Ahead A' B' /\ dh_step_count A' = dh_step_count A /\ dh_step_count B' = dh_step_count B /\
    their_dh_public A' = their_dh_public A /\ our_dh_public A' = our_dh_public A /\
    their_dh_public B' = their_dh_public B /\ our_dh_public B' = our_dh_public B /\
    is_Some (sending_chain B').
Proof using RS Hnonce.
  intros [Hid HpA HpB Hth Hne [Hroot Hsend] Hback [HsA HsB]] Hc Hsteps.
  destruct (Hback c Hc) as (Hrec & HidB & Hu).
  assert (HsecB : dh_secret_of B = our_dh_secret B) by (unfold dh_secret_of; rewrite HidB; done).
  destruct (encrypt_on nonce plaintext aad B c Hc Hu Hsteps) as (ct & Hct & Henc).
  unfold exchange. rewrite Henc.
  cbn [RatchetEncryptResult.our_dh_public RatchetEncryptResult.message_number
       RatchetEncryptResult.nonce RatchetEncryptResult.ciphertext].
  assert (Hsame : their_dh_public A = Some (our_dh_public B)) by (rewrite Hth, HpB, HsecB; done).
  pose proof (decrypt_at fresh (our_dh_public B) nonce ct aad A c plaintext) as Hdec.
  cbn zeta in Hdec. rewrite decide_True in Hdec by done.
  rewrite Hdec; [|rewrite HpB; apply x25519_public_32|done|done|exact HsA|apply aead_open; done].
  eexists _, _. split; [reflexivity|]. cbn [set_receiving set_sending their_dh_public our_dh_public
    dh_step_count our_dh_secret our_identity_secret root_key sending_chain receiving_chain skipped_keys].
  split; [|split_and!; done].
  split; cbn [set_receiving set_sending their_dh_public our_dh_public dh_step_count our_dh_secret
    our_identity_secret root_key sending_chain receiving_chain skipped_keys]; try done.
  intros c' Hc'. injection Hc' as <-. split_and!; [done|done|].
  destruct (next_index c Hu) as [_ Hu']. exact Hu'.
Qed.

End Agreement.

(** ** Conversations *)

(** A message of a conversation: who sends it, the random bytes used, what it says. *)
Record event : Type := {
  from_initiator : bool;
  ev_fresh : Secret;
  ev_nonce : list Z;
  ev_plaintext : list Z;
  ev_aad : list Z
}.

Section Conversation.
Context `{RC : RatchetCrates} {RS : RatchetCratesSpec RC}.
Implicit Types (A B : RatchetSession.t) (evs : list event).

(** Every message is decrypted to what was sent. *)
Fixpoint delivered evs A B : Prop :=
  match evs with
  | [] => True
  | e :: evs =>
      if from_initiator e then
        let '(A, B, r) := exchange (ev_fresh e) (ev_nonce e) (ev_plaintext e) (ev_aad e) A B in
        r = Ok (ev_plaintext e) /\ delivered evs A B
      else
        let '(B, A, r) := exchange (ev_fresh e) (ev_nonce e) (ev_plaintext e) (ev_aad e) B A in
        r = Ok (ev_plaintext e) /\ delivered evs A B
  end.

Definition fresh_publics evs : list PublicKey := map (fun e => x25519_public (ev_fresh e)) evs.

(** The leading side's keys were drawn before. *)
Definition known (seen : list PublicKey) A : Prop :=
  our_dh_public A ∈ seen /\ forall k, their_dh_public A = Some k -> k ∈ seen.

(** One of the sides is ahead, and the other can send as well. *)
Definition in_sync (seen : list PublicKey) (n : Z) A B : Prop :=
  0 <= dh_step_count A <= n /\ 0 <= dh_step_count B <= n /\
  (Ahead A B /\ known seen A /\ is_Some (sending_chain B) \/
   Ahead B A /\ known seen B /\ is_Some (sending_chain A)).

(** The leading side speaks: afterwards the other leads. *)
Lemma forward_in_sync seen n A B e : Ahead A B -> known seen A ->
  0 <= dh_step_count A <= n -> 0 <= dh_step_count B <= n -> n < MAX_RATCHET_STEPS ->
  len (ev_nonce e) = 24 -> x25519_public (ev_fresh e) ∉ seen ->
  exists A' B', exchange (ev_fresh e) (ev_nonce e) (ev_plaintext e) (ev_aad e) A B =
      (A', B', Ok (ev_plaintext e)) /\
    Ahead B' A' /\ known (x25519_public (ev_fresh e) :: seen) B' /\ is_Some (sending_chain A') /\
    0 <= dh_step_count A' <= n + 1 /\ 0 <= dh_step_count B' <= n + 1.
Proof using RS.
  intros Ha [Ho Ht] HsA HsB Hn Hnon Hf.
  destruct (exchange_forward (ev_fresh e) (ev_nonce e) (ev_plaintext e) (ev_aad e) Hnon A B Ha)
    as (A' & B' & Hx & Hah & Hs1 & Hs2 & Ht1 & Ho1 & Ht2 & Ho2 & Hsome); [lia| |].
  { intros Heq. apply Hf, Ht. done. }
  exists A', B'. unfold MAX_RATCHET_STEPS in *.
  rewrite wrap_small in Hs2 by (unfold fits; lia). split_and!; try done; try lia.
  split; [rewrite Ho2; constructor|]. intros k Hk. rewrite Ht2 in Hk. injection Hk as <-.
  by constructor.
Qed.

(** The other side speaks: the leading side keeps its lead. *)
Lemma back_in_sync seen n A B e : Ahead A B -> known seen A -> is_Some (sending_chain B) ->
  0 <= dh_step_count A <= n -> 0 <= dh_step_count B <= n -> n < MAX_RATCHET_STEPS ->
  len (ev_nonce e) = 24 ->
  exists A' B', exchange (ev_fresh e) (ev_nonce e) (ev_plaintext e) (ev_aad e) B A =
      (B', A', Ok (ev_plaintext e)) /\
    Ahead A' B' /\ known (x25519_public (ev_fresh e) :: seen) A' /\ is_Some (sending_chain B') /\
    0 <= dh_step_count A' <= n + 1 /\ 0 <= dh_step_count B' <= n + 1.
Proof using RS.
  intros Ha [Ho Ht] [c Hc] HsA HsB Hn Hnon.
  destruct (exchange_back (ev_fresh e) (ev_nonce e) (ev_plaintext e) (ev_aad e) Hnon A B c Ha Hc)
    as (A' & B' & Hx & Hah & Hs1 & Hs2 & Ht1 & Ho1 & Ht2 & Ho2 & Hsome); [lia|].
  exists A', B'. split_and!; try done; try lia.
  split; [rewrite Ho1; by constructor|]. intros k Hk. rewrite Ht1 in Hk. constructor. auto.
Qed.

Lemma delivered_in_sync evs A B seen n : in_sync seen n A B ->
  Forall (fun e => len (ev_nonce e) = 24) evs ->
  NoDup (fresh_publics evs) -> (forall k, k ∈ fresh_publics evs -> k ∉ seen) ->
  n + len evs <= MAX_RATCHET_STEPS -> delivered evs A B.
Proof using RS.
  revert A B seen n. induction evs as [|e evs IH]; intros A B seen n (HsA & HsB & Hs) Hnon Hnd Hnew Hn;
    [done|].
  apply Forall_cons in Hnon as [Hne Hnon]. apply NoDup_cons in Hnd as [Hni Hnd].
  rewrite len_cons in Hn. pose proof (len_nonneg evs).
  assert (Hf : x25519_public (ev_fresh e) ∉ seen) by (apply Hnew; constructor).
  assert (Hnew' : forall k, k ∈ fresh_publics evs -> k ∉ x25519_public (ev_fresh e) :: seen).
  { intros k Hk Hin. apply elem_of_cons in Hin as [->|Hin]; [done|].
    apply (Hnew k); [by constructor|done]. }
  cbn [delivered]. destruct (from_initiator e), Hs as [(Ha & Hk & Hsome)|(Ha & Hk & Hsome)].
  - destruct (forward_in_sync seen n A B e) as (A' & B' & -> & Hah & Hk' & Hs' & H1 & H2); try done; [lia|].
    split; [done|]. apply (IH _ _ (x25519_public (ev_fresh e) :: seen) (n + 1)); try done; [|lia].
    split_and!; try lia. right. done.
  - destruct (back_in_sync seen n B A e) as (B' & A' & -> & Hah & Hk' & Hs' & H1 & H2); try done; [lia|].
    split; [done|]. apply (IH _ _ (x25519_public (ev_fresh e) :: seen) (n + 1)); try done; [|lia].
    split_and!; try lia. right. done.
  - destruct (back_in_sync seen n A B e) as (A' & B' & -> & Hah & Hk' & Hs' & H1 & H2); try done; [lia|].
    split; [done|]. apply (IH _ _ (x25519_public (ev_fresh e) :: seen) (n + 1)); try done; [|lia].
    split_and!; try lia. left. done.
  - destruct (forward_in_sync seen n B A e) as (B' & A' & -> & Hah & Hk' & Hs' & H1 & H2); try done; [lia|].
    split; [done|]. apply (IH _ _ (x25519_public (ev_fresh e) :: seen) (n + 1)); try done; [|lia].
    split_and!; try lia. left. done.
Qed.

(** The sessions as they are created: the initiator leads. *)
Lemma initial_ahead a_fresh b_fresh a_identity b_identity :
  Ahead (init_as_sender a_fresh a_identity (x25519_public b_identity))
        (init_as_receiver b_fresh b_identity (x25519_public a_identity)).
Proof using RS.
  unfold init_as_sender, init_as_receiver. rewrite (dh_agree b_identity a_identity).
  destruct (root_key_ratchet _ _) as [r ck] eqn:Hr.
  split; cbn [their_dh_public our_dh_public our_dh_secret our_identity_secret root_key sending_chain
    receiving_chain skipped_keys]; try done.
  unfold dh_secret_of. cbn [our_identity_secret our_dh_secret default from_option id].
  rewrite (dh_agree b_identity a_fresh), Hr. done.
Qed.

(** C3. A conversation: two sessions set up with each other's identity keys
    exchange any number of messages (fewer than the 10000 steps a session
    allows), the initiator speaking first and then either side at any time, each
    message delivered before the next is sent; every message is decrypted to
    exactly what was sent.  The random secrets are assumed to be distinct. *)
Theorem ratchet_conversation a_fresh b_fresh a_identity b_identity e evs :
  from_initiator e = true ->
  Forall (fun e => len (ev_nonce e) = 24) (e :: evs) ->
  NoDup (x25519_public b_identity :: x25519_public a_fresh :: fresh_publics (e :: evs)) ->
  len evs < 9999 ->
  delivered (e :: evs)
    (init_as_sender a_fresh a_identity (x25519_public b_identity))
    (init_as_receiver b_fresh b_identity (x25519_public a_identity)).
Proof using RS.
  intros He Hnon Hnd Hn. pose proof (initial_ahead a_fresh b_fresh a_identity b_identity) as Ha.
  set (A := init_as_sender _ _ _) in *. set (B := init_as_receiver _ _ _) in *.
  apply Forall_cons in Hnon as [Hne Hnon].
  change (fresh_publics (e :: evs)) with (x25519_public (ev_fresh e) :: fresh_publics evs) in Hnd.
  apply NoDup_cons in Hnd as [Hn1 Hnd]. apply NoDup_cons in Hnd as [Hn2 Hnd].
  apply NoDup_cons in Hnd as [Hn3 Hnd]. rewrite !not_elem_of_cons in *.
  assert (HA : dh_step_count A = 1 /\ our_dh_public A = x25519_public a_fresh /\
               their_dh_public A = Some (x25519_public b_identity)).
  { unfold A, init_as_sender. destruct (root_key_ratchet _ _). done. }
  destruct HA as (HsA & HoA & HtA).
  pose (seen := [x25519_public b_identity; x25519_public a_fresh]).
  destruct (forward_in_sync seen 1 A B e) as (A' & B' & Hx & Hah & Hk & Hsome & H1 & H2);
    [done| |lia|done|done|done| |].
  - split; [rewrite HoA; repeat constructor|]. intros k Hk. rewrite HtA in Hk. injection Hk as <-. constructor.
  - unfold seen. rewrite !not_elem_of_cons. destruct_and!.
    split_and!; [congruence|congruence|apply not_elem_of_nil].
  - cbn [delivered]. rewrite He, Hx. split; [done|].
    apply (delivered_in_sync evs A' B' (x25519_public (ev_fresh e) :: seen) 2); try done.
    + split_and!; try lia. right. done.
    + intros k Hin. unfold seen. rewrite !not_elem_of_cons. split_and!; [..|apply not_elem_of_nil]; intros ->; tauto.
    + unfold MAX_RATCHET_STEPS. lia.
Qed.

End Conversation.
