(* ===== verification/RatchetSkip.v ===== *)
(** * Out-of-order delivery and the limits of a ratchet session

    Message keys by number within a chain, the store of skipped keys and its
    bound, and what a session does with messages that are not authentic. *)

From S2P Require Import Prelude Drift Ratchet RatchetProps.
Import RatchetSession.
#[local] Existing Instance Chain.t_eq_dec.

Section Skipping.
Context `{RC : RatchetCrates}.
Implicit Types (sk : gmap (PublicKey * Z) RatchetKey) (self : RatchetSession.t).

(** The chain that starts with key [ck] after [i] steps, and its [n]-th message key. *)
Definition chain_at (ck : RatchetKey) (i : nat) : Chain.t :=
  Nat.iter i (fun c => (Chain.next_message_key c).2) (Chain.new ck).

Definition key_of (ck : RatchetKey) (n : nat) : RatchetKey :=
  (Chain.next_message_key (chain_at ck n)).1.

Lemma chain_at_index ck i : Z.of_nat i < 2 ^ 32 -> Chain.index (chain_at ck i) = Z.of_nat i.
Proof using Type.
  induction i as [|i IH]; intros Hi; [done|].
  change (chain_at ck (S i)) with (Chain.next_message_key (chain_at ck i)).2.
  cbn [Chain.next_message_key Chain.index snd]. rewrite IH, wrap_small by (unfold fits; lia). lia.
Qed.

Lemma chain_at_next ck i : Chain.next_message_key (chain_at ck i) = (key_of ck i, chain_at ck (S i)).
Proof using Type. reflexivity. Qed.

(** The stored keys of a chain are the chain's keys of earlier numbers. *)
Definition store_ok (dh : PublicKey) (ck : RatchetKey) (i : nat) sk : Prop :=
  forall n k, sk !! (dh, n) = Some k -> exists m, n = Z.of_nat m /\ (m < i)%nat /\ k = key_of ck m.

Lemma trim_subseteq sk : trim_skipped sk ⊆ sk.
Proof using Type.
  unfold trim_skipped. case_goal; [|done]. destruct (min_by _ _); [apply delete_subseteq|done].
Qed.

Lemma trim_small sk : Z.of_nat (size sk) <= 256 -> trim_skipped sk = sk.
Proof using Type. intros Hs. unfold trim_skipped, MAX_SKIP_KEYS. zbool. done. Qed.

Lemma trim_size sk : Z.of_nat (size sk) <= 257 -> Z.of_nat (size (trim_skipped sk)) <= 256.
Proof using Type.
  intros Hs. unfold trim_skipped, MAX_SKIP_KEYS. case_goal; bool_to_prop; [|lia].
  destruct (min_by skip_cmp (map_to_list sk)) as [[k v]|] eqn:Hm.
  - apply min_by_elem, elem_of_map_to_list in Hm. cbn [fst]. rewrite map_size_delete_Some by eauto. lia.
  - apply min_by_None in Hm. apply map_to_list_empty_iff in Hm as ->. rewrite map_size_empty in *. lia.
Qed.

Lemma size_insert_le sk kn k : Z.of_nat (size (<[kn := k]> sk)) <= Z.of_nat (size sk) + 1.
Proof using Type. rewrite map_size_insert. case_match; unfold id; lia. Qed.

Lemma store_ok_mono dh ck i i' sk sk' : sk' ⊆ sk -> (i <= i')%nat -> store_ok dh ck i sk -> store_ok dh ck i' sk'.
Proof using Type.
  intros Hs Hi Hok n k Hk. destruct (Hok n k) as (m & -> & Hm & ->); [eapply lookup_weaken; done|].
  exists m. split_and!; [done|lia|done].
Qed.

Lemma store_ok_insert dh ck i sk : store_ok dh ck i sk ->
  store_ok dh ck (S i) (<[(dh, Z.of_nat i) := key_of ck i]> sk).
Proof using Type.
  intros Hok n k Hk. apply lookup_insert_Some in Hk as [[Heq <-]|[Hne Hk]].
  - injection Heq as <-. exists i. split_and!; [done|lia|done].
  - destruct (Hok n k Hk) as (m & -> & Hm & ->). exists m. split_and!; [done|lia|done].
Qed.

(** What a number's key is when the store has room: kept if it was there. *)
Definition kept (dh : PublicKey) (i n : nat) sk sk' : Prop :=
  forall kn v, sk !! kn = Some v -> (forall m, (i <= m < i + n)%nat -> kn <> (dh, Z.of_nat m)) ->
    sk' !! kn = Some v.

(** Running the chain ahead by [n] keys stores the keys passed over. *)
Lemma skip_keys_spec dh ck n i sk : Z.of_nat (i + n) < 2 ^ 32 -> store_ok dh ck i sk ->
  Z.of_nat (size sk) <= 256 ->
  exists sk', skip_keys dh n (chain_at ck i) sk = (chain_at ck (i + n), sk') /\
    store_ok dh ck (i + n) sk' /\ Z.of_nat (size sk') <= 256 /\
    (Z.of_nat (size sk + n) <= 256 -> kept dh i n sk sk' /\
      forall m, (i <= m < i + n)%nat -> sk' !! (dh, Z.of_nat m) = Some (key_of ck m)).
Proof using Type.
  revert i sk. induction n as [|n IH]; intros i sk Hb Hok Hs.
  { exists sk. rewrite Nat.add_0_r. cbn [skip_keys]. split_and!; [done|done|done|].
    intros _. split; [|lia]. intros kn v Hv _. done. }
  cbn [skip_keys]. rewrite chain_at_next, chain_at_index by lia.
  replace (wrap 32 (Z.of_nat (S i) - 1)) with (Z.of_nat i) by (rewrite wrap_small; unfold fits; lia).
  set (sk1 := <[(dh, Z.of_nat i) := key_of ck i]> sk).
  pose proof (size_insert_le sk (dh, Z.of_nat i) (key_of ck i)) as Hsz. fold sk1 in Hsz.
  destruct (IH (S i) (trim_skipped sk1)) as (sk' & Heq & Hok' & Hs' & Hroom).
  - lia.
  - eapply store_ok_mono; [apply trim_subseteq|done|]. apply store_ok_insert. done.
  - apply trim_size. lia.
  - exists sk'. replace (i + S n)%nat with (S i + n)%nat by lia. split_and!; [done|done|done|].
    intros Hfit. rewrite (trim_small sk1) in Hroom by lia. destruct Hroom as [Hkept Hnew]; [lia|].
    assert (Hi : sk' !! (dh, Z.of_nat i) = Some (key_of ck i)).
    { apply Hkept; [apply lookup_insert_eq|]. intros m Hm Heq'. injection Heq'. lia. }
    split.
    + intros kn v Hv Hne. apply Hkept; [|intros m Hm; apply Hne; lia].
      unfold sk1. rewrite lookup_insert_ne; [done|]. intros Heq'. apply (Hne i); [lia|done].
    + intros m Hm. destruct (decide (m = i)) as [->|]; [done|]. apply Hnew. lia.
Qed.

(** A session that receives on the chain [ck] and has consumed or stored all
    keys before number [i]. *)
Record receives (dh : PublicKey) (ck : RatchetKey) (i : nat) self : Prop := {
  rc_chain : receiving_chain self = Some (chain_at ck i);
  rc_store : store_ok dh ck i (skipped_keys self);
  rc_size : Z.of_nat (size (skipped_keys self)) <= 256;
  rc_bound : Z.of_nat i < 2 ^ 32
}.

(** The three cases of a key request. *)
Lemma get_message_key_cases dh ck i n self : receives dh ck i self -> Z.of_nat n < 2 ^ 32 - 1 ->
  let r := get_message_key dh (Z.of_nat n) self in
  (exists k, skipped_keys self !! (dh, Z.of_nat n) = Some k /\ k = key_of ck n /\ (n < i)%nat /\
    r = (set_skipped (delete (dh, Z.of_nat n) (skipped_keys self)) self, Ok k)) \/
  ((i <= n <= i + 256)%nat /\ exists sk',
    skip_keys dh (n - i) (chain_at ck i) (skipped_keys self) = (chain_at ck n, sk') /\
    r = (set_receiving (chain_at ck (S n)) sk' self, Ok (key_of ck n))) \/
  (skipped_keys self !! (dh, Z.of_nat n) = None /\ (n < i \/ i + 256 < n)%nat /\
    exists e, r = (self, Err e)).
Proof using Type.
  intros [Hc Hok Hs Hb] Hn r. unfold r, get_message_key.
  destruct (skipped_keys self !! (dh, Z.of_nat n)) as [k|] eqn:Hk.
  { left. destruct (Hok _ _ Hk) as (m & Hm & Hlt & ->). apply Nat2Z.inj in Hm as ->. eauto 6. }
  right. rewrite Hc, chain_at_index by done. case_goal; bool_to_prop.
  { right. split; [done|]. split; [lia|]. eauto. }
  unfold MAX_SKIP_KEYS. case_goal; bool_to_prop.
  { right. split; [done|]. split; [lia|]. eauto. }
  left. split; [lia|]. replace (Z.to_nat (Z.of_nat n - Z.of_nat i)) with (n - i)%nat by lia.
  destruct (skip_keys_spec dh ck (n - i) i (skipped_keys self)) as (sk' & Heq & _); [lia|done|done|].
  exists sk'. rewrite Heq. replace (i + (n - i))%nat with n by lia. rewrite chain_at_next. done.
Qed.

(** A request below the chain's position that is not stored fails. *)
Lemma get_message_key_gone dh ck i n self : receives dh ck i self -> Z.of_nat n < 2 ^ 32 - 1 ->
  (n < i)%nat -> skipped_keys self !! (dh, Z.of_nat n) = None ->
  is_ok (get_message_key dh (Z.of_nat n) self).2 = false.
Proof using Type.
  intros Hr Hn Hlt Hnone. destruct (get_message_key_cases dh ck i n self Hr Hn) as
    [(k & Hk & _)|[(Hle & _)|(_ & _ & e & ->)]]; [congruence|lia|done].
Qed.

(** The session after a successful request. *)
Lemma get_message_key_receives dh ck i n self k : receives dh ck i self -> Z.of_nat n < 2 ^ 32 - 1 ->
  (get_message_key dh (Z.of_nat n) self).2 = Ok k ->
  exists i', receives dh ck i' (get_message_key dh (Z.of_nat n) self).1 /\ k = key_of ck n /\
    (n < i' /\ i <= i')%nat /\ skipped_keys (get_message_key dh (Z.of_nat n) self).1 !! (dh, Z.of_nat n) = None.
Proof using Type.
  intros Hr Hn Hk. destruct (get_message_key_cases dh ck i n self Hr Hn) as
    [(k' & Hk' & -> & Hlt & Heq)|[(Hle & sk' & Hskip & Heq)|(_ & _ & e & Heq)]]; rewrite Heq in *;
    cbn [snd fst] in *; [| |done]; injection Hk as <-; destruct Hr as [Hc Hok Hs Hb].
  - exists i. split_and!; [|done|lia|lia|apply lookup_delete_eq]. split; cbn; [done| | |done].
    + eapply store_ok_mono; [apply delete_subseteq| |exact Hok]. lia.
    + rewrite map_size_delete_Some by eauto. lia.
  - exists (S n). destruct (skip_keys_spec dh ck (n - i) i (skipped_keys self))
      as (sk2 & Heq2 & Hok2 & Hs2 & _); [lia|done|done|].
    rewrite Heq2 in Hskip. replace (i + (n - i))%nat with n in * by lia. injection Hskip as ->.
    split_and!; [|done|lia|lia|].
    + split; cbn [set_receiving receiving_chain skipped_keys]; [done| |done|lia].
      eapply store_ok_mono; [done| |done]. lia.
    + cbn. destruct (sk' !! (dh, Z.of_nat n)) as [k|] eqn:Hin; [|done].
      destruct (Hok2 _ _ Hin) as (m & Hm & Hlt & _). lia.
Qed.

(** C9. Out-of-order delivery within a chain.  A request for message [n] returns
    exactly the chain's [n]-th key or fails; a key at most 256 numbers ahead is
    always returned; a key that was returned once is never returned again (so a
    replayed message does not decrypt); and the keys passed over by a
    request, as far as the store has room for them, are all still available
    afterwards. *)
Theorem ratchet_out_of_order dh ck i n self : receives dh ck i self -> Z.of_nat n < 2 ^ 32 - 1 ->
  let r := get_message_key dh (Z.of_nat n) self in
  (forall k, r.2 = Ok k -> k = key_of ck n /\ (exists i', receives dh ck i' r.1) /\
    is_ok (get_message_key dh (Z.of_nat n) r.1).2 = false) /\
  ((i <= n <= i + 256)%nat -> is_ok r.2 = true) /\
  ((i <= n)%nat -> (size (skipped_keys self) + (n - i) <= 256)%nat ->
    forall m, (i <= m < n)%nat -> (get_message_key dh (Z.of_nat m) r.1).2 = Ok (key_of ck m)).
Proof using Type.
  intros Hr Hn r. unfold r. clear r. split; [|split].
  - intros k Hk. destruct (get_message_key_receives _ _ _ _ _ _ Hr Hn Hk)
      as (i' & Hr' & -> & [Hlt _] & Hgone).
    split; [done|]. split; [eauto|]. eapply get_message_key_gone; eauto.
  - intros Hle. destruct (get_message_key_cases dh ck i n self Hr Hn) as
      [(k & _ & _ & _ & ->)|[(_ & sk' & _ & ->)|(_ & Hbad & _)]]; [done|done|lia].
  - intros Hle Hroom m Hm. destruct (get_message_key_cases dh ck i n self Hr Hn) as
      [(k & _ & _ & Hlt & _)|[(Hle' & sk' & Hskip & Heq)|(_ & Hbad & _)]]; [lia| |lia].
    rewrite Heq. destruct Hr as [Hc Hok Hs Hb].
    destruct (skip_keys_spec dh ck (n - i) i (skipped_keys self))
      as (sk2 & Heq2 & _ & _ & Hnew); [lia|done|done|].
    rewrite Heq2 in Hskip. injection Hskip as _ ->. destruct Hnew as [_ Hnew]; [lia|].
    unfold get_message_key. cbn [fst set_receiving skipped_keys].
    rewrite Hnew by lia. done.
Qed.

(** ** The bound of the store *)

(** One call on a session; random bytes and messages are arbitrary. *)
Inductive ratchet_step : RatchetSession.t -> RatchetSession.t -> Prop :=
| ratchet_encrypt nonce plaintext aad self : ratchet_step self (encrypt nonce plaintext aad self).1
| ratchet_decrypt fresh dh n nonce ct aad self : ratchet_step self (decrypt fresh dh n nonce ct aad self).1
| ratchet_force fresh self : ratchet_step self (force_ratchet fresh self).1.

Lemma skip_keys_size dh n c sk : Z.of_nat (size sk) <= 256 -> Z.of_nat (size (skip_keys dh n c sk).2) <= 256.
Proof using Type.
  revert c sk. induction n as [|n IH]; intros c sk Hs; cbn [skip_keys]; [done|].
  destruct (Chain.next_message_key c) as [k c']. apply IH, trim_size.
  pose proof (size_insert_le sk (dh, wrap 32 (Chain.index c' - 1)) k). lia.
Qed.

Lemma get_message_key_size dh n self : Z.of_nat (size (skipped_keys self)) <= 256 ->
  Z.of_nat (size (skipped_keys (get_message_key dh n self).1)) <= 256.
Proof using Type.
  intros Hs. unfold get_message_key. destruct (skipped_keys self !! (dh, n)) eqn:Hk.
  { cbn. rewrite map_size_delete_Some by eauto. lia. }
  destruct (receiving_chain self) as [c|]; [|done]. case_goal; [done|]. case_goal; [done|].
  pose proof (skip_keys_size dh (Z.to_nat (n - Chain.index c)) c (skipped_keys self) Hs) as H1.
  destruct (skip_keys _ _ _ _) as [c1 sk1]. destruct (Chain.next_message_key c1). done.
Qed.

(** However a session is used and whatever its peer sends, it never stores
    more than 256 skipped message keys. *)
Theorem ratchet_skipped_bounded self self' : rtc ratchet_step self self' ->
  Z.of_nat (size (skipped_keys self)) <= MAX_SKIP_KEYS ->
  Z.of_nat (size (skipped_keys self')) <= MAX_SKIP_KEYS.
Proof using Type.
  unfold MAX_SKIP_KEYS. induction 1 as [|s1 s2 s3 Hstep _ IH]; [done|]. intros Hs. apply IH.
  destruct Hstep as [nonce pt aad s|fresh dh n nonce ct aad s|fresh s].
  - unfold encrypt. destruct (sending_chain s) as [c|]; [|done]. case_goal; [done|].
    destruct (Chain.next_message_key c). case_goal; done.
  - unfold decrypt. case_goal; [done|]. unfold array_from_slice at 1. case_goal; [|done].
    match goal with |- context [get_message_key dh n ?x] => set (s1 := x) end.
    assert (Hs1 : Z.of_nat (size (skipped_keys s1)) <= 256).
    { unfold s1. repeat case_goal; rewrite ?handle_dh_ratchet_eq; done. }
    pose proof (get_message_key_size dh n s1 Hs1) as H2.
    destruct (get_message_key dh n s1) as [s2 r]. cbn [fst] in H2. by destruct r.
  - unfold force_ratchet. destruct (their_dh_public s); [destruct (root_key_ratchet _ _)|]; done.
Qed.

End Skipping.

(** ** What is not authentic, and the forced ratchet *)

Section Limits.
Context `{RC : RatchetCrates}.
Implicit Types (self A B : RatchetSession.t).

(** Decryption moves the session before the message is authenticated: a
    message that names any 32-byte key other than the current one makes the
    session take a DH step to that key (new secret, new root key, new chains),
    and the state it is left in does not depend on the ciphertext or the
    associated data, so a forgery that fails to decrypt has the same effect as
    an authentic message. *)
Theorem ratchet_unauthenticated_step fresh dh n nonce self :
  len dh = 32 -> their_dh_public self <> Some dh ->
  let r1 := root_key_ratchet (root_key self) (diffie_hellman (dh_secret_of self) dh) in
  let r2 := root_key_ratchet r1.1 (diffie_hellman fresh dh) in
  (forall ct aad, let self' := (RatchetSession.decrypt fresh dh n nonce ct aad self).1 in
    their_dh_public self' = Some dh /\ our_dh_secret self' = fresh /\ root_key self' = r2.1 /\
    sending_chain self' = Some (Chain.new r2.2)) /\
  (forall ct aad ct' aad', (RatchetSession.decrypt fresh dh n nonce ct aad self).1 = (RatchetSession.decrypt fresh dh n nonce ct' aad' self).1).
Proof using Type.
  intros Hl Hne r1 r2.
  assert (Hch : (if match their_dh_public self with
    | None => true | Some k => negb (bool_decide (k = dh)) end
    then handle_dh_ratchet fresh dh self else self) = handle_dh_ratchet fresh dh self).
  { destruct (their_dh_public self) as [k|]; [|done]. rewrite bool_decide_false by congruence. done. }
  assert (Hfst : forall ct aad, (decrypt fresh dh n nonce ct aad self).1 =
    (get_message_key dh n (handle_dh_ratchet fresh dh self)).1).
  { intros ct aad. unfold decrypt. rewrite (array_from_slice_ok 32 dh Hl), Hl, Hch. cbn [Z.eqb Pos.eqb negb].
    destruct (get_message_key _ _ _) as [s r]. by destruct r. }
  split; [|intros; rewrite !Hfst; done].
  intros ct aad self'. unfold self'. rewrite Hfst, handle_dh_ratchet_eq. fold r1 r2.
  unfold get_message_key. cbn [skipped_keys receiving_chain].
  repeat (case_goal; cbn [fst set_skipped set_receiving their_dh_public our_dh_secret root_key sending_chain]; try done).
Qed.

(** Two different inputs with the same derived key. *)
Definition kdf_collision : Prop :=
  exists ctx x y, x <> y /\ blake3_derive_key ctx x = blake3_derive_key ctx y.

Lemma chain_key_inj rA dA rB dB : len rA = len rB ->
  (root_key_ratchet rA dA).2 = (root_key_ratchet rB dB).2 -> rA = rB \/ kdf_collision.
Proof using Type.
  intros Hl Heq. unfold root_key_ratchet in Heq. cbn [snd] in Heq.
  set (cA := blake3_derive_key ROOT_KDF_CONTEXT (rA ++ dA)) in *.
  set (cB := blake3_derive_key ROOT_KDF_CONTEXT (rB ++ dB)) in *.
  destruct (decide (cA = cB)) as [Hc|Hc]; [|right; eexists _, cA, cB; eauto].
  destruct (decide (rA ++ dA = rB ++ dB)) as [Hin|Hin]; [|right; eexists _, (rA ++ dA), (rB ++ dB); eauto].
  left. apply app_inj_1 in Hin as [Hr _]; [done|]. unfold len in Hl. lia.
Qed.

(** [force_ratchet] loses the peer: from two sessions in agreement, the chain
    that the forced side sends on afterwards is not the chain its peer derives
    on receiving the next message, unless the key derivation has a collision
    or a root key is a fixed point of it.  (The forced step starts from a root
    key that the peer does not have.) *)
Theorem ratchet_force_desync fresh fresh' A B :
  Ahead A B \/ Ahead B A -> len (root_key A) = len (root_key B) ->
  is_Some (their_dh_public A) ->
  let A' := (force_ratchet fresh A).1 in
  sending_chain A' <> receiving_chain (handle_dh_ratchet fresh' (our_dh_public A') B) \/
  kdf_collision \/ exists r d, (root_key_ratchet r d).1 = r.
Proof using Type.
  intros Hah Hl [dh Hdh] A'.
  destruct (decide (sending_chain A' = receiving_chain (handle_dh_ratchet fresh' (our_dh_public A') B)))
    as [Hr|]; [right|by left]. revert Hr.
  rewrite handle_dh_ratchet_eq. cbn [receiving_chain]. unfold A', force_ratchet. rewrite Hdh.
  pose proof (chain_key_inj (root_key A) (diffie_hellman fresh dh) (root_key B)) as Hinj.
  destruct (root_key_ratchet (root_key A) (diffie_hellman fresh dh)) as [r ck] eqn:Hrr.
  cbn [fst snd sending_chain our_dh_public] in *. intros Hr. injection Hr as Hr.
  destruct (Hinj _ Hl Hr) as [Heq|]; [|by left]. right.
  destruct Hah as [[_ _ _ _ _ [Hroot _] _ _]|[_ _ _ _ _ [Hroot _] _ _]].
  - exists (root_key B). eexists. rewrite <-Hroot. exact Heq.
  - exists (root_key A). eexists. rewrite <-Hroot. symmetry. exact Heq.
Qed.
End Limits.

(** ** Witnesses *)

Module RatchetSamples.

(** Toy crates that satisfy the laws: multiplication for Diffie-Hellman, a sum
    for the derivation, and a cipher that prefixes the key. *)
#[export] Instance crates : RatchetCrates := {
  x25519_public a := le_bytes 32 (from_le_bytes a);
  diffie_hellman a p := le_bytes 32 ((from_le_bytes a mod 2 ^ 256) * from_le_bytes p);
  blake3_derive_key ctx d := le_bytes 32 (3 * from_le_bytes d + Z.of_nat (String.length ctx));
  blake3_hash_hex s := s;
  aead_encrypt k n ad m := Ok (k ++ n ++ ad ++ m);
  aead_decrypt k n ad c :=
    if decide (take (length (k ++ n ++ ad)) c = k ++ n ++ ad)
    then Ok (drop (length (k ++ n ++ ad)) c) else Err "tag mismatch"%string
}.

#[export] Instance crates_spec : RatchetCratesSpec crates.
Proof.
  split; cbn.
  - intros a b. rewrite !from_le_le_bytes. f_equal. apply Z.mul_comm.
  - intros a. apply len_le_bytes.
  - eauto.
  - intros k n ad m c Hc. injection Hc as <-.
    assert (Heq : k ++ n ++ ad ++ m = (k ++ n ++ ad) ++ m) by (rewrite <-!app_assoc; done).
    rewrite Heq, take_app_length, decide_True, drop_app_length by done. done.
  - intros k n ad c. case_decide; done.
Qed.

Definition secret (z : Z) : Secret := le_bytes 32 z.

Definition message (from : bool) (z : Z) : event :=
  {| from_initiator := from; ev_fresh := secret z; ev_nonce := repeat_byte 5 24;
     ev_plaintext := [104; 105]; ev_aad := [1] |}.

Definition alice : RatchetSession.t := init_as_sender (secret 11) (secret 3) (x25519_public (secret 5)).
Definition bob : RatchetSession.t := init_as_receiver (secret 13) (secret 5) (x25519_public (secret 3)).

(** A session receiving on a chain. *)
Definition receiver : RatchetSession.t :=
  mk (secret 1) (secret 1) (Some (secret 2)) (secret 3) None (Some (Chain.new (secret 9))) 1 ∅ true None.

End RatchetSamples.
Import RatchetSamples.

Lemma ratchet_conversation_witness :
  delivered [message true 17; message false 19; message false 23; message true 29] alice bob.
Proof.
  apply (ratchet_conversation (secret 11) (secret 13) (secret 3) (secret 5) (message true 17)
    [message false 19; message false 23; message true 29]); by_eval.
Defined.

Lemma receiver_receives : receives (secret 2) (secret 9) 0 receiver.
Proof. split; [reflexivity| |by_eval|by_eval]. intros n k Hk. discriminate Hk. Qed.

Lemma ratchet_out_of_order_witness :
  let r := get_message_key (secret 2) 3 receiver in
  is_ok r.2 = true /\ (get_message_key (secret 2) 1 r.1).2 = Ok (key_of (secret 9) 1).
Proof.
  destruct (ratchet_out_of_order (secret 2) (secret 9) 0 3 receiver receiver_receives) as (_ & Hok & Hm);
    [by_eval|].
  split; [apply Hok; lia|]. apply (Hm ltac:(lia) ltac:(by_eval) 1%nat). lia.
Defined.

Lemma ratchet_skipped_bounded_witness :
  Z.of_nat (size (skipped_keys (decrypt (secret 1) (secret 2) 200 [] [] [] receiver).1)) <= MAX_SKIP_KEYS.
Proof.
  apply (ratchet_skipped_bounded receiver); [|by_eval].
  apply rtc_once, ratchet_decrypt.
Defined.

Lemma ratchet_unauthenticated_step_witness :
  their_dh_public (decrypt (secret 7) (secret 66) 0 [] [] [] receiver).1 = Some (secret 66).
Proof.
  apply (ratchet_unauthenticated_step (secret 7) (secret 66) 0 [] receiver); by_eval.
Defined.

(** Alice forces a ratchet before her first message: already with these crates
    the chain she sends on is not the one Bob derives. *)
Lemma ratchet_force_desync_witness :
  let alice' := (force_ratchet (secret 31) alice).1 in
  (sending_chain alice' <> receiving_chain (handle_dh_ratchet (secret 37) (our_dh_public alice') bob) \/
   kdf_collision \/ exists r d, (root_key_ratchet r d).1 = r) /\
  (decrypt (secret 37) (our_dh_public alice') 0 (repeat_byte 5 24)
     (match (encrypt (repeat_byte 5 24) [104; 105] [1] alice').2 with
      | Ok m => RatchetEncryptResult.ciphertext m | _ => [] end) [1] bob).2 =
  Err "Decryption failed"%string.
Proof.
  intros alice'. split; [|vm_compute; reflexivity].
  apply (ratchet_force_desync (secret 31) (secret 37) alice bob);
    [left; apply initial_ahead|by_eval|by_eval].
Defined.
