(* ===== verification/Encrypt.v ===== *)
(** * Message encryption and ratchet sessions
    (core/src/crypto/encrypt.rs, core/src/crypto/session_manager.rs)

    One-shot encryption with an ephemeral key, encryption on a ratchet session,
    the choice between them, signatures of envelopes, and the manager of the
    sessions with its saved form.  Random bytes are arguments.  Parameters: the
    crates of the ratchet, the conversion between Ed25519 and X25519 keys,
    Ed25519 signatures, SHA-512, [hex] and [serde_json]. *)

From S2P Require Import Prelude Drift Backend Text MeshStore EnvelopeWire Ratchet.

Definition KDF_CONTEXT : string := "iron-core v2 message encryption 2026-02-05".

(** An Ed25519 signing key, as its 32 bytes. *)
Abbreviation SigningKey := (list Z).

Class KeyCrates : Type := {
  key_ratchet :: RatchetCrates;
  sha512 : Bytes -> Bytes;
  verifying_key : SigningKey -> Bytes;
  decompress_to_montgomery : Bytes -> option Bytes;
  ed_sign : SigningKey -> Bytes -> Bytes;
  verifying_key_from_bytes : Bytes -> outcome string unit;
  ed_verify : Bytes -> Bytes -> Bytes -> outcome string unit;
  hex_encode : Bytes -> string;
  hex_decode : string -> outcome string Bytes;
  hex_decode_to_slice : string -> Bytes -> Bytes
}.

(** Documented behaviour: the X25519 key of a verifying key belongs to the
    scalar of its signing key; a signature verifies; [hex] decodes what it
    encoded, into a buffer of the right size too, and leaves the buffer alone
    when the length does not match. *)
Class KeyCratesSpec (C : KeyCrates) : Prop := {
  key_ratchet_spec :: RatchetCratesSpec key_ratchet;
  verifying_key_32 : forall k, len (verifying_key k) = 32;
  key_conversion : forall k, decompress_to_montgomery (verifying_key k) = Some (x25519_public (take 32 (sha512 k)));
  verifying_key_valid : forall k, verifying_key_from_bytes (verifying_key k) = Ok tt;
  sign_64 : forall k m, len (ed_sign k m) = 64;
  sign_verify : forall k m, ed_verify (verifying_key k) m (ed_sign k m) = Ok tt;
  hex_roundtrip : forall b, bytes b -> hex_decode (hex_encode b) = Ok b;
  hex_slice : forall s b buf, hex_decode s = Ok b -> len b = len buf -> hex_decode_to_slice s buf = b;
  key_crates_no_panic : forall s k m g, hex_decode s <> Panic /\ verifying_key_from_bytes k <> Panic /\ ed_verify k m g <> Panic;
  hex_slice_length : forall s buf, Z.of_nat (String.length s) <> 2 * len buf -> hex_decode_to_slice s buf = buf
}.

Module SignedEnvelope.
Record t : Type := mk { envelope : LegacyEnvelope.t; signature : Bytes }.
End SignedEnvelope.

Module SerializableRatchetSession.

(** [ChainState]. *)
Record chain_state : Type := mk_chain { chain_key_hex : string; index : Z }.

Record t : Type := mk {
  our_dh_secret_hex : string;
  our_dh_public_hex : string;
  their_dh_public_hex : option string;
  root_key_hex : string;
  sending_chain : option chain_state;
  receiving_chain : option chain_state;
  dh_step_count : Z;
  initialized : bool;
  has_identity_secret : bool;
  identity_secret_hex : option string
}.

Section Code.
Context `{KeyCrates}.

Definition from_chain (c : Chain.t) : chain_state := mk_chain (hex_encode (Chain.chain_key c)) (Chain.index c).

Definition from_session (s : RatchetSession.t) : t :=
  mk (hex_encode (RatchetSession.our_dh_secret s)) (hex_encode (RatchetSession.our_dh_public s))
     (hex_encode <$> RatchetSession.their_dh_public s) (hex_encode (RatchetSession.root_key s))
     (from_chain <$> RatchetSession.sending_chain s) (from_chain <$> RatchetSession.receiving_chain s)
     (RatchetSession.dh_step_count s) (RatchetSession.initialized s)
     (bool_decide (is_Some (RatchetSession.our_identity_secret s)))
     (hex_encode <$> RatchetSession.our_identity_secret s).

(** A field of 32 bytes. *)
Definition key_field (name hex : string) : outcome string Bytes :=
  let! b := map_err (fun e => "Invalid " +:+ name +:+ "_hex: " +:+ e) (hex_decode hex) in
  if negb (len b =? 32) then Err (name +:+ " must be 32 bytes") else array_from_slice 32 b.

Definition optional_field (name : string) (hex : option string) : outcome string (option Bytes) :=
  match hex with
  | Some hex => let! b := key_field name hex in Ok (Some b)
  | None => Ok None
  end.

(** A chain key: errors of [decode_to_slice] are ignored. *)
Definition into_chain (c : chain_state) : Chain.t :=
  Chain.new_with_index (hex_decode_to_slice (chain_key_hex c) (repeat_byte 0 32)) (index c).

Definition into_session (self : t) : outcome string RatchetSession.t :=
  let! our_dh_secret := key_field "our_dh_secret" (our_dh_secret_hex self) in
  let! our_dh_public := key_field "our_dh_public" (our_dh_public_hex self) in
  let! their_dh_public := optional_field "their_dh_public" (their_dh_public_hex self) in
  let! root_key := key_field "root_key" (root_key_hex self) in
  let! our_identity_secret := optional_field "identity_secret" (identity_secret_hex self) in
  Ok (RatchetSession.reconstruct our_dh_secret our_dh_public their_dh_public root_key
        (into_chain <$> sending_chain self) (into_chain <$> receiving_chain self)
        (dh_step_count self) (initialized self) our_identity_secret).
End Code.
End SerializableRatchetSession.

Section Encryption.
Context `{KeyCrates}.

Definition ed25519_to_x25519_secret (signing_key : SigningKey) : Secret := take 32 (sha512 signing_key).

Definition validate_ed25519_public_key (public_key_hex : string) : outcome string unit :=
  let! b := map_err (fun _ => "Invalid hex encoding in public key"%string) (hex_decode public_key_hex) in
  if negb (len b =? 32)
  then Err ("Public key must be exactly 32 bytes (64 hex characters), got " +:+ show (len b) +:+
            " bytes (" +:+ show (Z.of_nat (String.length public_key_hex)) +:+ " hex characters)")
  else let! key_array := array_from_slice 32 b in
       match decompress_to_montgomery key_array with
       | Some _ => Ok tt
       | None => Err "Public key is not a valid Ed25519 point (decompression failed)"%string
       end.

Definition ed25519_public_to_x25519 (public_key_bytes : Bytes) : outcome string PublicKey :=
  match decompress_to_montgomery public_key_bytes with
  | Some k => Ok k
  | None => Err "Failed to decompress Ed25519 public key"%string
  end.

Definition derive_key (shared_secret : Bytes) : Bytes := blake3_derive_key KDF_CONTEXT shared_secret.

(** [eph]: the ephemeral secret; [nonce]: 24 random bytes. *)
Definition encrypt_message (eph nonce : Bytes) (sender_signing_key : SigningKey)
    (recipient_public_key plaintext : Bytes) : outcome string LegacyEnvelope.t :=
  let! recipient_x25519 := ed25519_public_to_x25519 recipient_public_key in
  let ephemeral_public := x25519_public eph in
  let shared_secret := diffie_hellman eph recipient_x25519 in
  let symmetric_key := derive_key shared_secret in
  let sender_public_bytes := verifying_key sender_signing_key in
  let! ciphertext := map_err (fun e => "Encryption failed: " +:+ e)
                       (aead_encrypt symmetric_key nonce sender_public_bytes plaintext) in
  Ok (LegacyEnvelope.mk sender_public_bytes ephemeral_public nonce ciphertext None None).

Definition decrypt_message (recipient_signing_key : SigningKey) (envelope : LegacyEnvelope.t)
    : outcome string Bytes :=
  if negb (len (LegacyEnvelope.ephemeral_public_key envelope) =? 32)
  then Err "Invalid ephemeral public key length"%string else
  if negb (len (LegacyEnvelope.nonce envelope) =? 24) then Err "Invalid nonce length"%string else
  let recipient_x25519_secret := ed25519_to_x25519_secret recipient_signing_key in
  let! ephemeral_public := array_from_slice 32 (LegacyEnvelope.ephemeral_public_key envelope) in
  let shared_secret := diffie_hellman recipient_x25519_secret ephemeral_public in
  let symmetric_key := derive_key shared_secret in
  let! nonce := array_from_slice 24 (LegacyEnvelope.nonce envelope) in
  if negb (len (LegacyEnvelope.sender_public_key envelope) =? 32)
  then Err "Invalid sender public key length"%string else
  map_err (fun _ => "Decryption failed: invalid ciphertext, wrong key, or tampered sender public key"%string)
    (aead_decrypt symmetric_key nonce (LegacyEnvelope.sender_public_key envelope) (LegacyEnvelope.ciphertext envelope)).

Definition decrypt_message_ratcheted (fresh : Secret) (session : RatchetSession.t) (envelope : LegacyEnvelope.t)
    : RatchetSession.t * outcome string Bytes :=
  match LegacyEnvelope.ratchet_dh_public envelope, LegacyEnvelope.ratchet_message_number envelope with
  | None, _ => (session, Err "Ratcheted envelope missing ratchet_dh_public field"%string)
  | Some _, None => (session, Err "Ratcheted envelope missing ratchet_message_number field"%string)
  | Some dh_public, Some message_number =>
      if negb (len (LegacyEnvelope.nonce envelope) =? 24)
      then (session, Err "Invalid nonce length in ratcheted envelope"%string)
      else RatchetSession.decrypt fresh dh_public message_number (LegacyEnvelope.nonce envelope)
             (LegacyEnvelope.ciphertext envelope) (LegacyEnvelope.sender_public_key envelope) session
  end.

Definition encrypt_message_ratcheted (nonce : Bytes) (sender_signing_key : SigningKey)
    (session : RatchetSession.t) (plaintext : Bytes) : RatchetSession.t * outcome string LegacyEnvelope.t :=
  let sender_public_bytes := verifying_key sender_signing_key in
  let '(session, r) := RatchetSession.encrypt nonce plaintext sender_public_bytes session in
  (session,
   let! result := r in
   Ok (LegacyEnvelope.mk sender_public_bytes (RatchetEncryptResult.our_dh_public result)
         (RatchetEncryptResult.nonce result) (RatchetEncryptResult.ciphertext result)
         (Some (RatchetEncryptResult.our_dh_public result)) (Some (RatchetEncryptResult.message_number result)))).

Definition is_ratcheted_envelope (envelope : LegacyEnvelope.t) : bool :=
  bool_decide (is_Some (LegacyEnvelope.ratchet_dh_public envelope)) &&
  bool_decide (is_Some (LegacyEnvelope.ratchet_message_number envelope)).

(** [bincode] of envelopes. *)
Context `{HCV : Bincode LegacyEnvelope.t}.

Definition sign_envelope (envelope : LegacyEnvelope.t) (sender_signing_key : SigningKey)
    : outcome string SignedEnvelope.t :=
  let! envelope_bytes := map_err (fun e => "Failed to serialize envelope: " +:+ e) (bincode_serialize envelope) in
  Ok (SignedEnvelope.mk envelope (ed_sign sender_signing_key envelope_bytes)).

Definition verify_envelope (signed : SignedEnvelope.t) : outcome string unit :=
  let sender := LegacyEnvelope.sender_public_key (SignedEnvelope.envelope signed) in
  if negb (len sender =? 32) then Err "Invalid sender public key length"%string else
  let! sender := array_from_slice 32 sender in
  let! _ := map_err (fun e => "Invalid sender public key: " +:+ e) (verifying_key_from_bytes sender) in
  if negb (len (SignedEnvelope.signature signed) =? 64) then Err "Invalid signature length"%string else
  let! signature := array_from_slice 64 (SignedEnvelope.signature signed) in
  let! envelope_bytes := map_err (fun e => "Failed to serialize envelope: " +:+ e)
                           (bincode_serialize (SignedEnvelope.envelope signed)) in
  map_err (fun e => "Signature verification failed: " +:+ e)
    (ed_verify sender envelope_bytes signature).
End Encryption.

(** ** The manager of sessions *)

Definition SESSIONS_KEY : Bytes := as_bytes "ratchet_sessions_v1".

Module RatchetSessionManager.
Import SerializableRatchetSession.

Record t (B : Type) : Type := mk { sessions : gmap string RatchetSession.t; backend : option B }.

Arguments mk {B}.
Arguments sessions {B}.
Arguments backend {B}.

Section Code.
Context {B : Type} `{HB : StorageBackend B} `{KC : KeyCrates}.
Context `{HJ : SerdeJson (gmap string SerializableRatchetSession.t)}.
Context {MI : MapIter string SerializableRatchetSession.t}.

Definition new : t B := mk ∅ None.

Definition with_backend (b : B) : t B := mk ∅ (Some b).

Definition serialize_sessions (self : t B) : outcome string Bytes :=
  map_err (fun e => "Failed to serialize ratchet sessions: " +:+ e)
    (json_to_string (from_session <$> sessions self)).

Definition save (self : t B) : outcome string (t B) :=
  match backend self with
  | None => Ok self
  | Some b =>
      let! json := serialize_sessions self in
      let! b := map_err (fun e => "Failed to save ratchet sessions: " +:+ e) (put SESSIONS_KEY json b) in
      Ok (mk (sessions self) (Some b))
  end.

(** Entries that do not convert are skipped. *)
Definition deserialize_sessions (json : Bytes) (self : t B) : outcome string (t B) :=
  let! m := map_err (fun e => "Failed to deserialize ratchet sessions: " +:+ e) (json_from_str json) in
  Ok (mk (foldl (fun ss kv =>
            if bool_decide (is_Some (ss !! kv.1)) then ss
            else match into_session kv.2 with Ok s => <[kv.1 := s]> ss | _ => ss end)
          (sessions self) (map_iter m)) (backend self)).

(** Entries that do not convert fail the whole call. *)
Fixpoint decode_entries (ss : gmap string RatchetSession.t) (l : list (string * SerializableRatchetSession.t))
    : outcome string (list (string * RatchetSession.t)) :=
  match l with
  | [] => Ok []
  | (peer_id, s) :: l =>
      if bool_decide (is_Some (ss !! peer_id)) then decode_entries ss l
      else let! session := into_session s in
           let! r := decode_entries ss l in
           Ok ((peer_id, session) :: r)
  end.

Definition deserialize_sessions_strict (json : Bytes) (self : t B) : outcome string (t B) :=
  let! m := map_err (fun e => "Failed to deserialize ratchet sessions: " +:+ e) (json_from_str json) in
  let! decoded := decode_entries (sessions self) (map_iter m) in
  Ok (mk (foldl (fun ss kv => <[kv.1 := kv.2]> ss) (sessions self) decoded) (backend self)).

Definition load (self : t B) : outcome string (t B) :=
  match backend self with
  | None => Ok self
  | Some b =>
      let! r := map_err (fun e => "Failed to load ratchet sessions: " +:+ e) (Backend.get SESSIONS_KEY b) in
      match r with
      | None => Ok self
      | Some bytes =>
          if negb (utf8_valid bytes) then Err "Invalid ratchet session encoding"%string
          else deserialize_sessions bytes self
      end
  end.

(** [identity]: the signing key; [fresh]: the secret drawn for a new session. *)
Definition get_or_create_session (fresh : Secret) (peer_id : string) (our_signing_key : SigningKey)
    (their_identity_public_x25519 : PublicKey) (self : t B) : t B * RatchetSession.t :=
  match sessions self !! peer_id with
  | Some s => (self, s)
  | None =>
      let s := RatchetSession.init_as_sender fresh (ed25519_to_x25519_secret our_signing_key)
                 their_identity_public_x25519 in
      (mk (<[peer_id := s]> (sessions self)) (backend self), s)
  end.

Definition create_receiver_session (fresh : Secret) (peer_id : string) (our_signing_key : SigningKey)
    (sender_identity_public_x25519 : PublicKey) (self : t B) : t B * RatchetSession.t :=
  let s := RatchetSession.init_as_receiver fresh (ed25519_to_x25519_secret our_signing_key)
             sender_identity_public_x25519 in
  (mk (<[peer_id := s]> (sessions self)) (backend self), s).

Definition get_session (peer_id : string) (self : t B) : option RatchetSession.t := sessions self !! peer_id.

(** Writing through [get_session_mut]. *)
Definition put_session (peer_id : string) (s : RatchetSession.t) (self : t B) : t B :=
  mk (<[peer_id := s]> (sessions self)) (backend self).

Definition remove_session (peer_id : string) (self : t B) : t B :=
  mk (delete peer_id (sessions self)) (backend self).

Definition session_count (self : t B) : Z := Z.of_nat (size (sessions self)).

Definition has_session (peer_id : string) (self : t B) : bool := bool_decide (is_Some (sessions self !! peer_id)).

(** *** Choosing the way to encrypt *)

Definition encrypt_with_ratchet_fallback (eph nonce : Bytes) (sender_signing_key : SigningKey)
    (recipient_public_key plaintext : Bytes) (session_manager : option (t B)) (peer_id : string)
    : option (t B) * outcome string LegacyEnvelope.t :=
  let one_shot := encrypt_message eph nonce sender_signing_key recipient_public_key plaintext in
  match session_manager with
  | None => (None, one_shot)
  | Some manager =>
      match get_session peer_id manager with
      | Some session =>
          if RatchetSession.initialized session then
            let '(session, r) := encrypt_message_ratcheted nonce sender_signing_key session plaintext in
            (Some (put_session peer_id session manager), r)
          else (Some manager, one_shot)
      | None => (Some manager, one_shot)
      end
  end.

Definition decrypt_with_ratchet_fallback (fresh : Secret) (recipient_signing_key : SigningKey)
    (envelope : LegacyEnvelope.t) (session_manager : option (t B)) : option (t B) * outcome string Bytes :=
  if is_ratcheted_envelope envelope then
    let none := "Ratcheted envelope received but no active ratchet session for sender"%string in
    match session_manager with
    | None => (None, Err none)
    | Some manager =>
        let peer_id := hex_encode (LegacyEnvelope.sender_public_key envelope) in
        match get_session peer_id manager with
        | Some session =>
            let '(session, r) := decrypt_message_ratcheted fresh session envelope in
            (Some (put_session peer_id session manager), r)
        | None => (Some manager, Err none)
        end
    end
  else (session_manager, decrypt_message recipient_signing_key envelope).
End Code.
End RatchetSessionManager.
