(* ===== verification/EncryptProps.v ===== *)
(** * Correctness of message encryption and of saved sessions *)

From S2P Require Import Prelude Drift Backend Text MeshStore EnvelopeWire Ratchet RatchetSkip Encrypt.

Section OneShot.
Context {KC : KeyCrates} {KCS : KeyCratesSpec KC}.
Context `{HCV : Bincode LegacyEnvelope.t} {HCVS : BincodeSpec LegacyEnvelope.t}.

Lemma encrypt_message_ok eph nonce sender recipient plaintext :
  exists ct, encrypt_message eph nonce sender (verifying_key recipient) plaintext =
      Ok (LegacyEnvelope.mk (verifying_key sender) (x25519_public eph) nonce ct None None) /\
    aead_encrypt (derive_key (diffie_hellman eph (x25519_public (ed25519_to_x25519_secret recipient)))) nonce
      (verifying_key sender) plaintext = Ok ct.
Proof.
  unfold encrypt_message, ed25519_public_to_x25519. rewrite key_conversion. cbn.
  fold (ed25519_to_x25519_secret recipient). set (k := derive_key _).
  destruct (aead_total k nonce (verifying_key sender) plaintext) as [ct Hct]. rewrite Hct. cbn. eauto.
Qed.

(** A message encrypted for the public key of a recipient opens with the
    recipient's signing key to the same plaintext, carries the sender's key, is
    taken for a one-shot message, and its signature by the sender verifies. *)
Theorem one_shot_roundtrip eph nonce sender recipient plaintext : len nonce = 24 ->
  exists envelope signed,
    encrypt_message eph nonce sender (verifying_key recipient) plaintext = Ok envelope /\
    decrypt_message recipient envelope = Ok plaintext /\
    LegacyEnvelope.sender_public_key envelope = verifying_key sender /\
    is_ratcheted_envelope envelope = false /\
    sign_envelope envelope sender = Ok signed /\ verify_envelope signed = Ok tt.
Proof.
  intros Hn. destruct (encrypt_message_ok eph nonce sender recipient plaintext) as (ct & -> & Hct).
  set (env := LegacyEnvelope.mk _ _ _ _ _ _). destruct (bincode_serialize_total env) as [d Hd].
  exists env, (SignedEnvelope.mk env (ed_sign sender d)). split_and!; try done.
  - unfold decrypt_message. cbn. rewrite !array_from_slice_ok, x25519_public_32, Hn, verifying_key_32 by (apply x25519_public_32 || done). cbn.
    rewrite dh_agree. by rewrite (aead_open _ _ _ _ _ Hct).
  - unfold sign_envelope. by rewrite Hd.
  - unfold verify_envelope. cbn. rewrite !array_from_slice_ok, verifying_key_32, verifying_key_valid, sign_64, Hd by (apply verifying_key_32 || apply sign_64). cbn.
    by rewrite sign_verify.
Qed.

(** Only the sender's own key verifies: an envelope whose signature verifies
    was signed over its serialization for the key it names. *)
Lemma verify_envelope_inv signed : verify_envelope signed = Ok tt ->
  exists d, bincode_serialize (SignedEnvelope.envelope signed) = Ok d /\
    len (SignedEnvelope.signature signed) = 64 /\
    ed_verify (LegacyEnvelope.sender_public_key (SignedEnvelope.envelope signed)) d
      (SignedEnvelope.signature signed) = Ok tt.
Proof.
  unfold verify_envelope. intros H. case_hyp H; [done|]. bool_to_prop. rewrite (array_from_slice_ok 32) in H by lia.
  destruct (verifying_key_from_bytes _) as [[]| |]; [|done..]. cbn in H. case_hyp H; [done|]. bool_to_prop. rewrite (array_from_slice_ok 64) in H by lia.
  destruct (bincode_serialize _) as [d| |]; [|done..]. cbn in H. exists d. split_and!; [done|lia|].
  by destruct (ed_verify _ _ _) as [[]| |].
Qed.
End OneShot.

(** ** Saved sessions *)

Section Saved.
Context {KC : KeyCrates} {KCS : KeyCratesSpec KC}.
Import RatchetSession SerializableRatchetSession.

Definition chain_ok (c : Chain.t) : Prop := byte_array 32 (Chain.chain_key c).

(** Every key of a session is 32 bytes. *)
Definition session_ok (s : RatchetSession.t) : Prop :=
  byte_array 32 (our_dh_secret s) /\ byte_array 32 (our_dh_public s) /\ byte_array 32 (root_key s) /\
  (forall k, their_dh_public s = Some k -> byte_array 32 k) /\
  (forall k, our_identity_secret s = Some k -> byte_array 32 k) /\
  (forall c, RatchetSession.sending_chain s = Some c -> chain_ok c) /\
  (forall c, RatchetSession.receiving_chain s = Some c -> chain_ok c).

Lemma key_field_ok name k : byte_array 32 k -> key_field name (hex_encode k) = Ok k.
Proof. intros [Hl Hb]. unfold key_field. rewrite hex_roundtrip by done. cbn. rewrite array_from_slice_ok by done. by rewrite Hl. Qed.

Lemma optional_field_ok name o : (forall k, o = Some k -> byte_array 32 k) ->
  optional_field name (hex_encode <$> o) = Ok o.
Proof. intros Ho. destruct o as [k|]; [|done]. cbn. by rewrite key_field_ok by auto. Qed.

Lemma into_chain_ok c : chain_ok c -> into_chain (from_chain c) = c.
Proof.
  intros [Hl Hb]. unfold into_chain, from_chain, Chain.new_with_index. cbn.
  rewrite (hex_slice _ (Chain.chain_key c)); [by destruct c|by apply hex_roundtrip|by rewrite Hl].
Qed.

Lemma into_chains_ok o : (forall c, o = Some c -> chain_ok c) -> into_chain <$> (from_chain <$> o) = o.
Proof. intros Ho. destruct o as [c|]; [|done]. cbn. by rewrite into_chain_ok by auto. Qed.

(** A saved session comes back without the keys of skipped messages. *)
Lemma into_from_session s : session_ok s -> into_session (from_session s) = Ok (set_skipped ∅ s).
Proof.
  intros (H1 & H2 & H3 & H4 & H5 & H6 & H7). unfold into_session, from_session. cbn.
  rewrite !key_field_ok, !optional_field_ok, !into_chains_ok by done. by destruct s.
Qed.

(** A chain key that is not valid hexadecimal of the right length is read as
    the key of 32 zero bytes. *)
Lemma bad_chain_key_is_zero c : Z.of_nat (String.length (chain_key_hex c)) <> 64 ->
  into_chain c = Chain.new_with_index (repeat_byte 0 32) (SerializableRatchetSession.index c).
Proof. intros Hl. unfold into_chain. by rewrite hex_slice_length. Qed.
End Saved.

Section Manager.
Context {B : Type} `{HB : StorageBackend B} {HBS : StorageBackendSpec B} {HBR : Reliable B}.
Context {KC : KeyCrates} {KCS : KeyCratesSpec KC}.
Context `{HJ : SerdeJson (gmap string SerializableRatchetSession.t)}.
Context {HJS : SerdeJsonSpec (gmap string SerializableRatchetSession.t)}.
Context {MI : MapIter string SerializableRatchetSession.t}.
(** JSON text is UTF-8. *)
Context (Hutf8 : forall (m : gmap string SerializableRatchetSession.t) d, json_to_string m = Ok d -> utf8_valid d = true).
Import RatchetSessionManager.

Lemma merge_entries (l : list (string * SerializableRatchetSession.t)) (ss : gmap string RatchetSession.t) k :
  NoDup l.*1 ->
  foldl (fun ss kv =>
    if bool_decide (is_Some (ss !! kv.1)) then ss
    else match SerializableRatchetSession.into_session kv.2 with Ok s => <[kv.1 := s]> ss | _ => ss end) ss l !! k =
  match ss !! k with
  | Some s => Some s
  | None => v ← (list_to_map l : gmap string _) !! k; ok (SerializableRatchetSession.into_session v)
  end.
Proof.
  revert ss. induction l as [|[k' v] l IH]; intros ss Hnd; cbn [foldl fst snd].
  { cbn. by destruct (ss !! k). }
  cbn in Hnd. apply NoDup_cons in Hnd as [Hk' Hnd]. rewrite IH by done. cbn [list_to_map foldr].
  destruct (decide (k = k')) as [->|Hne].
  - cbn. rewrite lookup_insert_eq. case_bool_decide as Hs.
    + destruct Hs as [s Hs]. by rewrite Hs.
    + apply eq_None_not_Some in Hs. cbn.
      assert (Hl : (list_to_map l : gmap string _) !! k' = None) by (by apply not_elem_of_list_to_map_1).
      destruct (SerializableRatchetSession.into_session v) as [s| |]; cbn; [by rewrite lookup_insert_eq, Hs|by rewrite Hs, Hl..].
  - cbn. rewrite (lookup_insert_ne _ k') by done.
    assert (Hss : forall ss', (if bool_decide (is_Some (ss !! k')) then ss
        else match SerializableRatchetSession.into_session v with Ok s => <[k' := s]> ss | _ => ss end) = ss' ->
        ss' !! k = ss !! k).
    { intros ss' <-. case_bool_decide; [done|]. destruct (SerializableRatchetSession.into_session v); [|done..].
      by rewrite lookup_insert_ne. }
    by rewrite (Hss _ eq_refl).
Qed.

#[local] Opaque SESSIONS_KEY.

(** C39. Sessions that were saved come back after a restart with the same keys,
    chains and counters, but without the keys of skipped messages: a message
    that arrives late over the restart can no longer be decrypted, although
    before it could. *)
Theorem sessions_save_load self b :
  backend self = Some b -> map_Forall (fun _ s => session_ok s) (sessions self) ->
  exists self' b' loaded, save self = Ok self' /\ backend self' = Some b' /\
    load (with_backend b') = Ok loaded /\
    sessions loaded = RatchetSession.set_skipped ∅ <$> sessions self /\
    (forall peer s c dh n k, sessions self !! peer = Some s ->
       RatchetSession.receiving_chain s = Some c -> n < Chain.index c ->
       RatchetSession.skipped_keys s !! (dh, n) = Some k ->
       (RatchetSession.get_message_key dh n s).2 = Ok k /\
       exists s', sessions loaded !! peer = Some s' /\
         (RatchetSession.get_message_key dh n s').2 = Err "Message number is behind current chain position"%string).
Proof.
  intros Hb Hok. unfold save, serialize_sessions. rewrite Hb.
  destruct (json_total (SerializableRatchetSession.from_session <$> sessions self)) as [d Hd]. rewrite Hd. cbn.
  destruct (put_total SESSIONS_KEY d b) as [b' Hput]. rewrite Hput. cbn.
  destruct (get_total SESSIONS_KEY b') as [r Hget]. pose proof (get_ok _ _ _ Hget) as Hr.
  rewrite (put_ok _ _ _ _ Hput), lookup_insert_eq in Hr. subst r.
  exists (mk (sessions self) (Some b')), b'.
  unfold load, with_backend. cbn. rewrite Hget. cbn. rewrite (Hutf8 _ _ Hd). cbn.
  unfold deserialize_sessions. rewrite (json_roundtrip _ _ Hd). cbn.
  eexists. split; [done|]. split; [done|]. split; [done|]. cbn.
  assert (Hs : forall k : string, foldl (fun (ss : gmap string RatchetSession.t) kv =>
      if bool_decide (is_Some (ss !! kv.1)) then ss
      else match SerializableRatchetSession.into_session kv.2 with Ok s => <[kv.1 := s]> ss | _ => ss end) ∅
      (map_iter (SerializableRatchetSession.from_session <$> sessions self)) !! k =
    (RatchetSession.set_skipped ∅ <$> sessions self) !! k).
  { intros k. rewrite merge_entries by apply NoDup_map_iter_keys. rewrite lookup_empty.
    rewrite (list_to_map_proper _ _ (NoDup_map_iter_keys _) (map_iter_perm _)), list_to_map_to_list.
    rewrite !lookup_fmap. destruct (sessions self !! k) as [s|] eqn:Hsk; [|done]. cbn.
    rewrite into_from_session by (by eapply (Hok k)). done. }
  split; [by apply map_eq|]. intros peer s c dh n k Hp Hc Hn Hk. split.
  - unfold RatchetSession.get_message_key. by rewrite Hk.
  - exists (RatchetSession.set_skipped ∅ s). split; [by rewrite Hs, lookup_fmap, Hp|].
    unfold RatchetSession.get_message_key. cbn. rewrite lookup_empty, Hc. by rewrite (proj2 (Z.ltb_lt _ _) Hn).
Qed.

(** *** Received envelopes *)

Lemma get_message_key_no_panic dh n s : (RatchetSession.get_message_key dh n s).2 <> Panic.
Proof. unfold RatchetSession.get_message_key. repeat case_match; done. Qed.

Lemma ratchet_decrypt_no_panic fresh dh n nonce ct aad s : len nonce = 24 ->
  (RatchetSession.decrypt fresh dh n nonce ct aad s).2 <> Panic.
Proof.
  intros Hn. unfold RatchetSession.decrypt. case_goal; [done|]. bool_to_prop. rewrite (array_from_slice_ok 32) by lia.
  match goal with |- context [RatchetSession.get_message_key dh n ?s] => generalize s end. intros s1.
  pose proof (get_message_key_no_panic dh n s1) as Hk.
  destruct (RatchetSession.get_message_key dh n s1) as [s2 [k|e|]]; [|done..]. rewrite (array_from_slice_ok 24) by done. cbn.
  pose proof (aead_no_panic k nonce aad ct). by destruct (aead_decrypt k nonce aad ct).
Qed.

(** C38. No received envelope makes decryption panic, whatever its fields, with
    or without sessions: the length checks on the ephemeral key, the nonce and the
    ratchet key come before the conversions to arrays that would panic.  It touches
    at most the session of the sender it names, and a one-shot envelope none. *)
Theorem decrypt_safe fresh key envelope (manager : option (t B)) :
  let r := decrypt_with_ratchet_fallback fresh key envelope manager in
  r.2 <> Panic /\
  (is_ratcheted_envelope envelope = false -> r.1 = manager) /\
  (forall peer, peer <> hex_encode (LegacyEnvelope.sender_public_key envelope) ->
     (m ← r.1; get_session peer m) = (m ← manager; get_session peer m)).
Proof.
  unfold decrypt_with_ratchet_fallback. destruct (is_ratcheted_envelope envelope) eqn:Hr; cbn.
  - destruct manager as [m|]; [|done]. destruct (get_session _ m) as [s|] eqn:Hs; [|done].
    destruct (decrypt_message_ratcheted fresh s envelope) as [s' r] eqn:Hd. cbn. split_and!; [|done|].
    + unfold decrypt_message_ratcheted in Hd. repeat case_match; simplify_eq; try done. bool_to_prop.
      pose proof (ratchet_decrypt_no_panic fresh l z (LegacyEnvelope.nonce envelope) (LegacyEnvelope.ciphertext envelope)
        (LegacyEnvelope.sender_public_key envelope) s ltac:(lia)) as Hnp. by rewrite Hd in Hnp.
    + intros peer Hp. unfold get_session, put_session. cbn. by rewrite lookup_insert_ne.
  - split_and!; [|done|done]. unfold decrypt_message. do 2 (case_goal; [done|]). bool_to_prop. rewrite !array_from_slice_ok by lia. case_goal; [done|].
    pose proof (aead_no_panic (derive_key (diffie_hellman (ed25519_to_x25519_secret key) (LegacyEnvelope.ephemeral_public_key envelope)))
      (LegacyEnvelope.nonce envelope) (LegacyEnvelope.sender_public_key envelope) (LegacyEnvelope.ciphertext envelope)).
    by destruct (aead_decrypt _ _ _ _).
Qed.
End Manager.

(** ** Samples and witnesses *)

Module EncryptSamples.
Import RatchetSamples.

#[export] Instance keys : KeyCrates := {
  key_ratchet := crates;
  sha512 k := k ++ repeat_byte 0 32;
  verifying_key k := x25519_public (take 32 (k ++ repeat_byte 0 32));
  decompress_to_montgomery p := Some p;
  ed_sign k m := le_bytes 64 (from_le_bytes m);
  verifying_key_from_bytes _ := Ok tt;
  ed_verify pk m g := if decide (g = le_bytes 64 (from_le_bytes m)) then Ok tt else Err "bad signature"%string;
  hex_encode b := of_bytes (to_hex b);
  hex_decode s := match from_hex (as_bytes s) with Some b => Ok b | None => Err "invalid character"%string end;
  hex_decode_to_slice s buf :=
    match from_hex (as_bytes s) with Some b => if decide (len b = len buf) then b else buf | None => buf end
}.

Lemma as_bytes_hex b : bytes b -> as_bytes (of_bytes (to_hex b)) = to_hex b.
Proof.
  intros Hb. apply as_of_bytes. eapply Forall_impl; [by apply to_hex_ascii|]. unfold ascii, fits. intros. lia.
Qed.

#[export] Instance keys_spec : KeyCratesSpec keys.
Proof.
  split; cbv [key_ratchet sha512 verifying_key decompress_to_montgomery ed_sign verifying_key_from_bytes ed_verify
              hex_encode hex_decode hex_decode_to_slice keys].
  - exact crates_spec.
  - intros k. apply x25519_public_32.
  - done.
  - done.
  - intros k m. apply len_le_bytes.
  - intros k m. by rewrite decide_True.
  - intros b Hb. by rewrite as_bytes_hex, from_to_hex.
  - intros s b buf Hs Hl. destruct (from_hex (as_bytes s)) as [b'|]; [|done]. inv Hs. by rewrite decide_True.
  - intros s k m g. split_and!; [by destruct (from_hex _)|done|by case_decide].
  - intros s buf Hl. destruct (from_hex (as_bytes s)) as [b|] eqn:Hs; [|done]. case_decide as Hb; [|done].
    apply from_hex_length in Hs. rewrite length_as_bytes in Hs. unfold len in *. lia.
Qed.

#[export] Existing Instances sample_bincode sample_bincode_spec.

#[export] Instance envelope_layout : Layout LegacyEnvelope.t.
Proof.
  apply (layout_iso (fun e => (LegacyEnvelope.sender_public_key e, LegacyEnvelope.ephemeral_public_key e,
      LegacyEnvelope.nonce e, LegacyEnvelope.ciphertext e, LegacyEnvelope.ratchet_dh_public e,
      LegacyEnvelope.ratchet_message_number e)) (fun '(a, b, c, d, e, f) => LegacyEnvelope.mk a b c d e f)).
  by intros [].
Defined.

#[export] Instance envelope_eq_dec : EqDecision LegacyEnvelope.t.
Proof. solve_decision. Defined.

#[export] Instance envelope_countable : Countable LegacyEnvelope.t := layout_countable.

Definition alice : SigningKey := le_bytes 32 11.
Definition bob : SigningKey := le_bytes 32 13.

Lemma one_shot_roundtrip_witness :
  exists envelope signed,
    encrypt_message (le_bytes 32 5) (repeat_byte 9 24) alice (verifying_key bob) [104; 105] = Ok envelope /\
    decrypt_message bob envelope = Ok [104; 105] /\
    LegacyEnvelope.sender_public_key envelope = verifying_key alice /\
    is_ratcheted_envelope envelope = false /\
    sign_envelope envelope alice = Ok signed /\ verify_envelope signed = Ok tt.
Proof. apply (one_shot_roundtrip (le_bytes 32 5) (repeat_byte 9 24) alice bob [104; 105]). by_eval. Defined.

(** Saved sessions as hexadecimal text. *)
#[export] Instance bool_layout : Layout bool.
Proof. apply (layout_iso (fun b : bool => if b then 1 else 0) (fun z => z =? 1)). by intros []. Defined.

#[export] Instance chain_layout : Layout SerializableRatchetSession.chain_state.
Proof.
  apply (layout_iso (fun c => (SerializableRatchetSession.chain_key_hex c, SerializableRatchetSession.index c))
    (fun '(a, b) => SerializableRatchetSession.mk_chain a b)). by intros [].
Defined.

#[export] Instance saved_layout : Layout SerializableRatchetSession.t.
Proof.
  apply (layout_iso (fun s => (SerializableRatchetSession.our_dh_secret_hex s,
      SerializableRatchetSession.our_dh_public_hex s, SerializableRatchetSession.their_dh_public_hex s,
      SerializableRatchetSession.root_key_hex s, SerializableRatchetSession.sending_chain s,
      SerializableRatchetSession.receiving_chain s, SerializableRatchetSession.dh_step_count s,
      SerializableRatchetSession.initialized s, SerializableRatchetSession.has_identity_secret s,
      SerializableRatchetSession.identity_secret_hex s))
    (fun '(a, b, c, d, e, f, g, h, i, j) => SerializableRatchetSession.mk a b c d e f g h i j)).
  by intros [].
Defined.

#[export] Instance chain_eq_dec : EqDecision SerializableRatchetSession.chain_state.
Proof. solve_decision. Defined.

#[export] Instance saved_eq_dec : EqDecision SerializableRatchetSession.t.
Proof. solve_decision. Defined.

#[export] Instance saved_countable : Countable SerializableRatchetSession.t := layout_countable.

#[export] Instance json : SerdeJson (gmap string SerializableRatchetSession.t) :=
  {| json_to_string m := map_err id (let! d := bincode_serialize m in Ok (to_hex d));
     json_from_str d := match from_hex d with Some b => bincode_deserialize b | None => Err "bad json"%string end |}.

Lemma sample_bytes (m : gmap string SerializableRatchetSession.t) d : bincode_serialize m = Ok d -> bytes d.
Proof. cbn. intros H. inv H. apply bytes_le_bytes. Qed.

#[export] Instance json_spec : SerdeJsonSpec (gmap string SerializableRatchetSession.t).
Proof.
  split.
  - intros m d Hd. unfold json_to_string, json, json_from_str in *.
    destruct (bincode_serialize m) as [b| |] eqn:Hb; [|done..]. cbn [map_err] in Hd. inv Hd.
    rewrite from_to_hex by (by eapply sample_bytes). by apply bincode_roundtrip.
  - intros m. unfold json_to_string, json. destruct (bincode_serialize_total m) as [b ->]. by eexists.
  - intros d. unfold json_from_str, json. destruct (from_hex d); [apply bincode_no_panic|done].
Qed.

Lemma json_utf8 (m : gmap string SerializableRatchetSession.t) d : json_to_string m = Ok d -> utf8_valid d = true.
Proof.
  unfold json_to_string, json. destruct (bincode_serialize m) as [b| |] eqn:Hb; [|done..]. cbn [map_err].
  intros Hd. inv Hd. apply ascii_utf8, to_hex_ascii. by eapply sample_bytes.
Qed.

#[export] Instance iter : MapIter string SerializableRatchetSession.t := map_iter_default.
#[local] Instance bytes_iter : MapIter Bytes Bytes := map_iter_default.
#[export] Existing Instances MemoryStorage.storage_backend MemoryStorage.storage_backend_spec.

(** A session that has skipped message 0 of the other side. *)
Definition waiting : RatchetSession.t :=
  let s := RatchetSession.init_as_sender (le_bytes 32 5) (le_bytes 32 11) (x25519_public (le_bytes 32 13)) in
  RatchetSession.set_receiving (Chain.mk (le_bytes 32 1) 1) {[ (le_bytes 32 7, 0) := le_bytes 32 2 ]} s.

Definition manager : RatchetSessionManager.t MemoryStorage.t :=
  RatchetSessionManager.put_session "bob" waiting (RatchetSessionManager.with_backend MemoryStorage.new).

Lemma waiting_ok : session_ok waiting.
Proof.
  assert (Hb : forall z, byte_array 32 (le_bytes 32 z)) by (intros z; split; [apply len_le_bytes|apply bytes_le_bytes]).
  assert (Hsome : forall z k, Some (le_bytes 32 z) = Some k -> byte_array 32 k) by (intros z k [= <-]; apply Hb).
  assert (Hchain : forall z i c, Some (Chain.mk (le_bytes 32 z) i) = Some c -> chain_ok c) by (intros z i c [= <-]; apply Hb).
  split; [apply Hb|]. split; [apply Hb|]. split; [apply Hb|]. split; [intros k; apply Hsome|].
  split; [intros k Hk; discriminate Hk|]. split; intros c; apply Hchain.
Qed.

Lemma sessions_save_load_witness :
  exists self' b' loaded, RatchetSessionManager.save manager = Ok self' /\
    RatchetSessionManager.backend self' = Some b' /\
    RatchetSessionManager.load (RatchetSessionManager.with_backend b') = Ok loaded /\
    (RatchetSession.get_message_key (le_bytes 32 7) 0 waiting).2 = Ok (le_bytes 32 2) /\
    exists s', RatchetSessionManager.sessions loaded !! "bob"%string = Some s' /\
      (RatchetSession.get_message_key (le_bytes 32 7) 0 s').2 =
        Err "Message number is behind current chain position"%string.
Proof.
  destruct (sessions_save_load (HBR := memory_storage_reliable) json_utf8 manager MemoryStorage.new)
    as (self' & b' & loaded & H1 & H2 & H3 & _ & H4); [reflexivity| |].
  { intros k s Hk. change (<["bob"%string := waiting]> (∅ : gmap string RatchetSession.t) !! k = Some s) in Hk.
    apply lookup_insert_Some in Hk as [[_ <-]|[_ Hk]]; [exact waiting_ok|discriminate Hk]. }
  exists self', b', loaded. split; [exact H1|]. split; [exact H2|]. split; [exact H3|].
  apply (H4 "bob"%string waiting (Chain.mk (le_bytes 32 1) 1)); [exact (lookup_insert_eq (∅ : gmap string RatchetSession.t) "bob"%string waiting)|reflexivity|by_eval|].
  apply lookup_singleton_eq.
Defined.

(** Short fields, in a one-shot envelope and for a session with the sender. *)
Definition short_envelope : LegacyEnvelope.t := LegacyEnvelope.mk (verifying_key alice) [1] [2] [] None None.
Definition short_ratcheted : LegacyEnvelope.t := LegacyEnvelope.mk (verifying_key alice) [1] [2] [] (Some [3]) (Some 0).
Definition with_alice : RatchetSessionManager.t MemoryStorage.t :=
  RatchetSessionManager.put_session (hex_encode (verifying_key alice)) waiting (RatchetSessionManager.with_backend MemoryStorage.new).

Lemma decrypt_safe_witness :
  (RatchetSessionManager.decrypt_with_ratchet_fallback (le_bytes 32 3) bob short_envelope (Some with_alice)).2 <> Panic /\
  (RatchetSessionManager.decrypt_with_ratchet_fallback (le_bytes 32 3) bob short_ratcheted (Some with_alice)).2 <> Panic /\
  (RatchetSessionManager.decrypt_with_ratchet_fallback (le_bytes 32 3) bob short_ratcheted (Some with_alice)).2 =
    Err "Invalid nonce length in ratcheted envelope"%string.
Proof.
  split; [apply (decrypt_safe (le_bytes 32 3) bob short_envelope (Some with_alice))|].
  split; [apply (decrypt_safe (le_bytes 32 3) bob short_ratcheted (Some with_alice))|vm_compute; reflexivity].
Defined.
End EncryptSamples.
