(* ===== verification/CircuitBreaker.v ===== *)
(** * Circuit breakers for relays (core/src/transport/circuit_breaker.rs)

    The manager with one breaker per relay address, the invariant of its
    entries and the life cycle of a breaker.  The reference is the automaton
    [Breaker.t] of one relay; the manager simulates one automaton per address.  Times are nanoseconds; the clock
    is an argument.  A call runs under the manager's lock as one step; in the
    source, [allow_request] releases the lock between its test and the
    transition to half-open. *)

From S2P Require Import Prelude.

Inductive CircuitState : Type := Closed | Open | HalfOpen.

#[export] Instance CircuitState_eq_dec : EqDecision CircuitState.
Proof. solve_decision. Defined.

Module CircuitBreakerConfig.
Record t : Type := mk {
  failure_threshold : Z;
  open_timeout : Z;
  half_open_timeout : Z;
  success_threshold : Z;
  max_half_open_probes : Z
}.

Definition default : t := mk 3 (300 * 10 ^ 9) (30 * 10 ^ 9) 2 3.
End CircuitBreakerConfig.

Module CircuitBreakerEntry.
Record t : Type := mk {
  state : CircuitState;
  failure_count : Z;
  success_count : Z;
  half_open_probes : Z;
  opened_at : option Z;
  half_open_started_at : option Z;
  last_failure_reason : option string;
  last_success_at : option Z
}.

#[export] Instance t_eq_dec : EqDecision t.
Proof. solve_decision. Defined.

Definition new : t := mk Closed 0 0 0 None None None None.
End CircuitBreakerEntry.

Module CircuitBreakerStats.
Record t : Type := mk { total : Z; closed_count : Z; open_count : Z; half_open_count : Z }.
Definition default : t := mk 0 0 0 0.
End CircuitBreakerStats.

Module CircuitBreakerManager.
Import CircuitBreakerConfig CircuitBreakerEntry.

Record t : Type := mk_manager {
  config : CircuitBreakerConfig.t;
  entries : gmap string CircuitBreakerEntry.t
}.

Definition set_entries (self : t) (m : gmap string CircuitBreakerEntry.t) : t :=
  mk_manager (config self) m.

Definition new (config : CircuitBreakerConfig.t) : t := mk_manager config ∅.

Definition with_defaults : t := new CircuitBreakerConfig.default.

Definition transition_to_half_open (now : Z) (relay_address : string) (self : t) : t :=
  match entries self !! relay_address with
  | Some e =>
      set_entries self (<[relay_address :=
        CircuitBreakerEntry.mk HalfOpen (failure_count e) 0 (wrap 32 (half_open_probes e + 1))
          (opened_at e) (Some now) (last_failure_reason e) (last_success_at e)]> (entries self))
  | None => self
  end.

Definition allow_request (now : Z) (relay_address : string) (self : t) : bool * t :=
  match entries self !! relay_address with
  | Some e =>
      match state e with
      | Closed => (true, self)
      | Open =>
          match opened_at e with
          | Some opened_at =>
              if saturating_sub now opened_at >=? open_timeout (config self)
              then (true, transition_to_half_open now relay_address self)
              else (false, self)
          | None => (false, self)
          end
      | HalfOpen => (half_open_probes e <? max_half_open_probes (config self), self)
      end
  | None => (true, self)
  end.

Definition record_success (now : Z) (relay_address : string) (self : t) : t :=
  let e := from_option id CircuitBreakerEntry.new (entries self !! relay_address) in
  let e :=
    match state e with
    | Closed =>
        CircuitBreakerEntry.mk Closed 0 (success_count e) (half_open_probes e) (opened_at e)
          (half_open_started_at e) None (Some now)
    | HalfOpen =>
        let success_count := wrap 32 (success_count e + 1) in
        if success_count >=? success_threshold (config self)
        then CircuitBreakerEntry.mk Closed 0 0 0 None None None (Some now)
        else CircuitBreakerEntry.mk HalfOpen (failure_count e) success_count (half_open_probes e)
               (opened_at e) (half_open_started_at e) None (Some now)
    | Open =>
        CircuitBreakerEntry.mk Open (failure_count e) (success_count e) (half_open_probes e)
          (opened_at e) (half_open_started_at e) None (Some now)
    end in
  set_entries self (<[relay_address := e]> (entries self)).

Definition record_failure (now : Z) (relay_address reason : string) (self : t) : t :=
  let e := from_option id CircuitBreakerEntry.new (entries self !! relay_address) in
  let failure_count := wrap 32 (failure_count e + 1) in
  let e :=
    match state e with
    | Closed =>
        if failure_count >=? failure_threshold (config self)
        then CircuitBreakerEntry.mk Open failure_count 0 (half_open_probes e) (Some now)
               (half_open_started_at e) (Some reason) (last_success_at e)
        else CircuitBreakerEntry.mk Closed failure_count (success_count e) (half_open_probes e)
               (opened_at e) (half_open_started_at e) (Some reason) (last_success_at e)
    | HalfOpen =>
        CircuitBreakerEntry.mk Open failure_count 0 0 (Some now) None (Some reason) (last_success_at e)
    | Open =>
        CircuitBreakerEntry.mk Open failure_count (success_count e) (half_open_probes e) (Some now)
          (half_open_started_at e) (Some reason) (last_success_at e)
    end in
  set_entries self (<[relay_address := e]> (entries self)).

Definition get_state (relay_address : string) (self : t) : CircuitState :=
  match entries self !! relay_address with Some e => state e | None => Closed end.

Definition get_failure_count (relay_address : string) (self : t) : Z :=
  match entries self !! relay_address with Some e => failure_count e | None => 0 end.

Definition get_last_failure_reason (relay_address : string) (self : t) : option string :=
  match entries self !! relay_address with Some e => last_failure_reason e | None => None end.

Definition reset (relay_address : string) (self : t) : t :=
  set_entries self (delete relay_address (entries self)).

Definition reset_all (self : t) : t := set_entries self ∅.

Section Iteration.
Context {MI : MapIter string CircuitBreakerEntry.t}.

Definition get_open_circuits (self : t) : list string :=
  (filter (fun kv => state kv.2 = Open) (map_iter (entries self))).*1.

Definition get_healthy_relays (self : t) : list string :=
  (filter (fun kv => state kv.2 = Closed) (map_iter (entries self))).*1.

Definition get_stats (self : t) : CircuitBreakerStats.t :=
  let stats := foldl (fun (s : CircuitBreakerStats.t) (kv : string * CircuitBreakerEntry.t) =>
    let '(CircuitBreakerStats.mk tot c o h) := s in
    match state kv.2 with
    | Closed => CircuitBreakerStats.mk tot (c + 1) o h
    | Open => CircuitBreakerStats.mk tot c (o + 1) h
    | HalfOpen => CircuitBreakerStats.mk tot c o (h + 1)
    end) CircuitBreakerStats.default (map_iter (entries self)) in
  let '(CircuitBreakerStats.mk _ c o h) := stats in
  CircuitBreakerStats.mk (Z.of_nat (size (entries self))) c o h.
End Iteration.

End CircuitBreakerManager.

(** ** The reference automaton of one relay *)

Module Breaker.
Import CircuitBreakerConfig.

(** Closed with the failures in a row, open since a time, or half-open with
    the successes counted so far. *)
Inductive t : Type :=
| BClosed (failures : Z)
| BOpen (since : Z)
| BHalfOpen (successes : Z).

Inductive event : Type :=
| Ask (now : Z)
| Success (now : Z)
| Failure (now : Z) (reason : string)
| Reset.

Definition step (c : CircuitBreakerConfig.t) (b : t) (e : event) : t :=
  match e, b with
  | Ask now, BOpen since => if open_timeout c <=? saturating_sub now since then BHalfOpen 0 else b
  | Ask _, _ => b
  | Success _, BClosed _ => BClosed 0
  | Success _, BOpen _ => b
  | Success _, BHalfOpen k => if success_threshold c <=? k + 1 then BClosed 0 else BHalfOpen (k + 1)
  | Failure now _, BClosed n => if failure_threshold c <=? n + 1 then BOpen now else BClosed (n + 1)
  | Failure now _, _ => BOpen now
  | Reset, _ => BClosed 0
  end.

(** The answer to [Ask]: the half-open state has used one probe, always. *)
Definition allows (c : CircuitBreakerConfig.t) (now : Z) (b : t) : bool :=
  match b with
  | BClosed _ => true
  | BOpen since => open_timeout c <=? saturating_sub now since
  | BHalfOpen _ => 1 <? max_half_open_probes c
  end.

Definition state_of (b : t) : CircuitState :=
  match b with BClosed _ => Closed | BOpen _ => Open | BHalfOpen _ => HalfOpen end.
End Breaker.

(** ** Histories of calls *)

Module Circuit.
Import CircuitBreakerConfig CircuitBreakerEntry Breaker.

Inductive call : Type :=
| On (relay_address : string) (e : event)
| ResetAll.

Definition apply (m : CircuitBreakerManager.t) (k : call) : CircuitBreakerManager.t :=
  match k with
  | On a (Ask now) => (CircuitBreakerManager.allow_request now a m).2
  | On a (Success now) => CircuitBreakerManager.record_success now a m
  | On a (Failure now r) => CircuitBreakerManager.record_failure now a r m
  | On a Reset => CircuitBreakerManager.reset a m
  | ResetAll => CircuitBreakerManager.reset_all m
  end.

Definition run (m : CircuitBreakerManager.t) (ks : list call) : CircuitBreakerManager.t :=
  foldl apply m ks.

(** The events of a history that concern the relay [a]. *)
Definition events_of (a : string) (ks : list call) : list event :=
  omap (fun k => match k with
                 | On b e => if decide (a = b) then Some e else None
                 | ResetAll => Some Reset
                 end) ks.

Definition config_ok (c : CircuitBreakerConfig.t) : Prop :=
  0 < failure_threshold c < 2 ^ 32 /\ 0 < success_threshold c < 2 ^ 32 /\
  0 <= max_half_open_probes c < 2 ^ 32 /\ 0 <= open_timeout c.

(** What an entry has to look like to be in a state of the automaton. *)
Definition simulates (c : CircuitBreakerConfig.t) (o : option CircuitBreakerEntry.t) (b : Breaker.t) : Prop :=
  let e := from_option id CircuitBreakerEntry.new o in
  match b with
  | BClosed n =>
      state e = Closed /\ failure_count e = n /\ 0 <= n < failure_threshold c /\
      success_count e = 0 /\ half_open_probes e = 0
  | BOpen t =>
      state e = Open /\ opened_at e = Some t /\ success_count e = 0 /\ half_open_probes e = 0
  | BHalfOpen k =>
      state e = HalfOpen /\ success_count e = k /\ 0 <= k < success_threshold c /\
      half_open_probes e = 1
  end.

Definition Sim (c : CircuitBreakerConfig.t) (m : CircuitBreakerManager.t) (a : string) (b : Breaker.t) : Prop :=
  CircuitBreakerManager.config m = c /\ simulates c (CircuitBreakerManager.entries m !! a) b.

Section Simulation.
Context (c : CircuitBreakerConfig.t) (Hc : config_ok c).

Lemma sim_fresh a : Sim c (CircuitBreakerManager.new c) a (BClosed 0).
Proof. destruct Hc as (? & _). split; [done|]. simpl. split_and!; (done || lia). Qed.

Lemma wrap32_succ z m : 0 <= z < m -> m < 2 ^ 32 -> wrap 32 (z + 1) = z + 1.
Proof. intros ? ?. apply wrap_small. unfold fits. lia. Qed.

(** A call on another relay leaves the entry alone. *)
Lemma sim_other m a b x e : a <> x -> Sim c m a b -> Sim c (apply m (On x e)) a b.
Proof.
  intros Hne [Hcfg Hs]. split.
  - destruct e; simpl; unfold CircuitBreakerManager.allow_request,
      CircuitBreakerManager.transition_to_half_open; repeat case_match; done.
  - destruct e; simpl; unfold CircuitBreakerManager.allow_request,
      CircuitBreakerManager.transition_to_half_open; repeat case_match; simpl;
      rewrite ?lookup_insert_ne, ?lookup_delete_ne by done; done.
Qed.

Lemma sim_ask m a b now : Sim c m a b ->
  Sim c (CircuitBreakerManager.allow_request now a m).2 a (step c b (Ask now)) /\
  (CircuitBreakerManager.allow_request now a m).1 = allows c now b.
Proof.
  intros [Hcfg Hs]. destruct Hc as (_ & Hst & _ & _).
  unfold CircuitBreakerManager.allow_request, CircuitBreakerManager.transition_to_half_open, Sim.
  destruct (CircuitBreakerManager.entries m !! a) as [e|] eqn:He.
  2:{ destruct b; [|by destruct Hs..]. simpl. rewrite He. done. }
  destruct b as [n|t|k]; simpl in Hs |- *.
  - destruct Hs as (Hcl & Hs). rewrite Hcl. simpl. rewrite He. simpl. destruct_and!.
    split_and!; (done || lia).
  - destruct Hs as (Hop & Hat & Hsc & Hp). rewrite Hop, Hat, Hcfg, Z.geb_leb.
    case_match; simpl; [|by rewrite He].
    rewrite lookup_insert_eq. simpl. rewrite Hp. split_and!; (done || lia).
  - destruct Hs as (Hho & Hk & Hlt & Hp). rewrite Hho. simpl. rewrite He, Hcfg. simpl. rewrite Hp.
    split_and!; (done || lia).
Qed.

Lemma sim_success m a b now : Sim c m a b ->
  Sim c (CircuitBreakerManager.record_success now a m) a (step c b (Success now)).
Proof.
  intros [Hcfg Hs]. destruct Hc as (Hft & Hst & _ & _). split; [done|].
  unfold CircuitBreakerManager.record_success. simpl. rewrite lookup_insert_eq, Hcfg.
  clear Hcfg. unfold simulates in Hs. cbv zeta in Hs. destruct (from_option id _ _) as [st fc sc hp oa hs lf ls].
  destruct b as [n|t|k]; simpl in Hs; destruct_and!; subst; simpl.
  - split_and!; (done || lia).
  - done.
  - rewrite Z.geb_leb, (wrap32_succ _ (success_threshold c)) by lia.
    case_match; bool_to_prop; simpl; split_and!; (done || lia).
Qed.

Lemma sim_failure m a b now r : Sim c m a b ->
  Sim c (CircuitBreakerManager.record_failure now a r m) a (step c b (Failure now r)).
Proof.
  intros [Hcfg Hs]. destruct Hc as (Hft & Hst & _ & _). split; [done|].
  unfold CircuitBreakerManager.record_failure. simpl. rewrite lookup_insert_eq, Hcfg.
  clear Hcfg. unfold simulates in Hs. cbv zeta in Hs. destruct (from_option id _ _) as [st fc sc hp oa hs lf ls].
  destruct b as [n|t|k]; simpl in Hs; destruct_and!; subst; simpl; [|done..].
  rewrite Z.geb_leb, (wrap32_succ _ (failure_threshold c)) by lia.
  case_match; bool_to_prop; simpl; split_and!; (done || lia).
Qed.

Lemma sim_reset m a : CircuitBreakerManager.config m = c ->
  Sim c (CircuitBreakerManager.reset a m) a (BClosed 0).
Proof.
  intros Hcfg. destruct Hc as (Hft & _). split; [done|]. simpl. rewrite lookup_delete_eq.
  split_and!; (done || lia).
Qed.

Lemma sim_apply m a b e : Sim c m a b -> Sim c (apply m (On a e)) a (step c b e).
Proof.
  intros H. destruct e; simpl.
  - apply sim_ask. done.
  - apply sim_success. done.
  - apply sim_failure. done.
  - destruct H. destruct b; apply sim_reset; done.
Qed.

(** The manager after a history, seen from one relay. *)
Lemma sim_run ks m a b : Sim c m a b ->
  Sim c (run m ks) a (foldl (step c) b (events_of a ks)).
Proof.
  revert m b. induction ks as [|k ks IH]; intros m b H; [done|].
  simpl. destruct k as [x e|]; simpl.
  - case_decide as Hx; simpl; apply IH; [subst; by apply sim_apply|by apply sim_other].
  - apply IH. destruct H as [Hcfg _]. destruct Hc as (Hft & _). split; [done|]. destruct b; simpl;
    split_and!; (done || lia).
Qed.

Lemma sim_get_state m a b : Sim c m a b -> CircuitBreakerManager.get_state a m = state_of b.
Proof.
  intros [_ Hs]. unfold CircuitBreakerManager.get_state. unfold simulates in Hs.
  destruct (_ !! a); destruct b; simpl in *; by destruct_and!.
Qed.

(** [failure_threshold] failures in a row open a closed breaker. *)
Lemma spec_failures n fs now r : 0 <= n < failure_threshold c ->
  Forall (fun e => exists t r, e = Failure t r) fs ->
  n + len fs + 1 = failure_threshold c ->
  foldl (step c) (BClosed n) (fs ++ [Failure now r]) = BOpen now.
Proof.
  revert n. induction fs as [|f fs IH]; intros n Hn Hf Hlen; cbn [app foldl].
  - autorewrite with rust_simp in Hlen. simpl. rewrite (proj2 (Z.leb_le _ _)) by lia. done.
  - inv Hf. destruct H1 as (t & r' & ->). rewrite len_cons in Hlen. pose proof (len_nonneg fs).
    cbn [step]. rewrite (proj2 (Z.leb_gt _ _)) by lia. apply IH; [lia|done|lia].
Qed.

(** [success_threshold] successes in a row close a half-open breaker. *)
Lemma spec_successes k ss now : 0 <= k < success_threshold c ->
  Forall (fun e => exists t, e = Success t) ss ->
  k + len ss + 1 = success_threshold c ->
  foldl (step c) (BHalfOpen k) (ss ++ [Success now]) = BClosed 0.
Proof.
  revert k. induction ss as [|f ss IH]; intros k Hk Hf Hlen; cbn [app foldl].
  - autorewrite with rust_simp in Hlen. simpl. rewrite (proj2 (Z.leb_le _ _)) by lia. done.
  - inv Hf. destruct H1 as (t & ->). rewrite len_cons in Hlen. pose proof (len_nonneg ss).
    cbn [step]. rewrite (proj2 (Z.leb_gt _ _)) by lia. apply IH; [lia|done|lia].
Qed.
End Simulation.
End Circuit.

Import Circuit Breaker CircuitBreakerConfig.

(** C20. After any sequence of calls of [CircuitBreakerManager], the breaker of
    each relay is where the automaton of that relay is after the calls that
    concern it: other relays have no influence, [get_state] reports the
    automaton's state and [allow_request] gives its answer.  In the half-open
    state the probe counter is 1 whatever the number of probes, so the limit
    [max_half_open_probes] bounds nothing once it is at least 2. *)
Theorem circuit_refinement (c : CircuitBreakerConfig.t) (Hc : config_ok c) (ks : list call)
    (a : string) (now : Z) :
  let m := run (CircuitBreakerManager.new c) ks in
  let b := foldl (step c) (BClosed 0) (events_of a ks) in
  Sim c m a b /\
  CircuitBreakerManager.get_state a m = state_of b /\
  (CircuitBreakerManager.allow_request now a m).1 = allows c now b /\
  CircuitBreakerManager.get_state a (CircuitBreakerManager.allow_request now a m).2 =
    state_of (step c b (Ask now)).
Proof.
  intros m b. assert (H : Sim c m a b) by (by apply sim_run, sim_fresh).
  pose proof (sim_ask c Hc m a b now H) as [Hask Hans].
  split_and!; [done|by eapply sim_get_state|done|by eapply sim_get_state].
Qed.

(** The life of a breaker, on any relay whose breaker is closed with no
    failure counted and whatever is done with other relays meanwhile:
    [failure_threshold] failures in a row open it; it then rejects requests
    until [open_timeout] has passed since the last failure; the first request
    after that is let through and makes it half-open; [success_threshold]
    successes in a row close it again, while a single failure reopens it. *)
Theorem circuit_lifecycle (c : CircuitBreakerConfig.t) (Hc : config_ok c)
    (ks fails probe : list call) (a : string) (fs ss : list event) (t1 t2 t3 : Z) (r1 r3 : string) :
  foldl (step c) (BClosed 0) (events_of a ks) = BClosed 0 ->
  events_of a fails = fs ++ [Failure t1 r1] ->
  Forall (fun e => exists t r, e = Failure t r) fs -> len fs + 1 = failure_threshold c ->
  events_of a probe = ss ++ [Success t2] ->
  Forall (fun e => exists t, e = Success t) ss -> len ss + 1 = success_threshold c ->
  let opened := run (CircuitBreakerManager.new c) (ks ++ fails) in
  CircuitBreakerManager.get_state a opened = Open /\
  (forall now, now - t1 < open_timeout c -> 0 < open_timeout c ->
     CircuitBreakerManager.allow_request now a opened = (false, opened)) /\
  (forall now, open_timeout c <= now - t1 ->
     let (answer, probing) := CircuitBreakerManager.allow_request now a opened in
     answer = true /\ CircuitBreakerManager.get_state a probing = HalfOpen /\
     CircuitBreakerManager.get_state a (run probing probe) = Closed /\
     CircuitBreakerManager.get_state a (CircuitBreakerManager.record_failure t3 a r3 probing) = Open).
Proof.
  intros Hks Hfe Hfs Hfl Hpe Hss Hsl opened. destruct (Hc) as (Hft & Hst & _).
  assert (Ho : Sim c opened a (BOpen t1)).
  { pose proof (sim_run c Hc (ks ++ fails) _ a _ (sim_fresh c Hc a)) as H.
    unfold events_of in H. rewrite omap_app, foldl_app in H. fold (events_of a ks) (events_of a fails) in H.
    rewrite Hks, Hfe, spec_failures in H; [done|lia|done|lia]. }
  split; [by rewrite (sim_get_state c _ _ _ Ho)|]. split.
  - intros now Hlt Hpos. destruct Ho as [Hcfg Hs]. unfold CircuitBreakerManager.allow_request.
    destruct (_ !! a); [|by destruct Hs]. simpl in Hs. destruct Hs as (-> & -> & _).
    rewrite Hcfg, Z.geb_leb, (proj2 (Z.leb_gt _ _)); [done|]. unfold saturating_sub. lia.
  - intros now Hge. pose proof (sim_ask c Hc opened a _ now Ho) as [Hp Ha].
    simpl in Hp, Ha. rewrite (proj2 (Z.leb_le _ _)) in Hp, Ha by (unfold saturating_sub; lia).
    destruct (CircuitBreakerManager.allow_request now a opened) as [answer probing]. simpl in Hp, Ha.
    split_and!; [done|by rewrite (sim_get_state c _ _ _ Hp)| |].
    + pose proof (sim_run c Hc probe _ a _ Hp) as H. rewrite Hpe, spec_successes in H; [|lia|done|lia].
      by rewrite (sim_get_state c _ _ _ H).
    + pose proof (sim_failure c Hc _ a _ t3 r3 Hp) as H. by rewrite (sim_get_state c _ _ _ H).
Qed.

Lemma circuit_config_default_ok : config_ok CircuitBreakerConfig.default.
Proof. repeat split; vm_compute; congruence. Qed.

Definition demo_calls : list call :=
  [On "r" (Failure 0 "timeout"); On "q" (Failure 1 "timeout"); On "r" (Failure 2 "timeout");
   On "r" (Failure 3 "refused"); On "r" (Ask (300 * 10 ^ 9 + 3)); On "r" (Success (300 * 10 ^ 9 + 4))].

Lemma circuit_refinement_witness :
  let m := run CircuitBreakerManager.with_defaults demo_calls in
  CircuitBreakerManager.get_state "r" m = HalfOpen /\ CircuitBreakerManager.get_state "q" m = Closed.
Proof.
  split.
  - apply (circuit_refinement CircuitBreakerConfig.default circuit_config_default_ok demo_calls "r" 0).
  - apply (circuit_refinement CircuitBreakerConfig.default circuit_config_default_ok demo_calls "q" 0).
Defined.

Lemma circuit_lifecycle_witness :
  CircuitBreakerManager.get_state "r"
    (run CircuitBreakerManager.with_defaults (take 4 demo_calls)) = Open.
Proof.
  refine (proj1 (circuit_lifecycle CircuitBreakerConfig.default circuit_config_default_ok [] (take 4 demo_calls)
    [On "r" (Success 5); On "q" Reset; On "r" (Success 6)] "r"
    [Failure 0 "timeout"; Failure 2 "timeout"] [Success 5] 3 6 7 "refused" "late" _ _ _ _ _ _ _));
    try reflexivity; repeat constructor; eauto.
Defined.
