(* ===== verification/Padding.v ===== *)
(** * Message padding (core/src/privacy/padding.rs)

    Padding to a target size with the marker byte 0x80, its removal, and the
    padding schemes.  The draw of the random scheme is an argument. *)

From S2P Require Import Prelude.

Definition STANDARD_SIZES : list Z := [256; 512; 1024; 2048; 4096].

Inductive PaddingScheme : Type :=
| NoPadding
| Fixed (size : Z)
| PowerOfTwo
| Random (min max : Z).

Inductive PaddingError : Type :=
| InvalidConfig (msg : string)
| MessageTooLarge (size : Z)
| InvalidPaddingFormat.

(** [iter().rposition(..)]: the last index whose element satisfies the test. *)
Fixpoint rposition {A} (p : A -> bool) (l : list A) : option Z :=
  match l with
  | [] => None
  | b :: l =>
      match rposition p l with
      | Some i => Some (i + 1)
      | None => if p b then Some 0 else None
      end
  end.

(** The number of zeros that the [while] loop pushes is what is missing to
    [target_size] when it starts. *)
Definition pad_message (message : list Z) (target_size : Z) : outcome PaddingError (list Z) :=
  if len message >? target_size then Err (MessageTooLarge target_size) else
  let padded := message ++ [128] in
  Ok (padded ++ repeat_byte 0 (target_size - len padded)).

Definition unpad_message (padded_message : list Z) : outcome PaddingError (list Z) :=
  match rposition (Z.eqb 128) padded_message with
  | None => Err InvalidPaddingFormat
  | Some marker_pos =>
      let! rest := slice padded_message (marker_pos + 1) (len padded_message) in
      if forallb (Z.eqb 0) rest
      then slice padded_message 0 marker_pos
      else Err InvalidPaddingFormat
  end.

Definition pad_to_next_standard_size (message : list Z) : outcome PaddingError (list Z) :=
  match List.find (fun size => size >=? len message) STANDARD_SIZES with
  | Some target_size => pad_message message target_size
  | None => Err (InvalidConfig "Message exceeds max standard size of 4096")
  end.

(** [u64::next_power_of_two], for a length that is far below 2^63. *)
Definition next_power_of_two (n : Z) : Z := 2 ^ Z.log2_up n.

(** [gen_range min max] is what [rng.gen_range(min..=max)] draws. *)
Definition apply_padding_scheme (gen_range : Z -> Z -> Z) (message : list Z) (scheme : PaddingScheme)
    : outcome PaddingError (list Z) :=
  match scheme with
  | NoPadding => Ok message
  | Fixed size => pad_message message size
  | PowerOfTwo => pad_message message (next_power_of_two (len message))
  | Random min max =>
      if (min >? max) || (min =? 0) then Err (InvalidConfig "Invalid random range") else
      let target_size := gen_range min max in
      if target_size <? len message then Err (MessageTooLarge target_size) else
      pad_message message target_size
  end.

(** ** Removal of padding, characterized *)

Lemma rposition_None {A} (p : A -> bool) l :
  rposition p l = None <-> forallb (fun x => negb (p x)) l = true.
Proof.
  induction l as [|y l IH]; simpl; [done|]. rewrite andb_true_iff, <-IH.
  destruct (rposition p l); [split; [done|by intros []]|]. destruct (p y); split; try done. by intros [].
Qed.

(** The last marker splits the vector. *)
Lemma rposition_Some {A} (p : A -> bool) l i : rposition p l = Some i <->
  exists l1 b l2, l = l1 ++ b :: l2 /\ len l1 = i /\ p b = true /\ forallb (fun x => negb (p x)) l2 = true.
Proof.
  revert i. induction l as [|x l IH]; intros i; simpl.
  - split; [done|]. intros (l1 & b & l2 & H & _). by destruct l1.
  - pose proof (rposition_None p l) as HN. split.
    + intros H. destruct (rposition p l) as [j|] eqn:Hj.
      * inv H. destruct (proj1 (IH j) eq_refl) as (l1 & b & l2 & -> & <- & Hb & Hl).
        exists (x :: l1), b, l2. rewrite len_cons. split_and!; (done || lia).
      * destruct (p x) eqn:Hx; inv H. exists [], x, l. split_and!; try done. by apply HN.
    + intros (l1 & b & l2 & H & Hi & Hb & Hl). destruct l1 as [|y l1]; inv H.
      * apply HN in Hl. by rewrite Hl, Hb.
      * rewrite (proj2 (IH (len l1))) by (repeat eexists; eauto). by rewrite len_cons, Z.add_comm.
Qed.

Lemma forallb_zeros l : forallb (Z.eqb 0) l = true <-> l = repeat_byte 0 (len l).
Proof.
  unfold repeat_byte, len. rewrite Nat2Z.id. induction l as [|x l IH]; [done|].
  cbn [forallb length replicate]. rewrite andb_true_iff, IH, Z.eqb_eq. split; [intros [<- Hl]; by rewrite <-Hl|intros H; inv H; split; congruence].
Qed.

Lemma unpad_message_Ok q m : unpad_message q = Ok m <-> exists k, 0 <= k /\ q = m ++ 128 :: repeat_byte 0 k.
Proof.
  unfold unpad_message. split.
  - destruct (rposition _ q) as [i|] eqn:Hr; [|done].
    apply rposition_Some in Hr as (l1 & b & l2 & -> & <- & Hb & Hl). bool_to_prop. subst b.
    rewrite slice_app_l by done. change (128 :: l2) with ([128] ++ l2). rewrite app_assoc.
    replace (len l1 + 1) with (len (l1 ++ [128])) by (by rewrite len_app).
    rewrite slice_app_r, Z.sub_diag, slice_all by (rewrite ?len_app; pose proof (len_nonneg l2); lia).
    case_match eqn:Hz; [|done]. intros H; inv H. apply forallb_zeros in Hz.
    exists (len l2). split; [apply len_nonneg|]. rewrite <-app_assoc. by rewrite <-Hz.
  - intros (k & Hk & ->).
    assert (rposition (Z.eqb 128) (m ++ 128 :: repeat_byte 0 k) = Some (len m)) as ->.
    { apply rposition_Some. exists m, 128, (repeat_byte 0 k). split_and!; try done.
      unfold repeat_byte. induction (Z.to_nat k); done. }
    rewrite slice_app_l by done. change (128 :: repeat_byte 0 k) with ([128] ++ repeat_byte 0 k).
    rewrite app_assoc. replace (len m + 1) with (len (m ++ [128])) by (by rewrite len_app).
    pose proof (len_nonneg (repeat_byte 0 k)).
    rewrite slice_app_r, Z.sub_diag, slice_all by (rewrite ?len_app; lia).
    rewrite (proj2 (forallb_zeros _)); [done|]. unfold repeat_byte. rewrite len_replicate.
    by rewrite Z.max_r by lia.
Qed.

Lemma pad_message_spec m n : len m <= n ->
  exists p, pad_message m n = Ok p /\ len p = Z.max n (len m + 1) /\ unpad_message p = Ok m.
Proof.
  intros H. unfold pad_message. rewrite Z.gtb_ltb, (proj2 (Z.ltb_ge _ _)) by lia.
  eexists. split; [done|]. rewrite len_app, len_app. unfold repeat_byte at 1. rewrite len_replicate.
  change (len [128]) with 1. split; [lia|]. apply unpad_message_Ok.
  exists (Z.max 0 (n - (len m + 1))). split; [lia|]. rewrite <-app_assoc. simpl. unfold repeat_byte.
  do 2 f_equal. f_equal. lia.
Qed.

Lemma pad_message_Ok m n p : pad_message m n = Ok p ->
  len m <= n /\ len p = Z.max n (len m + 1) /\ unpad_message p = Ok m.
Proof.
  intros H. destruct (Z.le_gt_cases (len m) n) as [Hle|Hgt].
  - destruct (pad_message_spec m n Hle) as (p' & Hp & Hl & Hu). rewrite Hp in H. by inv H.
  - unfold pad_message in H. rewrite Z.gtb_ltb, (proj2 (Z.ltb_lt _ _)) in H by lia. done.
Qed.

Lemma next_power_of_two_ge n : 0 <= n -> n <= next_power_of_two n.
Proof.
  intros Hn. unfold next_power_of_two. destruct (Z.le_gt_cases n 1) as [H1|H1].
  - rewrite Z.log2_up_eqn0 by lia. simpl. lia.
  - apply Z.log2_up_spec. done.
Qed.

(** Padding can always be removed: whatever scheme other than "no padding"
    padded a message, [unpad_message] gives back exactly that message, also
    when the message itself contains marker bytes; the padded message is never
    longer than the target, except that it is one byte longer when the message
    fills the target completely.  Powers of two never fail, and the standard
    sizes fail only above 4096 bytes. *)
Theorem padding_roundtrip (gen_range : Z -> Z -> Z) (message : list Z) :
  (forall scheme p, scheme <> NoPadding ->
     apply_padding_scheme gen_range message scheme = Ok p ->
     unpad_message p = Ok message /\
     exists target, len message <= target /\ len p = Z.max target (len message + 1) /\
       match scheme with
       | NoPadding => False
       | Fixed size => target = size
       | PowerOfTwo => target = next_power_of_two (len message)
       | Random min max => 0 <> min /\ min <= max /\ target = gen_range min max
       end) /\
  is_ok (apply_padding_scheme gen_range message PowerOfTwo) = true /\
  (forall p, pad_to_next_standard_size message = Ok p ->
     unpad_message p = Ok message /\ len p <= 4097) /\
  is_ok (pad_to_next_standard_size message) = (len message <=? 4096).
Proof.
  split_and!.
  - intros scheme p Hs H. destruct scheme as [|size| |mn mx]; [done| | |]; simpl in H.
    3: destruct ((mn >? mx) || (mn =? 0)) eqn:Hb; [done|]; case_match; [done|].
    all: apply pad_message_Ok in H as (Hle & Hl & Hu); split; [done|]; eexists; split_and!; eauto.
    all: bool_to_prop; lia.
  - simpl. destruct (pad_message_spec message (next_power_of_two (len message))) as (p & -> & _); [|done].
    apply next_power_of_two_ge, len_nonneg.
  - intros p. unfold pad_to_next_standard_size. case_match eqn:Hf; [|done].
    apply find_some in Hf as [Hin Hge]. intros H. apply pad_message_Ok in H as (Hle & Hl & Hu).
    split; [done|]. simpl in Hin. lia.
  - unfold pad_to_next_standard_size. case_match eqn:Hf.
    + apply find_some in Hf as [Hin Hge]. bool_to_prop.
      destruct (pad_message_spec message z) as (p & -> & _); [lia|]. symmetry. apply Z.leb_le.
      simpl in Hin. lia.
    + symmetry. apply Z.leb_gt. apply (find_none _ _) with (x := 4096) in Hf; [|simpl; tauto].
      bool_to_prop. lia.
Qed.

Lemma padding_roundtrip_witness :
  exists p, apply_padding_scheme (fun lo _ => lo) [104; 128; 0] (Fixed 8) = Ok p /\
    unpad_message p = Ok [104; 128; 0] /\ len p = 8.
Proof.
  exists [104; 128; 0; 128; 0; 0; 0; 0]. split; [reflexivity|]. split; [|reflexivity].
  apply (proj1 (padding_roundtrip (fun lo _ => lo) [104; 128; 0]) (Fixed 8)); [discriminate|reflexivity].
Defined.
