(* ===== verification/Outbox.v ===== *)
(** * The outbox (core/src/store/outbox.rs)

    The queue of messages for peers that may be offline, with both of its
    representations: queues per recipient in memory, and records in a storage
    backend under keys "outbox_<recipient>_<message>".  The reference is a map
    from message ids to messages; Outbox.v holds the code and the reference,
    OutboxProps.v the refinement.

    The clock is an argument (seconds).  An outbox without a storage manager is
    modelled: maintenance of the history is a separate component.  Strings are
    the sequences of their UTF-8 bytes. *)

From S2P Require Import Prelude Backend.

Definition MAX_QUEUE_PER_PEER : Z := 1000.
Definition MAX_TOTAL_QUEUED : Z := 10000.
Definition MAX_DELIVERY_ATTEMPTS : Z := 12.

Module QueuedMessage.

Record t : Type := mk {
  message_id : string;
  recipient_id : string;
  envelope_data : Bytes;
  queued_at : Z;
  attempts : Z
}.

#[export] Instance t_eq_dec : EqDecision t.
Proof. solve_decision. Defined.

#[export] Instance t_countable : Countable t.
Proof.
  apply (inj_countable' (fun m => (message_id m, recipient_id m, envelope_data m, queued_at m, attempts m))
           (fun '(i, r, d, q, a) => mk i r d q a)).
  by intros [].
Defined.

(** [msg.attempts = msg.attempts.saturating_add(1)]. *)
Definition bump (m : t) : t :=
  mk (message_id m) (recipient_id m) (envelope_data m) (queued_at m) (saturating_add 32 (attempts m) 1).

(** [now.saturating_sub(msg.queued_at) < max_age_secs]. *)
Definition young (now max_age_secs : Z) (m : t) : bool :=
  saturating_sub now (queued_at m) <? max_age_secs.

End QueuedMessage.

Definition QUEUE_PREFIX : Bytes := as_bytes "outbox_".

Definition peer_prefix (recipient_id : string) : Bytes :=
  as_bytes ("outbox_" +:+ recipient_id +:+ "_").

Definition queue_key (m : QueuedMessage.t) : Bytes :=
  as_bytes ("outbox_" +:+ QueuedMessage.recipient_id m +:+ "_" +:+ QueuedMessage.message_id m).

Definition outbox_full_msg : string := "Outbox full (10000 messages)".

Definition queue_full_msg (recipient_id : string) : string :=
  "Queue full for peer " +:+ recipient_id +:+ " (1000 messages)".

Module Outbox.
Import QueuedMessage.

Section Code.
Context {B : Type} `{HB : StorageBackend B} `{HC : Bincode QueuedMessage.t}.
Context {MI : MapIter string (list QueuedMessage.t)}.

Inductive t : Type :=
| Memory (queues : gmap string (list QueuedMessage.t)) (total : Z)
| Persistent (db : B).

Definition new : t := Memory ∅ 0.

Definition persistent (backend : B) : t := Persistent backend.

Definition enqueue (msg : QueuedMessage.t) (self : t) : t * outcome string unit :=
  match self with
  | Memory queues total =>
      if total >=? MAX_TOTAL_QUEUED then (self, Err outbox_full_msg) else
      let queue := default [] (queues !! recipient_id msg) in
      if len queue >=? MAX_QUEUE_PER_PEER
      then (Memory (<[recipient_id msg := queue]> queues) total, Err (queue_full_msg (recipient_id msg)))
      else (Memory (<[recipient_id msg := queue ++ [msg]]> queues) (total + 1), Ok tt)
  | Persistent db =>
      let current_total := unwrap_or 0 (count_prefix QUEUE_PREFIX db) in
      if current_total >=? MAX_TOTAL_QUEUED then (self, Err outbox_full_msg) else
      let peer_count := unwrap_or 0 (count_prefix (peer_prefix (recipient_id msg)) db) in
      if peer_count >=? MAX_QUEUE_PER_PEER then (self, Err (queue_full_msg (recipient_id msg))) else
      match bincode_serialize msg with
      | Ok data =>
          match put (queue_key msg) data db with
          | Ok db =>
              match flush db with
              | Ok db => (Persistent db, Ok tt)
              | Err e => (Persistent db, Err e)
              | Panic => (Persistent db, Panic)
              end
          | Err e => (self, Err e)
          | Panic => (self, Panic)
          end
      | Err _ => (self, Ok tt)
      | Panic => (self, Panic)
      end
  end.

(** The messages of a scan that deserialize, with their keys. *)
Definition decoded (results : ScanResult) : list (Bytes * QueuedMessage.t) :=
  omap (fun kv => (fun m => (kv.1, m)) <$> ok (bincode_deserialize kv.2)) results.

Definition scan_decoded (prefix : Bytes) (db : B) : list (Bytes * QueuedMessage.t) :=
  decoded (unwrap_or [] (scan_prefix prefix db)).

Definition peek_for_peer (recipient_id : string) (self : t) : list QueuedMessage.t :=
  match self with
  | Memory queues _ => default [] (queues !! recipient_id)
  | Persistent db => (scan_decoded (peer_prefix recipient_id) db).*2
  end.

(** [queue.remove(queue.iter().position(p))]. *)
Fixpoint remove_first (p : QueuedMessage.t -> bool) (q : list QueuedMessage.t) : list QueuedMessage.t :=
  match q with
  | [] => []
  | m :: q => if p m then q else m :: remove_first p q
  end.

(** [iter_mut().find(p)] and a change of the message found. *)
Fixpoint update_first (p : QueuedMessage.t -> bool) (f : QueuedMessage.t -> QueuedMessage.t)
    (q : list QueuedMessage.t) : list QueuedMessage.t :=
  match q with
  | [] => []
  | m :: q => if p m then f m :: q else m :: update_first p f q
  end.

Definition has_id (message_id : string) (m : QueuedMessage.t) : bool :=
  bool_decide (QueuedMessage.message_id m = message_id).

(** The first queue, in the order of the map's iterator, with a message of this id. *)
Definition find_queue (message_id : string) (queues : gmap string (list QueuedMessage.t))
    : option (string * list QueuedMessage.t) :=
  List.find (fun kq => existsb (has_id message_id) kq.2) (map_iter queues).

Definition remove (message_id : string) (self : t) : t * bool :=
  match self with
  | Memory queues total =>
      match find_queue message_id queues with
      | Some (p, q) =>
          (Memory (<[p := remove_first (has_id message_id) q]> queues) (total - 1), true)
      | None => (self, false)
      end
  | Persistent db =>
      match List.find (fun km => has_id message_id km.2) (scan_decoded QUEUE_PREFIX db) with
      | Some (key, _) => (Persistent (flush_ignored (unwrap_or db (Backend.remove key db))), true)
      | None => (self, false)
      end
  end.

Definition drain_for_peer (recipient_id : string) (self : t) : t * list QueuedMessage.t :=
  match self with
  | Memory queues total =>
      match queues !! recipient_id with
      | Some queue => (Memory (delete recipient_id queues) (total - len queue), queue)
      | None => (self, [])
      end
  | Persistent db =>
      let found := scan_decoded (peer_prefix recipient_id) db in
      (Persistent (flush_ignored (remove_all found.*1 db)), found.*2)
  end.

Definition record_attempt (message_id : string) (self : t) : t * bool :=
  match self with
  | Memory queues total =>
      match find_queue message_id queues with
      | Some (p, q) =>
          (Memory (<[p := update_first (has_id message_id) bump q]> queues) total,
           match List.find (has_id message_id) q with
           | Some m => attempts (bump m) >=? MAX_DELIVERY_ATTEMPTS
           | None => false
           end)
      | None => (self, false)
      end
  | Persistent db =>
      match List.find (fun km => has_id message_id km.2) (scan_decoded QUEUE_PREFIX db) with
      | Some (key, m) =>
          let m := bump m in
          (match bincode_serialize m with
           | Ok data => Persistent (flush_ignored (unwrap_or db (put key data db)))
           | _ => self
           end, attempts m >=? MAX_DELIVERY_ATTEMPTS)
      | None => (self, false)
      end
  end.

Definition total_count (self : t) : Z :=
  match self with
  | Memory _ total => total
  | Persistent db => unwrap_or 0 (count_prefix QUEUE_PREFIX db)
  end.

Definition peer_count (self : t) : Z :=
  match self with
  | Memory queues _ => Z.of_nat (size queues)
  | Persistent db =>
      Z.of_nat (size (list_to_set (recipient_id <$> (scan_decoded QUEUE_PREFIX db).*2) : gset string))
  end.

Definition remove_expired (now max_age_secs : Z) (self : t) : t * Z :=
  match self with
  | Memory queues total =>
      let kept := filter (fun m => young now max_age_secs m = true) <$> queues in
      let removed :=
        foldr Z.add 0 (map (fun kq : string * list QueuedMessage.t =>
          len kq.2 - len (filter (fun m => young now max_age_secs m = true) kq.2)) (map_iter queues)) in
      (Memory (filter (fun kq => kq.2 <> []) kept) (total - removed), removed)
  | Persistent db =>
      let keys_to_remove :=
        (filter (fun km => young now max_age_secs km.2 = false) (scan_decoded QUEUE_PREFIX db)).*1 in
      (Persistent (flush_ignored (remove_all keys_to_remove db)), len keys_to_remove)
  end.

End Code.
Arguments t B : clear implicits.
End Outbox.

(** ** The reference: messages by id *)

Module Queue.
Import QueuedMessage.

Abbreviation t := (gmap string QueuedMessage.t).

Definition for_peer (p : string) (s : t) : t := filter (fun kv => recipient_id kv.2 = p) s.

Definition messages (s : t) : list QueuedMessage.t := (map_to_list s).*2.

Definition enqueue (msg : QueuedMessage.t) (s : t) : t * outcome string unit :=
  if Z.of_nat (size s) >=? MAX_TOTAL_QUEUED then (s, Err outbox_full_msg) else
  if Z.of_nat (size (for_peer (recipient_id msg) s)) >=? MAX_QUEUE_PER_PEER
  then (s, Err (queue_full_msg (recipient_id msg)))
  else (<[message_id msg := msg]> s, Ok tt).

Definition remove (id : string) (s : t) : t * bool := (delete id s, bool_decide (is_Some (s !! id))).

Definition drain_for_peer (p : string) (s : t) : t * list QueuedMessage.t :=
  (filter (fun kv => recipient_id kv.2 <> p) s, messages (for_peer p s)).

Definition record_attempt (id : string) (s : t) : t * bool :=
  match s !! id with
  | Some m => (<[id := bump m]> s, attempts (bump m) >=? MAX_DELIVERY_ATTEMPTS)
  | None => (s, false)
  end.

Definition remove_expired (now max_age_secs : Z) (s : t) : t * Z :=
  let kept := filter (fun kv => young now max_age_secs kv.2 = true) s in
  (kept, Z.of_nat (size s) - Z.of_nat (size kept)).

End Queue.
