(* ===== verification/OutboxProps.v ===== *)
(** * The outbox refines a map of messages

    Both representations of the outbox, in memory and in a storage backend,
    are related to the map of messages of the reference, and every operation
    keeps the relation and gives the reference's answer; lists of messages agree
    up to their order. *)

From S2P Require Import Prelude Backend Outbox.
Import QueuedMessage.

(** ** The messages of a map *)

Section Messages.
Implicit Types (s : Queue.t) (m : QueuedMessage.t).

Lemma messages_insert id m s : s !! id = None ->
  Queue.messages (<[id := m]> s) ≡ₚ m :: Queue.messages s.
Proof. intros H. unfold Queue.messages. by rewrite map_to_list_insert. Qed.

Lemma messages_delete id m s : s !! id = Some m ->
  Queue.messages s ≡ₚ m :: Queue.messages (delete id s).
Proof. intros H. unfold Queue.messages. by rewrite <-(map_to_list_delete s id m H). Qed.

Lemma messages_filter (P : QueuedMessage.t -> Prop) `{forall m, Decision (P m)}
    (Q : string * QueuedMessage.t -> Prop) `{forall kv, Decision (Q kv)} s :
  (forall kv, Q kv <-> P kv.2) -> Queue.messages (filter Q s) ≡ₚ filter P (Queue.messages s).
Proof.
  intros HQ. unfold Queue.messages. induction s as [|id m s Hid IH] using map_ind; [done|].
  rewrite (map_to_list_insert s id m) by done. cbn [fmap list_fmap snd]. rewrite filter_cons, map_filter_insert.
  specialize (HQ (id, m)). simpl in HQ. do 2 case_decide; try tauto.
  - rewrite map_to_list_insert by (apply map_lookup_filter_None; by left). simpl. by rewrite IH.
  - by rewrite delete_id.
Qed.

Lemma length_messages s : length (Queue.messages s) = size s.
Proof. unfold Queue.messages. by rewrite length_fmap, length_map_to_list. Qed.

Lemma elem_of_messages m s : m ∈ Queue.messages s <-> exists id, s !! id = Some m.
Proof.
  unfold Queue.messages. rewrite list_elem_of_fmap. split.
  - intros ([id m'] & -> & H). apply elem_of_map_to_list in H. eauto.
  - intros [id H]. exists (id, m). split; [done|]. by apply elem_of_map_to_list.
Qed.
End Messages.

(** Every message is filed under its own id. *)
Definition keyed (s : Queue.t) : Prop := forall id m, s !! id = Some m -> message_id m = id.

Lemma keyed_elem s m : keyed s -> m ∈ Queue.messages s <-> s !! message_id m = Some m.
Proof.
  intros Hk. rewrite elem_of_messages. split; [|eauto]. intros [id H]. by rewrite (Hk id m H).
Qed.

(** ** One message of a queue *)

Section OneMessage.
Context (id : string).

Lemma remove_first_perm q : existsb (Outbox.has_id id) q = true ->
  exists m, List.find (Outbox.has_id id) q = Some m /\ message_id m = id /\
    q ≡ₚ m :: Outbox.remove_first (Outbox.has_id id) q /\
    forall f, Outbox.update_first (Outbox.has_id id) f q ≡ₚ f m :: Outbox.remove_first (Outbox.has_id id) q.
Proof.
  induction q as [|x q IH]; [done|]. cbn [existsb List.find Outbox.remove_first Outbox.update_first].
  destruct (Outbox.has_id id x) eqn:Hx.
  - intros _. exists x. unfold Outbox.has_id in Hx. bool_to_prop. split_and!; (done || by intros f).
  - intros H. destruct (IH H) as (m & Hf & Hid & Hq & Hu). exists m. split_and!; [done|done| |].
    + rewrite Hq at 1. apply Permutation_swap.
    + intros f. rewrite (Hu f). apply Permutation_swap.
Qed.

Lemma existsb_none q : existsb (Outbox.has_id id) q = false <-> forall m, m ∈ q -> message_id m <> id.
Proof.
  induction q as [|x q IH]; simpl; [split; [by intros _ m ?%elem_of_nil|done]|].
  rewrite orb_false_iff, IH. unfold Outbox.has_id. rewrite bool_decide_eq_false. split.
  - intros [Hx Hq] m [->|Hm]%elem_of_cons; auto.
  - intros H. split; [apply H; left|intros m Hm; apply H; by right].
Qed.
End OneMessage.

(** ** The memory representation *)

Section Memory.
Context {B : Type} `{HB : StorageBackend B} `{HC : Bincode QueuedMessage.t}.
Context {MI : MapIter string (list QueuedMessage.t)}.
Implicit Types (qs : gmap string (list QueuedMessage.t)) (s : Queue.t).

Record mem_rel qs (total : Z) s : Prop := {
  mr_flat : flat qs ≡ₚ Queue.messages s;
  mr_total : total = Z.of_nat (size s);
  mr_home : forall p q, qs !! p = Some q -> Forall (fun m => recipient_id m = p) q;
  mr_keyed : keyed s
}.

Lemma home_default qs p : (forall p q, qs !! p = Some q -> Forall (fun m => recipient_id m = p) q) ->
  Forall (fun m => recipient_id m = p) (default [] (qs !! p)).
Proof. intros H. destruct (qs !! p) eqn:Hq; simpl; [eauto|constructor]. Qed.

Lemma home_elsewhere qs p : (forall p q, qs !! p = Some q -> Forall (fun m => recipient_id m = p) q) ->
  Forall (fun m => recipient_id m <> p) (flat (delete p qs)).
Proof.
  intros H. apply Forall_forall. intros m Hm. apply elem_of_flat in Hm as (p' & q & Hq & Hm).
  apply lookup_delete_Some in Hq as [Hne Hq]. pose proof (H _ _ Hq) as HF.
  rewrite Forall_forall in HF. rewrite (HF m Hm). congruence.
Qed.

(** The queue of a peer holds that peer's messages. *)
Lemma mem_queue qs total s p : mem_rel qs total s ->
  default [] (qs !! p) ≡ₚ Queue.messages (Queue.for_peer p s) /\
  flat (delete p qs) ≡ₚ Queue.messages (filter (fun kv => recipient_id kv.2 <> p) s).
Proof.
  intros [Hf _ Hh _]. unfold Queue.for_peer. pose proof (home_default qs p Hh) as H1.
  pose proof (home_elsewhere qs p Hh) as H2. split.
  - etrans; [|symmetry; by apply (messages_filter (fun m => recipient_id m = p))].
    rewrite <-Hf, (flat_split p qs), filter_app, filter_keep by done.
    by rewrite (filter_away _ (flat _)), app_nil_r.
  - etrans; [|symmetry; by apply (messages_filter (fun m => recipient_id m <> p))].
    rewrite <-Hf, (flat_split p qs), filter_app, (filter_keep _ (flat _)) by done.
    by rewrite (filter_away _ (default _ _)) by (eapply Forall_impl; [done|naive_solver]).
Qed.

Lemma mem_find qs total s id : mem_rel qs total s ->
  match Outbox.find_queue id qs with
  | Some (p, q) => qs !! p = Some q /\ existsb (Outbox.has_id id) q = true
  | None => s !! id = None
  end.
Proof.
  intros [Hf _ Hh Hk]. unfold Outbox.find_queue. destruct (List.find _ _) as [[p q]|] eqn:Hfind.
  - apply find_some in Hfind as [Hin Hex]. split; [|done]. apply elem_of_map_iter.
    by apply list_elem_of_In.
  - destruct (s !! id) as [m|] eqn:Hm; [|done].
    assert (Hin : m ∈ flat qs) by (rewrite Hf; apply elem_of_messages; eauto).
    apply elem_of_flat in Hin as (p & q & Hq & Hin).
    apply (find_none _ _ ) with (x := (p, q)) in Hfind; [|apply list_elem_of_In; by apply elem_of_map_iter].
    cbn [snd] in Hfind. pose proof (proj1 (existsb_none id q) Hfind m Hin). by apply Hk in Hm.
Qed.

Lemma mem_enqueue qs total s msg : mem_rel qs total s -> s !! message_id msg = None ->
  exists qs' total', Outbox.enqueue (B:=B) msg (Outbox.Memory qs total) =
      (Outbox.Memory qs' total', (Queue.enqueue msg s).2) /\
    mem_rel qs' total' (Queue.enqueue msg s).1.
Proof.
  intros Hr Hnew. destruct (mem_queue _ _ _ (recipient_id msg) Hr) as [Hq _]. destruct Hr as [Hf Ht Hh Hk].
  unfold Outbox.enqueue, Queue.enqueue. rewrite <-Ht. apply Permutation_length in Hq as Hl.
  rewrite length_messages in Hl. unfold len at 1. rewrite <-Hl.
  pose proof (home_default qs (recipient_id msg) Hh) as HF.
  destruct (total >=? MAX_TOTAL_QUEUED); [by eexists _, _|].
  fold (len (default [] (qs !! recipient_id msg))).
  assert (Hhome : forall q, Forall (fun m => recipient_id m = recipient_id msg) q ->
      forall p q', <[recipient_id msg := q]> qs !! p = Some q' -> Forall (fun m => recipient_id m = p) q').
  { intros q HFq p q' Hl'. apply lookup_insert_Some in Hl' as [[<- <-]|[_ Hl']]; eauto. }
  case_match; eexists _, _; (split; [reflexivity|]); simpl.
  - split; [|done|by apply Hhome|done]. rewrite flat_insert, <-flat_split. done.
  - split.
    + rewrite flat_insert, (messages_insert _ _ _ Hnew), <-Hf, (flat_split (recipient_id msg) qs).
      rewrite <-app_assoc. simpl. symmetry. apply Permutation_middle.
    + rewrite map_size_insert_None by done. lia.
    + apply Hhome, Forall_app. by repeat constructor.
    + intros id m Hl'. apply lookup_insert_Some in Hl' as [[<- <-]|[_ Hl']]; eauto.
Qed.

(** A message of a queue, and the messages besides it. *)
Lemma mem_found qs total s p q m r : mem_rel qs total s -> qs !! p = Some q -> q ≡ₚ m :: r ->
  s !! message_id m = Some m /\
  r ++ flat (delete p qs) ≡ₚ Queue.messages (delete (message_id m) s) /\
  recipient_id m = p /\ Forall (fun m => recipient_id m = p) r /\ (0 < size s)%nat.
Proof.
  intros [Hf _ Hh Hk] Hq Hperm. pose proof (Hh p q Hq) as HF. rewrite Hperm in HF.
  assert (Hflat : flat qs ≡ₚ m :: r ++ flat (delete p qs)) by (by rewrite (flat_delete p q qs Hq), Hperm).
  assert (Hm : s !! message_id m = Some m).
  { apply keyed_elem; [done|]. rewrite <-Hf, Hflat. by left. }
  inv HF. split_and!; [done| |done|done|].
  - apply (Permutation_cons_inv (a := m)). rewrite <-(messages_delete _ _ _ Hm), <-Hf. done.
  - destruct (size s) eqn:H0; [|lia]. apply map_size_empty_inv in H0. by subst s.
Qed.

Lemma mem_remove qs total s id : mem_rel qs total s ->
  exists qs' total', Outbox.remove (B:=B) id (Outbox.Memory qs total) =
      (Outbox.Memory qs' total', (Queue.remove id s).2) /\
    mem_rel qs' total' (Queue.remove id s).1.
Proof.
  intros Hr. pose proof (mem_find _ _ _ id Hr) as Hfind. unfold Outbox.remove, Queue.remove. simpl.
  destruct (Outbox.find_queue id qs) as [[p q]|].
  2:{ rewrite bool_decide_false, delete_id by (rewrite ?Hfind; by try intros []). by eexists _, _. }
  destruct Hfind as [Hq Hex]. destruct (remove_first_perm id q Hex) as (m & _ & <- & Hperm & _).
  destruct (mem_found _ _ _ _ _ _ _ Hr Hq Hperm) as (Hm & Hrest & _ & HF & Hpos).
  destruct Hr as [Hf Ht Hh Hk]. rewrite bool_decide_true by (by eexists).
  eexists _, _. split; [reflexivity|]. split.
  - by rewrite flat_insert.
  - rewrite Ht, map_size_delete_Some by (by eexists). lia.
  - intros p' q' Hl'. apply lookup_insert_Some in Hl' as [[<- <-]|[_ Hl']]; eauto.
  - intros id' m' Hl'. apply lookup_delete_Some in Hl' as [_ Hl']. eauto.
Qed.

Lemma mem_attempt qs total s id : mem_rel qs total s ->
  exists qs' total', Outbox.record_attempt (B:=B) id (Outbox.Memory qs total) =
      (Outbox.Memory qs' total', (Queue.record_attempt id s).2) /\
    mem_rel qs' total' (Queue.record_attempt id s).1.
Proof.
  intros Hr. pose proof (mem_find _ _ _ id Hr) as Hfind.
  unfold Outbox.record_attempt, Queue.record_attempt.
  destruct (Outbox.find_queue id qs) as [[p q]|]; [|rewrite Hfind; by eexists _, _].
  destruct Hfind as [Hq Hex]. destruct (remove_first_perm id q Hex) as (m & Hfm & <- & Hperm & Hup).
  destruct (mem_found _ _ _ _ _ _ _ Hr Hq Hperm) as (Hm & Hrest & Hto & HF & Hpos).
  destruct Hr as [Hf Ht Hh Hk]. rewrite Hfm, Hm. eexists _, _. split; [reflexivity|]. simpl. split.
  - rewrite flat_insert, (Hup bump). simpl. rewrite Hrest, <-insert_delete_eq.
    by rewrite messages_insert by apply lookup_delete_eq.
  - rewrite map_size_insert_Some by (by eexists). done.
  - intros p' q' Hl'. apply lookup_insert_Some in Hl' as [[<- <-]|[_ Hl']]; [|eauto].
    rewrite (Hup bump). by constructor.
  - intros id' m' Hl'. apply lookup_insert_Some in Hl' as [[<- <-]|[_ Hl']]; eauto.
Qed.

Lemma mem_drain qs total s p : mem_rel qs total s ->
  exists qs' total' l, Outbox.drain_for_peer (B:=B) p (Outbox.Memory qs total) = (Outbox.Memory qs' total', l) /\
    l ≡ₚ (Queue.drain_for_peer p s).2 /\ mem_rel qs' total' (Queue.drain_for_peer p s).1.
Proof.
  intros Hr. destruct (mem_queue _ _ _ p Hr) as [Hq Hrest]. destruct Hr as [Hf Ht Hh Hk].
  assert (Hsz : Z.of_nat (size (filter (fun kv => recipient_id kv.2 <> p) s)) =
                total - len (default [] (qs !! p))).
  { rewrite Ht, <-!length_messages, <-Hrest, <-Hf, (flat_split p qs), length_app. unfold len. lia. }
  assert (Hkeep : keyed (filter (fun kv => recipient_id kv.2 <> p) s)).
  { intros id m Hl'. apply map_lookup_filter_Some in Hl' as [Hl' _]. eauto. }
  unfold Outbox.drain_for_peer. simpl. destruct (qs !! p) as [q|] eqn:Hp; simpl in *; eexists _, _, _;
    (split; [reflexivity|]); (split; [done|]); split; try done.
  - intros p' q' Hl'. apply lookup_delete_Some in Hl' as [_ Hl']. eauto.
  - rewrite delete_id in Hrest by done. done.
  - rewrite Hsz. unfold len. simpl. lia.
Qed.

Lemma sum_removed (f : list QueuedMessage.t -> list QueuedMessage.t) qs :
  foldr Z.add 0 (map (fun kq : string * list QueuedMessage.t => len kq.2 - len (f kq.2)) (map_iter qs)) =
  len (flat qs) - len (flat (f <$> qs)).
Proof.
  assert (Hp : forall l l' : list Z, l ≡ₚ l' -> foldr Z.add 0 l = foldr Z.add 0 l').
  { induction 1; simpl; lia. }
  rewrite (Hp _ (map (fun kq => len kq.2 - len (f kq.2)) (map_to_list qs)))
    by (apply Permutation_map, map_iter_perm).
  unfold flat. rewrite map_to_list_fmap. induction (map_to_list qs) as [|[k q] l IH]; [done|].
  simpl. rewrite IH, !len_app. unfold fmap. simpl. lia.
Qed.

Lemma mem_expire qs total s now age : mem_rel qs total s ->
  exists qs' total', Outbox.remove_expired (B:=B) now age (Outbox.Memory qs total) =
      (Outbox.Memory qs' total', (Queue.remove_expired now age s).2) /\
    mem_rel qs' total' (Queue.remove_expired now age s).1.
Proof.
  intros [Hf Ht Hh Hk]. unfold Outbox.remove_expired, Queue.remove_expired. simpl.
  rewrite sum_removed.
  assert (Hkept : flat (filter (fun m => young now age m = true) <$> qs) ≡ₚ
     Queue.messages (filter (fun kv => young now age kv.2 = true) s)).
  { rewrite flat_filter, Hf. symmetry. by apply messages_filter. }
  assert (Hnum : len (flat qs) - len (flat (filter (fun m => young now age m = true) <$> qs)) =
     Z.of_nat (size s) - Z.of_nat (size (filter (fun kv => young now age kv.2 = true) s))).
  { unfold len. by rewrite Hf, Hkept, !length_messages. }
  rewrite Hnum. eexists _, _. split; [reflexivity|]. split.
  - by rewrite flat_nonempty.
  - lia.
  - intros p q Hl'. apply map_lookup_filter_Some in Hl' as [Hl' _].
    apply lookup_fmap_Some in Hl' as (q' & <- & Hq'). rewrite Forall_forall. intros m Hm.
    apply list_elem_of_filter in Hm as [_ Hm]. pose proof (Hh _ _ Hq') as HF. rewrite Forall_forall in HF. auto.
  - intros id m Hl'. apply map_lookup_filter_Some in Hl' as [Hl' _]. eauto.
Qed.
End Memory.

(** ** Keys *)

Lemma queue_key_eq m : queue_key m = QUEUE_PREFIX ++ as_bytes (recipient_id m) ++ 95 :: as_bytes (message_id m).
Proof. unfold queue_key. by rewrite !as_bytes_app. Qed.

Lemma peer_prefix_eq p : peer_prefix p = QUEUE_PREFIX ++ as_bytes p ++ [95].
Proof. unfold peer_prefix. by rewrite !as_bytes_app. Qed.

Lemma queue_key_prefix m : QUEUE_PREFIX `prefix_of` queue_key m.
Proof. rewrite queue_key_eq. by eexists. Qed.

Lemma queue_key_inj m m' : plain (recipient_id m) -> plain (recipient_id m') ->
  queue_key m = queue_key m' -> recipient_id m = recipient_id m' /\ message_id m = message_id m'.
Proof.
  intros Hm Hm' H. rewrite !queue_key_eq in H. apply app_inv_head in H.
  assert (He : as_bytes (recipient_id m) = as_bytes (recipient_id m')).
  { eapply separator_prefix; [done|done|]. rewrite H. done. }
  rewrite He in H. apply app_inv_head in H. injection H as H. split; by apply as_bytes_inj.
Qed.

Lemma peer_prefix_key p m : plain p -> plain (recipient_id m) ->
  peer_prefix p `prefix_of` queue_key m <-> recipient_id m = p.
Proof.
  intros Hp Hm. rewrite peer_prefix_eq, queue_key_eq. split.
  - intros H. apply prefix_app_inv in H. symmetry. apply as_bytes_inj. by eapply separator_prefix.
  - intros <-. apply prefix_app. apply prefix_app. eexists. done.
Qed.

Lemma peer_prefix_prefix p : QUEUE_PREFIX `prefix_of` peer_prefix p.
Proof. rewrite peer_prefix_eq. by eexists. Qed.

(** ** The persistent representation *)

Section Persistent.
Context {B : Type} `{HB : StorageBackend B} {HBS : StorageBackendSpec B} {HBR : Reliable B}.
Context `{HC : Bincode QueuedMessage.t} {HCS : BincodeSpec QueuedMessage.t}.
Context {MI : MapIter string (list QueuedMessage.t)}.
Implicit Types (s : Queue.t) (db : B).

Definition ser (m : QueuedMessage.t) : Bytes := unwrap_or [] (bincode_serialize m).

Definition entry (m : QueuedMessage.t) : Bytes * Bytes := (queue_key m, ser m).

Record db_rel db s : Prop := {
  dr_entries : map_to_list (with_prefix QUEUE_PREFIX (contents db)) ≡ₚ entry <$> Queue.messages s;
  dr_plain : forall m, m ∈ Queue.messages s -> plain (recipient_id m);
  dr_keyed : keyed s
}.

Lemma queued_ser m : bincode_serialize m = Ok (ser m).
Proof. unfold ser. destruct (bincode_serialize_total m) as [d Hd]. by rewrite Hd. Qed.

Lemma queued_deser m : bincode_deserialize (ser m) = Ok m.
Proof. apply bincode_roundtrip, queued_ser. Qed.

(** The entries under a longer prefix, and the entries whose keys stay. *)
Lemma entries_filter (P : Bytes * Bytes -> Prop) `{forall x, Decision (P x)} db s : db_rel db s ->
  map_to_list (filter P (with_prefix QUEUE_PREFIX (contents db))) ≡ₚ
  entry <$> filter (fun m => P (entry m)) (Queue.messages s).
Proof.
  intros [He _ _]. rewrite <-(map_iter_filter (MI := map_iter_default)). simpl. rewrite He.
  by rewrite filter_fmap_list.
Qed.

Lemma with_prefix_longer (pre : Bytes) (c : gmap Bytes Bytes) : QUEUE_PREFIX `prefix_of` pre ->
  with_prefix pre c = filter (fun kv => pre `prefix_of` kv.1) (with_prefix QUEUE_PREFIX c).
Proof.
  intros Hpre. unfold with_prefix. rewrite map_filter_filter. apply map_filter_ext.
  intros k v _. split; [|by intros []]. intros Hk. split; [done|]. by transitivity pre.
Qed.

Lemma db_scan (pre : Bytes) db s : db_rel db s -> QUEUE_PREFIX `prefix_of` pre ->
  Outbox.scan_decoded pre db ≡ₚ
  (fun m => (queue_key m, m)) <$> filter (fun m => pre `prefix_of` queue_key m) (Queue.messages s).
Proof.
  intros Hr Hpre. unfold Outbox.scan_decoded, Outbox.decoded.
  destruct (scan_total pre db) as [r Hscan]. rewrite Hscan. simpl.
  rewrite (scan_prefix_ok _ _ _ Hscan), with_prefix_longer, (entries_filter _ _ _ Hr) by done.
  induction (filter _ _) as [|m l IH]; [done|]. simpl. rewrite queued_deser. simpl. by rewrite IH.
Qed.

Lemma db_count (pre : Bytes) db s : db_rel db s -> QUEUE_PREFIX `prefix_of` pre ->
  unwrap_or 0 (count_prefix pre db) =
  len (filter (fun m => pre `prefix_of` queue_key m) (Queue.messages s)).
Proof.
  intros Hr Hpre. destruct (count_total pre db) as [n Hn]. rewrite Hn. simpl.
  rewrite (count_prefix_ok _ _ _ Hn), with_prefix_longer by done.
  rewrite <-length_map_to_list, (entries_filter _ _ _ Hr), length_fmap. done.
Qed.

(** Removing the keys of the messages that satisfy [P] leaves the others. *)
Lemma db_keep (P : QueuedMessage.t -> Prop) `{forall m, Decision (P m)}
    (Q : string * QueuedMessage.t -> Prop) `{forall kv, Decision (Q kv)} (keys : list Bytes) db db' s :
  (forall kv, Q kv <-> ~ P kv.2) -> db_rel db s ->
  contents db' = filter (fun kv => kv.1 ∉ keys) (contents db) ->
  (forall m, m ∈ Queue.messages s -> queue_key m ∈ keys <-> P m) ->
  db_rel db' (filter Q s).
Proof.
  intros HQ Hr Hc Hkeys.
  assert (Hm : Queue.messages (filter Q s) ≡ₚ filter (fun m => ~ P m) (Queue.messages s))
    by (by apply messages_filter).
  split.
  - rewrite Hc, Hm. unfold with_prefix. rewrite map_filter_comm.
    etrans; [apply (entries_filter (fun kv => kv.1 ∉ keys) _ _ Hr)|].
    rewrite (filter_ext_elem _ (fun m => ~ P m)); [done|]. intros m Hin. simpl. by rewrite Hkeys.
  - intros m Hin. rewrite Hm in Hin. apply list_elem_of_filter in Hin as [_ Hin]. by apply (dr_plain _ _ Hr).
  - intros id m Hl. apply map_lookup_filter_Some in Hl as [Hl _]. by apply (dr_keyed _ _ Hr).
Qed.

Lemma db_size db s : db_rel db s ->
  unwrap_or 0 (count_prefix QUEUE_PREFIX db) = Z.of_nat (size s).
Proof.
  intros Hr. rewrite (db_count _ db s) by done. rewrite filter_keep; [unfold len; by rewrite length_messages|].
  apply Forall_forall. intros m _. apply queue_key_prefix.
Qed.

Lemma db_all db s : db_rel db s ->
  Outbox.scan_decoded QUEUE_PREFIX db ≡ₚ (fun m => (queue_key m, m)) <$> Queue.messages s.
Proof.
  intros Hr. rewrite (db_scan _ db s) by done. rewrite filter_keep; [done|].
  apply Forall_forall. intros m _. apply queue_key_prefix.
Qed.

(** The messages of a peer. *)
Lemma db_peer db s p : db_rel db s -> plain p ->
  filter (fun m => peer_prefix p `prefix_of` queue_key m) (Queue.messages s) ≡ₚ
  Queue.messages (Queue.for_peer p s).
Proof.
  intros Hr Hp. etrans; [|symmetry; by apply (messages_filter (fun m => recipient_id m = p))].
  rewrite (filter_ext_elem _ (fun m => recipient_id m = p)); [done|].
  intros m Hm. apply peer_prefix_key; [done|]. by apply (dr_plain _ _ Hr).
Qed.

(** A message is found by its id in the scan. *)
Lemma db_find db s id : db_rel db s ->
  List.find (fun km => Outbox.has_id id km.2) (Outbox.scan_decoded QUEUE_PREFIX db) =
  (fun m => (queue_key m, m)) <$> s !! id.
Proof.
  intros Hr. pose proof (db_all db s Hr) as Hall.
  destruct (List.find _ _) as [[k m]|] eqn:Hf.
  - apply find_some in Hf as [Hin Hid]. apply list_elem_of_In in Hin. rewrite Hall in Hin.
    apply list_elem_of_fmap in Hin as (m' & Heq & Hin). injection Heq as -> ->. simpl in Hid.
    unfold Outbox.has_id in Hid. bool_to_prop. subst id.
    apply (keyed_elem s m' (dr_keyed _ _ Hr)) in Hin. by rewrite Hin.
  - destruct (s !! id) as [m|] eqn:Hm; [|done]. exfalso.
    apply (find_none _ _) with (x := (queue_key m, m)) in Hf.
    + simpl in Hf. unfold Outbox.has_id in Hf. bool_to_prop. apply Hf. by apply (dr_keyed _ _ Hr).
    + apply list_elem_of_In. rewrite Hall. apply list_elem_of_fmap. exists m. split; [done|].
      apply elem_of_messages. eauto.
Qed.

(** Two queued messages with one key have one id. *)
Lemma db_key_id db s m m' : db_rel db s -> m ∈ Queue.messages s -> m' ∈ Queue.messages s ->
  queue_key m = queue_key m' <-> m = m'.
Proof.
  intros Hr Hm Hm'. split; [|by intros ->]. intros Hkey.
  destruct (queue_key_inj m m') as [_ Hid]; [by apply (dr_plain _ _ Hr)..|done|].
  apply (keyed_elem s _ (dr_keyed _ _ Hr)) in Hm, Hm'. rewrite Hid in Hm. congruence.
Qed.

Lemma delete_filter s id : keyed s -> filter (fun kv => ~ message_id kv.2 = id) s = delete id s.
Proof.
  intros Hk. apply map_eq. intros i. apply option_eq. intros m.
  rewrite map_lookup_filter_Some, lookup_delete_Some. simpl. split.
  - intros [Hm Hne]. split; [|done]. intros ->. by apply Hne, Hk.
  - intros [Hne Hm]. split; [done|]. rewrite (Hk _ _ Hm). congruence.
Qed.

(** Writing the record of a message, new or replacing one of the same peer. *)
Lemma db_put db db' s m : db_rel db s -> plain (recipient_id m) ->
  (forall m', s !! message_id m = Some m' -> recipient_id m' = recipient_id m) ->
  contents db' = <[queue_key m := ser m]> (contents db) ->
  db_rel db' (<[message_id m := m]> s).
Proof.
  intros Hr Hp Hsame Hc.
  assert (Hkeep : map_to_list (filter (fun kv => kv.1 ∉ [queue_key m])
      (with_prefix QUEUE_PREFIX (contents db))) ≡ₚ entry <$> Queue.messages (delete (message_id m) s)).
  { rewrite (entries_filter _ _ _ Hr), <-(delete_filter s _ (dr_keyed _ _ Hr)).
    etrans; [|apply fmap_Permutation; symmetry; by apply (messages_filter (fun m' => ~ message_id m' = message_id m))].
    rewrite (filter_ext_elem _ (fun m' => ~ message_id m' = message_id m)); [done|]. intros m' Hm'. simpl.
    rewrite list_elem_of_singleton. apply not_iff_compat. split.
    - intros Hkey. apply queue_key_inj in Hkey as [_ ?]; [done|by apply (dr_plain _ _ Hr)|done].
    - intros Hid. apply (keyed_elem s _ (dr_keyed _ _ Hr)) in Hm'. rewrite Hid in Hm'.
      unfold queue_key. by rewrite Hid, (Hsame _ Hm'). }
  split.
  - rewrite Hc. unfold with_prefix. rewrite map_filter_insert_True by apply queue_key_prefix.
    rewrite <-insert_delete_eq, map_to_list_insert by apply lookup_delete_eq.
    rewrite <-(insert_delete_eq s), messages_insert by apply lookup_delete_eq.
    rewrite fmap_cons, <-Hkeep. unfold entry at 1. apply Permutation_skip.
    fold (with_prefix QUEUE_PREFIX (contents db)).
    replace (delete (queue_key m) (with_prefix QUEUE_PREFIX (contents db)))
      with (filter (fun kv : Bytes * Bytes => kv.1 ∉ [queue_key m]) (with_prefix QUEUE_PREFIX (contents db))); [done|].
    apply map_eq. intros i. apply option_eq. intros v.
    rewrite map_lookup_filter_Some, lookup_delete_Some. simpl. rewrite list_elem_of_singleton. intuition congruence.
  - intros m' Hm'. rewrite <-(insert_delete_eq s), messages_insert in Hm' by apply lookup_delete_eq.
    apply elem_of_cons in Hm' as [->|Hm']; [done|]. apply (dr_plain _ _ Hr).
    apply elem_of_messages in Hm' as [i Hi]. apply lookup_delete_Some in Hi as [_ Hi]. apply elem_of_messages. eauto.
  - intros i m' Hl. apply lookup_insert_Some in Hl as [[<- <-]|[_ Hl]]; [done|]. by apply (dr_keyed _ _ Hr).
Qed.

Lemma db_enqueue db s msg : db_rel db s -> s !! message_id msg = None -> plain (recipient_id msg) ->
  exists db', Outbox.enqueue msg (Outbox.Persistent db) =
      (Outbox.Persistent db', (Queue.enqueue msg s).2) /\ db_rel db' (Queue.enqueue msg s).1.
Proof.
  intros Hr Hnew Hp. unfold Outbox.enqueue, Queue.enqueue. rewrite (db_size _ _ Hr).
  rewrite (db_count _ _ _ Hr (peer_prefix_prefix _)). unfold len at 1.
  rewrite (Permutation_length (db_peer _ _ _ Hr Hp)), length_messages, queued_ser.
  case_match; [by eexists|]. case_match; [by eexists|].
  destruct (put_total (queue_key msg) (ser msg) db) as [db1 H1]. rewrite H1.
  destruct (flush_total db1) as [db2 H2]. rewrite H2. eexists. split; [reflexivity|]. simpl.
  apply (db_put db); [done|done|by rewrite Hnew|].
  by rewrite (flush_ok _ _ H2), (put_ok _ _ _ _ H1).
Qed.

Lemma db_remove db s id : db_rel db s ->
  exists db', Outbox.remove id (Outbox.Persistent db) =
      (Outbox.Persistent db', (Queue.remove id s).2) /\ db_rel db' (Queue.remove id s).1.
Proof.
  intros Hr. unfold Outbox.remove, Queue.remove. rewrite (db_find _ _ _ Hr). simpl.
  destruct (s !! id) as [m|] eqn:Hm; simpl.
  - eexists. split; [reflexivity|]. rewrite <-(delete_filter s id (dr_keyed _ _ Hr)).
    apply (db_keep (fun m => message_id m = id) _ [queue_key m] db); [done|done| |].
    + rewrite flush_contents. apply (remove_all_contents [queue_key m]).
    + intros m' Hm'. rewrite list_elem_of_singleton, (db_key_id _ _ _ _ Hr Hm') by (apply elem_of_messages; eauto).
      split; [intros ->; by apply (dr_keyed _ _ Hr)|]. intros Hid.
      apply (keyed_elem s _ (dr_keyed _ _ Hr)) in Hm'. congruence.
  - rewrite delete_id by done. by eexists.
Qed.

(** The keys of a scan tell the messages they belong to. *)
Lemma db_keys (P : QueuedMessage.t -> Prop) `{forall m, Decision (P m)} db s (keys : list Bytes) : db_rel db s ->
  keys ≡ₚ queue_key <$> filter P (Queue.messages s) ->
  forall m, m ∈ Queue.messages s -> queue_key m ∈ keys <-> P m.
Proof.
  intros Hr Hk m Hm. rewrite Hk, list_elem_of_fmap. split.
  - intros (m' & Hkey & Hin). apply list_elem_of_filter in Hin as [HP Hin].
    by rewrite (proj1 (db_key_id _ _ _ _ Hr Hm Hin) Hkey).
  - intros HP. exists m. split; [done|]. by apply list_elem_of_filter.
Qed.

Lemma db_drain db s p : db_rel db s -> plain p ->
  exists db' l, Outbox.drain_for_peer p (Outbox.Persistent db) = (Outbox.Persistent db', l) /\
    l ≡ₚ (Queue.drain_for_peer p s).2 /\ db_rel db' (Queue.drain_for_peer p s).1.
Proof.
  intros Hr Hp. unfold Outbox.drain_for_peer, Queue.drain_for_peer. simpl.
  pose proof (db_scan _ _ _ Hr (peer_prefix_prefix p)) as Hscan.
  eexists _, _. split; [reflexivity|]. split.
  - rewrite Hscan, <-list_fmap_compose, (db_peer _ _ _ Hr Hp). by rewrite list_fmap_id.
  - apply (db_keep (fun m => recipient_id m = p) _ (Outbox.scan_decoded (peer_prefix p) db).*1 db); [done|done| |].
    + rewrite flush_contents. apply remove_all_contents.
    + eapply db_keys; [done|]. rewrite Hscan, <-list_fmap_compose.
      rewrite (filter_ext_elem _ (fun m => recipient_id m = p)); [done|].
      intros m Hm. apply peer_prefix_key; [done|]. by apply (dr_plain _ _ Hr).
Qed.

Lemma db_attempt db s id : db_rel db s ->
  exists db', Outbox.record_attempt id (Outbox.Persistent db) =
      (Outbox.Persistent db', (Queue.record_attempt id s).2) /\ db_rel db' (Queue.record_attempt id s).1.
Proof.
  intros Hr. unfold Outbox.record_attempt, Queue.record_attempt. rewrite (db_find _ _ _ Hr).
  destruct (s !! id) as [m|] eqn:Hm; simpl; [|by eexists]. rewrite queued_ser.
  eexists. split; [reflexivity|]. pose proof (dr_keyed _ _ Hr _ _ Hm) as <-.
  apply (db_put db _ s (bump m)); [done| | |].
  - apply (dr_plain _ _ Hr m). apply elem_of_messages. eauto.
  - intros m' Hm'. simpl in Hm'. rewrite Hm in Hm'. by inv Hm'.
  - rewrite flush_contents. destruct (put_total (queue_key m) (ser (bump m)) db) as [db1 H1].
    rewrite H1. simpl. by rewrite (put_ok _ _ _ _ H1).
Qed.

Lemma db_expire db s now age : db_rel db s ->
  exists db', Outbox.remove_expired now age (Outbox.Persistent db) =
      (Outbox.Persistent db', (Queue.remove_expired now age s).2) /\
    db_rel db' (Queue.remove_expired now age s).1.
Proof.
  intros Hr. unfold Outbox.remove_expired, Queue.remove_expired. simpl.
  set (keys := (filter _ _).*1).
  assert (Hkeys : keys ≡ₚ queue_key <$> filter (fun m => young now age m = false) (Queue.messages s)).
  { unfold keys. rewrite (db_all _ _ Hr), filter_fmap_list, <-list_fmap_compose. done. }
  assert (Hkept : filter (fun kv => young now age kv.2 = true) s = filter (fun kv => ~ young now age kv.2 = false) s).
  { apply map_filter_ext. intros i m _. simpl. destruct (young now age m); naive_solver. }
  eexists. split.
  - f_equal. unfold len. rewrite Hkeys, length_fmap, Hkept, <-!length_messages.
    rewrite (Permutation_length (messages_filter (fun m => ~ young now age m = false)
      (fun kv => ~ young now age kv.2 = false) s (fun _ => iff_refl _))).
    pose proof (filter_app_complement (fun m => young now age m = false) (Queue.messages s)) as Hc.
    apply Permutation_length in Hc. rewrite length_app in Hc. lia.
  - rewrite Hkept. apply (db_keep (fun m => young now age m = false) _ keys db); [done|done| |].
    + rewrite flush_contents. apply remove_all_contents.
    + by apply (db_keys (fun m => young now age m = false) db s keys).
Qed.
End Persistent.

(** ** Histories *)

Module OutboxHistory.

Inductive op : Type :=
| Enqueue (msg : QueuedMessage.t)
| Remove (id : string)
| Drain (p : string)
| Attempt (id : string)
| Expire (now max_age_secs : Z)
| Peek (p : string)
| Total.

Inductive answer : Type :=
| AResult (r : outcome string unit)
| ABool (b : bool)
| AMessages (l : list QueuedMessage.t)
| ACount (n : Z).

(** Lists of messages are compared without their order. *)
Definition same (a b : answer) : Prop :=
  match a, b with
  | AMessages l, AMessages l' => l ≡ₚ l'
  | _, _ => a = b
  end.

Section Run.
Context {B : Type} `{HB : StorageBackend B} `{HC : Bincode QueuedMessage.t}.
Context {MI : MapIter string (list QueuedMessage.t)}.

Definition step (o : op) (x : Outbox.t B) : Outbox.t B * answer :=
  match o with
  | Enqueue msg => let '(x, r) := Outbox.enqueue msg x in (x, AResult r)
  | Remove id => let '(x, b) := Outbox.remove id x in (x, ABool b)
  | Drain p => let '(x, l) := Outbox.drain_for_peer p x in (x, AMessages l)
  | Attempt id => let '(x, b) := Outbox.record_attempt id x in (x, ABool b)
  | Expire now age => let '(x, n) := Outbox.remove_expired now age x in (x, ACount n)
  | Peek p => (x, AMessages (Outbox.peek_for_peer p x))
  | Total => (x, ACount (Outbox.total_count x))
  end.
End Run.

Definition spec_step (o : op) (s : Queue.t) : Queue.t * answer :=
  match o with
  | Enqueue msg => let '(s, r) := Queue.enqueue msg s in (s, AResult r)
  | Remove id => let '(s, b) := Queue.remove id s in (s, ABool b)
  | Drain p => let '(s, l) := Queue.drain_for_peer p s in (s, AMessages l)
  | Attempt id => let '(s, b) := Queue.record_attempt id s in (s, ABool b)
  | Expire now age => let '(s, n) := Queue.remove_expired now age s in (s, ACount n)
  | Peek p => (s, AMessages (Queue.messages (Queue.for_peer p s)))
  | Total => (s, ACount (Z.of_nat (size s)))
  end.

(** The answers of a sequence of operations. *)
Fixpoint answers {S} (f : op -> S -> S * answer) (os : list op) (x : S) : list answer :=
  match os with
  | [] => []
  | o :: os => let '(x, a) := f o x in a :: answers f os x
  end.

(** A caller queues a message under a fresh id and uses ids without separator. *)
Definition admissible (o : op) (s : Queue.t) : Prop :=
  match o with
  | Enqueue msg => s !! message_id msg = None /\ plain (recipient_id msg)
  | Drain p | Peek p => plain p
  | _ => True
  end.

#[export] Instance admissible_dec o s : Decision (admissible o s).
Proof. destruct o; simpl; apply _. Defined.

Fixpoint well_used (os : list op) (s : Queue.t) : Prop :=
  match os with
  | [] => True
  | o :: os => admissible o s /\ well_used os (spec_step o s).1
  end.

#[export] Instance well_used_dec os : forall s, Decision (well_used os s).
Proof. induction os; simpl; apply _. Defined.

Section Refinement.
Context {B : Type} `{HB : StorageBackend B} {HBS : StorageBackendSpec B} {HBR : Reliable B}.
Context `{HC : Bincode QueuedMessage.t} {HCS : BincodeSpec QueuedMessage.t}.
Context {MI : MapIter string (list QueuedMessage.t)}.

Definition related (x : Outbox.t B) (s : Queue.t) : Prop :=
  match x with
  | Outbox.Memory qs total => mem_rel qs total s
  | Outbox.Persistent db => db_rel db s
  end.

Lemma outbox_step_memory o qs total s : mem_rel qs total s -> admissible o s ->
  related (step o (Outbox.Memory qs total)).1 (spec_step o s).1 /\
  same (step o (Outbox.Memory qs total)).2 (spec_step o s).2.
Proof.
  intros Hr Ho. destruct o as [msg|id|p|id|now age|p|]; cbn [step spec_step].
  - destruct Ho. destruct (mem_enqueue qs total s msg) as (qs' & t' & -> & Hr'); [done..|].
    by destruct (Queue.enqueue msg s).
  - destruct (mem_remove qs total s id Hr) as (qs' & t' & -> & Hr'). by destruct (Queue.remove id s).
  - destruct (mem_drain qs total s p Hr) as (qs' & t' & l & -> & Hl & Hr').
    by destruct (Queue.drain_for_peer p s).
  - destruct (mem_attempt qs total s id Hr) as (qs' & t' & -> & Hr'). by destruct (Queue.record_attempt id s).
  - destruct (mem_expire qs total s now age Hr) as (qs' & t' & -> & Hr').
    by destruct (Queue.remove_expired now age s).
  - split; [done|]. apply (mem_queue _ _ _ p Hr).
  - split; [done|]. simpl. f_equal. apply (mr_total _ _ _ Hr).
Qed.

Lemma outbox_step_persistent o db s : db_rel db s -> admissible o s ->
  related (step o (Outbox.Persistent db)).1 (spec_step o s).1 /\
  same (step o (Outbox.Persistent db)).2 (spec_step o s).2.
Proof.
  intros Hr Ho. destruct o as [msg|id|p|id|now age|p|]; cbn [step spec_step].
  - destruct Ho. destruct (db_enqueue db s msg) as (db' & -> & Hr'); [done..|].
    by destruct (Queue.enqueue msg s).
  - destruct (db_remove db s id Hr) as (db' & -> & Hr'). by destruct (Queue.remove id s).
  - destruct (db_drain db s p Hr Ho) as (db' & l & -> & Hl & Hr'). by destruct (Queue.drain_for_peer p s).
  - destruct (db_attempt db s id Hr) as (db' & -> & Hr'). by destruct (Queue.record_attempt id s).
  - destruct (db_expire db s now age Hr) as (db' & -> & Hr'). by destruct (Queue.remove_expired now age s).
  - split; [done|]. simpl. rewrite (db_scan _ _ _ Hr (peer_prefix_prefix p)), <-list_fmap_compose.
    rewrite (db_peer _ _ _ Hr Ho). by rewrite list_fmap_id.
  - split; [done|]. simpl. f_equal. apply (db_size _ _ Hr).
Qed.

Lemma answers_related os x s : related x s -> well_used os s ->
  Forall2 same (answers step os x) (answers spec_step os s).
Proof.
  revert x s. induction os as [|o os IH]; intros x s Hr Hw; simpl; [done|]. destruct Hw as [Ho Hw].
  assert (H : related (step o x).1 (spec_step o s).1 /\ same (step o x).2 (spec_step o s).2).
  { destruct x; [by apply outbox_step_memory|by apply outbox_step_persistent]. }
  destruct (step o x) as [x' a], (spec_step o s) as [s' a']. simpl in *. destruct H as [Hr' Ha].
  constructor; [done|]. by apply IH.
Qed.

Lemma related_new : related Outbox.new ∅.
Proof. split; [done|done| |]; intros ? ?; by rewrite lookup_empty. Qed.

Lemma related_persistent db : with_prefix QUEUE_PREFIX (contents db) = ∅ ->
  related (Outbox.persistent db) ∅.
Proof.
  intros He. simpl. split.
  - rewrite He. by rewrite map_to_list_empty.
  - intros m Hm. by apply elem_of_nil in Hm.
  - intros ? ?. by rewrite lookup_empty.
Qed.
End Refinement.
End OutboxHistory.

Import OutboxHistory.

Section OutboxTheorems.
Context {B : Type} `{HB : StorageBackend B} {HBS : StorageBackendSpec B} {HBR : Reliable B}.
Context `{HC : Bincode QueuedMessage.t} {HCS : BincodeSpec QueuedMessage.t}.
Context {MI : MapIter string (list QueuedMessage.t)}.

End OutboxTheorems.

(** Without the condition on peer ids the representations differ: the records
    of the peer "a_b" are also found under the prefix of the peer "a". *)
Lemma outbox_prefix_alias (m : QueuedMessage.t) : recipient_id m = "a_b" ->
  peer_prefix "a" `prefix_of` queue_key m.
Proof. intros Hm. rewrite queue_key_eq, Hm. eexists. reflexivity. Qed.

Definition demo_msg (id p : string) : QueuedMessage.t := QueuedMessage.mk id p [1; 2; 3] 100 0.

Definition demo_ops : list op :=
  [Enqueue (demo_msg "m1" "alice"); Enqueue (demo_msg "m2" "bob"); Enqueue (demo_msg "m3" "alice");
   Attempt "m1"; Peek "alice"; Remove "m3"; Remove "m9"; Drain "alice"; Expire 200 50; Total].

#[local] Existing Instances map_iter_default sample_bincode sample_bincode_spec MemoryStorage.storage_backend
  MemoryStorage.storage_backend_spec.

(** What it does: draining the peer "a" hands out, and removes, the message
    queued for "a_b"; the outbox in memory keeps them apart. *)
Lemma outbox_alias_drains :
  let queued o := (Outbox.enqueue (demo_msg "m1" "a_b") o).1 in
  (Outbox.drain_for_peer "a" (queued (Outbox.persistent MemoryStorage.new))).2 = [demo_msg "m1" "a_b"] /\
  (Outbox.drain_for_peer "a" (queued (Outbox.new (B := MemoryStorage.t)))).2 = [].
Proof. split; vm_compute; reflexivity. Qed.

