(* ===== verification/Inbox.v ===== *)
(** * The inbox (core/src/store/inbox.rs)

    Received messages and the filter that rejects a message id that was seen
    before, in memory and in a storage backend.  An inbox without a storage
    manager is modelled.

    [receive] on the memory representation contains a loop that does not end
    when the set of seen ids is over its limit while the order of arrival is
    empty; [None] stands for that, and the theorems show it does not occur. *)

From S2P Require Import Prelude Drift Backend.

Definition MAX_SEEN_IDS : Z := 50000.

Definition SEEN_IDS_KEY : Bytes := as_bytes "inbox_seen_ids".

Definition MESSAGES_PREFIX : Bytes := as_bytes "inbox_msg_".

Module ReceivedMessage.

Record t : Type := mk {
  message_id : string;
  sender_id : string;
  payload : Bytes;
  received_at : Z;
  sender_public_key_hex : option string
}.

#[export] Instance t_eq_dec : EqDecision t.
Proof. solve_decision. Defined.

#[export] Instance t_countable : Countable t.
Proof.
  apply (inj_countable'
    (fun m => (message_id m, sender_id m, payload m, received_at m, sender_public_key_hex m))
    (fun '(i, s, p, r, k) => mk i s p r k)).
  by intros [].
Defined.

End ReceivedMessage.

(** The order in which a hash set is iterated: any enumeration. *)
Class SetIter (A : Type) `{Countable A} : Type := {
  set_iter : gset A -> list A;
  set_iter_perm : forall X, set_iter X ≡ₚ elements X
}.

Definition set_iter_default {A} `{Countable A} : SetIter A :=
  {| set_iter X := elements X; set_iter_perm X := Permutation_refl _ |}.

Definition message_key (m : ReceivedMessage.t) : Bytes :=
  as_bytes ("inbox_msg_" +:+ ReceivedMessage.sender_id m +:+ "_" +:+ ReceivedMessage.message_id m).

Definition sender_prefix (sender_id : string) : Bytes :=
  as_bytes ("inbox_msg_" +:+ sender_id +:+ "_").

Module Inbox.
Import ReceivedMessage.

Section Code.
Context {B : Type} `{HB : StorageBackend B} `{HC : Bincode ReceivedMessage.t} `{HCI : Bincode (gset Bytes)}.
Context `{HH : Blake3} {MI : MapIter string (list ReceivedMessage.t)} {SI : SetIter Bytes}.

Inductive t : Type :=
| Memory (seen_ids : gset Bytes) (seen_order : list Bytes)
         (messages : gmap string (list ReceivedMessage.t)) (total : Z)
| Persistent (db : B).

Definition new : t := Memory ∅ [] ∅ 0.

Definition persistent (backend : B) : t := Persistent backend.

Definition hash_of (message_id : string) : Bytes := blake3_hash (as_bytes message_id).

(** The set of seen ids of the database, empty when it cannot be read. *)
Definition load_seen (db : B) : gset Bytes :=
  match get SEEN_IDS_KEY db with
  | Ok (Some data) => unwrap_or ∅ (bincode_deserialize data)
  | _ => ∅
  end.

Definition is_duplicate (message_id : string) (self : t) : bool :=
  let hash := hash_of message_id in
  match self with
  | Memory seen_ids _ _ _ => bool_decide (hash ∈ seen_ids)
  | Persistent db => bool_decide (hash ∈ load_seen db)
  end.

(** The [while] loop over [seen_order]. *)
Fixpoint evict (seen_ids : gset Bytes) (seen_order : list Bytes) : option (gset Bytes * list Bytes) :=
  if Z.of_nat (size seen_ids) >? MAX_SEEN_IDS then
    match seen_order with
    | old_hash :: seen_order => evict (seen_ids ∖ {[old_hash]}) seen_order
    | [] => None
    end
  else Some (seen_ids, seen_order).

(** The eviction of the persistent representation: any 1000 ids. *)
Definition evict_any (seen_ids : gset Bytes) : gset Bytes :=
  if Z.of_nat (size seen_ids) >? MAX_SEEN_IDS
  then foldl (fun seen_ids h => seen_ids ∖ {[h]}) seen_ids (take 1000 (set_iter seen_ids))
  else seen_ids.

Definition receive (msg : ReceivedMessage.t) (self : t) : option (t * bool) :=
  let hash := hash_of (message_id msg) in
  match self with
  | Memory seen_ids seen_order messages total =>
      if bool_decide (hash ∈ seen_ids) then Some (self, false) else
      match evict ({[hash]} ∪ seen_ids) (seen_order ++ [hash]) with
      | None => None
      | Some (seen_ids, seen_order) =>
          let q := default [] (messages !! sender_id msg) in
          Some (Memory seen_ids seen_order (<[sender_id msg := q ++ [msg]]> messages) (total + 1), true)
      end
  | Persistent db =>
      let seen_ids := load_seen db in
      if bool_decide (hash ∈ seen_ids) then Some (self, false) else
      let seen_ids := evict_any ({[hash]} ∪ seen_ids) in
      let db :=
        match bincode_serialize seen_ids with
        | Ok data => unwrap_or db (put SEEN_IDS_KEY data db)
        | _ => db
        end in
      let db :=
        match bincode_serialize msg with
        | Ok data => flush_ignored (unwrap_or db (put (message_key msg) data db))
        | _ => db
        end in
      Some (Persistent db, true)
  end.

(** The messages of a scan that deserialize. *)
Definition decoded (results : ScanResult) : list ReceivedMessage.t :=
  omap (fun kv => ok (bincode_deserialize kv.2)) results.

Definition messages_from (sender_id : string) (self : t) : list ReceivedMessage.t :=
  match self with
  | Memory _ _ messages _ => default [] (messages !! sender_id)
  | Persistent db => decoded (unwrap_or [] (scan_prefix (sender_prefix sender_id) db))
  end.

Definition all_messages (self : t) : list ReceivedMessage.t :=
  match self with
  | Memory _ _ messages _ => concat (map_iter messages).*2
  | Persistent db => decoded (unwrap_or [] (scan_prefix MESSAGES_PREFIX db))
  end.

Definition total_count (self : t) : Z :=
  match self with
  | Memory _ _ _ total => total
  | Persistent db => unwrap_or 0 (count_prefix MESSAGES_PREFIX db)
  end.

Definition sender_count (self : t) : Z :=
  match self with
  | Memory _ _ messages _ => Z.of_nat (size messages)
  | Persistent _ => Z.of_nat (size (list_to_set (sender_id <$> all_messages self) : gset string))
  end.

Definition get_inbox_count (self : t) : Z := wrap 32 (total_count self).

Definition drain_received_messages (self : t) : t * list ReceivedMessage.t :=
  match self with
  | Memory seen_ids seen_order messages _ =>
      (Memory seen_ids seen_order ∅ 0, concat (map_iter messages).*2)
  | Persistent db =>
      let results := unwrap_or [] (scan_prefix MESSAGES_PREFIX db) in
      (Persistent (flush_ignored (remove_all results.*1 db)), decoded results)
  end.

Definition clear_messages (self : t) : t :=
  match self with
  | Memory seen_ids seen_order _ _ => Memory seen_ids seen_order ∅ 0
  | Persistent db =>
      match scan_prefix MESSAGES_PREFIX db with
      | Ok results => Persistent (flush_ignored (remove_all results.*1 db))
      | _ => self
      end
  end.

End Code.
Arguments t B : clear implicits.
End Inbox.
