(* ===== verification/InboxProps.v ===== *)
(** * The inbox delivers each message once

    Both representations of the inbox refine a reference: the messages that
    were accepted, those not handed out yet, and the rule that a message is
    rejected when its id hash is among the last 50000 accepted ones. *)

From S2P Require Import Prelude Drift Backend Inbox.
Import ReceivedMessage.

Module InboxHistory.

Inductive op : Type :=
| Receive (msg : ReceivedMessage.t)
| Drain
| Clear
| Total.

Inductive answer : Type :=
| ABool (b : bool)
| AMessages (l : list ReceivedMessage.t)
| ACount (n : Z)
| ANone.

(** Lists of messages are compared without their order. *)
Definition same (a b : answer) : Prop :=
  match a, b with
  | AMessages l, AMessages l' => l ≡ₚ l'
  | _, _ => a = b
  end.

Section Run.
Context {B : Type} `{HB : StorageBackend B} `{HC : Bincode ReceivedMessage.t} `{HCI : Bincode (gset Bytes)}.
Context `{HH : Blake3} {MI : MapIter string (list ReceivedMessage.t)} {SI : SetIter Bytes}.

Definition step (o : op) (x : Inbox.t B) : option (Inbox.t B * answer) :=
  match o with
  | Receive msg => '(x, b) ← Inbox.receive msg x; Some (x, ABool b)
  | Drain => let '(x, l) := Inbox.drain_received_messages x in Some (x, AMessages l)
  | Clear => Some (Inbox.clear_messages x, ANone)
  | Total => Some (x, ACount (Inbox.total_count x))
  end.

(** The answers of a sequence of operations; [None] when a call does not return. *)
Fixpoint answers (os : list op) (x : Inbox.t B) : option (list answer) :=
  match os with
  | [] => Some []
  | o :: os => '(x, a) ← step o x; l ← answers os x; Some (a :: l)
  end.

(** The reference: the accepted messages in order, and those not handed out yet. *)
Record ref : Type := mk_ref { accepted : list ReceivedMessage.t; live : list ReceivedMessage.t }.

Definition hashes (l : list ReceivedMessage.t) : list Bytes :=
  (fun m => Inbox.hash_of (message_id m)) <$> l.

(** The last 50000 of a list. *)
Definition window {A} (l : list A) : list A := drop (length l - Z.to_nat MAX_SEEN_IDS) l.

Definition spec_step (o : op) (r : ref) : ref * answer :=
  match o with
  | Receive msg =>
      if bool_decide (Inbox.hash_of (message_id msg) ∈ window (hashes (accepted r)))
      then (r, ABool false)
      else (mk_ref (accepted r ++ [msg]) (live r ++ [msg]), ABool true)
  | Drain => (mk_ref (accepted r) [], AMessages (live r))
  | Clear => (mk_ref (accepted r) [], ANone)
  | Total => (r, ACount (len (live r)))
  end.

Fixpoint spec_answers (os : list op) (r : ref) : list answer :=
  match os with
  | [] => []
  | o :: os => let '(r, a) := spec_step o r in a :: spec_answers os r
  end.

Definition empty : ref := mk_ref [] [].

(** ** The memory representation *)

Record mem_rel (seen : gset Bytes) (order : list Bytes) (ms : gmap string (list ReceivedMessage.t))
    (total : Z) (r : ref) : Prop := {
  mr_seen : seen = list_to_set order;
  mr_nodup : NoDup order;
  mr_order : order = window (hashes (accepted r));
  mr_live : flat ms ≡ₚ live r;
  mr_total : total = len (live r)
}.

Lemma max_seen_nat : Z.of_nat (Z.to_nat MAX_SEEN_IDS) = MAX_SEEN_IDS.
Proof. apply Z2Nat.id. unfold MAX_SEEN_IDS. lia. Qed.

Lemma max_seen_pos : 0 < MAX_SEEN_IDS.
Proof. unfold MAX_SEEN_IDS. lia. Qed.

#[local] Opaque MAX_SEEN_IDS.

Lemma length_window {A} (l : list A) : (length (window l) = length l `min` Z.to_nat MAX_SEEN_IDS)%nat.
Proof. unfold window. rewrite length_drop. lia. Qed.

(** The window after one more element. *)
Lemma window_snoc {A} (l : list A) x :
  window (l ++ [x]) =
  (if decide (length (window l) = Z.to_nat MAX_SEEN_IDS) then drop 1 (window l) else window l) ++ [x].
Proof.
  rewrite length_window. unfold window. rewrite length_app. cbn [length].
  pose proof max_seen_nat as Hn. pose proof max_seen_pos. set (n := Z.to_nat MAX_SEEN_IDS) in *. clearbody n.
  case_decide.
  - rewrite drop_drop, drop_app_le by lia. f_equal. f_equal. lia.
  - rewrite !(proj2 (Nat.sub_0_le _ _)) by lia. by rewrite !drop_0.
Qed.

(** The eviction loop ends and keeps the most recent ids. *)
Lemma evict_window (l : list Bytes) h :
  NoDup (window l) -> h ∉ window l ->
  Inbox.evict ({[h]} ∪ list_to_set (window l)) (window l ++ [h]) =
  Some (list_to_set (window (l ++ [h])), window (l ++ [h])) /\
  NoDup (window (l ++ [h])).
Proof.
  intros Hnd Hh. rewrite window_snoc. pose proof (length_window l) as Hlen.
  pose proof max_seen_nat as Hn. pose proof max_seen_pos as Hpos.
  set (w := window l) in *. set (n := Z.to_nat MAX_SEEN_IDS) in *. clearbody n w.
  assert (Hnd' : NoDup (w ++ [h])).
  { apply NoDup_app. split_and!; [done| |apply NoDup_singleton]. by intros x Hx ->%list_elem_of_singleton. }
  assert (Hset : {[h]} ∪ list_to_set w =@{gset Bytes} list_to_set (w ++ [h])).
  { rewrite list_to_set_app_L, list_to_set_singleton_L. apply union_comm_L. }
  rewrite Hset. assert (Hsz : forall k : list Bytes, NoDup k -> size (list_to_set k : gset Bytes) = length k)
    by (intros; by apply size_list_to_set).
  destruct (decide (length w = n)) as [Hfull|Hroom].
  - destruct w as [|old w'] eqn:Hw; [cbn [length] in Hfull; lia|].
    cbn [app drop] in *. rewrite drop_0. apply NoDup_cons in Hnd' as [Hold Hnd'']. split; [|done].
    assert (Hrest : list_to_set (old :: w' ++ [h]) ∖ {[old]} =@{gset Bytes} list_to_set (w' ++ [h])).
    { apply set_eq. intros x. rewrite elem_of_difference, !elem_of_list_to_set, elem_of_cons, elem_of_singleton.
      split; [intros [[->|Hx] Hne]; done|]. intros Hx. split; [by right|]. by intros ->. }
    cbn [Inbox.evict]. rewrite Hsz by (by apply NoDup_cons). rewrite Hrest.
    rewrite (proj2 (Z.gtb_lt _ _)) by (cbn [length] in *; rewrite length_app; simpl; lia).
    destruct (w' ++ [h]) as [|x l'] eqn:Hx; [by destruct w'|]. cbn [Inbox.evict].
    rewrite Hsz by done. rewrite Z.gtb_ltb, (proj2 (Z.ltb_ge _ _)); [done|].
    rewrite <-Hx, length_app. cbn [length] in *. lia.
  - split; [|done]. destruct (w ++ [h]) as [|x l'] eqn:Hx; [by destruct w|]. cbn [Inbox.evict].
    rewrite Hsz by done. rewrite Z.gtb_ltb, (proj2 (Z.ltb_ge _ _)); [done|].
    rewrite <-Hx, length_app. simpl. lia.
Qed.

Lemma flat_iter (ms : gmap string (list ReceivedMessage.t)) : concat (map_iter ms).*2 ≡ₚ flat ms.
Proof. unfold flat. by rewrite map_iter_perm. Qed.

Lemma inbox_step_memory o seen order ms total r : mem_rel seen order ms total r ->
  exists seen' order' ms' total' a, step o (Inbox.Memory seen order ms total) =
      Some (Inbox.Memory seen' order' ms' total', a) /\
    mem_rel seen' order' ms' total' (spec_step o r).1 /\ same a (spec_step o r).2.
Proof.
  intros [Hs Hnd Ho Hl Ht]. destruct o as [msg| | |]; cbn [step spec_step].
  - unfold Inbox.receive. rewrite Hs, Ho. rewrite (bool_decide_ext _ (Inbox.hash_of (message_id msg) ∈
      window (hashes (accepted r)))) by apply elem_of_list_to_set.
    case_bool_decide as Hin; simpl; [repeat eexists; try done; by rewrite <-Ho|].
    subst order. destruct (evict_window (hashes (accepted r)) (Inbox.hash_of (message_id msg))) as [-> Hnd']; [done|done|].
    eexists _, _, _, _, _. split; [reflexivity|]. split; [|done].
    assert (Hw : hashes (accepted r) ++ [Inbox.hash_of (message_id msg)] = hashes (accepted r ++ [msg])).
    { unfold hashes. by rewrite fmap_app. }
    rewrite Hw in *. split; simpl; [done|done|done| |].
    + rewrite flat_insert, <-app_assoc, (Permutation_app_comm [msg]), app_assoc, <-flat_split. by rewrite Hl.
    + rewrite len_app, Ht. done.
  - eexists _, _, _, _, _. split; [reflexivity|]. split; [by split|]. simpl. by rewrite flat_iter.
  - eexists _, _, _, _, _. split; [reflexivity|]. by split.
  - eexists _, _, _, _, _. split; [reflexivity|]. split; [done|]. simpl. by rewrite Ht.
Qed.

Lemma answers_memory os seen order ms total r : mem_rel seen order ms total r ->
  exists l, answers os (Inbox.Memory seen order ms total) = Some l /\ Forall2 same l (spec_answers os r).
Proof.
  revert seen order ms total r. induction os as [|o os IH]; intros seen order ms total r Hr; [by eexists|].
  cbn [answers spec_answers]. destruct (inbox_step_memory o _ _ _ _ _ Hr) as (? & ? & ? & ? & a & -> & Hr' & Ha).
  destruct (spec_step o r) as [r' a']. simpl in *. destruct (IH _ _ _ _ _ Hr') as (l & -> & Hl).
  eexists. split; [reflexivity|]. by constructor.
Qed.
End Run.

(** ** The persistent representation *)

Definition is_receive (o : op) : bool := match o with Receive _ => true | _ => false end.

Section Persistent.
Context {B : Type} `{HB : StorageBackend B} {HBS : StorageBackendSpec B} {HBR : Reliable B}.
Context `{HC : Bincode ReceivedMessage.t} {HCS : BincodeSpec ReceivedMessage.t}.
Context `{HCI : Bincode (gset Bytes)} {HCIS : BincodeSpec (gset Bytes)}.
Context `{HH : Blake3} {MI : MapIter string (list ReceivedMessage.t)} {SI : SetIter Bytes}.

Definition ser (m : ReceivedMessage.t) : Bytes := unwrap_or [] (bincode_serialize m).

Definition entry (m : ReceivedMessage.t) : Bytes * Bytes := (message_key m, ser m).

Record db_rel (db : B) (r : ref) : Prop := {
  dr_seen : Inbox.load_seen db = list_to_set (hashes (accepted r));
  dr_entries : map_to_list (with_prefix MESSAGES_PREFIX (contents db)) ≡ₚ entry <$> live r;
  dr_nodup : NoDup (hashes (accepted r));
  dr_live : forall m, m ∈ live r -> m ∈ accepted r;
  dr_plain : forall m, m ∈ accepted r -> plain (message_id m)
}.

Lemma received_ser m : bincode_serialize m = Ok (ser m).
Proof. unfold ser. destruct (bincode_serialize_total m) as [d Hd]. by rewrite Hd. Qed.

Lemma received_deser m : bincode_deserialize (ser m) = Ok m.
Proof. apply bincode_roundtrip, received_ser. Qed.

Lemma message_key_eq m :
  message_key m = MESSAGES_PREFIX ++ as_bytes (sender_id m) ++ 95 :: as_bytes (message_id m).
Proof. unfold message_key. by rewrite !as_bytes_app. Qed.

Lemma message_key_prefix m : MESSAGES_PREFIX `prefix_of` message_key m.
Proof. rewrite message_key_eq. by eexists. Qed.

Lemma seen_key_prefix : ~ MESSAGES_PREFIX `prefix_of` SEEN_IDS_KEY.
Proof. by_eval. Qed.

(** A message id without the separator can be read off the key. *)
Lemma message_key_id m m' : plain (message_id m) -> plain (message_id m') ->
  message_key m = message_key m' -> message_id m = message_id m'.
Proof.
  intros Hp Hp' H. rewrite !message_key_eq in H. apply app_inv_head in H.
  apply (f_equal reverse) in H. rewrite !reverse_app, !reverse_cons, <-!app_assoc in H. simpl in H.
  apply as_bytes_inj. apply (inj reverse). eapply separator_prefix with (l := reverse (as_bytes (sender_id m)))
    (l' := reverse (as_bytes (sender_id m'))); rewrite ?elem_of_reverse; [done..|]. by rewrite H.
Qed.

Lemma scan_live db r : db_rel db r ->
  exists results, scan_prefix MESSAGES_PREFIX db = Ok results /\ results ≡ₚ entry <$> live r /\
    Inbox.decoded results ≡ₚ live r.
Proof.
  intros Hr. destruct (scan_total MESSAGES_PREFIX db) as [l Hl]. exists l.
  pose proof (scan_prefix_ok _ _ _ Hl) as Hp. rewrite (dr_entries _ _ Hr) in Hp.
  split_and!; [done|done|]. unfold Inbox.decoded. rewrite Hp. clear Hl Hp Hr.
  induction (live r) as [|m ms IH]; [done|]. simpl. rewrite received_deser. simpl. by rewrite IH.
Qed.

Lemma load_seen_put (X : gset Bytes) d (db' : B) : bincode_serialize X = Ok d ->
  contents db' !! SEEN_IDS_KEY = Some d -> Inbox.load_seen db' = X.
Proof.
  intros Hd Hc. unfold Inbox.load_seen. destruct (get_total SEEN_IDS_KEY db') as [o Hg]. rewrite Hg.
  rewrite (get_ok _ _ _ Hg), Hc. by rewrite (bincode_roundtrip _ _ Hd).
Qed.

(** Writing a key outside a prefix leaves the entries under the prefix alone. *)
Lemma with_prefix_insert_ne (p k v : Bytes) (c : gmap Bytes Bytes) : ~ p `prefix_of` k ->
  with_prefix p (<[k := v]> c) = with_prefix p c.
Proof. intros H. unfold with_prefix. by apply map_filter_insert_not. Qed.

Lemma with_prefix_insert (p k v : Bytes) (c : gmap Bytes Bytes) : p `prefix_of` k ->
  with_prefix p (<[k := v]> c) = <[k := v]> (with_prefix p c).
Proof. intros H. unfold with_prefix. by apply map_filter_insert_True. Qed.

Lemma evict_any_small (l : list Bytes) : NoDup l -> len l <= MAX_SEEN_IDS ->
  Inbox.evict_any (list_to_set l) = list_to_set l.
Proof.
  intros Hl Hn. unfold Inbox.evict_any. rewrite size_list_to_set by done. fold (len l).
  by rewrite Z.gtb_ltb, (proj2 (Z.ltb_ge _ _)).
Qed.

(** The record of a message whose hash is new is not there yet. *)
Lemma db_fresh db r msg : db_rel db r -> plain (message_id msg) ->
  Inbox.hash_of (message_id msg) ∉ hashes (accepted r) ->
  with_prefix MESSAGES_PREFIX (contents db) !! message_key msg = None.
Proof.
  intros Hr Hp Hnew. destruct (with_prefix _ _ !! _) as [v|] eqn:Hv; [|done]. apply elem_of_map_to_list in Hv.
  rewrite (dr_entries _ _ Hr) in Hv. apply list_elem_of_fmap in Hv as (m & Heq & Hm).
  apply (f_equal fst) in Heq. cbn [fst entry] in Heq.
  apply message_key_id in Heq; [|done|by apply (dr_plain _ _ Hr), (dr_live _ _ Hr)].
  destruct Hnew. rewrite Heq. apply list_elem_of_fmap. exists m. split; [done|]. by apply (dr_live _ _ Hr).
Qed.

(** [receive] of a new message below the limit of ids. *)
Lemma db_receive db r msg : db_rel db r -> plain (message_id msg) ->
  Inbox.hash_of (message_id msg) ∉ hashes (accepted r) -> len (accepted r) < MAX_SEEN_IDS ->
  exists db', Inbox.receive msg (Inbox.Persistent db) = Some (Inbox.Persistent db', true) /\
    db_rel db' (mk_ref (accepted r ++ [msg]) (live r ++ [msg])).
Proof.
  intros Hr Hp Hnew Hroom. unfold Inbox.receive. rewrite (dr_seen _ _ Hr).
  rewrite bool_decide_false by (by rewrite elem_of_list_to_set).
  set (h := Inbox.hash_of (message_id msg)) in *.
  assert (Hset : {[h]} ∪ list_to_set (hashes (accepted r)) =@{gset Bytes} list_to_set (hashes (accepted r ++ [msg]))).
  { unfold hashes. rewrite fmap_app, list_to_set_app_L. simpl. rewrite (right_id_L ∅ (∪)). apply union_comm_L. }
  assert (Hnd : NoDup (hashes (accepted r ++ [msg]))).
  { unfold hashes. rewrite fmap_app. apply NoDup_app. split_and!; [apply (dr_nodup _ _ Hr)| |apply NoDup_singleton].
    intros x Hx. simpl. rewrite list_elem_of_singleton. by intros ->. }
  assert (Hev : Inbox.evict_any (list_to_set (hashes (accepted r ++ [msg]))) = list_to_set (hashes (accepted r ++ [msg]))).
  { apply evict_any_small; [done|]. unfold hashes, len. rewrite length_fmap. fold (len (accepted r ++ [msg])).
    rewrite len_app. change (len [msg]) with 1. lia. }
  rewrite Hset, Hev.
  destruct (bincode_serialize_total (list_to_set (hashes (accepted r ++ [msg])) : gset Bytes)) as [d Hd].
  rewrite Hd, received_ser. destruct (put_total SEEN_IDS_KEY d db) as [db1 H1]. rewrite H1. simpl.
  destruct (put_total (message_key msg) (ser msg) db1) as [db2 H2]. rewrite H2. simpl.
  eexists. split; [reflexivity|].
  assert (Hc : contents (flush_ignored db2) = <[message_key msg := ser msg]> (<[SEEN_IDS_KEY := d]> (contents db))).
  { by rewrite flush_contents, (put_ok _ _ _ _ H2), (put_ok _ _ _ _ H1). }
  pose proof (db_fresh _ _ _ Hr Hp Hnew) as Hfresh.
  split; simpl.
  - apply (load_seen_put _ d); [done|]. rewrite Hc, lookup_insert_ne, lookup_insert_eq; [done|].
    intros Heq. apply seen_key_prefix. rewrite <-Heq. apply message_key_prefix.
  - rewrite Hc, with_prefix_insert, with_prefix_insert_ne by (apply message_key_prefix || apply seen_key_prefix).
    rewrite map_to_list_insert by done. rewrite (dr_entries _ _ Hr), fmap_app. simpl.
    by rewrite (Permutation_app_comm _ [entry msg]).
  - done.
  - intros m. rewrite !elem_of_app. intros [Hm|Hm]; [left; by apply (dr_live _ _ Hr)|by right].
  - intros m. rewrite elem_of_app, list_elem_of_singleton. intros [Hm| ->]; [by apply (dr_plain _ _ Hr)|done].
Qed.

(** Removing every record under the prefix. *)
Lemma db_emptied db db' r : db_rel db r ->
  contents db' = filter (fun kv => kv.1 ∉ (entry <$> live r).*1) (contents db) ->
  db_rel db' (mk_ref (accepted r) []).
Proof.
  intros Hr Hc.
  assert (Hkeys : forall k v, with_prefix MESSAGES_PREFIX (contents db) !! k = Some v -> k ∈ (entry <$> live r).*1).
  { intros k v Hv. apply elem_of_map_to_list in Hv. rewrite (dr_entries _ _ Hr) in Hv.
    apply list_elem_of_fmap. by exists (k, v). }
  split; simpl; [| |apply (dr_nodup _ _ Hr)|by intros m ?%elem_of_nil|apply (dr_plain _ _ Hr)].
  - rewrite <-(dr_seen _ _ Hr). unfold Inbox.load_seen.
    destruct (get_total SEEN_IDS_KEY db) as [o1 H1], (get_total SEEN_IDS_KEY db') as [o2 H2]. rewrite H1, H2.
    rewrite (get_ok _ _ _ H1), (get_ok _ _ _ H2), Hc.
    assert (Hs : SEEN_IDS_KEY ∉ (entry <$> live r).*1).
    { intros Hin. rewrite <-list_fmap_compose in Hin. apply list_elem_of_fmap in Hin as (m & Heq & _).
      apply seen_key_prefix. rewrite Heq. apply message_key_prefix. }
    f_equal. rewrite map_lookup_filter. destruct (contents db !! SEEN_IDS_KEY) as [d|]; [|done]. simpl.
    by rewrite option_guard_True.
  - rewrite Hc. replace (with_prefix MESSAGES_PREFIX _) with (∅ : gmap Bytes Bytes); [done|].
    symmetry. apply map_empty. intros k. apply eq_None_not_Some. intros [v Hv].
    unfold with_prefix in Hv. rewrite !map_lookup_filter_Some in Hv. destruct Hv as [[Hv Hk] Hpre].
    apply Hk. eapply Hkeys. apply map_lookup_filter_Some. by split.
Qed.

Lemma remove_scan db r results : db_rel db r -> results ≡ₚ entry <$> live r ->
  db_rel (flush_ignored (remove_all results.*1 db)) (mk_ref (accepted r) []).
Proof.
  intros Hr Hp. eapply db_emptied; [done|]. rewrite flush_contents, remove_all_contents.
  apply map_filter_ext. intros k v _. simpl. by rewrite Hp.
Qed.

Lemma inbox_step_persistent o db r : db_rel db r ->
  match o with
  | Receive msg => plain (message_id msg) /\ len (accepted r) < MAX_SEEN_IDS
  | _ => True
  end ->
  exists db' a, step o (Inbox.Persistent db) = Some (Inbox.Persistent db', a) /\
    db_rel db' (spec_step o r).1 /\ same a (spec_step o r).2.
Proof.
  intros Hr Ho. destruct o as [msg| | |]; cbn [step spec_step].
  - destruct Ho as [Hp Hroom].
    assert (Hw : window (hashes (accepted r)) = hashes (accepted r)).
    { unfold window. rewrite (proj2 (Nat.sub_0_le _ _)); [apply drop_0|]. unfold hashes. rewrite length_fmap.
      pose proof max_seen_nat. unfold len in Hroom. lia. }
    rewrite Hw. case_bool_decide as Hin.
    + exists db, (ABool false). unfold Inbox.receive. rewrite (dr_seen _ _ Hr).
      rewrite bool_decide_true by (by rewrite elem_of_list_to_set). done.
    + destruct (db_receive db r msg) as (db' & -> & Hr'); [done..|]. by exists db', (ABool true).
  - unfold Inbox.drain_received_messages. destruct (scan_live db r Hr) as (l & -> & Hl & Hd). simpl.
    eexists _, _. split; [reflexivity|]. split; [by apply remove_scan|done].
  - unfold Inbox.clear_messages. destruct (scan_live db r Hr) as (l & -> & Hl & Hd).
    eexists _, _. split; [reflexivity|]. split; [by apply remove_scan|done].
  - eexists _, _. split; [reflexivity|]. split; [done|]. simpl. f_equal.
    destruct (count_total MESSAGES_PREFIX db) as [n Hn]. rewrite Hn. simpl.
    rewrite (count_prefix_ok _ _ _ Hn), <-length_map_to_list, (dr_entries _ _ Hr), length_fmap. done.
Qed.

(** How many messages a sequence of operations offers, at most all accepted. *)
Definition offered (os : list op) : Z := len (filter (fun o => is_receive o = true) os).

Definition plain_ids (os : list op) : Prop :=
  Forall (fun o => match o with Receive msg => plain (message_id msg) | _ => True end) os.

Lemma answers_persistent os db r : db_rel db r -> plain_ids os ->
  len (accepted r) + offered os <= MAX_SEEN_IDS ->
  exists l, answers os (Inbox.Persistent db) = Some l /\ Forall2 same l (spec_answers os r).
Proof.
  revert db r. induction os as [|o os IH]; intros db r Hr Hp Hn; [by eexists|].
  inv Hp. unfold offered in *. rewrite filter_cons in Hn. cbn [answers spec_answers].
  pose proof (len_nonneg (filter (fun o => is_receive o = true) os)).
  destruct (inbox_step_persistent o db r Hr) as (db' & a & -> & Hr' & Ha).
  { destruct o; [|done..]. simpl in Hn. rewrite len_cons in Hn. split; [done|lia]. }
  destruct (spec_step o r) as [r' a'] eqn:Hs. simpl in *.
  assert (Hn' : len (accepted r') + len (filter (fun o => is_receive o = true) os) <= MAX_SEEN_IDS).
  { destruct o; simpl in Hs, Hn; [|inv Hs; simpl; lia..]. rewrite len_cons in Hn. case_bool_decide; inv Hs; simpl.
    - lia.
    - rewrite len_app. change (len [msg]) with 1. lia. }
  destruct (IH db' r' Hr' ltac:(done) Hn') as (l & -> & Hl). eexists. split; [reflexivity|]. by constructor.
Qed.
End Persistent.
End InboxHistory.

Import InboxHistory.

Section InboxTheorems.
Context {B : Type} `{HB : StorageBackend B} {HBS : StorageBackendSpec B} {HBR : Reliable B}.
Context `{HC : Bincode ReceivedMessage.t} {HCS : BincodeSpec ReceivedMessage.t}.
Context `{HCI : Bincode (gset Bytes)} {HCIS : BincodeSpec (gset Bytes)}.
Context `{HH : Blake3} {MI : MapIter string (list ReceivedMessage.t)} {SI : SetIter Bytes}.

End InboxTheorems.

Definition demo_received (id : string) : ReceivedMessage.t := ReceivedMessage.mk id "alice" [7; 8] 100 None.

Definition demo_ops : list op :=
  [Receive (demo_received "m1"); Receive (demo_received "m2"); Receive (demo_received "m1"); Total; Drain;
   Receive (demo_received "m2"); Drain].

#[local] Existing Instances map_iter_default set_iter_default sample_bincode sample_bincode_spec
  MemoryStorage.storage_backend MemoryStorage.storage_backend_spec sample_blake3.

