(* ===== verification/StoragePressure.v ===== *)
(** * Storage pressure (core/src/store/relay_custody.rs)

    How much space the custody store may use, given how full the device is.
    Sizes are [u64]; the products are computed with 128 bits, as in the code. *)

From S2P Require Import Prelude.

Definition DEVICE_USAGE_CEILING_PERCENT : Z := 90.
Definition FALLBACK_STORAGE_TOTAL_BYTES : Z := 8 * 1024 * 1024 * 1024.

Inductive StoragePressureBand : Type :=
| UpTo20Pct
| From20To50Pct
| From50To70Pct
| From70To80Pct
| From80To90Pct
| EmergencyOver90Pct.

#[export] Instance StoragePressureBand_eq_dec : EqDecision StoragePressureBand.
Proof. solve_decision. Defined.

Module DeviceStorageSnapshot.
Record t : Type := mk { total_bytes : Z; used_bytes : Z }.
End DeviceStorageSnapshot.

Module StoragePressureState.
Record t : Type := mk {
  band : StoragePressureBand;
  hard_ceiling_bytes : Z;
  target_quota_bytes : Z;
  scm_bytes : Z
}.

Definition emergency_mode (self : t) : bool := bool_decide (band self = EmergencyOver90Pct).
End StoragePressureState.

Module StoragePressureReport.
Record t : Type := mk {
  emergency_mode : bool;
  hard_ceiling_bytes : Z;
  target_quota_bytes : Z;
  scm_bytes_before : Z;
  scm_bytes_after : Z;
  purged_records : Z;
  purged_bytes : Z
}.
End StoragePressureReport.

Module StoragePressureContext.
Record t : Type := mk { total_bytes : Z; non_scm_used_bytes : Z }.

Definition from_snapshot (snapshot : DeviceStorageSnapshot.t) (scm_bytes : Z) : option t :=
  if DeviceStorageSnapshot.total_bytes snapshot =? 0 then None else
  let used_bytes := Z.min (DeviceStorageSnapshot.used_bytes snapshot)
                      (DeviceStorageSnapshot.total_bytes snapshot) in
  Some (mk (DeviceStorageSnapshot.total_bytes snapshot) (saturating_sub used_bytes scm_bytes)).

Definition state_for_scm_bytes (self : t) (scm_bytes : Z) : StoragePressureState.t :=
  let used_bytes := saturating_add 64 (non_scm_used_bytes self) scm_bytes in
  let used_percent_basis_points := wrap 64 (used_bytes * 10000 / total_bytes self) in
  let free_bytes := saturating_sub (total_bytes self) used_bytes in
  let ninety_percent_total := wrap 64 (total_bytes self * DEVICE_USAGE_CEILING_PERCENT / 100) in
  let hard_ceiling_bytes := saturating_sub ninety_percent_total (non_scm_used_bytes self) in
  let '(band, band_percent) :=
    if used_percent_basis_points <=? 2000 then (UpTo20Pct, 70)
    else if used_percent_basis_points <=? 5000 then (From20To50Pct, 45)
    else if used_percent_basis_points <=? 7000 then (From50To70Pct, 25)
    else if used_percent_basis_points <=? 8000 then (From70To80Pct, 10)
    else if used_percent_basis_points <=? 9000 then (From80To90Pct, 3)
    else (EmergencyOver90Pct, 0) in
  let dynamic_target :=
    if bool_decide (band = EmergencyOver90Pct) then hard_ceiling_bytes
    else wrap 64 (free_bytes * band_percent / 100) in
  let target_quota_bytes := Z.min dynamic_target hard_ceiling_bytes in
  StoragePressureState.mk band hard_ceiling_bytes target_quota_bytes scm_bytes.

End StoragePressureContext.

(** The snapshot assumed when the device cannot be probed; the environment
    variables, when set to a number, are arguments. *)
Definition synthetic_storage_snapshot (env_total env_used : option Z) (scm_bytes : Z)
    : option DeviceStorageSnapshot.t :=
  let total_bytes :=
    match env_total with
    | Some value => if value >? 0 then value else FALLBACK_STORAGE_TOTAL_BYTES
    | None => FALLBACK_STORAGE_TOTAL_BYTES
    end in
  let used_bytes := match env_used with Some value => Z.max value scm_bytes | None => scm_bytes end in
  if total_bytes =? 0 then None
  else Some (DeviceStorageSnapshot.mk total_bytes (Z.min used_bytes total_bytes)).

(** ** Bounds *)

Section Bounds.
Import StoragePressureContext.

Definition context_ok (c : t) : Prop := 0 < total_bytes c < 2 ^ 64 /\ u64 (non_scm_used_bytes c).

Lemma from_snapshot_ok s scm c : u64 (DeviceStorageSnapshot.total_bytes s) ->
  u64 (DeviceStorageSnapshot.used_bytes s) -> 0 <= scm -> from_snapshot s scm = Some c ->
  context_ok c /\ total_bytes c = DeviceStorageSnapshot.total_bytes s /\
  non_scm_used_bytes c <= total_bytes c.
Proof.
  unfold from_snapshot, context_ok, fits, saturating_sub. intros Ht Hu Hs H. case_hyp H; [done|].
  bool_to_prop. inv H. cbn. lia.
Qed.

Lemma wrap64_div z t : 0 <= z -> 0 < t -> z / t < 2 ^ 64 -> wrap 64 (z / t) = z / t.
Proof. intros Hz Ht Hlt. apply wrap_small. split; [apply Z.div_pos; lia|done]. Qed.

(** The hard ceiling keeps the device below 90 percent, and the quota is below it. *)
Lemma state_quota c scm : context_ok c -> u64 scm ->
  let st := state_for_scm_bytes c scm in
  0 <= StoragePressureState.target_quota_bytes st <= StoragePressureState.hard_ceiling_bytes st /\
  StoragePressureState.hard_ceiling_bytes st =
    saturating_sub (total_bytes c * 90 / 100) (non_scm_used_bytes c).
Proof.
  intros [Ht Hn] Hs st.
  assert (H90 : wrap 64 (total_bytes c * DEVICE_USAGE_CEILING_PERCENT / 100) = total_bytes c * 90 / 100).
  { apply wrap64_div; [unfold DEVICE_USAGE_CEILING_PERCENT; lia|lia|].
    unfold DEVICE_USAGE_CEILING_PERCENT. apply Z.div_lt_upper_bound; lia. }
  unfold st, state_for_scm_bytes. rewrite H90. cbv zeta.
  assert (Hc : 0 <= saturating_sub (total_bytes c * 90 / 100) (non_scm_used_bytes c)) by (unfold saturating_sub; lia).
  assert (Hw : forall z, 0 <= wrap 64 z) by (intros z; apply Z.mod_pos_bound; lia).
  repeat case_match; simplify_eq; cbn [StoragePressureState.target_quota_bytes StoragePressureState.hard_ceiling_bytes];
    (split; [split; [apply Z.min_glb; [first [apply Hw|done]|done]|apply Z.le_min_r]|done]).
Qed.

(** A store that stays within the hard ceiling leaves the device at most 90
    percent full, if the rest of the device does. *)
Lemma ceiling_keeps_device c scm : context_ok c -> 0 <= scm ->
  scm <= saturating_sub (total_bytes c * 90 / 100) (non_scm_used_bytes c) -> 0 < scm ->
  non_scm_used_bytes c + scm <= total_bytes c * 90 / 100.
Proof. intros _ _. unfold saturating_sub. lia. Qed.

(** Emergency mode is on exactly above 90 percent. *)
Lemma emergency_iff c scm : context_ok c -> u64 scm -> non_scm_used_bytes c + scm <= total_bytes c ->
  StoragePressureState.emergency_mode (state_for_scm_bytes c scm) = true <->
  9000 < (non_scm_used_bytes c + scm) * 10000 / total_bytes c.
Proof.
  intros [Ht Hn] Hs Hfit. unfold StoragePressureState.emergency_mode. rewrite bool_decide_eq_true.
  unfold state_for_scm_bytes.
  assert (Hu : saturating_add 64 (non_scm_used_bytes c) scm = non_scm_used_bytes c + scm).
  { unfold saturating_add, fits in *. lia. }
  rewrite Hu, (wrap64_div ((non_scm_used_bytes c + scm) * 10000)); unfold fits in *; [|lia|lia|].
  2:{ apply Z.div_lt_upper_bound; [lia|]. nia. }
  set (p := (non_scm_used_bytes c + scm) * 10000 / total_bytes c).
  repeat case_match; simplify_eq; cbn [StoragePressureState.band]; bool_to_prop; split; intros; (done || lia).
Qed.
End Bounds.
