(* ===== verification/RelayRegistry.v ===== *)
(** * The registry of identities and devices (core/src/store/relay_custody.rs)

    A relay keeps for every identity the device that may collect its messages:
    the registration state machine (active, handover, abandoned), stored in the
    backend together with a log of its transitions.

    The registry and the custody store share one backend and the global
    sequence counter: both are fields of [world].  The clock is an argument and
    does not move during a call.  UUIDs and hexadecimal coding are third-party
    crates. *)

From S2P Require Import Prelude Drift Backend State Text MeshStore.

Definition REGISTRATION_STATE_PREFIX : string := "relay_registration_state_".
Definition REGISTRATION_AUDIT_PREFIX : string := "relay_registration_audit_".
Definition REGISTRATION_STALE_TAKEOVER_MS : Z := 15 * 24 * 60 * 60 * 1000.
Definition HANDOVER_STALE_COLLAPSE_MS : Z := 15 * 24 * 60 * 60 * 1000.

Module RegistrationState.

Inductive t : Type :=
| Active (device_id : string) (seniority_timestamp : Z)
| Handover (from_device_id to_device_id : string) (initiated_at : Z)
| Abandoned (device_id : string) (abandoned_at : Z).

#[global] Instance t_eq_dec : EqDecision t.
Proof. solve_decision. Defined.

#[global] Instance t_layout : Layout t.
Proof.
  apply (layout_iso
    (fun s => match s with
              | Active d n => (0, d, d, n)
              | Handover a b n => (1, a, b, n)
              | Abandoned d n => (2, d, d, n)
              end)
    (fun '(k, a, b, n) => if k =? 0 then Active a n else if k =? 1 then Handover a b n else Abandoned a n)).
  by intros [].
Defined.
End RegistrationState.

Module RegistrationRecord.

Record t : Type := mk { identity_id : string; state : RegistrationState.t; updated_at_ms : Z }.

#[global] Instance t_eq_dec : EqDecision t.
Proof. solve_decision. Defined.

#[global] Instance t_layout : Layout t.
Proof.
  apply (layout_iso (fun r => (identity_id r, state r, updated_at_ms r)) (fun '(i, s, u) => mk i s u)).
  by intros [].
Defined.

#[global] Instance t_countable : Countable t := layout_countable.
End RegistrationRecord.

Module RegistrationTransition.

Record t : Type := mk {
  identity_id : string;
  from_state : option RegistrationState.t;
  to_state : RegistrationState.t;
  reason : string;
  at_ms : Z;
  sequence : Z
}.

#[global] Instance t_eq_dec : EqDecision t.
Proof. solve_decision. Defined.

#[global] Instance t_layout : Layout t.
Proof.
  apply (layout_iso (fun r => (identity_id r, from_state r, to_state r, reason r, at_ms r, sequence r))
    (fun '(i, f, s, r, a, q) => mk i f s r a q)).
  by intros [].
Defined.

#[global] Instance t_countable : Countable t := layout_countable.
End RegistrationTransition.

Module RegistrationStateInfo.
Record t : Type := mk { state : string; device_id : option string; seniority_timestamp : option Z }.
End RegistrationStateInfo.

Inductive CustodyError : Type := DeviceMismatch | AbandonedIdentity | NoRegistration.

#[export] Instance CustodyError_eq_dec : EqDecision CustodyError.
Proof. solve_decision. Defined.

Definition as_code (e : CustodyError) : string :=
  match e with
  | DeviceMismatch => "identity_device_mismatch"
  | AbandonedIdentity => "identity_abandoned"
  | NoRegistration => "identity_registration_missing"
  end.

Inductive CustodyEnforcement : Type :=
| EnforceActive (identity_id device_id : string)
| Redirected (identity_id from_device_id to_device_id : string).

Inductive RegistrySideEffect : Type :=
| NoEffect
| Migrate (identity_id from_device_id to_device_id : string)
| Purge (identity_id : string) (device_id : option string).

Inductive CustodyCompatMode : Type := PhaseA | PhaseB.

(** ** The state the registry and the custody store work on *)

Record world (B : Type) : Type := mk_world {
  db : B;
  custody_sequence : Z;
  ws13_requests : Z;
  legacy_requests : Z;
  compat_mode : CustodyCompatMode
}.

Arguments mk_world {B}.
Arguments db {B}.
Arguments custody_sequence {B}.
Arguments ws13_requests {B}.
Arguments legacy_requests {B}.
Arguments compat_mode {B}.

Definition set_db {B} (b : B) (w : world B) : world B :=
  mk_world b (custody_sequence w) (ws13_requests w) (legacy_requests w) (compat_mode w).

Section Storage.
Context {B : Type} `{HB : StorageBackend B}.

Definition update_db (f : B -> outcome string B) : M (world B) string unit := fun w =>
  match f (db w) with
  | Ok b => (set_db b w, Ok tt)
  | Err e => (w, Err e)
  | Panic => (w, Panic)
  end.

Definition db_put (k : string) (v : Bytes) : M (world B) string unit := update_db (put (as_bytes k) v).

Definition db_remove (k : string) : M (world B) string unit := update_db (Backend.remove (as_bytes k)).

Definition db_flush : M (world B) string unit := update_db flush.

Definition db_get (k : string) : M (world B) string (option Bytes) := fun w =>
  (w, Backend.get (as_bytes k) (db w)).

Definition db_scan (p : string) : M (world B) string ScanResult := fun w =>
  (w, scan_prefix (as_bytes p) (db w)).

(** [CUSTODY_SEQUENCE.fetch_add(1, Relaxed)]. *)
Definition next_sequence : M (world B) string Z := fun w =>
  (mk_world (db w) (wrap 64 (custody_sequence w + 1)) (ws13_requests w) (legacy_requests w) (compat_mode w),
   Ok (custody_sequence w)).
End Storage.

(** ** Identifiers *)

(** The crates [uuid] (the version number of a string that parses) and [hex]. *)
Class IdCrates : Type := {
  uuid_version : string -> option Z;
  hex_decode : string -> option Bytes;
  id_hex :: Hex;
  id_blake3 :: Blake3
}.

Definition is_hex_64 (value : string) : bool :=
  (String.length value =? 64)%nat && forallb is_ascii_hexdigit (as_bytes value).

Definition normalize_identity_id (identity_id : string) : outcome string string :=
  let normalized := to_lowercase (trim identity_id) in
  if negb (is_hex_64 normalized) then Err "registration_identity_id_invalid"%string else Ok normalized.

Section Ids.
Context `{IdCrates}.

Definition normalize_uuid_v4 (value error : string) : outcome string string :=
  let normalized := trim value in
  match uuid_version normalized with
  | None => Err error
  | Some version => if negb (version =? 4) then Err error else Ok normalized
  end.

Definition derive_identity_id_from_public_key_hex (value : string) : option string :=
  if negb (is_hex_64 value) then None else
  bytes ← hex_decode value;
  if negb (len bytes =? 32) then None else Some (hex_encode (blake3_hash bytes)).
End Ids.

Definition registration_key (identity_id : string) : string := REGISTRATION_STATE_PREFIX +:+ identity_id.

(** ** The registry *)

Module RelayRegistry.
Import RegistrationState.

Section Code.
Context {B : Type} `{HB : StorageBackend B} `{HI : IdCrates}.
Context `{HCR : Bincode RegistrationRecord.t} `{HCT : Bincode RegistrationTransition.t}.
Context (now : Z).

Abbreviation M' := (M (world B) string).

Definition length_of : world B -> Z := fun w =>
  unwrap_or 0 (count_prefix (as_bytes REGISTRATION_STATE_PREFIX) (db w)).

Definition record_exists (identity_id : string) : M' bool :=
  r ← db_get (registration_key identity_id);
  mret (bool_decide (is_Some r)).

Definition normalize_lookup_identity (identity_hint : string) : M' (option string) :=
  let trimmed := to_lowercase (trim identity_hint) in
  if str_is_empty trimmed || negb (is_hex_64 trimmed) then mret None else
  known ← record_exists trimmed;
  if known : bool then mret (Some trimmed) else
  match derive_identity_id_from_public_key_hex trimmed with
  | Some derived =>
      known ← record_exists derived;
      if known : bool then mret (Some derived) else mret (Some trimmed)
  | None => mret (Some trimmed)
  end.

Definition transition_key (at_ms sequence : Z) (identity_id : string) : string :=
  REGISTRATION_AUDIT_PREFIX +:+ show_padded 20 at_ms +:+ "_" +:+ show_padded 6 sequence +:+ "_" +:+ identity_id.

Definition record_transition (identity_id : string) (from_state : option RegistrationState.t)
    (to_state : RegistrationState.t) (reason : string) (at_ms : Z) : M' unit :=
  sequence ← next_sequence;
  let transition := RegistrationTransition.mk identity_id from_state to_state reason at_ms sequence in
  bytes ← lift (map_err (fun e => "serialize registration transition failed: " +:+ e)
                  (bincode_serialize transition));
  db_put (transition_key at_ms sequence identity_id) bytes.

Definition persist_state (identity_id : string) (from_state : option RegistrationState.t)
    (state : RegistrationState.t) (reason : string) (updated_at_ms : Z) : M' unit :=
  let record := RegistrationRecord.mk identity_id state updated_at_ms in
  bytes ← lift (map_err (fun e => "serialize registration state failed: " +:+ e) (bincode_serialize record));
  db_put (registration_key identity_id) bytes;;
  record_transition identity_id from_state state reason updated_at_ms;;
  db_flush.

(** Reads a registration; a handover that is too old is abandoned on the way. *)
Definition get_record_by_identity_id (identity_id : string) : M' (option RegistrationRecord.t) :=
  r ← db_get (registration_key identity_id);
  match r with
  | None => mret None
  | Some bytes =>
      record ← lift (map_err (fun e => "deserialize registration state failed: " +:+ e)
                       (bincode_deserialize bytes));
      match RegistrationRecord.state record with
      | Handover from_device_id _ initiated_at =>
          if saturating_sub now initiated_at >? HANDOVER_STALE_COLLAPSE_MS then
            let collapsed := Abandoned from_device_id now in
            persist_state identity_id (Some (RegistrationRecord.state record)) collapsed
              "registration_handover_stale_timeout" now;;
            mret (Some (RegistrationRecord.mk identity_id collapsed now))
          else mret (Some record)
      | _ => mret (Some record)
      end
  end.

(** The decision of [register]: the new state, the side effect and the reason. *)
Definition register_decision (identity_id device_id : string) (seniority_timestamp : Z)
    (current : option RegistrationRecord.t)
    : outcome string (RegistrationState.t * RegistrySideEffect * string) :=
  let active := Active device_id seniority_timestamp in
  match current with
  | None => Ok (active, NoEffect, "registration_activated"%string)
  | Some record =>
      match RegistrationRecord.state record with
      | Active active_device_id _ =>
          if bool_decide (active_device_id = device_id)
          then Ok (active, NoEffect, "registration_refreshed"%string)
          else if saturating_sub now (RegistrationRecord.updated_at_ms record) >? REGISTRATION_STALE_TAKEOVER_MS
          then Ok (active, Purge identity_id (Some active_device_id), "registration_stale_takeover"%string)
          else Err "registration_active_conflict"%string
      | Handover _ to_device_id _ =>
          if bool_decide (to_device_id = device_id)
          then Ok (active, NoEffect, "registration_handover_completed"%string)
          else Err "registration_handover_conflict"%string
      | Abandoned _ _ => Ok (active, NoEffect, "registration_reactivated"%string)
      end
  end.

Definition register (identity_id device_id : string) (seniority_timestamp : Z)
    : M' (RegistrationState.t * RegistrySideEffect) :=
  identity_id ← lift (normalize_identity_id identity_id);
  device_id ← lift (normalize_uuid_v4 device_id "registration_device_id_invalid");
  if seniority_timestamp =? 0 then fail "registration_seniority_invalid"%string else
  current ← get_record_by_identity_id identity_id;
  d ← lift (register_decision identity_id device_id seniority_timestamp current);
  let '(state, side_effect, reason) := d in
  persist_state identity_id (RegistrationRecord.state <$> current) state reason now;;
  mret (state, side_effect).

Definition deregister_decision (identity_id from_device_id : string) (target_device_id : option string)
    (current : RegistrationRecord.t)
    : outcome string (RegistrationState.t * RegistrySideEffect * string) :=
  match RegistrationRecord.state current with
  | Active device_id _ =>
      if bool_decide (device_id = from_device_id) then
        match target_device_id with
        | Some target =>
            Ok (Handover from_device_id target now, Migrate identity_id from_device_id target,
                "registration_handover_started"%string)
        | None =>
            Ok (Abandoned from_device_id now, Purge identity_id None, "registration_abandoned"%string)
        end
      else Err "registration_device_mismatch"%string
  | Handover current_from current_to initiated_at =>
      if bool_decide (current_from = from_device_id) && bool_decide (target_device_id = Some current_to)
      then Ok (Handover current_from current_to initiated_at, NoEffect,
               "registration_handover_reaffirmed"%string)
      else Err "registration_handover_conflict"%string
  | Abandoned device_id _ =>
      if bool_decide (device_id = from_device_id)
      then Ok (Abandoned device_id now, NoEffect, "registration_abandon_reaffirmed"%string)
      else Err "registration_device_mismatch"%string
  end.

Definition deregister (identity_id from_device_id : string) (target_device_id : option string)
    : M' (RegistrationState.t * RegistrySideEffect) :=
  identity_id ← lift (normalize_identity_id identity_id);
  from_device_id ← lift (normalize_uuid_v4 from_device_id "deregistration_from_device_id_invalid");
  target_device_id ←
    match target_device_id with
    | Some target =>
        t ← lift (normalize_uuid_v4 target "deregistration_target_device_id_invalid");
        mret (Some t)
    | None => mret None
    end;
  if bool_decide (target_device_id = Some from_device_id)
  then fail "deregistration_target_matches_source"%string else
  current ← get_record_by_identity_id identity_id;
  match current with
  | None => fail "registration_not_found"%string
  | Some current =>
      d ← lift (deregister_decision identity_id from_device_id target_device_id current);
      let '(state, side_effect, reason) := d in
      persist_state identity_id (Some (RegistrationRecord.state current)) state reason now;;
      mret (state, side_effect)
  end.

Definition get_state (identity_id : string) : M' (option RegistrationState.t) :=
  id ← normalize_lookup_identity identity_id;
  match id with
  | None => mret None
  | Some identity_id =>
      r ← get_record_by_identity_id identity_id;
      mret (RegistrationRecord.state <$> r)
  end.

Definition get_state_info (identity_id : string) : M' RegistrationStateInfo.t :=
  r ← attempt (get_state identity_id);
  mret
    (match mjoin r with
     | Some (Active device_id seniority) =>
         RegistrationStateInfo.mk "active" (Some device_id) (Some seniority)
     | Some (Handover _ to_device_id _) => RegistrationStateInfo.mk "handover" (Some to_device_id) None
     | Some (Abandoned device_id _) => RegistrationStateInfo.mk "abandoned" (Some device_id) None
     | None => RegistrationStateInfo.mk "none" None None
     end).

Definition enforce_custody (identity_id device_id : string) : M (world B) CustodyError CustodyEnforcement :=
  id ← map_error (fun _ => NoRegistration) (normalize_lookup_identity identity_id);
  match id with
  | None => fail NoRegistration
  | Some identity_id =>
      device_id ← map_error (fun _ => NoRegistration)
                    (lift (normalize_uuid_v4 device_id "registration_device_id_invalid"));
      state ← map_error (fun _ => NoRegistration) (get_state identity_id);
      match state with
      | Some (Active active_device_id _) =>
          if bool_decide (active_device_id = device_id) then mret (EnforceActive identity_id device_id)
          else fail DeviceMismatch
      | Some (Handover from_device_id to_device_id _) =>
          if bool_decide (device_id = from_device_id) || bool_decide (device_id = to_device_id)
          then mret (Redirected identity_id from_device_id to_device_id)
          else fail DeviceMismatch
      | Some (Abandoned _ _) => fail AbandonedIdentity
      | None => fail NoRegistration
      end
  end.

(** The order of [sort_by_key(|t| (t.at_ms, t.sequence))]. *)
Definition transition_cmp (a b : RegistrationTransition.t) : comparison :=
  match Z.compare (RegistrationTransition.at_ms a) (RegistrationTransition.at_ms b) with
  | Eq => Z.compare (RegistrationTransition.sequence a) (RegistrationTransition.sequence b)
  | c => c
  end.

Definition transitions_for_identity (identity_id : string) : M' (list RegistrationTransition.t) :=
  id ← attempt (normalize_lookup_identity identity_id);
  match mjoin id with
  | None => mret []
  | Some identity_id =>
      results ← attempt (db_scan REGISTRATION_AUDIT_PREFIX);
      let transitions :=
        filter (fun t => RegistrationTransition.identity_id t = identity_id)
          (omap (fun kv => ok (bincode_deserialize kv.2)) (default [] results)) in
      mret (sort_by transition_cmp transitions)
  end.

End Code.
End RelayRegistry.
