(* ===== verification/RelayCustody.v ===== *)
(** * Relay custody (core/src/store/relay_custody.rs)

    Messages that a relay keeps for peers that are offline: accepting custody,
    the life cycle of a record (accepted, dispatching, delivered), the audit
    log, purging under storage pressure and the effects of registration changes
    on the queue.

    The registry shares the backend (the stores made by [in_memory],
    [persistent] and [for_local_peer]).  The clock, the readings of the
    device probe (a write reads it again after the first purge) and the values
    of the environment variables are arguments; the clock does not move during
    a call.  The security audit pipeline, whose result the code ignores,
    is left out. *)

From S2P Require Import Prelude Drift Backend State Text MeshStore StoragePressure RelayRegistry.

Definition CUSTODY_MSG_PREFIX : string := "relay_custody_msg_".
Definition CUSTODY_AUDIT_PREFIX : string := "relay_custody_audit_".
Definition MAX_PENDING_PER_DESTINATION : Z := 10000.

Inductive CustodyState : Type := Accepted | Dispatching | Delivered.

#[export] Instance CustodyState_eq_dec : EqDecision CustodyState.
Proof. solve_decision. Defined.

#[export] Instance CustodyState_layout : Layout CustodyState.
Proof.
  apply (layout_iso (fun s => match s with Accepted => 0 | Dispatching => 1 | Delivered => 2 end)
    (fun z => if z =? 0 then Accepted else if z =? 1 then Dispatching else Delivered)).
  by intros [].
Defined.

Definition state_as_str (s : CustodyState) : string :=
  match s with
  | Accepted => "accepted"
  | Dispatching => "dispatching"
  | Delivered => "delivered"
  end.

Module CustodyMessage.

Record t : Type := mk {
  custody_id : string;
  relay_message_id : string;
  source_peer_id : string;
  destination_peer_id : string;
  recipient_identity_id : option string;
  intended_device_id : option string;
  envelope_data : Bytes;
  state : CustodyState;
  accepted_at_ms : Z;
  updated_at_ms : Z;
  delivery_attempts : Z
}.

#[global] Instance t_eq_dec : EqDecision t.
Proof. solve_decision. Defined.

#[global] Instance t_layout : Layout t.
Proof.
  apply (layout_iso
    (fun m => (custody_id m, relay_message_id m, source_peer_id m, destination_peer_id m,
               recipient_identity_id m, intended_device_id m, envelope_data m, state m,
               (accepted_at_ms m, updated_at_ms m, delivery_attempts m)))
    (fun '(a, b, c, d, e, f, g, h, (i, j, k)) => mk a b c d e f g h i j k)).
  by intros [].
Defined.

#[global] Instance t_countable : Countable t := layout_countable.

Definition set_state (s : CustodyState) (now attempts : Z) (m : t) : t :=
  mk (custody_id m) (relay_message_id m) (source_peer_id m) (destination_peer_id m)
     (recipient_identity_id m) (intended_device_id m) (envelope_data m) s (accepted_at_ms m) now attempts.

Definition set_device (d : string) (now : Z) (m : t) : t :=
  mk (custody_id m) (relay_message_id m) (source_peer_id m) (destination_peer_id m)
     (recipient_identity_id m) (Some d) (envelope_data m) (state m) (accepted_at_ms m) now
     (delivery_attempts m).
End CustodyMessage.

Module CustodyTransition.

Record t : Type := mk {
  custody_id : string;
  relay_message_id : string;
  source_peer_id : string;
  destination_peer_id : string;
  from_state : option CustodyState;
  to_state : CustodyState;
  reason : string;
  at_ms : Z;
  sequence : Z
}.

#[global] Instance t_eq_dec : EqDecision t.
Proof. solve_decision. Defined.

#[global] Instance t_layout : Layout t.
Proof.
  apply (layout_iso
    (fun m => (custody_id m, relay_message_id m, source_peer_id m, destination_peer_id m,
               from_state m, to_state m, reason m, at_ms m, sequence m))
    (fun '(a, b, c, d, e, f, g, h, i) => mk a b c d e f g h i)).
  by intros [].
Defined.

#[global] Instance t_countable : Countable t := layout_countable.
End CustodyTransition.

(** A stored record with the size it was read with. *)
Record StoredCustodyRecord : Type := mk_stored { record : CustodyMessage.t; serialized_bytes : Z }.

Definition destination_prefix (destination_peer_id : string) : string :=
  CUSTODY_MSG_PREFIX +:+ destination_peer_id +:+ "_".

Definition custody_key (destination_peer_id custody_id : string) : string :=
  destination_prefix destination_peer_id +:+ custody_id.

Definition audit_key (at_ms sequence : Z) (custody_id : string) (to_state : CustodyState) : string :=
  CUSTODY_AUDIT_PREFIX +:+ show_padded 20 at_ms +:+ "_" +:+ show_padded 6 sequence +:+ "_" +:+
  custody_id +:+ "_" +:+ state_as_str to_state.

(** The lexicographic order of strings, and of the keys the code sorts by. *)
Definition str_cmp (a b : string) : comparison := MeshStore.id_cmp (as_bytes a) (as_bytes b).

Module RelayCustodyStore.
Import CustodyMessage.

Section Code.
Context {B : Type} `{HB : StorageBackend B} `{HI : IdCrates}.
Context `{HCR : Bincode RegistrationRecord.t} `{HCT : Bincode RegistrationTransition.t}.
Context `{HCM : Bincode CustodyMessage.t} `{HCA : Bincode CustodyTransition.t}.
Context (now : Z) (probe probe_again : option DeviceStorageSnapshot.t) (env_total env_used : option Z).
Context (local_identity : option string).

Abbreviation M' := (M (world B) string).

(** *** Records and the audit log *)

Definition put_message (record : CustodyMessage.t) : M' unit :=
  bytes ← lift (map_err (fun e => "serialize custody record failed: " +:+ e) (bincode_serialize record));
  db_put (custody_key (destination_peer_id record) (custody_id record)) bytes;;
  db_flush.

Definition remove_message (destination_peer_id custody_id : string) : M' unit :=
  db_remove (custody_key destination_peer_id custody_id);;
  db_flush.

Definition get_message (destination_peer_id custody_id : string) : M' (option CustodyMessage.t) :=
  r ← db_get (custody_key destination_peer_id custody_id);
  match r with
  | Some bytes =>
      record ← lift (map_err (fun e => "deserialize custody record failed: " +:+ e) (bincode_deserialize bytes));
      mret (Some record)
  | None => mret None
  end.

Definition require_record (destination_peer_id custody_id : string) : M' CustodyMessage.t :=
  r ← get_message destination_peer_id custody_id;
  match r with
  | Some record => mret record
  | None => fail ("custody record not found: " +:+ custody_id)
  end.

Definition record_transition (record : CustodyMessage.t) (from_state : option CustodyState)
    (to_state : CustodyState) (reason : string) : M' unit :=
  sequence ← next_sequence;
  let transition := CustodyTransition.mk (custody_id record) (relay_message_id record)
    (source_peer_id record) (destination_peer_id record) from_state to_state reason now sequence in
  bytes ← lift (map_err (fun e => "serialize custody transition failed: " +:+ e) (bincode_serialize transition));
  db_put (audit_key now sequence (custody_id record) to_state) bytes;;
  db_flush.

(** The records under a prefix that deserialize. *)
Definition scan_messages (prefix : string) : M' (list CustodyMessage.t) :=
  results ← db_scan prefix;
  mret (omap (fun kv => ok (bincode_deserialize kv.2)) results).

(** *** Queries *)

Definition find_existing (destination_peer_id relay_message_id : string) : M' (option CustodyMessage.t) :=
  records ← scan_messages (destination_prefix destination_peer_id);
  mret (List.find (fun r => bool_decide (CustodyMessage.relay_message_id r = relay_message_id)) records).

Definition has_message_for_destination (destination_peer_id relay_message_id : string) : M' bool :=
  r ← attempt (find_existing destination_peer_id relay_message_id);
  mret (bool_decide (is_Some (mjoin r))).

Definition pending_cmp (a b : CustodyMessage.t) : comparison :=
  lex (Z.compare (accepted_at_ms a) (accepted_at_ms b)) (str_cmp (custody_id a) (custody_id b)).

Definition pending_for_destination (destination_peer_id : string) (limit : Z) : M' (list CustodyMessage.t) :=
  records ← attempt (scan_messages (destination_prefix destination_peer_id));
  let records := filter (fun r => state r = Accepted) (default [] records) in
  mret (truncate limit (sort_by pending_cmp records)).

Definition is_identity_related_ids (source_peer_id destination_peer_id : string) : bool :=
  match local_identity with
  | None => false
  | Some local_identity =>
      bool_decide (source_peer_id = local_identity) || bool_decide (destination_peer_id = local_identity)
  end.

Definition is_identity_related_record (record : CustodyMessage.t) : bool :=
  is_identity_related_ids (source_peer_id record) (destination_peer_id record).

Definition current_scm_storage_bytes : M' Z :=
  records ← db_scan CUSTODY_MSG_PREFIX;
  mret (wrap 64 (foldr Z.add 0 (map (fun kv => len kv.2) records))).

Definition load_stored_records : M' (list StoredCustodyRecord) :=
  records ← db_scan CUSTODY_MSG_PREFIX;
  mret (omap (fun kv => (fun r => mk_stored r (len kv.2)) <$> ok (bincode_deserialize kv.2)) records).

(** *** Purging *)

Definition delivery_priority (r : CustodyMessage.t) : Z := if bool_decide (state r = Delivered) then 0 else 1.

Definition purge_cmp (a b : StoredCustodyRecord) : comparison :=
  lex (bool_cmp (is_identity_related_record (record a)) (is_identity_related_record (record b)))
  (lex (Z.compare (delivery_priority (record a)) (delivery_priority (record b)))
  (lex (Z.compare (accepted_at_ms (record a)) (accepted_at_ms (record b)))
       (str_cmp (custody_id (record a)) (custody_id (record b))))).

(** One candidate of the purge loop: records and bytes purged, bytes still required. *)
Definition purge_candidate (reason : string) (c : StoredCustodyRecord) (acc : Z * Z * Z) : M' (Z * Z * Z) :=
  let '(purged_records, purged_bytes, required) := acc in
  if required =? 0 then mret acc else
  record_transition (record c) (Some (state (record c))) (state (record c)) (reason +:+ "_purged");;
  remove_message (destination_peer_id (record c)) (custody_id (record c));;
  mret (purged_records + 1, saturating_add 64 purged_bytes (serialized_bytes c),
        saturating_sub required (serialized_bytes c)).

Definition purge_oldest_by_policy (required_bytes : Z) (reason : string) : M' (Z * Z) :=
  if required_bytes =? 0 then mret (0, 0) else
  candidates ← load_stored_records;
  acc ← for_loop (purge_candidate reason) (sort_by purge_cmp candidates) (0, 0, required_bytes);
  let '(purged_records, purged_bytes, _) := acc in
  mret (purged_records, purged_bytes).

(** The snapshot in use: the probe's, or the synthetic one. *)
Definition snapshot_or_synthetic (scm_bytes : Z) : option DeviceStorageSnapshot.t :=
  match probe with
  | Some s => Some s
  | None => synthetic_storage_snapshot env_total env_used scm_bytes
  end.

Definition context_of (snapshot : option DeviceStorageSnapshot.t) (scm_bytes : Z)
    : M' StoragePressureContext.t :=
  match s ← snapshot; StoragePressureContext.from_snapshot s scm_bytes with
  | Some c => mret c
  | None => fail "invalid_storage_snapshot"%string
  end.

Definition storage_pressure_state : M' (option StoragePressureState.t) :=
  scm ← attempt current_scm_storage_bytes;
  mret (scm_bytes ← scm;
        snapshot ← snapshot_or_synthetic scm_bytes;
        context ← StoragePressureContext.from_snapshot snapshot scm_bytes;
        Some (StoragePressureContext.state_for_scm_bytes context scm_bytes)).

Definition enforce_storage_pressure_internal (incoming : option CustodyMessage.t)
    : M' StoragePressureReport.t :=
  scm_before ← current_scm_storage_bytes;
  context ← context_of (snapshot_or_synthetic scm_before) scm_before;
  let state := StoragePressureContext.state_for_scm_bytes context scm_before in
  if StoragePressureState.emergency_mode state &&
     (match incoming with Some r => negb (is_identity_related_record r) | None => false end)
  then
    let need := saturating_sub scm_before (StoragePressureState.hard_ceiling_bytes state) in
    purged ← (if need >? 0 then purge_oldest_by_policy need "storage_pressure_emergency" else mret (0, 0));
    let '(purged_records, purged_bytes) := purged in
    mret (StoragePressureReport.mk true (StoragePressureState.hard_ceiling_bytes state)
            (StoragePressureState.target_quota_bytes state) scm_before
            (saturating_sub scm_before purged_bytes) purged_records purged_bytes)
  else
  let required := saturating_sub scm_before (StoragePressureState.target_quota_bytes state) in
  first ← (if required >? 0 then purge_oldest_by_policy required "storage_pressure_target_quota"
           else mret (0, 0));
  let '(records1, bytes1) := first in
  let scm_bytes := saturating_sub scm_before bytes1 in
  let state := StoragePressureContext.state_for_scm_bytes context scm_bytes in
  let required := saturating_sub scm_bytes (StoragePressureState.hard_ceiling_bytes state) in
  second ← (if required >? 0 then purge_oldest_by_policy required "storage_pressure_hard_ceiling"
            else mret (0, 0));
  let '(records2, bytes2) := second in
  let scm_bytes := saturating_sub scm_bytes bytes2 in
  let state := StoragePressureContext.state_for_scm_bytes context scm_bytes in
  mret (StoragePressureReport.mk (StoragePressureState.emergency_mode state)
          (StoragePressureState.hard_ceiling_bytes state) (StoragePressureState.target_quota_bytes state)
          scm_before scm_bytes (records1 + records2) (saturating_add 64 bytes1 bytes2)).

Definition enforce_storage_pressure : M' StoragePressureReport.t := enforce_storage_pressure_internal None.

Definition serialized_record_bytes (record : CustodyMessage.t) : outcome string Z :=
  let! bytes := map_err (fun e => "serialize custody record failed: " +:+ e) (bincode_serialize record) in
  Ok (len bytes).

Definition capacity_msg (projected target hard : Z) : string :=
  "storage_pressure_capacity_exceeded: projected=" +:+ show projected +:+ " target=" +:+ show target +:+
  " hard_ceiling=" +:+ show hard.

(** One purge of [enforce_storage_pressure_for_write]: when the write does not
    fit into [limit], purge what is missing; the bytes used afterwards. *)
Definition make_room (scm_bytes write_bytes limit : Z) (reason : string) : M' Z :=
  let projected := saturating_add 64 scm_bytes write_bytes in
  if projected >? limit then
    purged ← purge_oldest_by_policy (saturating_sub projected limit) reason;
    mret (saturating_sub scm_bytes purged.2)
  else mret scm_bytes.

Definition enforce_storage_pressure_for_write (incoming : CustodyMessage.t) : M' unit :=
  report ← enforce_storage_pressure_internal (Some incoming);
  match probe_again with
  | None => mret tt
  | Some snapshot =>
      write_bytes ← lift (serialized_record_bytes incoming);
      let scm_bytes := StoragePressureReport.scm_bytes_after report in
      context ← context_of (Some snapshot) scm_bytes;
      let state := StoragePressureContext.state_for_scm_bytes context scm_bytes in
      if StoragePressureState.emergency_mode state && negb (is_identity_related_record incoming)
      then fail "emergency_mode_non_critical_rejected"%string else
      scm_bytes ← make_room scm_bytes write_bytes (StoragePressureState.target_quota_bytes state)
                    "storage_pressure_target_quota";
      let state := StoragePressureContext.state_for_scm_bytes context scm_bytes in
      scm_bytes ← make_room scm_bytes write_bytes (StoragePressureState.hard_ceiling_bytes state)
                    "storage_pressure_hard_ceiling";
      let state := StoragePressureContext.state_for_scm_bytes context scm_bytes in
      let projected := saturating_add 64 scm_bytes write_bytes in
      if (projected >? StoragePressureState.target_quota_bytes state) ||
         (projected >? StoragePressureState.hard_ceiling_bytes state)
      then fail (capacity_msg projected (StoragePressureState.target_quota_bytes state)
                   (StoragePressureState.hard_ceiling_bytes state))
      else mret tt
  end.

(** *** Accepting custody *)

Definition count_ws13 : M' unit := modify (fun w =>
  mk_world (db w) (custody_sequence w) (wrap 64 (ws13_requests w + 1)) (legacy_requests w) (compat_mode w)).

Definition count_legacy : M' unit := modify (fun w =>
  mk_world (db w) (custody_sequence w) (ws13_requests w) (wrap 64 (legacy_requests w + 1)) (compat_mode w)).

Definition normalize_device (intended_device_id : option string) : option string :=
  d ← intended_device_id;
  let value := trim d in
  if str_is_empty value then None else Some value.

(** The check of the recipient's registration; the reason for the log of a
    request without a device. *)
Definition check_device (identity_id device_id : option string) : M' (option string) :=
  match identity_id, device_id with
  | Some identity_id, Some device_id =>
      map_error as_code (RelayRegistry.enforce_custody now identity_id device_id);;
      count_ws13;;
      mret None
  | Some _, None =>
      mode ← gets compat_mode;
      count_legacy;;
      mret (Some (match mode with
                  | PhaseA => "custody_accepted_compat_phase_a"%string
                  | PhaseB => "custody_accepted_compat_phase_b"%string
                  end))
  | None, _ => mret None
  end.

Definition accept_custody (source_peer_id destination_peer_id relay_message_id : string) (envelope_data : Bytes)
    (recipient_identity_id intended_device_id : option string) : M' CustodyMessage.t :=
  existing ← find_existing destination_peer_id relay_message_id;
  match existing with
  | Some existing => mret existing
  | None =>
  identity ← match recipient_identity_id with
             | Some id => r ← attempt (RelayRegistry.normalize_lookup_identity id); mret (mjoin r)
             | None => mret None
             end;
  let device := normalize_device intended_device_id in
  legacy_reason ← check_device identity device;
  pending ← pending_for_destination destination_peer_id (2 ^ 64 - 1);
  if len pending >=? MAX_PENDING_PER_DESTINATION
  then fail ("custody queue full for destination " +:+ destination_peer_id) else
  sequence ← next_sequence;
  let custody_id := relay_message_id +:+ "-" +:+ show now +:+ "-" +:+ show sequence in
  let message := CustodyMessage.mk custody_id relay_message_id source_peer_id destination_peer_id
    identity device envelope_data Accepted now now 0 in
  enforce_storage_pressure_for_write message;;
  put_message message;;
  record_transition message None Accepted (default "custody_accepted"%string legacy_reason);;
  mret message
  end.

(** *** The life cycle of a record *)

Definition CUSTODY_MAX_ATTEMPTS : Z := 12.

Definition mark_dispatching (destination_peer_id custody_id reason : string) : M' unit :=
  record ← require_record destination_peer_id custody_id;
  match state record with
  | Dispatching | Delivered => mret tt
  | Accepted =>
      if delivery_attempts record >=? CUSTODY_MAX_ATTEMPTS
      then fail ("Max delivery attempts (12) exceeded for custody " +:+ custody_id) else
      let updated := set_state Dispatching now (saturating_add 32 (delivery_attempts record) 1) record in
      put_message updated;;
      record_transition updated (Some Accepted) Dispatching reason
  end.

Definition mark_dispatch_failed (destination_peer_id custody_id reason : string) : M' unit :=
  record ← require_record destination_peer_id custody_id;
  match state record with
  | Accepted | Delivered => mret tt
  | Dispatching =>
      let updated := set_state Accepted now (delivery_attempts record) record in
      put_message updated;;
      record_transition updated (Some Dispatching) Accepted reason
  end.

Definition mark_delivered (destination_peer_id custody_id reason : string) : M' unit :=
  record ← require_record destination_peer_id custody_id;
  match state record with
  | Delivered => mret tt
  | from_state =>
      let updated := set_state Delivered now (delivery_attempts record) record in
      record_transition updated (Some from_state) Delivered reason;;
      remove_message destination_peer_id custody_id
  end.

(** One record of [converge_delivered_for_message]. *)
Definition converge_record (dest reason : string) (record : CustodyMessage.t) (converged : Z) : M' Z :=
  match state record with
  | Delivered => mret converged
  | from_state =>
      let updated := set_state Delivered now (delivery_attempts record) record in
      record_transition updated (Some from_state) Delivered reason;;
      remove_message dest (custody_id record);;
      mret (converged + 1)
  end.

Definition converge_delivered_for_message (dest relay_message_id reason : string) : M' Z :=
  records ← scan_messages (destination_prefix dest);
  for_loop (converge_record dest reason)
    (filter (fun r => CustodyMessage.relay_message_id r = relay_message_id) records) 0.

Definition audit_cmp (a b : CustodyTransition.t) : comparison :=
  lex (Z.compare (CustodyTransition.at_ms a) (CustodyTransition.at_ms b))
      (Z.compare (CustodyTransition.sequence a) (CustodyTransition.sequence b)).

Definition transitions_for_custody (custody_id : string) : M' (list CustodyTransition.t) :=
  results ← attempt (db_scan CUSTODY_AUDIT_PREFIX);
  mret (sort_by audit_cmp
    (filter (fun t => CustodyTransition.custody_id t = custody_id)
       (omap (fun kv => ok (bincode_deserialize kv.2)) (default [] results)))).

Definition audit_count : world B -> Z := fun w =>
  unwrap_or 0 (count_prefix (as_bytes CUSTODY_AUDIT_PREFIX) (db w)).

(** *** Registration changes and the queue *)

Definition migrate_pending_identity_device (identity_id from_device_id to_device_id reason : string) : M' Z :=
  id ← RelayRegistry.normalize_lookup_identity identity_id;
  match id with
  | None => mret 0
  | Some identity_id =>
      records ← scan_messages CUSTODY_MSG_PREFIX;
      for_loop (fun r migrated =>
          let updated := set_device to_device_id now r in
          put_message updated;;
          record_transition updated (Some (state updated)) (state updated) reason;;
          mret (migrated + 1))
        (filter (fun r => state r <> Delivered /\ recipient_identity_id r = Some identity_id /\
                          intended_device_id r = Some from_device_id) records) 0
  end.

Definition purge_pending_identity_messages (identity_id : string) (device_id : option string) (reason : string)
    : M' Z :=
  id ← RelayRegistry.normalize_lookup_identity identity_id;
  match id with
  | None => mret 0
  | Some identity_id =>
      records ← scan_messages CUSTODY_MSG_PREFIX;
      for_loop (fun r purged =>
          record_transition r (Some (state r)) (state r) reason;;
          remove_message (destination_peer_id r) (custody_id r);;
          mret (purged + 1))
        (filter (fun r => state r <> Delivered /\ recipient_identity_id r = Some identity_id /\
                          (device_id = None \/ intended_device_id r = device_id)) records) 0
  end.

Definition apply_registry_side_effect (e : RegistrySideEffect) : M' unit :=
  match e with
  | NoEffect => mret tt
  | Migrate identity_id from_device_id to_device_id =>
      migrate_pending_identity_device identity_id from_device_id to_device_id
        "identity_handover_queue_migrated";;
      mret tt
  | Purge identity_id device_id =>
      purge_pending_identity_messages identity_id device_id "identity_queue_purged";;
      mret tt
  end.

Definition register_identity (identity_id device_id : string) (seniority_timestamp : Z) : M' RegistrationState.t :=
  outcome ← RelayRegistry.register now identity_id device_id seniority_timestamp;
  apply_registry_side_effect outcome.2;;
  mret outcome.1.

Definition deregister_identity (identity_id from_device_id : string) (target_device_id : option string)
    : M' RegistrationState.t :=
  outcome ← RelayRegistry.deregister now identity_id from_device_id target_device_id;
  apply_registry_side_effect outcome.2;;
  mret outcome.1.

Definition set_compat_mode (mode : CustodyCompatMode) : M' unit := modify (fun w =>
  mk_world (db w) (custody_sequence w) (ws13_requests w) (legacy_requests w) mode).

Definition adoption_stats (w : world B) : Z * Z := (ws13_requests w, legacy_requests w).

End Code.
End RelayCustodyStore.
