(* ===== verification/CustodyProps.v ===== *)
(** * Who may collect an identity's messages, and what the relay keeps

    The calls of the custody store as one type of [call]s; the registration of
    an identity moves only along the transitions of [moves], whatever the
    backend does, and every stored record is one that the code wrote. *)

From S2P Require Import Prelude Drift Backend State Text MeshStore StoragePressure RelayRegistry RelayCustody.

(** ** Invariants of the contents of the backend *)

Section Contents.
Context {B : Type} `{HB : StorageBackend B} {HBS : StorageBackendSpec B}.
Implicit Types (P Q : gmap Bytes Bytes -> Prop).

Definition on (P : gmap Bytes Bytes -> Prop) (w : world B) : Prop := P (contents (db w)).

(** [P] speaks only of the keys that start with [p]. *)
Definition about (p : string) (P : gmap Bytes Bytes -> Prop) : Prop :=
  forall k v c, ~ as_bytes p `prefix_of` k -> P c -> P (<[k := v]> c) /\ P (delete k c).

Lemma holds_put P Q R k v : (forall c, P c -> Q (<[as_bytes k := v]> c)) -> (forall c, P c -> R c) ->
  holds (on P) (db_put k v) (fun _ => on Q) (on R).
Proof.
  intros HQ HR w Hw. unfold db_put, update_db.
  destruct (put (as_bytes k) v (db w)) as [b|e|] eqn:Hp; cbn; [|by apply HR..].
  unfold on. cbn. rewrite (put_ok _ _ _ _ Hp). by apply HQ.
Qed.

Lemma keeps_put P k v : (forall c, P c -> P (<[as_bytes k := v]> c)) ->
  keeps (on P) (db_put k v) (fun _ => True).
Proof. intros H. eapply holds_conseq; [apply (holds_put P P P k v H)|..]; auto. Qed.

Lemma keeps_put_other p P k v : about p P -> ~ as_bytes p `prefix_of` as_bytes k ->
  keeps (on P) (db_put k v) (fun _ => True).
Proof. intros HP Hk. apply keeps_put. intros c Hc. by apply HP. Qed.

Lemma keeps_remove P k : (forall c, P c -> P (delete (as_bytes k) c)) ->
  keeps (on P) (db_remove k) (fun _ => True).
Proof.
  intros H w Hw. unfold db_remove, update_db.
  destruct (Backend.remove (as_bytes k) (db w)) as [b|e|] eqn:Hp; cbn; [|done..].
  split; [|done]. unfold on. cbn. rewrite (remove_ok _ _ _ Hp). by apply H.
Qed.

Lemma keeps_remove_other p P k : about p P -> ~ as_bytes p `prefix_of` as_bytes k ->
  keeps (on P) (db_remove k) (fun _ => True).
Proof. intros HP Hk. apply keeps_remove. intros c Hc. by apply (HP _ [] c Hk Hc). Qed.

Lemma keeps_flush P : keeps (on P) db_flush (fun _ => True).
Proof.
  intros w Hw. unfold db_flush, update_db. destruct (flush (db w)) as [b|e|] eqn:Hp; cbn; [|done..].
  split; [|done]. unfold on. cbn. by rewrite (flush_ok _ _ Hp).
Qed.

Lemma keeps_next_sequence P : keeps (on P) next_sequence (fun _ => True).
Proof. intros w Hw. by split. Qed.

Lemma keeps_get P k (Q : option Bytes -> Prop) : (forall c, P c -> Q (c !! as_bytes k)) ->
  keeps (on P) (db_get k) Q.
Proof.
  intros H w Hw. unfold db_get. destruct (Backend.get (as_bytes k) (db w)) as [r|e|] eqn:Hg; cbn; [|done..].
  split; [done|]. rewrite (get_ok _ _ _ Hg). by apply H.
Qed.

Lemma holds_get P R k : (forall c, P c -> R c) ->
  holds (on P) (db_get k) (fun r w => on P w /\ r = contents (db w) !! as_bytes k) (on R).
Proof.
  intros HR w Hw. unfold db_get. destruct (Backend.get (as_bytes k) (db w)) as [r|e|] eqn:Hg; cbn; [|by apply HR..].
  split; [done|]. by apply get_ok.
Qed.

Lemma keeps_scan P p (Q : Bytes * Bytes -> Prop) :
  (forall c k v, P c -> c !! k = Some v -> as_bytes p `prefix_of` k -> Q (k, v)) ->
  keeps (on P) (db_scan p) (Forall Q).
Proof.
  intros H w Hw. unfold db_scan. destruct (scan_prefix (as_bytes p) (db w)) as [r|e|] eqn:Hg; cbn; [|done..].
  split; [done|]. rewrite (scan_prefix_ok _ _ _ Hg). apply Forall_forall. intros [k v] Hkv.
  apply elem_of_map_to_list, map_lookup_filter_Some in Hkv as [Hk Hp]. by apply (H (contents (db w))).
Qed.

(** Computations that only touch the counters. *)
Lemma keeps_counters P (f : world B -> world B) : (forall w, db (f w) = db w) ->
  keeps (on P) (modify f : M (world B) string unit) (fun _ => True).
Proof. intros H. apply keeps_modify. intros w. unfold on. by rewrite H. Qed.
End Contents.

#[export] Hint Resolve keeps_flush keeps_next_sequence : keeps.

Ltac keeps_auto := repeat (keeps_step || solve [eauto with keeps]); try done.

(** ** The registry *)

Section Registry.
Context {B : Type} `{HB : StorageBackend B} {HBS : StorageBackendSpec B} `{HI : IdCrates}.
Context `{HCR : Bincode RegistrationRecord.t} {HCRS : BincodeSpec RegistrationRecord.t}.
Context `{HCT : Bincode RegistrationTransition.t}.
Implicit Types (P Q R : gmap Bytes Bytes -> Prop).

(** The registration that the contents of the backend hold for an identity. *)
Definition registration (id : string) (c : gmap Bytes Bytes) : option RegistrationRecord.t :=
  v ← c !! as_bytes (registration_key id); ok (bincode_deserialize v).

Lemma registration_key_inj a b : as_bytes (registration_key a) = as_bytes (registration_key b) -> a = b.
Proof.
  unfold registration_key. rewrite !as_bytes_app. intros H%app_inv_head. by apply as_bytes_inj.
Qed.

Lemma registration_key_prefix id : as_bytes REGISTRATION_STATE_PREFIX `prefix_of` as_bytes (registration_key id).
Proof. unfold registration_key. rewrite as_bytes_app. by eexists. Qed.

Lemma registration_insert id id' r v c : bincode_serialize r = Ok v ->
  registration id (<[as_bytes (registration_key id') := v]> c) = if decide (id = id') then Some r else registration id c.
Proof.
  intros Hv. unfold registration. case_decide as Hid; subst.
  - rewrite lookup_insert_eq. cbn. by rewrite (bincode_roundtrip _ _ Hv).
  - rewrite lookup_insert_ne; [done|]. intros H. by apply registration_key_inj in H.
Qed.

Lemma registration_other id k v c : ~ as_bytes REGISTRATION_STATE_PREFIX `prefix_of` k ->
  registration id (<[k := v]> c) = registration id c /\ registration id (delete k c) = registration id c.
Proof.
  intros Hk. assert (k <> as_bytes (registration_key id)) by (intros ->; by apply Hk, registration_key_prefix).
  unfold registration. by rewrite lookup_insert_ne, lookup_delete_ne.
Qed.

Lemma registration_about id (phi : option RegistrationRecord.t -> Prop) :
  about REGISTRATION_STATE_PREFIX (fun c => phi (registration id c)).
Proof. intros k v c Hk Hc. destruct (registration_other id k v c Hk) as [-> ->]. done. Qed.

Lemma transition_key_other at_ms n id :
  ~ as_bytes REGISTRATION_STATE_PREFIX `prefix_of` as_bytes (RelayRegistry.transition_key at_ms n id).
Proof. unfold RelayRegistry.transition_key. rewrite as_bytes_app. intros [l Hl]. by vm_compute in Hl. Qed.

Lemma keeps_reg_transition P id from to reason at_ms : about REGISTRATION_STATE_PREFIX P ->
  keeps (on P) (RelayRegistry.record_transition id from to reason at_ms) (fun _ => True).
Proof.
  intros HP. unfold RelayRegistry.record_transition. keeps_auto.
  eapply keeps_put_other; [done|]. apply transition_key_other.
Qed.

(** The write of a new registration: [P] before it, [Q] after it and [R] on failure. *)
Lemma holds_persist P Q R id from st reason upd :
  about REGISTRATION_STATE_PREFIX Q -> (forall c, P c -> R c) -> (forall c, Q c -> R c) ->
  (forall c v, P c -> bincode_serialize (RegistrationRecord.mk id st upd) = Ok v ->
    Q (<[as_bytes (registration_key id) := v]> c)) ->
  holds (on P) (RelayRegistry.persist_state id from st reason upd) (fun _ => on Q) (on R).
Proof.
  intros HQ HPR HQR Hput. unfold RelayRegistry.persist_state.
  eapply (holds_bind _ _ _ _ (fun v w => on P w /\ bincode_serialize (RegistrationRecord.mk id st upd) = Ok v)).
  { apply holds_lift; [|intros w Hw; by apply HPR]. intros v w Hv Hw. split; [done|]. by apply map_err_Ok in Hv. }
  intros v. apply holds_pure. intros Hv. eapply (holds_bind _ _ _ _ (fun _ => on Q)).
  { apply holds_put; auto. }
  intros _. apply (keeps_holds _ _ _ (fun _ => True)); [|intros w; apply HQR].
  keeps_auto. by apply keeps_reg_transition.
Qed.

(** *** Reading a registration *)

Definition stale (now : Z) (st : RegistrationState.t) : Prop :=
  match st with
  | RegistrationState.Handover _ _ initiated_at => now - initiated_at > HANDOVER_STALE_COLLAPSE_MS
  | _ => False
  end.

(** [P] survives the collapse of a stale handover of [id]. *)
Definition collapses (now : Z) (id : string) (P : gmap Bytes Bytes -> Prop) : Prop :=
  forall c r f t i v, P c -> registration id c = Some r ->
    RegistrationRecord.state r = RegistrationState.Handover f t i -> stale now (RegistrationRecord.state r) ->
    bincode_serialize (RegistrationRecord.mk id (RegistrationState.Abandoned f now) now) = Ok v ->
    P (<[as_bytes (registration_key id) := v]> c).

Lemma stale_test now f t i :
  (saturating_sub now i >? HANDOVER_STALE_COLLAPSE_MS) = true <-> stale now (RegistrationState.Handover f t i).
Proof. unfold stale, saturating_sub, HANDOVER_STALE_COLLAPSE_MS. rewrite Z.gtb_lt. lia. Qed.

Lemma about_and p P Q : about p P -> about p Q -> about p (fun c => P c /\ Q c).
Proof. intros HP HQ k v c Hk [H1 H2]. destruct (HP k v c Hk H1), (HQ k v c Hk H2). done. Qed.

Lemma holds_get_record P now id : about REGISTRATION_STATE_PREFIX P -> collapses now id P ->
  holds (on P) (RelayRegistry.get_record_by_identity_id now id)
    (fun cur => on (fun c => P c /\ cur = registration id c /\
       forall r, cur = Some r -> ~ stale now (RegistrationRecord.state r))) (on P).
Proof.
  intros HP Hc. unfold RelayRegistry.get_record_by_identity_id.
  eapply holds_bind; [by apply (holds_get P P)|]. intros [v|].
  2:{ apply holds_ret. intros w [Hw Hv]. split; [done|]. unfold registration. rewrite <-Hv. done. }
  eapply (holds_bind _ _ _ _ (fun r => on (fun c => P c /\ registration id c = Some r))).
  { apply holds_lift; [|intros w [Hw _]; exact Hw]. intros r w Hr%map_err_Ok [Hw Hv]. split; [done|].
    unfold registration. rewrite <-Hv. cbn. by rewrite Hr. }
  intros r. destruct (RegistrationRecord.state r) as [d n|f t i|d n] eqn:Hst.
  1,3: apply holds_ret; intros w [Hw Hr]; split; [done|]; split; [done|];
    intros r' Hr'; simplify_eq; rewrite Hst; intros [].
  destruct (saturating_sub now i >? HANDOVER_STALE_COLLAPSE_MS) eqn:Hs.
  - set (r' := RegistrationRecord.mk id (RegistrationState.Abandoned f now) now).
    eapply (holds_bind _ _ _ _ (fun _ => on (fun c => P c /\ registration id c = Some r'))).
    { eapply holds_persist; [apply about_and; [done|apply (registration_about id (fun x => x = Some r'))]|by intros c []|by intros c []|].
      intros c v' [Hw Hr] Hv'. split; [|by rewrite (registration_insert _ _ _ _ _ Hv'), decide_True].
      eapply Hc; [done|done|done|by rewrite Hst; apply stale_test|done]. }
    intros _. apply holds_ret. intros w [Hw Hr]. split; [done|]. split; [done|].
    intros r'' Hr''. simplify_eq. intros [].
  - apply holds_ret. intros w [Hw Hr]. split; [done|]. split; [done|]. intros r' Hr'. simplify_eq.
    rewrite Hst, <-(stale_test now f t i). congruence.
Qed.

Lemma keeps_get_record P now id : about REGISTRATION_STATE_PREFIX P -> collapses now id P ->
  keeps (on P) (RelayRegistry.get_record_by_identity_id now id) (fun _ => True).
Proof.
  intros HP Hc. eapply holds_conseq; [by apply holds_get_record|done| |done]. intros a w [Hw _]. by split.
Qed.

Lemma keeps_record_exists P id : keeps (on P) (RelayRegistry.record_exists id) (fun _ => True).
Proof. unfold RelayRegistry.record_exists. keeps_auto. by apply (keeps_get _ _ (fun _ => True)). Qed.
#[local] Hint Resolve keeps_record_exists : keeps.

Lemma keeps_normalize_lookup P hint :
  keeps (on P) (RelayRegistry.normalize_lookup_identity hint) (fun _ => True).
Proof. unfold RelayRegistry.normalize_lookup_identity. keeps_auto. Qed.
#[local] Hint Resolve keeps_normalize_lookup : keeps.

Section Reads.
Context (P : gmap Bytes Bytes -> Prop) (now : Z).
Context (HP : about REGISTRATION_STATE_PREFIX P) (Hc : forall id, collapses now id P).

Lemma keeps_get_state id : keeps (on P) (RelayRegistry.get_state now id) (fun _ => True).
Proof. unfold RelayRegistry.get_state. keeps_auto. by apply keeps_get_record. Qed.
#[local] Hint Resolve keeps_get_state : keeps.

Lemma keeps_get_state_info id : keeps (on P) (RelayRegistry.get_state_info now id) (fun _ => True).
Proof. unfold RelayRegistry.get_state_info. keeps_auto. Qed.

Lemma keeps_enforce_custody id d : keeps (on P) (RelayRegistry.enforce_custody now id d) (fun _ => True).
Proof. unfold RelayRegistry.enforce_custody. keeps_auto. Qed.
End Reads.

(** *** Changing a registration *)

Lemma keeps_register P now id d sen : about REGISTRATION_STATE_PREFIX P ->
  (forall id, collapses now id P) ->
  (forall id' d' c st eff reason v, normalize_identity_id id = Ok id' ->
    normalize_uuid_v4 d "registration_device_id_invalid" = Ok d' ->
    P c -> (forall r, registration id' c = Some r -> ~ stale now (RegistrationRecord.state r)) ->
    RelayRegistry.register_decision now id' d' sen (registration id' c) = Ok (st, eff, reason) ->
    bincode_serialize (RegistrationRecord.mk id' st now) = Ok v ->
    P (<[as_bytes (registration_key id') := v]> c)) ->
  keeps (on P) (RelayRegistry.register now id d sen) (fun _ => True).
Proof.
  intros HP Hc Hreg. unfold RelayRegistry.register.
  eapply keeps_bind; [apply keeps_lift_eq|]. intros id' Hid; cbn beta in Hid.
  eapply keeps_bind; [apply keeps_lift_eq|]. intros d' Hd; cbn beta in Hd. keeps_step; [apply keeps_fail|].
  eapply holds_bind; [by apply holds_get_record|]. intros cur.
  eapply (holds_bind _ _ _ _ (fun x => on (fun c => P c /\ (cur = registration id' c /\
      (forall r, cur = Some r -> ~ stale now (RegistrationRecord.state r))) /\
      RelayRegistry.register_decision now id' d' sen cur = Ok x))).
  { apply holds_lift; [|intros w [Hw _]; exact Hw]. intros x w Hx [Hw ?]. done. }
  intros [[st eff] reason]. eapply (holds_bind _ _ _ _ (fun _ => on P)).
  - apply holds_persist; [done|by intros c []|done|]. intros c v (Hw & [-> Hst] & Hx) Hv.
    eapply Hreg; eauto.
  - intros _. apply holds_ret. by split.
Qed.

Lemma keeps_deregister P now id d target : about REGISTRATION_STATE_PREFIX P ->
  (forall id, collapses now id P) ->
  (forall id' d' t' c r st eff reason v, normalize_identity_id id = Ok id' ->
    normalize_uuid_v4 d "deregistration_from_device_id_invalid" = Ok d' -> t' <> Some d' ->
    P c -> registration id' c = Some r -> ~ stale now (RegistrationRecord.state r) ->
    RelayRegistry.deregister_decision now id' d' t' r = Ok (st, eff, reason) ->
    bincode_serialize (RegistrationRecord.mk id' st now) = Ok v ->
    P (<[as_bytes (registration_key id') := v]> c)) ->
  keeps (on P) (RelayRegistry.deregister now id d target) (fun _ => True).
Proof.
  intros HP Hc Hreg. unfold RelayRegistry.deregister.
  eapply keeps_bind; [apply keeps_lift_eq|]. intros id' Hid; cbn beta in Hid.
  eapply keeps_bind; [apply keeps_lift_eq|]. intros d' Hd; cbn beta in Hd.
  eapply (keeps_bind _ _ _ (fun _ => True)). { keeps_auto. } intros t' _.
  case_bool_decide as Ht; [apply keeps_fail|].
  eapply holds_bind; [by apply holds_get_record|]. intros [cur|]; [|apply holds_fail; intros w [Hw _]; exact Hw].
  eapply (holds_bind _ _ _ _ (fun x => on (fun c => P c /\ (Some cur = registration id' c /\
      (forall r, Some cur = Some r -> ~ stale now (RegistrationRecord.state r))) /\
      RelayRegistry.deregister_decision now id' d' t' cur = Ok x))).
  { apply holds_lift; [|intros w [Hw _]; exact Hw]. intros x w Hx [Hw ?]. done. }
  intros [[st eff] reason]. eapply (holds_bind _ _ _ _ (fun _ => on P)).
  - apply holds_persist; [done|by intros c []|done|]. intros c v (Hw & [Hcur Hst] & Hx) Hv.
    eapply Hreg; eauto.
  - intros _. apply holds_ret. by split.
Qed.
End Registry.

(** ** The custody store *)

Section Store.
Context {B : Type} `{HB : StorageBackend B} {HBS : StorageBackendSpec B} `{HI : IdCrates}.
Context `{HCR : Bincode RegistrationRecord.t} {HCRS : BincodeSpec RegistrationRecord.t}.
Context `{HCT : Bincode RegistrationTransition.t} `{HCA : Bincode CustodyTransition.t}.
Context `{HCM : Bincode CustodyMessage.t} {HCMS : BincodeSpec CustodyMessage.t}.
Context (env_total env_used : option Z) (local_identity : option string).
Import RelayCustodyStore CustodyMessage.

(** The calls that can change the state, and what a call reads from outside. *)
Inductive call : Type :=
| Register (identity_id device_id : string) (seniority_timestamp : Z)
| Deregister (identity_id from_device_id : string) (target_device_id : option string)
| GetState (identity_id : string)
| GetStateInfo (identity_id : string)
| EnforceCustody (identity_id device_id : string)
| Accept (source destination relay_message_id : string) (data : Bytes) (identity device : option string)
| MarkDispatching (destination custody_id reason : string)
| MarkDispatchFailed (destination custody_id reason : string)
| MarkDelivered (destination custody_id reason : string)
| Converge (destination relay_message_id reason : string)
| EnforceStoragePressure
| SetCompatMode (mode : CustodyCompatMode).

Record reading : Type := Reading {
  at_time : Z;
  first_probe : option DeviceStorageSnapshot.t;
  second_probe : option DeviceStorageSnapshot.t
}.

Definition run_call (e : reading) (c : call) (w : world B) : world B :=
  let now := at_time e in
  match c with
  | Register id d sen => (register_identity now id d sen w).1
  | Deregister id d t => (deregister_identity now id d t w).1
  | GetState id => (RelayRegistry.get_state now id w).1
  | GetStateInfo id => (RelayRegistry.get_state_info now id w).1
  | EnforceCustody id d => (RelayRegistry.enforce_custody now id d w).1
  | Accept s d m data i dev =>
      (accept_custody now (first_probe e) (second_probe e) env_total env_used local_identity s d m data i dev w).1
  | MarkDispatching d i r => (mark_dispatching now d i r w).1
  | MarkDispatchFailed d i r => (mark_dispatch_failed now d i r w).1
  | MarkDelivered d i r => (mark_delivered now d i r w).1
  | Converge d m r => (converge_delivered_for_message now d m r w).1
  | EnforceStoragePressure =>
      (enforce_storage_pressure now (first_probe e) env_total env_used local_identity w).1
  | SetCompatMode m => (set_compat_mode m w).1
  end.

Definition run_calls (h : list (reading * call)) (w : world B) : world B :=
  foldl (fun w ec => run_call ec.1 ec.2 w) w h.

(** *** One walk through the code of every call

    [P] is an invariant of the contents, [good] what it says of the records. *)

Section Walk.
Context (P : gmap Bytes Bytes -> Prop) (good : CustodyMessage.t -> Prop) (e : reading).
Let now := at_time e.
Let readable (kv : Bytes * Bytes) : Prop := forall r, bincode_deserialize kv.2 = Ok r -> good r.

Context (Hput : forall r, good r -> keeps (on P) (put_message r) (fun _ => True)).
Context (Hremove : forall d i, keeps (on P) (remove_message d i) (fun _ => True)).
Context (Hlog : forall r f t reason, keeps (on P) (record_transition now r f t reason) (fun _ => True)).
Context (Hget : forall d i, keeps (on P) (get_message d i) (fun o => forall r, o = Some r -> good r)).
Context (Hscan : forall p, as_bytes CUSTODY_MSG_PREFIX `prefix_of` as_bytes p ->
  keeps (on P) (db_scan p) (Forall readable)).
Context (Hread : forall id, keeps (on P) (RelayRegistry.get_record_by_identity_id now id) (fun _ => True)).

Context (good_dispatch : forall r, good r -> state r = Accepted -> delivery_attempts r < CUSTODY_MAX_ATTEMPTS ->
  good (set_state Dispatching now (saturating_add 32 (delivery_attempts r) 1) r)).
Context (good_back : forall r, good r -> good (set_state Accepted now (delivery_attempts r) r)).
Context (good_device : forall r d, good r -> good (set_device d now r)).

#[local] Hint Resolve Hput Hremove Hlog Hget Hread good_dispatch good_back good_device : keeps.

Lemma destination_prefix_msg d : as_bytes CUSTODY_MSG_PREFIX `prefix_of` as_bytes (destination_prefix d).
Proof. unfold destination_prefix. rewrite as_bytes_app. by eexists. Qed.

Lemma walk_scan_messages p : as_bytes CUSTODY_MSG_PREFIX `prefix_of` as_bytes p ->
  keeps (on P) (scan_messages p) (Forall good).
Proof.
  intros Hp. unfold scan_messages. eapply keeps_bind; [by apply Hscan|]. intros l Hl.
  apply keeps_ret. apply Forall_forall. intros r Hr. apply list_elem_of_omap in Hr as ([k v] & Hkv & Hr).
  rewrite Forall_forall in Hl. specialize (Hl _ Hkv). unfold readable in Hl. cbn in *.
  destruct (bincode_deserialize v); simplify_eq/=. auto.
Qed.

Lemma walk_require d i : keeps (on P) (require_record d i) good.
Proof. unfold require_record. keeps_auto. Qed.
#[local] Hint Resolve walk_require : keeps.

Lemma walk_find d m : keeps (on P) (find_existing d m) (fun _ => True).
Proof.
  unfold find_existing. eapply keeps_bind; [apply walk_scan_messages, destination_prefix_msg|].
  intros l _. by apply keeps_ret.
Qed.

Lemma walk_pending d n : keeps (on P) (pending_for_destination d n) (fun _ => True).
Proof.
  unfold pending_for_destination. eapply keeps_bind.
  - apply keeps_attempt, walk_scan_messages, destination_prefix_msg.
  - intros l _. by apply keeps_ret.
Qed.

Lemma walk_purge need reason : keeps (on P) (purge_oldest_by_policy now local_identity need reason) (fun _ => True).
Proof.
  unfold purge_oldest_by_policy. keeps_step; [by apply keeps_ret|].
  eapply (keeps_bind _ _ _ (fun _ => True)).
  { unfold load_stored_records. eapply keeps_bind; [by apply Hscan|]. intros. by apply keeps_ret. }
  intros l _. eapply (keeps_bind _ _ _ (fun _ => True)).
  { apply (keeps_for_loop _ _ _ (fun _ => True)); [by apply Forall_true|done|].
    intros x [[n b] req] _ _. unfold purge_candidate. keeps_auto. }
  intros [[n b] req] _. by apply keeps_ret.
Qed.
#[local] Hint Resolve walk_find walk_pending walk_purge : keeps.

Lemma walk_bytes : keeps (on P) current_scm_storage_bytes (fun _ => True).
Proof. unfold current_scm_storage_bytes. eapply keeps_bind; [by apply Hscan|]. intros. by apply keeps_ret. Qed.
#[local] Hint Resolve walk_bytes : keeps.

Lemma walk_context s n : keeps (on P) (context_of s n) (fun _ => True).
Proof. unfold context_of. keeps_auto. Qed.
#[local] Hint Resolve walk_context : keeps.

Lemma walk_pressure probe incoming :
  keeps (on P) (enforce_storage_pressure_internal now probe env_total env_used local_identity incoming) (fun _ => True).
Proof.
  unfold enforce_storage_pressure_internal.
  do 2 (eapply (keeps_bind _ _ _ (fun _ => True)); [solve [auto with keeps]|intros ? _]).
  keeps_step; repeat (eapply (keeps_bind _ _ _ (fun _ => True)); [keeps_auto|intros [] _]); by apply keeps_ret.
Qed.
#[local] Hint Resolve walk_pressure : keeps.

Lemma walk_make_room scm n limit reason :
  keeps (on P) (make_room now local_identity scm n limit reason) (fun _ => True).
Proof. unfold make_room. keeps_auto. Qed.
#[local] Hint Resolve walk_make_room : keeps.

Lemma walk_pressure_write incoming :
  keeps (on P) (enforce_storage_pressure_for_write now (first_probe e) (second_probe e) env_total env_used
                  local_identity incoming) (fun _ => True).
Proof. unfold enforce_storage_pressure_for_write. keeps_auto. Qed.
#[local] Hint Resolve walk_pressure_write : keeps.

Lemma walk_get_state id : keeps (on P) (RelayRegistry.get_state now id) (fun _ => True).
Proof. unfold RelayRegistry.get_state. keeps_auto. apply keeps_normalize_lookup. Qed.
#[local] Hint Resolve walk_get_state keeps_normalize_lookup : keeps.

Lemma walk_enforce id d : keeps (on P) (RelayRegistry.enforce_custody now id d) (fun _ => True).
Proof. unfold RelayRegistry.enforce_custody. keeps_auto. Qed.
#[local] Hint Resolve walk_enforce : keeps.

Lemma walk_check_device i d : keeps (on P) (check_device now i d) (fun _ => True).
Proof. unfold check_device. keeps_auto; by apply keeps_counters. Qed.
#[local] Hint Resolve walk_check_device : keeps.

Lemma walk_accept s d m data i dev :
  (forall i m s d id dev data, good (mk i m s d id dev data Accepted now now 0)) ->
  keeps (on P) (accept_custody now (first_probe e) (second_probe e) env_total env_used local_identity s d m data i dev)
    (fun _ => True).
Proof.
  intros good_new. unfold accept_custody. eapply keeps_bind; [apply walk_find|]. intros [r|] _; [by apply keeps_ret|].
  eapply (keeps_bind _ _ _ (fun _ => True)). { keeps_auto. }
  intros id _. do 2 (eapply keeps_bind; [auto with keeps|intros ? _]).
  keeps_auto.
Qed.

Lemma walk_mark_dispatching d i r : keeps (on P) (mark_dispatching now d i r) (fun _ => True).
Proof.
  unfold mark_dispatching. eapply keeps_bind; [apply walk_require|]. intros x Hx. keeps_step; [|by apply keeps_ret..].
  keeps_step; [apply keeps_fail|]. bool_to_prop. keeps_auto.
Qed.

Lemma walk_mark_dispatch_failed d i r : keeps (on P) (mark_dispatch_failed now d i r) (fun _ => True).
Proof. unfold mark_dispatch_failed. keeps_auto. Qed.

Lemma walk_mark_delivered d i r : keeps (on P) (mark_delivered now d i r) (fun _ => True).
Proof. unfold mark_delivered. keeps_auto. Qed.

Lemma walk_converge d m r : keeps (on P) (converge_delivered_for_message now d m r) (fun _ => True).
Proof.
  unfold converge_delivered_for_message.
  eapply keeps_bind; [apply walk_scan_messages, destination_prefix_msg|]. intros l _.
  apply (keeps_for_loop _ _ _ (fun _ => True)); [by apply Forall_true|done|]. intros x n _ _.
  unfold converge_record. keeps_auto.
Qed.

Lemma walk_side_effect s : keeps (on P) (apply_registry_side_effect now s) (fun _ => True).
Proof.
  unfold apply_registry_side_effect. destruct s as [|id f t|id dev]; [by apply keeps_ret|..];
    (eapply (keeps_bind _ _ _ (fun _ => True)); [|intros; by apply keeps_ret]).
  - unfold migrate_pending_identity_device. eapply keeps_bind; [apply keeps_normalize_lookup|].
    intros [id'|] _; [|by apply keeps_ret]. eapply keeps_bind; [by apply walk_scan_messages|]. intros l Hl.
    apply (keeps_for_loop _ _ _ good); [|done|].
    + apply Forall_forall. intros x [_ Hx]%list_elem_of_filter. rewrite Forall_forall in Hl. auto.
    + intros x n Hx _. keeps_auto.
  - unfold purge_pending_identity_messages. eapply keeps_bind; [apply keeps_normalize_lookup|].
    intros [id'|] _; [|by apply keeps_ret]. eapply keeps_bind; [by apply walk_scan_messages|]. intros l _.
    apply (keeps_for_loop _ _ _ (fun _ => True)); [by apply Forall_true|done|]. intros x n _ _. keeps_auto.
Qed.

(** An invariant of the parts is an invariant of the calls. *)
Lemma walk_call c w :
  (forall id d sen, c = Register id d sen -> keeps (on P) (RelayRegistry.register now id d sen) (fun _ => True)) ->
  (forall id d t, c = Deregister id d t -> keeps (on P) (RelayRegistry.deregister now id d t) (fun _ => True)) ->
  (forall s d m data i dev, c <> Accept s d m data i dev) \/
  (forall i m s d id dev data, good (mk i m s d id dev data Accepted now now 0)) ->
  on P w -> on P (run_call e c w).
Proof.
  intros Hreg Hdereg Hnew Hw. destruct c; cbn [run_call];
    (eapply (keeps_state _ _ (fun _ => True)); [|done]).
  - unfold register_identity. eapply keeps_bind; [by eapply Hreg|]. intros [st eff] _.
    eapply keeps_bind; [apply walk_side_effect|]. intros. by apply keeps_ret.
  - unfold deregister_identity. eapply keeps_bind; [by eapply Hdereg|]. intros [st eff] _.
    eapply keeps_bind; [apply walk_side_effect|]. intros. by apply keeps_ret.
  - apply walk_get_state.
  - unfold RelayRegistry.get_state_info. eapply keeps_bind; [apply keeps_attempt, walk_get_state|].
    intros. by apply keeps_ret.
  - apply walk_enforce.
  - destruct Hnew as [Hnew|Hnew]; [exfalso; by eapply Hnew|].
    by apply walk_accept.
  - apply walk_mark_dispatching.
  - apply walk_mark_dispatch_failed.
  - apply walk_mark_delivered.
  - apply walk_converge.
  - apply walk_pressure.
  - by apply keeps_counters.
Qed.
End Walk.

(** ** The life of a registration *)

Inductive cause : Type := Timeout | Registers (device_id : string) | Deregisters (device_id : string).

(** The transitions of the state of an identity and the time of its last
    write, with what causes them. *)
Inductive moves (now : Z) : cause -> option (RegistrationState.t * Z) -> RegistrationState.t * Z -> Prop :=
| activate d sen : moves now (Registers d) None (RegistrationState.Active d sen, now)
| refresh d sen sen' u :
    moves now (Registers d) (Some (RegistrationState.Active d sen, u)) (RegistrationState.Active d sen', now)
| take_over d d' sen sen' u : now - u > REGISTRATION_STALE_TAKEOVER_MS ->
    moves now (Registers d') (Some (RegistrationState.Active d sen, u)) (RegistrationState.Active d' sen', now)
| complete f t i u sen : now - i <= HANDOVER_STALE_COLLAPSE_MS ->
    moves now (Registers t) (Some (RegistrationState.Handover f t i, u)) (RegistrationState.Active t sen, now)
| reactivate d d' a u sen :
    moves now (Registers d') (Some (RegistrationState.Abandoned d a, u)) (RegistrationState.Active d' sen, now)
| hand_over d t sen u : d <> t ->
    moves now (Deregisters d) (Some (RegistrationState.Active d sen, u)) (RegistrationState.Handover d t now, now)
| abandon d sen u :
    moves now (Deregisters d) (Some (RegistrationState.Active d sen, u)) (RegistrationState.Abandoned d now, now)
| reaffirm f t i u : now - i <= HANDOVER_STALE_COLLAPSE_MS ->
    moves now (Deregisters f) (Some (RegistrationState.Handover f t i, u)) (RegistrationState.Handover f t i, now)
| stay_away d a u :
    moves now (Deregisters d) (Some (RegistrationState.Abandoned d a, u)) (RegistrationState.Abandoned d now, now)
| collapse f t i u : now - i > HANDOVER_STALE_COLLAPSE_MS ->
    moves now Timeout (Some (RegistrationState.Handover f t i, u)) (RegistrationState.Abandoned f now, now).

Definition stamp (r : RegistrationRecord.t) : RegistrationState.t * Z :=
  (RegistrationRecord.state r, RegistrationRecord.updated_at_ms r).

(** The state of an identity and the time of its last write. *)
Definition holder (id : string) (w : world B) : option (RegistrationState.t * Z) :=
  stamp <$> registration id (contents (db w)).

(** What a call can cause for the identity [id]. *)
Definition causes (id : string) (c : call) (k : cause) : Prop :=
  match k with
  | Timeout => True
  | Registers d => exists raw rawd sen, c = Register raw rawd sen /\ normalize_identity_id raw = Ok id /\
      normalize_uuid_v4 rawd "registration_device_id_invalid" = Ok d
  | Deregisters d => exists raw rawd t, c = Deregister raw rawd t /\ normalize_identity_id raw = Ok id /\
      normalize_uuid_v4 rawd "deregistration_from_device_id_invalid" = Ok d
  end.

Lemma decision_moves now id d sen cur st eff reason :
  (forall r, cur = Some r -> ~ stale now (RegistrationRecord.state r)) ->
  RelayRegistry.register_decision now id d sen cur = Ok (st, eff, reason) ->
  moves now (Registers d) (stamp <$> cur) (st, now).
Proof.
  intros Hst. unfold RelayRegistry.register_decision, stamp. destruct cur as [[i s u]|]; cbn.
  2:{ intros H. simplify_eq. constructor. }
  specialize (Hst _ eq_refl). cbn in Hst.
  destruct s as [a n|f t n|a n]; repeat case_bool_decide; subst; intros Hdec; simplify_eq; try by constructor.
  - revert Hdec. case_match eqn:Ht; intros; simplify_eq. constructor. revert Ht.
    unfold saturating_sub. rewrite Z.gtb_lt. unfold REGISTRATION_STALE_TAKEOVER_MS. lia.
Qed.

Lemma deregistration_moves now id d t cur st eff reason : ~ stale now (RegistrationRecord.state cur) ->
  t <> Some d -> RelayRegistry.deregister_decision now id d t cur = Ok (st, eff, reason) ->
  moves now (Deregisters d) (Some (stamp cur)) (st, now).
Proof.
  unfold RelayRegistry.deregister_decision, stamp. destruct cur as [i s u]. cbn. intros Hst Ht H.
  destruct s as [a n|f t' n|a n]; repeat (case_bool_decide; cbn in H); simplify_eq; try by constructor.
  - destruct t; simplify_eq; constructor. congruence.
Qed.

Lemma message_key_other d i : ~ as_bytes REGISTRATION_STATE_PREFIX `prefix_of` as_bytes (custody_key d i).
Proof. intros [l Hl]. by vm_compute in Hl. Qed.

Lemma audit_key_other at_ms n i st : ~ as_bytes REGISTRATION_STATE_PREFIX `prefix_of` as_bytes (audit_key at_ms n i st).
Proof. intros [l Hl]. by vm_compute in Hl. Qed.

(** A property of the holder that the moves of a call preserve survives it. *)
Lemma registration_steps (phi : option (RegistrationState.t * Z) -> Prop) e c w id :
  (forall x k y, causes id c k -> phi x -> moves (at_time e) k x y -> phi (Some y)) ->
  phi (holder id w) -> phi (holder id (run_call e c w)).
Proof.
  intros Hphi. set (P := fun m => phi (stamp <$> registration id m)).
  assert (HP : about REGISTRATION_STATE_PREFIX P) by apply (registration_about id (fun x => phi (stamp <$> x))).
  assert (Hwrite : forall id' st m v, P m -> (id' = id -> phi (Some (st, at_time e))) ->
    bincode_serialize (RegistrationRecord.mk id' st (at_time e)) = Ok v ->
    P (<[as_bytes (registration_key id') := v]> m)).
  { intros id' st m v Hm Hst Hv. unfold P. rewrite (registration_insert _ _ _ _ _ Hv). case_decide; auto. }
  assert (Hc : forall id', collapses (at_time e) id' P).
  { intros id' m r f t i v Hm Hr Hst Hold Hv. eapply Hwrite; [done| |done]. intros ->.
    eapply (Hphi _ Timeout); [done|exact Hm|]. rewrite Hr. cbn. unfold stamp. rewrite Hst in *. by constructor. }
  change (on P w -> on P (run_call e c w)). apply (walk_call P (fun _ => True)); try done.
  - intros r _. unfold put_message. keeps_auto. eapply keeps_put_other; [done|apply message_key_other].
  - intros d i. unfold remove_message. keeps_auto. eapply keeps_remove_other; [done|apply message_key_other].
  - intros r f t reason. unfold record_transition. keeps_auto.
    eapply keeps_put_other; [done|apply audit_key_other].
  - intros d i. apply (keeps_weaken _ _ (fun _ => True)); [|by intros]. unfold get_message.
    keeps_auto. by apply (keeps_get _ _ (fun _ => True)).
  - intros p _. apply keeps_scan. by intros.
  - intros id'. by apply keeps_get_record.
  - intros id' d sen ->. apply keeps_register; [done..|]. intros id'' d' m st eff reason v Hid Hd Hm Hns Hdec Hv.
    eapply Hwrite; [done| |done]. intros ->. eapply (Hphi _ (Registers d')); [by do 3 eexists|exact Hm|].
    by eapply decision_moves.
  - intros id' d t ->. apply keeps_deregister; [done..|]. intros id'' d' t' m r st eff reason v Hid Hd Ht Hm Hr Hns Hdec Hv.
    eapply Hwrite; [done| |done]. intros ->. eapply (Hphi _ (Deregisters d')); [by do 3 eexists|exact Hm|].
    rewrite Hr. by eapply deregistration_moves.
  - by right.
Qed.

(** Whatever a call of the custody store does and wherever the backend
    fails in it, the registration of an identity moves only along the
    transitions of [moves]: it is activated, refreshed, completed after a
    handover or reactivated by a registration that names the identity; handed
    over or abandoned by a deregistration of the device that holds it; taken
    over only when it was not renewed for more than 15 days; and a handover
    ends by itself only after 15 days. *)
Theorem custody_registration_moves e c w id :
  rtc (fun x y => exists k s, y = Some s /\ causes id c k /\ moves (at_time e) k x s)
    (holder id w) (holder id (run_call e c w)).
Proof.
  apply (registration_steps (rtc _ (holder id w))); [|reflexivity]. intros x k y Hk Hx Hm.
  eapply rtc_r; [exact Hx|]. eauto.
Qed.

(** *** The holder of an identity *)

Section Owned.
Context (id d : string) (sen u : Z).
Context (Hid : normalize_identity_id id = Ok id).
Let P : gmap Bytes Bytes -> Prop := fun c => stamp <$> registration id c = Some (RegistrationState.Active d sen, u).

Lemma owned_about : about REGISTRATION_STATE_PREFIX P.
Proof. apply (registration_about id (fun r => stamp <$> r = Some (RegistrationState.Active d sen, u))). Qed.

Lemma owned_lookup : keeps (on P) (RelayRegistry.normalize_lookup_identity id) (fun o => o = Some id).
Proof.
  unfold RelayRegistry.normalize_lookup_identity.
  pose proof Hid as Hn. unfold normalize_identity_id in Hn.
  destruct (is_hex_64 (to_lowercase (trim id))) eqn:Hh; [|done]. cbn in Hn.
  assert (Hlow : to_lowercase (trim id) = id) by congruence. cbv zeta. rewrite Hlow in Hh. rewrite Hlow.
  destruct (str_is_empty id) eqn:He.
  { unfold str_is_empty in He. bool_to_prop. subst. by vm_compute in Hh. }
  cbn [orb negb]. eapply (keeps_bind _ _ _ (fun b => b = true)); [|intros ? ->; by apply keeps_ret].
  unfold RelayRegistry.record_exists. eapply (keeps_bind _ _ _ is_Some).
  - apply keeps_get. intros c Hc. unfold P, registration in Hc. by destruct (c !! _).
  - intros r Hr. apply keeps_ret. by apply bool_decide_eq_true.
Qed.

Lemma owned_collapses now id' : collapses now id' P.
Proof.
  intros c r f t i v Hc Hr Hst _ Hv. unfold P. rewrite (registration_insert _ _ _ _ _ Hv). case_decide; [|done].
  subst. unfold P in Hc. rewrite Hr in Hc. cbn in Hc. unfold stamp in Hc. congruence.
Qed.

Lemma owned_state now : keeps (on P) (RelayRegistry.get_state now id) (fun st => st = Some (RegistrationState.Active d sen)).
Proof.
  unfold RelayRegistry.get_state. eapply keeps_bind; [apply owned_lookup|]. intros ? ->.
  eapply (keeps_bind _ _ _ (fun r => stamp <$> r = Some (RegistrationState.Active d sen, u))).
  - eapply holds_conseq; [apply holds_get_record; [apply owned_about|apply owned_collapses]|done| |done].
    intros r w (Hw & -> & _). by split.
  - intros r Hr. apply keeps_ret. destruct r; cbn in *; unfold stamp in Hr; congruence.
Qed.

(** The check of a device passes for the holder only. *)
Lemma owned_enforce now dev :
  keeps (on P) (RelayRegistry.enforce_custody now id dev)
    (fun r => r = EnforceActive id d /\ normalize_uuid_v4 dev "registration_device_id_invalid" = Ok d).
Proof.
  unfold RelayRegistry.enforce_custody. eapply keeps_bind; [apply keeps_map_error, owned_lookup|]. intros ? ->.
  eapply keeps_bind; [apply keeps_map_error, keeps_lift_eq|]. intros dev' Hdev; cbn beta in Hdev.
  eapply keeps_bind; [apply keeps_map_error, owned_state|]. intros ? ->.
  case_bool_decide; [|apply keeps_fail]. subst. by apply keeps_ret.
Qed.
End Owned.

(** C25. A device that holds an identity keeps it for at least 15 days: in any
    sequence of calls whose clock stays within 15 days of its last renewal and
    that has no deregistration by the device itself, the identity stays
    registered to it, and afterwards custody of messages of the identity is
    granted for no other device. *)
Theorem custody_ownership h w id d sen u :
  normalize_identity_id id = Ok id ->
  holder id w = Some (RegistrationState.Active d sen, u) ->
  Forall (fun ec => u <= at_time ec.1 <= u + REGISTRATION_STALE_TAKEOVER_MS) h ->
  Forall (fun ec => forall raw rawd t, ec.2 = Deregister raw rawd t -> normalize_identity_id raw = Ok id ->
    normalize_uuid_v4 rawd "deregistration_from_device_id_invalid" <> Ok d) h ->
  (exists sen' u', holder id (run_calls h w) = Some (RegistrationState.Active d sen', u') /\ u <= u') /\
  (forall now dev r, (RelayRegistry.enforce_custody now id dev (run_calls h w)).2 = Ok r ->
     r = EnforceActive id d /\ normalize_uuid_v4 dev "registration_device_id_invalid" = Ok d).
Proof.
  intros Hid Hw Htime Hself.
  assert (Hown : exists sen' u', holder id (run_calls h w) = Some (RegistrationState.Active d sen', u') /\ u <= u').
  { assert (H0 : exists sen' u', holder id w = Some (RegistrationState.Active d sen', u') /\ u <= u') by (exists sen, u; split; [done|lia]).
    clear Hw. revert w H0. induction h as [|[e c] h IH]; intros w H0; [done|]. inv Htime. inv Hself. cbn.
    apply IH; [done..|].
    apply (registration_steps (fun x => exists sen' u', x = Some (RegistrationState.Active d sen', u') /\ u <= u'));
      [|done]. cbn in *.
    intros x k y Hk (sen' & u' & -> & Hu) Hm. inv Hm.
    - do 2 eexists. split; [done|lia].
    - lia.
    - destruct Hk as (raw & rawd & t' & -> & Hraw & Hd). exfalso. by eapply H4.
    - destruct Hk as (raw & rawd & t' & -> & Hraw & Hd). exfalso. by eapply H4. }
  split; [exact Hown|]. intros now dev r Hr. destruct Hown as (sen' & u' & Hw' & _).
  pose proof (owned_enforce id d sen' u' Hid now dev (run_calls h w) Hw') as H. rewrite Hr in H. apply H.
Qed.

(** ** What the relay keeps *)

(** A record between acceptance and delivery. *)
Definition lively (r : CustodyMessage.t) : Prop :=
  state r <> Delivered /\ 0 <= delivery_attempts r <= CUSTODY_MAX_ATTEMPTS.

Definition key_of (r : CustodyMessage.t) : Bytes := as_bytes (custody_key (destination_peer_id r) (custody_id r)).

(** The record [r] is stored. *)
Definition stored (c : gmap Bytes Bytes) (k : Bytes) (r : CustodyMessage.t) : Prop :=
  exists v, c !! k = Some v /\ as_bytes CUSTODY_MSG_PREFIX `prefix_of` k /\ bincode_deserialize v = Ok r.

(** Every entry of the queue is a record under its own key, on its way, and a
    message is in custody at most once per destination. *)
Definition well_kept (c : gmap Bytes Bytes) : Prop :=
  (forall k v, c !! k = Some v -> as_bytes CUSTODY_MSG_PREFIX `prefix_of` k ->
     exists r, bincode_serialize r = Ok v /\ k = key_of r /\ lively r) /\
  (forall k1 k2 r1 r2, stored c k1 r1 -> stored c k2 r2 ->
     destination_peer_id r1 = destination_peer_id r2 -> relay_message_id r1 = relay_message_id r2 -> k1 = k2).

(** The same with the custody id of every message in custody named by [G]. *)
Definition named (G : string -> string -> string -> Prop) (r : CustodyMessage.t) : Prop :=
  lively r /\ G (destination_peer_id r) (relay_message_id r) (custody_id r).

Definition records (G : string -> string -> string -> Prop) (c : gmap Bytes Bytes) : Prop :=
  forall k v, c !! k = Some v -> as_bytes CUSTODY_MSG_PREFIX `prefix_of` k ->
    exists r, bincode_serialize r = Ok v /\ k = key_of r /\ named G r.

Definition functional (G : string -> string -> string -> Prop) : Prop :=
  forall d m i j, G d m i -> G d m j -> i = j.

Lemma well_kept_records c : well_kept c <-> exists G, functional G /\ records G c.
Proof.
  split.
  - intros [H1 H2].
    exists (fun d m i => exists k r, stored c k r /\ k = key_of r /\ destination_peer_id r = d /\
      relay_message_id r = m /\ custody_id r = i). split.
    + intros d m i j (k1 & r1 & Hs1 & -> & Hd1 & Hm1 & <-) (k2 & r2 & Hs2 & -> & Hd2 & Hm2 & <-).
      pose proof (H2 _ _ _ _ Hs1 Hs2 ltac:(congruence) ltac:(congruence)) as Hk.
      unfold key_of, custody_key in Hk. rewrite Hd1, Hd2, !(as_bytes_app (destination_prefix d)) in Hk.
      apply (inj (as_bytes (destination_prefix d) ++.)) in Hk. by apply as_bytes_inj.
    + intros k v Hk Hp. destruct (H1 k v Hk Hp) as (r & Hr & -> & Hl). exists r. split; [done|]. split; [done|]. split; [done|].
      exists (key_of r), r. split_and!; try done. exists v. split_and!; try done. by apply bincode_roundtrip.
  - intros (G & Hf & Hr). split.
    + intros k v Hk Hp. destruct (Hr k v Hk Hp) as (r & ? & ? & ? & _). eauto.
    + intros k1 k2 r1 r2 (v1 & Hv1 & Hp1 & Hd1) (v2 & Hv2 & Hp2 & Hd2) Hd Hm.
      destruct (Hr _ _ Hv1 Hp1) as (r1' & Hs1 & -> & _ & HG1), (Hr _ _ Hv2 Hp2) as (r2' & Hs2 & -> & _ & HG2).
      rewrite (bincode_roundtrip _ _ Hs1) in Hd1. rewrite (bincode_roundtrip _ _ Hs2) in Hd2. simplify_eq.
      unfold key_of. rewrite Hd. f_equal. f_equal. rewrite Hd, Hm in HG1. by eapply Hf.
Qed.

Lemma well_kept_empty c : with_prefix (as_bytes CUSTODY_MSG_PREFIX) c = ∅ -> well_kept c.
Proof.
  intros He. assert (Hnone : forall k v, c !! k = Some v -> ~ as_bytes CUSTODY_MSG_PREFIX `prefix_of` k).
  { intros k v Hk Hp. assert (Hkv : with_prefix (as_bytes CUSTODY_MSG_PREFIX) c !! k = Some v).
    { by apply map_lookup_filter_Some. } by rewrite He in Hkv. }
  split; [intros k v Hk Hp|intros k1 k2 r1 r2 (v & Hk & Hp & _)]; by destruct (Hnone _ _ Hk Hp).
Qed.

Lemma records_about G : about CUSTODY_MSG_PREFIX (records G).
Proof.
  intros k v c Hk Hc. split; intros k' v'.
  - intros [[<- _]|[_ Hv]]%lookup_insert_Some Hp; [done|]. by apply Hc.
  - intros [_ Hv]%lookup_delete_Some Hp. by apply Hc.
Qed.

Lemma records_insert G r v c : bincode_serialize r = Ok v -> named G r -> records G c ->
  records G (<[key_of r := v]> c).
Proof.
  intros Hv Hr Hc k v'. intros [[<- <-]|[_ Hk]]%lookup_insert_Some Hp; [by exists r|]. by apply Hc.
Qed.

Lemma records_delete G k c : records G c -> records G (delete k c).
Proof. intros Hc k' v'. intros [_ Hk]%lookup_delete_Some Hp. by apply Hc. Qed.

Lemma records_weaken (G G' : string -> string -> string -> Prop) c :
  (forall d m i, G d m i -> G' d m i) -> records G c -> records G' c.
Proof.
  intros H Hc k v Hk Hp. destruct (Hc k v Hk Hp) as (r & ? & ? & ? & ?).
  exists r. split; [done|]. split; [done|]. split; auto.
Qed.

Lemma holds_put_message (P Q R : gmap Bytes Bytes -> Prop) r :
  (forall c v, bincode_serialize r = Ok v -> P c -> Q (<[key_of r := v]> c)) ->
  (forall c, P c -> R c) -> (forall c, Q c -> R c) -> holds (on P) (put_message r) (fun _ => on Q) (on R).
Proof.
  intros HPQ HPR HQR. unfold put_message.
  eapply (holds_bind _ _ _ _ (fun v w => on P w /\ bincode_serialize r = Ok v)).
  { apply holds_lift; [|intros w; apply HPR]. intros v w Hv%map_err_Ok Hw. done. }
  intros v. apply holds_pure. intros Hv. eapply holds_bind; [apply (holds_put P Q R); auto|].
  intros []. apply (keeps_holds _ _ _ (fun _ => True)); [apply keeps_flush|]. intros w. apply HQR.
Qed.

(** Invariants of the messages do not depend on the log and the registrations. *)
Section Frame.
Context (P : gmap Bytes Bytes -> Prop) (HP : about CUSTODY_MSG_PREFIX P).

Lemma frame_log now r f t reason : keeps (on P) (record_transition now r f t reason) (fun _ => True).
Proof.
  unfold record_transition. keeps_auto. eapply keeps_put_other; [exact HP|].
  intros [l Hl]. by vm_compute in Hl.
Qed.

Lemma frame_persist id from st reason upd :
  keeps (on P) (RelayRegistry.persist_state id from st reason upd) (fun _ => True).
Proof.
  unfold RelayRegistry.persist_state, RelayRegistry.record_transition. keeps_auto;
    (eapply keeps_put_other; [exact HP|]; intros [l Hl]; by vm_compute in Hl).
Qed.

Lemma frame_record now id : keeps (on P) (RelayRegistry.get_record_by_identity_id now id) (fun _ => True).
Proof.
  unfold RelayRegistry.get_record_by_identity_id. eapply (keeps_bind _ _ _ (fun _ => True)); [by apply keeps_get|].
  intros [v|] _; keeps_auto; apply frame_persist.
Qed.

Lemma frame_register now id d sen : keeps (on P) (RelayRegistry.register now id d sen) (fun _ => True).
Proof.
  unfold RelayRegistry.register. keeps_auto; first [apply frame_record | apply frame_persist].
Qed.

Lemma frame_deregister now id d t : keeps (on P) (RelayRegistry.deregister now id d t) (fun _ => True).
Proof.
  unfold RelayRegistry.deregister. do 2 (eapply keeps_bind; [apply keeps_lift_eq|intros ? _]).
  eapply (keeps_bind _ _ _ (fun _ => True)); [keeps_auto|]. intros t' _.
  keeps_auto; first [apply frame_record | apply frame_persist].
Qed.
End Frame.

Section Kept.
Context (G : string -> string -> string -> Prop).
Let P := records G.

Lemma kept_put r : named G r -> keeps (on P) (put_message r) (fun _ => True).
Proof.
  intros Hr. eapply holds_conseq; [apply (holds_put_message P P P)|..]; try done.
  intros c v Hv Hc. by apply records_insert.
Qed.

Lemma kept_remove d i : keeps (on P) (remove_message d i) (fun _ => True).
Proof. unfold remove_message. keeps_auto. apply keeps_remove. intros c. apply records_delete. Qed.

Lemma kept_readable c k v : P c -> c !! k = Some v -> as_bytes CUSTODY_MSG_PREFIX `prefix_of` k ->
  forall r, bincode_deserialize v = Ok r -> named G r /\ k = key_of r.
Proof.
  intros Hc Hk Hp r Hr. destruct (Hc k v Hk Hp) as (r' & Hs & -> & Hn).
  rewrite (bincode_roundtrip _ _ Hs) in Hr. by simplify_eq.
Qed.

Lemma kept_get d i : keeps (on P) (get_message d i) (fun o => forall r, o = Some r -> named G r).
Proof.
  unfold get_message. eapply (keeps_bind _ _ _ (fun o => forall v r, o = Some v -> bincode_deserialize v = Ok r -> named G r)).
  - apply keeps_get. intros c Hc v r Hv Hr. eapply kept_readable; [done|done| |done].
    unfold custody_key. rewrite as_bytes_app. apply prefix_app_r, destination_prefix_msg.
  - intros [v|] Hv; [|by apply keeps_ret]. eapply keeps_bind; [apply keeps_lift_eq|].
    intros r Hr%map_err_Ok. apply keeps_ret. intros r' Hr'. simplify_eq. by eapply Hv.
Qed.

Lemma kept_scan p : as_bytes CUSTODY_MSG_PREFIX `prefix_of` as_bytes p ->
  keeps (on P) (db_scan p) (Forall (fun kv => forall r, bincode_deserialize kv.2 = Ok r -> named G r)).
Proof.
  intros Hp. apply keeps_scan. intros c k v Hc Hk Hpk r Hr. eapply kept_readable; [done|done| |done].
  by etrans.
Qed.

Lemma named_dispatch now r : named G r -> state r = Accepted -> delivery_attempts r < CUSTODY_MAX_ATTEMPTS ->
  named G (set_state Dispatching now (saturating_add 32 (delivery_attempts r) 1) r).
Proof.
  intros [[_ Ha] HG] _ Hlt. split; [|done]. split; [done|]. cbn. unfold saturating_add, CUSTODY_MAX_ATTEMPTS in *. lia.
Qed.

Lemma named_back now r : named G r -> named G (set_state Accepted now (delivery_attempts r) r).
Proof. intros [[_ Ha] HG]. by split. Qed.

Lemma named_device now r d : named G r -> named G (set_device d now r).
Proof. done. Qed.

Lemma kept_call e c w : (forall s d m data i dev, c <> Accept s d m data i dev) ->
  on P w -> on P (run_call e c w).
Proof.
  intros Hc. pose proof (records_about G) as Hab.
  apply (walk_call P (named G)); intros; auto using kept_put, kept_remove, frame_log, kept_get,
    kept_scan, frame_record, named_dispatch, named_back, named_device, frame_register, frame_deregister.
Qed.
End Kept.

(** [find_existing] answers [None] only when the message is not in custody. *)
Lemma holds_find G d m :
  holds (on (records G)) (find_existing d m)
    (fun o => on (records (match o with
                           | None => fun d' m' i => G d' m' i /\ ~ (d' = d /\ m' = m)
                           | Some _ => G end))) (on (records G)).
Proof.
  intros w Hw. unfold find_existing, scan_messages, db_scan, mbind, M_bind, mret, M_ret. cbn.
  destruct (scan_prefix (as_bytes (destination_prefix d)) (db w)) as [l|e|] eqn:Hl; cbn; [|done..].
  destruct (List.find _ _) as [r|] eqn:Hf; [done|]. intros k v Hk Hp.
  destruct (Hw k v Hk Hp) as (r & Hs & -> & Hlive & HG). exists r. split; [done|]. split; [done|].
  split; [done|]. split; [done|]. intros [Hd Hm].
  eapply List.find_none in Hf as Hneg; [by case_bool_decide|]. apply list_elem_of_In, list_elem_of_omap.
  exists (key_of r, v). split; [|cbn; by rewrite (bincode_roundtrip _ _ Hs)].
  rewrite (scan_prefix_ok _ _ _ Hl). apply elem_of_map_to_list, map_lookup_filter_Some. split; [done|].
  cbn. unfold key_of, custody_key. rewrite as_bytes_app, Hd. by eexists.
Qed.

Lemma kept_accept G e s d m data i dev w : functional G -> on (records G) w ->
  exists G', functional G' /\ on (records G') (run_call e (Accept s d m data i dev) w).
Proof.
  intros Hf Hw. cbn [run_call].
  set (I := fun c => exists G', functional G' /\ records G' c).
  assert (Hacc : holds (on (records G))
    (accept_custody (at_time e) (first_probe e) (second_probe e) env_total env_used local_identity s d m data i dev)
    (fun _ => on I) (on I)).
  2:{ specialize (Hacc w Hw). by destruct (accept_custody _ _ _ _ _ _ _ _ _ _ _ _ w) as [w' []]. }
  assert (Hin : forall G' c, functional G' -> records G' c -> I c) by (intros; by eexists).
  unfold accept_custody. eapply holds_bind.
  { eapply holds_conseq; [apply holds_find|done|intros a w' Hw'; exact Hw'|intros w' Hw'; by eapply Hin]. }
  intros [r|]; [apply holds_ret; intros w' Hw'; by eapply Hin|].
  set (G1 := fun d' m' j => G d' m' j /\ ~ (d' = d /\ m' = m)).
  assert (Hf1 : functional G1) by (intros d' m' j j' [? _] [? _]; by eapply Hf).
  assert (Hin1 : forall w' : world B, on (records G1) w' -> on I w') by (intros w' Hw'; by eapply Hin).
  eapply holds_bind. { apply (keeps_holds _ _ _ (fun _ => True)); [|done]. keeps_auto. apply keeps_normalize_lookup. }
  intros id. eapply holds_bind.
  { apply (keeps_holds _ _ _ (fun _ => True)); [|done]. apply walk_check_device. intros. apply frame_record, records_about. }
  intros reason. eapply holds_bind.
  { apply (keeps_holds _ _ _ (fun _ => True)); [|done]. apply (walk_pending _ (named G1)), kept_scan. }
  intros l. case_match; [by apply holds_fail|].
  eapply holds_bind; [apply (keeps_holds _ _ _ (fun _ => True)); [apply keeps_next_sequence|done]|]. intros n.
  set (r := mk _ _ _ _ _ _ _ _ _ _ _).
  eapply holds_bind.
  { apply (keeps_holds _ _ _ (fun _ => True)); [|done].
    apply (walk_pressure_write _ (named G1)); auto using kept_remove, frame_log, records_about, kept_scan. }
  intros []. set (G2 := fun d' m' j => G1 d' m' j \/ (d' = d /\ m' = m /\ j = custody_id r)).
  assert (Hf2 : functional G2).
  { intros d' m' j j'. unfold G2, G1. intros [[]|(-> & -> & ->)] [[]|(? & ? & ->)]; simplify_eq; [by eapply Hf|tauto..|done]. }
  eapply (holds_bind _ _ _ _ (fun _ => on (records G2))).
  { apply (holds_put_message (records G1)); [|intros c Hc; by apply (Hin G1)|intros c Hc; by apply (Hin G2)].
    intros c v Hv Hc. apply records_insert; [done|split; [done|by right]|].
    eapply records_weaken; [|exact Hc]. intros. by left. }
  intros []. eapply holds_bind; [apply (keeps_holds _ _ _ (fun _ => True)); [apply frame_log, records_about|]|].
  - intros w' Hw'. by eapply Hin.
  - intros []. apply holds_ret. intros w' Hw'. by eapply Hin.
Qed.

Lemma kept_run h w : (exists G, functional G /\ on (records G) w) ->
  exists G, functional G /\ on (records G) (run_calls h w).
Proof.
  revert w. induction h as [|[e c] h IH]; intros w (G & Hf & Hw); [by exists G|].
  cbn. apply IH. destruct c; first [by apply (kept_accept G) | exists G; split; [done|by apply (kept_call G)]].
Qed.

(** C26. After any sequence of calls, whatever fails in the backend, every entry
    of the custody queue is the serialization of a record stored under its own
    key that has not been delivered and was handed out at most 12 times, and no
    message is in custody twice for the same destination. *)
Theorem custody_records h w : well_kept (contents (db w)) -> well_kept (contents (db (run_calls h w))).
Proof.
  rewrite !well_kept_records. apply kept_run.
Qed.
End Store.

(** ** A run on the memory backend *)

Module CustodyDemo.

#[export] Instance iter : MapIter Bytes Bytes := map_iter_default.
#[export] Instance crates : IdCrates :=
  {| uuid_version := fun s => if (String.length s =? 36)%nat then Some 4 else None;
     hex_decode := fun _ => None;
     id_hex := fun _ => EmptyString;
     id_blake3 := sample_blake3 |}.
#[export] Existing Instances MemoryStorage.storage_backend MemoryStorage.storage_backend_spec sample_bincode
  sample_bincode_spec.

Definition identity : string := of_bytes (replicate 64 97).
Definition device (n : Z) : string := of_bytes (replicate 36 (48 + n)).
Definition peer : string := "bob".

Definition start : world MemoryStorage.t := mk_world MemoryStorage.new 0 0 0 PhaseA.
Definition at_ (now : Z) : reading := Reading now None None.
Definition registered : world MemoryStorage.t :=
  run_call None None None (at_ 1000) (Register identity (device 1) 5) start.

(** Another device tries to register, a message comes, the holder renews. *)
Definition day : list (reading * call) :=
  [(at_ 2000, Register identity (device 2) 9);
   (at_ 3000, Accept "alice" peer "m1" [1; 2; 3] (Some identity) (Some (device 1)));
   (at_ 3500, Accept "alice" peer "m2" [4] (Some identity) (Some (device 2)));
   (at_ 4000, Register identity (device 1) 6)].

Lemma custody_registration_moves_witness :
  rtc (fun x y => exists k s, y = Some s /\
         causes identity (Register identity (device 2) 9) k /\ moves 2000 k x s)
    (holder identity registered)
    (holder identity (run_call None None None (at_ 2000) (Register identity (device 2) 9) registered)) /\
  holder identity registered = Some (RegistrationState.Active (device 1) 5, 1000).
Proof.
  split; [|by vm_compute].
  apply (custody_registration_moves None None None (at_ 2000) (Register identity (device 2) 9) registered identity).
Defined.

Lemma custody_ownership_witness :
  (exists sen' u', holder identity (run_calls None None None day registered) =
     Some (RegistrationState.Active (device 1) sen', u') /\ 1000 <= u') /\
  holder identity (run_calls None None None day registered) = Some (RegistrationState.Active (device 1) 6, 4000).
Proof.
  split; [|by vm_compute].
  refine (proj1 (custody_ownership None None None day registered identity (device 1) 5 1000 _ _ _ _)).
  - by vm_compute.
  - by vm_compute.
  - by_eval.
  - repeat constructor; intros; done.
Defined.

Lemma custody_records_witness :
  well_kept (contents (db (run_calls None None None day registered))) /\
  len (map_to_list (with_prefix (as_bytes CUSTODY_MSG_PREFIX)
    (contents (db (run_calls None None None day registered))))) = 1.
Proof.
  split; [|by vm_compute]. apply (custody_records None None None day registered).
  apply well_kept_empty. by vm_compute.
Defined.
End CustodyDemo.
