(* ===== verification/CustodyStorage.v ===== *)
(** * Custody under storage pressure

    What a purge removes and how much space an accepted message leaves: the
    purge of [purge_oldest_by_policy] takes the shortest sufficient prefix of
    the policy's order, and a message is only accepted into the space that the
    quota and the ceiling of the device leave. *)

From S2P Require Import Prelude Drift Backend State Text MeshStore MeshStoreProps StoragePressure.
From S2P Require Import RelayRegistry RelayCustody CustodyProps.

Section Storage.
Context {B : Type} `{HB : StorageBackend B} {HBS : StorageBackendSpec B} `{HI : IdCrates}.
Context `{HCR : Bincode RegistrationRecord.t} `{HCT : Bincode RegistrationTransition.t}.
Context `{HCA : Bincode CustodyTransition.t}.
Context `{HCM : Bincode CustodyMessage.t} {HCMS : BincodeSpec CustodyMessage.t}.
Context (env_total env_used : option Z) (local_identity : option string) (now : Z).
Import RelayCustodyStore CustodyMessage.

(** ** The queue *)

Definition queue (c : gmap Bytes Bytes) : gmap Bytes Bytes := with_prefix (as_bytes CUSTODY_MSG_PREFIX) c.

(** The records of a queue with their sizes, and the bytes they take. *)
Definition load (l : ScanResult) : list StoredCustodyRecord :=
  omap (fun kv => (fun r => mk_stored r (len kv.2)) <$> ok (bincode_deserialize kv.2)) l.

Definition entries (q : gmap Bytes Bytes) : list StoredCustodyRecord := load (map_to_list q).

Definition total (l : list StoredCustodyRecord) : Z := foldr Z.add 0 (map serialized_bytes l).

Definition well_formed (q : gmap Bytes Bytes) : Prop :=
  forall k v, q !! k = Some v -> exists r, bincode_serialize r = Ok v /\ k = key_of r.

Lemma queue_insert_other k v c : ~ as_bytes CUSTODY_MSG_PREFIX `prefix_of` k -> queue (<[k := v]> c) = queue c.
Proof. intros Hk. unfold queue, with_prefix. by apply map_filter_insert_not. Qed.

Lemma queue_delete k c : queue (delete k c) = delete k (queue c).
Proof. apply map_filter_delete. Qed.

Lemma queue_about q : about CUSTODY_MSG_PREFIX (fun c => queue c = q).
Proof.
  intros k v c Hk <-. rewrite queue_insert_other, queue_delete by done. split; [done|].
  apply delete_id, map_lookup_filter_None. right. intros. done.
Qed.

Lemma well_kept_queue c : well_kept c -> well_formed (queue c).
Proof.
  intros [Hc _] k v [Hk Hp]%map_lookup_filter_Some. destruct (Hc k v Hk Hp) as (r & ? & ? & _). eauto.
Qed.

Lemma well_formed_delete q k : well_formed q -> well_formed (delete k q).
Proof. intros Hq k' v [_ Hk]%lookup_delete_Some. by apply Hq. Qed.

(** *** Sizes *)

Lemma total_perm l l' : l ≡ₚ l' -> total l = total l'.
Proof. unfold total. induction 1; cbn in *; lia. Qed.

Lemma total_app l l' : total (l ++ l') = total l + total l'.
Proof. unfold total. induction l; cbn in *; lia. Qed.

Lemma entries_delete q k v r : q !! k = Some v -> bincode_deserialize v = Ok r ->
  mk_stored r (len v) :: entries (delete k q) ≡ₚ entries q.
Proof.
  intros Hk Hr. unfold entries, load. rewrite <-(map_to_list_delete q k v Hk). cbn. by rewrite Hr.
Qed.

Lemma entries_elem q x : well_formed q -> x ∈ entries q ->
  exists v, q !! key_of (record x) = Some v /\ bincode_deserialize v = Ok (record x) /\ serialized_bytes x = len v.
Proof.
  intros Hq Hx. unfold entries, load in Hx. apply list_elem_of_omap in Hx as ([k v] & Hkv & Hx).
  apply elem_of_map_to_list in Hkv. destruct (Hq k v Hkv) as (r & Hs & ->). cbn in Hx.
  rewrite (bincode_roundtrip _ _ Hs) in Hx. cbn in Hx. simplify_eq. exists v. split_and!; try done.
  by apply bincode_roundtrip.
Qed.

Lemma size_nonneg q x : x ∈ entries q -> 0 <= serialized_bytes x.
Proof.
  unfold entries, load. intros ([k v] & _ & Hx)%list_elem_of_omap. cbn [snd] in Hx.
  destruct (bincode_deserialize v); [|done..]. cbn in Hx. simplify_eq. apply len_nonneg.
Qed.

Lemma total_nonneg l : Forall (fun x => 0 <= serialized_bytes x) l -> 0 <= total l.
Proof. unfold total. induction 1; cbn in *; lia. Qed.

(** The bytes of the values are the sizes of the records. *)
Lemma load_total l : (forall k v, (k, v) ∈ l -> exists r, bincode_deserialize v = Ok r) ->
  foldr Z.add 0 (map (fun kv => len kv.2) l) = total (load l).
Proof.
  unfold total, load. induction l as [|[k v] l IH]; intros Hl; [done|]. cbn.
  destruct (Hl k v) as [r Hr]; [left|]. rewrite Hr. cbn. rewrite IH; [done|]. intros k' v' Hin.
  apply (Hl k'). by right.
Qed.

(** ** Purging *)

#[export] Instance purge_cmp_order : CmpOrder (purge_cmp local_identity).
Proof.
  unfold purge_cmp, str_cmp. repeat apply lex_order; try apply (key_order _ _); apply _.
Qed.

Lemma holds_remove_message q d i :
  holds (on (fun c => queue c = q)) (remove_message d i)
    (fun _ => on (fun c => queue c = delete (as_bytes (custody_key d i)) q)) (fun _ => True).
Proof.
  unfold remove_message. eapply (holds_bind _ _ _ _ (fun _ => on (fun c => queue c = delete (as_bytes (custody_key d i)) q))).
  - intros w Hw. unfold db_remove, update_db. destruct (Backend.remove _ (db w)) as [b|e|] eqn:Hr; [|done..].
    unfold on in *. cbn. by rewrite (remove_ok _ _ _ Hr), queue_delete, Hw.
  - intros []. by apply (keeps_holds _ _ _ (fun _ => True)); [apply keeps_flush|].
Qed.

Lemma keeps_queue_log q r f t reason :
  keeps (on (fun c => queue c = q)) (record_transition now r f t reason) (fun _ => True).
Proof. apply frame_log, queue_about. Qed.

(** The loop stops doing anything when nothing is required any more. *)
Lemma purge_loop_done reason l n b : for_loop (purge_candidate now reason) l (n, b, 0) = (mret (n, b, 0) : M (world B) string (Z * Z * Z)).
Proof. induction l as [|x l IH]; [done|]. cbn [for_loop]. exact IH. Qed.

Definition shortest (need : Z) (gone kept : list StoredCustodyRecord) : Prop :=
  (kept = [] \/ need <= total gone) /\ forall g x, gone = g ++ [x] -> total g < need.

Lemma purge_loop reason l n b req q :
  well_formed q -> entries q ≡ₚ l -> 0 <= req -> 0 <= b -> b + total l < 2 ^ 64 ->
  holds (on (fun c => queue c = q)) (for_loop (purge_candidate now reason) l (n, b, req))
    (fun acc => on (fun c => exists gone kept, l = gone ++ kept /\ well_formed (queue c) /\ entries (queue c) ≡ₚ kept /\
       acc = (n + len gone, b + total gone, saturating_sub req (total gone)) /\ shortest req gone kept))
    (fun _ => True).
Proof.
  revert n b req q. induction l as [|x l IH]; intros n b req q Hq Hl Hreq Hb Hsum.
  { apply holds_ret. intros w Hw. exists [], []. unfold on in Hw. rewrite Hw. split_and!; try done; [|split; [by left|]].
    - unfold total, len, saturating_sub. cbn. apply f_equal2; [apply f_equal2|]; lia.
    - intros g x Hg. by destruct g. }
  destruct (decide (req = 0)) as [->|Hne].
  { rewrite purge_loop_done. apply holds_ret. intros w Hw. exists [], (x :: l). unfold on in Hw. rewrite Hw.
    split_and!; try done; [|split; [right; done|intros g y Hg; by destruct g]].
    unfold total, len, saturating_sub. cbn. apply f_equal2; [apply f_equal2|]; lia. }
  destruct (entries_elem q x Hq) as (v & Hv & Hd & Hs); [rewrite Hl; left|].
  assert (Hsize : 0 <= serialized_bytes x) by (eapply (size_nonneg q); rewrite Hl; left).
  assert (Hrest : entries (delete (key_of (record x)) q) ≡ₚ l).
  { apply (Permutation_cons_inv (a := x)). rewrite <-Hl, <-(entries_delete q _ v (record x) Hv Hd), <-Hs. by destruct x. }
  assert (Hl0 : 0 <= total l).
  { apply total_nonneg, Forall_forall. intros y Hy. eapply (size_nonneg q). rewrite Hl. by right. }
  assert (Htot : total (x :: l) = serialized_bytes x + total l) by done. rewrite Htot in Hsum.
  cbn [for_loop].
  eapply (holds_bind _ _ _ _ (fun acc w => on (fun c => queue c = delete (key_of (record x)) q) w /\
    acc = (n + 1, b + serialized_bytes x, saturating_sub req (serialized_bytes x)))).
  { unfold purge_candidate. rewrite (proj2 (Z.eqb_neq req 0) Hne).
    eapply holds_bind; [apply (keeps_holds _ _ _ (fun _ => True)); [apply keeps_queue_log|done]|]. intros [].
    eapply holds_bind; [apply holds_remove_message|]. intros []. apply holds_ret. intros w Hw. split; [done|].
    unfold saturating_add. f_equal. f_equal. lia. }
  intros acc. apply holds_pure. intros ->.
  eapply holds_conseq; [apply IH; [by apply well_formed_delete|done|unfold saturating_sub; lia|lia|lia]|done| |done].
  intros acc w (gone & kept & -> & Hwf & Hk & -> & Hshort). exists (x :: gone), kept.
  assert (Hg : total (x :: gone) = serialized_bytes x + total gone) by done. rewrite Hg.
  assert (Hnn : forall g, (forall y, y ∈ g -> y ∈ gone) -> 0 <= total g).
  { intros g Hin. apply total_nonneg, Forall_forall. intros y Hy. eapply (size_nonneg q). rewrite Hl.
    right. apply elem_of_app. auto. }
  pose proof (Hnn gone ltac:(auto)). split_and!; try done.
  - rewrite len_cons. unfold saturating_sub. apply f_equal2; [apply f_equal2|]; lia.
  - destruct Hshort as [H1 H2]. split; [destruct H1; [by left|right; rewrite Hg; unfold saturating_sub in *; lia]|].
    intros [|y g] z Hgz; simplify_eq/=; [unfold total; cbn; lia|].
    change (serialized_bytes y + total g < req). specialize (H2 _ _ eq_refl). unfold saturating_sub in H2.
    assert (0 <= total g); [|lia]. apply Hnn. intros y' Hy'. apply elem_of_app. by left.
Qed.

(** The records purged to free [need] bytes and the ones that stay. *)
Definition purged (need : Z) (q q' : gmap Bytes Bytes) (acc : Z * Z) : Prop :=
  exists gone kept, entries q ≡ₚ gone ++ kept /\ entries q' ≡ₚ kept /\ acc = (len gone, total gone) /\
    shortest need gone kept /\
    (forall x y, x ∈ gone -> y ∈ kept -> purge_cmp local_identity x y <> Gt).

Lemma sorted_split {A} (R : A -> A -> Prop) l1 l2 x y : StronglySorted R (l1 ++ l2) -> x ∈ l1 -> y ∈ l2 -> R x y.
Proof.
  induction l1 as [|z l1 IH]; cbn; intros Hs Hx Hy; [by apply elem_of_nil in Hx|]. inv Hs.
  apply elem_of_cons in Hx as [->|Hx]; [|by apply IH].
  by eapply Forall_forall in H2; [|apply elem_of_app; right].
Qed.

Lemma holds_purge need reason q : well_formed q -> total (entries q) < 2 ^ 64 -> 0 <= need ->
  holds (on (fun c => queue c = q)) (purge_oldest_by_policy now local_identity need reason)
    (fun acc => on (fun c => well_formed (queue c) /\ purged need q (queue c) acc)) (fun _ => True).
Proof.
  intros Hq Hsum Hneed. unfold purge_oldest_by_policy. case_match.
  { bool_to_prop. subst. apply holds_ret. intros w Hw. unfold on in *. rewrite Hw. split; [done|].
    exists [], (entries q). split_and!; try done; [|by intros x y Hx%elem_of_nil].
    split; [by right|]. intros g x Hg. by destruct g. }
  unfold load_stored_records.
  eapply (holds_bind _ _ _ _ (fun l w => on (fun c => queue c = q) w /\ l ≡ₚ entries q)).
  { eapply (holds_bind _ _ _ _ (fun l w => on (fun c => queue c = q) w /\ l ≡ₚ map_to_list q)).
    - intros w Hw. unfold db_scan. destruct (scan_prefix _ (db w)) as [l|e|] eqn:Hl; cbn; [|done..].
      split; [done|]. rewrite <-Hw. by apply scan_prefix_ok.
    - intros l. apply holds_pure. intros Hl. apply holds_ret. intros w Hw. split; [done|].
      unfold entries, load. by rewrite Hl. }
  intros l. apply holds_pure. intros Hl. set (cmp := purge_cmp local_identity).
  assert (Hs : entries q ≡ₚ sort_by cmp l) by (by rewrite sort_by_perm).
  eapply holds_bind; [eapply (purge_loop reason _ 0 0 need q); try done; rewrite <-(total_perm _ _ Hs); lia|].
  intros [[n b] req]. apply holds_ret. intros w (gone & kept & Hsplit & Hwf & Hk & Hacc & Hshort).
  split; [done|]. exists gone, kept. rewrite <-Hsplit. split_and!; try done.
  - simplify_eq. f_equal; lia.
  - intros x y Hx Hy. eapply (sorted_split (cmp_le cmp)); [rewrite <-Hsplit; apply sort_by_ordered, _|done..].
Qed.

(** *** A purge goes through on a reliable backend *)

Section Reliability.
Context {HBR : Reliable B} {HCAS : BincodeSpec CustodyTransition.t}.

Lemma succeeds_update (f : B -> outcome string B) : (forall b, exists b', f b = Ok b') -> succeeds (update_db f).
Proof. intros Hf w. unfold update_db. destruct (Hf (db w)) as [b ->]. by eexists. Qed.

Lemma succeeds_log r f t reason : succeeds (record_transition (B := B) now r f t reason).
Proof.
  unfold record_transition. apply succeeds_bind; [intros w; by eexists|]. intros n.
  apply succeeds_bind.
  { apply succeeds_lift. destruct (bincode_serialize_total (CustodyTransition.mk (custody_id r) (relay_message_id r)
      (source_peer_id r) (destination_peer_id r) f t reason now n)) as [v ->]. by eexists. }
  intros v. apply succeeds_bind; [apply succeeds_update, put_total|]. intros []. apply succeeds_update, flush_total.
Qed.

Lemma succeeds_remove d i : succeeds (remove_message (B := B) d i).
Proof.
  unfold remove_message. apply succeeds_bind; [apply succeeds_update, remove_total|]. intros [].
  apply succeeds_update, flush_total.
Qed.

Lemma succeeds_purge need reason : succeeds (purge_oldest_by_policy (B := B) now local_identity need reason).
Proof.
  unfold purge_oldest_by_policy. case_match; [apply succeeds_ret|]. apply succeeds_bind.
  { unfold load_stored_records. apply succeeds_bind; [|intros; apply succeeds_ret].
    intros w. unfold db_scan. apply scan_total. }
  intros l. apply succeeds_bind; [|intros [[n b] req]; apply succeeds_ret].
  apply succeeds_for_loop. intros x [[n b] req]. unfold purge_candidate. case_match; [apply succeeds_ret|].
  apply succeeds_bind; [apply succeeds_log|intros []]. apply succeeds_bind; [apply succeeds_remove|intros []].
  apply succeeds_ret.
Qed.

End Reliability.

(** ** The space a message is accepted into *)

Section Capacity.
Context (bound : Z) (Hbound : bound < 2 ^ 64).

(** The queue takes [scm] bytes, at most [bound]. *)
Definition sized (scm : Z) (c : gmap Bytes Bytes) : Prop :=
  well_formed (queue c) /\ total (entries (queue c)) = scm /\ scm <= bound.

Lemma sized_about scm : about CUSTODY_MSG_PREFIX (sized scm).
Proof.
  intros k v c Hk Hc. destruct (queue_about (queue c) k v c Hk eq_refl) as [H1 H2]. unfold sized. by rewrite H1, H2.
Qed.

Lemma sized_nonneg scm c : sized scm c -> 0 <= scm.
Proof.
  intros (Hq & <- & _). apply total_nonneg, Forall_forall. intros x. apply size_nonneg.
Qed.

Lemma sized_purge scm need reason : 0 <= need ->
  holds (on (sized scm)) (purge_oldest_by_policy now local_identity need reason)
    (fun acc => on (sized (saturating_sub scm acc.2))) (fun _ => True).
Proof.
  intros Hneed w (Hq & Hscm & Hle).
  pose proof (holds_purge need reason _ Hq ltac:(lia) Hneed w eq_refl) as Hp.
  destruct (purge_oldest_by_policy _ _ _ _ w) as [w' [acc|e|]]; cbn in *; [|done..].
  destruct Hp as (Hwf & gone & kept & Hsplit & Hkept & -> & _). split; [done|]. cbn.
  rewrite (total_perm _ _ Hkept). rewrite (total_perm _ _ Hsplit), total_app in Hscm.
  assert (0 <= total kept /\ 0 <= total gone).
  { split; apply total_nonneg, Forall_forall; intros x Hx; eapply (size_nonneg (queue (contents (db w))));
      rewrite Hsplit; apply elem_of_app; auto. }
  unfold saturating_sub. lia.
Qed.

Lemma sized_bytes scm : holds (on (sized scm)) current_scm_storage_bytes
  (fun n w => on (sized scm) w /\ n = scm) (fun _ => True).
Proof.
  intros w Hw. pose proof (sized_nonneg _ _ Hw) as Hnn. destruct Hw as (Hq & Hscm & Hle).
  unfold current_scm_storage_bytes, db_scan, mbind, M_bind, mret, M_ret. cbn.
  destruct (scan_prefix _ (db w)) as [l|e|] eqn:Hl; cbn; [|done..]. split; [done|].
  apply scan_prefix_ok in Hl. rewrite load_total.
  - assert (Hp : load l ≡ₚ entries (queue (contents (db w)))) by (unfold entries, load; by rewrite Hl).
    rewrite (total_perm _ _ Hp), Hscm. apply wrap_small. split; lia.
  - intros k v Hkv. rewrite Hl in Hkv. apply elem_of_map_to_list in Hkv. destruct (Hq k v Hkv) as (r & Hr & _).
    exists r. by apply bincode_roundtrip.
Qed.

(** A purge that is only done when something is required. *)
Lemma sized_purge_if scm need reason :
  holds (on (sized scm)) (if need >? 0 then purge_oldest_by_policy now local_identity need reason else mret (0, 0))
    (fun acc => on (sized (saturating_sub scm acc.2))) (fun _ => True).
Proof.
  case_match; bool_to_prop; [apply sized_purge; lia|]. apply holds_ret. intros w Hw.
  pose proof (sized_nonneg _ _ Hw). cbn. unfold saturating_sub. replace (Z.max (scm - 0) 0) with scm by lia. done.
Qed.

Lemma sized_context scm s n : holds (on (sized scm)) (context_of s n)
  (fun c w => on (sized scm) w /\ (x ← s; StoragePressureContext.from_snapshot x n) = Some c) (fun _ => True).
Proof. unfold context_of. destruct (_ ≫= _); [apply holds_ret|apply holds_fail]; done. Qed.

(** The first pass keeps account of what it purges. *)
Lemma sized_internal scm probe incoming :
  holds (on (sized scm)) (enforce_storage_pressure_internal now probe env_total env_used local_identity incoming)
    (fun report => on (sized (StoragePressureReport.scm_bytes_after report))) (fun _ => True).
Proof.
  unfold enforce_storage_pressure_internal.
  eapply holds_bind; [apply sized_bytes|]. intros n. apply holds_pure. intros ->.
  eapply holds_bind; [apply sized_context|]. intros ctx. apply holds_pure. intros _. case_match.
  - eapply holds_bind; [apply sized_purge_if|]. intros [n b]. by apply holds_ret.
  - eapply holds_bind; [apply sized_purge_if|]. intros [n1 b1].
    eapply holds_bind; [apply sized_purge_if|]. intros [n2 b2]. by apply holds_ret.
Qed.

Lemma sized_make_room scm n limit reason :
  holds (on (sized scm)) (make_room now local_identity scm n limit reason)
    (fun scm' => on (sized scm')) (fun _ => True).
Proof.
  unfold make_room. case_match; [|by apply holds_ret].
  eapply holds_bind; [apply sized_purge; unfold saturating_sub; lia|]. intros acc. by apply holds_ret.
Qed.

(** What the check before a write of [n] bytes establishes, for a device with
    the second reading [snapshot]: with the custody bytes [scm1] that the first
    pass left, everything else on the device is [non_scm_used_bytes]. *)
Definition room (snapshot : DeviceStorageSnapshot.t) (incoming : CustodyMessage.t) (n scm1 scm : Z) : Prop :=
  exists ctx, StoragePressureContext.from_snapshot snapshot scm1 = Some ctx /\ 0 <= scm1 <= bound /\
    (let st := StoragePressureContext.state_for_scm_bytes ctx scm in
     saturating_add 64 scm n <= StoragePressureState.target_quota_bytes st /\
     saturating_add 64 scm n <= StoragePressureState.hard_ceiling_bytes st) /\
    (StoragePressureState.emergency_mode (StoragePressureContext.state_for_scm_bytes ctx scm1) = true ->
     is_identity_related_record local_identity incoming = true).

Lemma sized_write scm probe snapshot incoming v : bincode_serialize incoming = Ok v ->
  holds (on (sized scm))
    (enforce_storage_pressure_for_write now probe (Some snapshot) env_total env_used local_identity incoming)
    (fun _ => on (fun c => exists scm1 scm', sized scm' c /\ room snapshot incoming (len v) scm1 scm')) (fun _ => True).
Proof.
  intros Hv. unfold enforce_storage_pressure_for_write.
  eapply holds_bind; [apply sized_internal|]. intros report. cbv beta.
  set (scm1 := StoragePressureReport.scm_bytes_after report).
  assert (Hsize : serialized_record_bytes incoming = Ok (len v)) by (unfold serialized_record_bytes; by rewrite Hv).
  rewrite Hsize.
  eapply (holds_bind _ _ _ _ (fun n w => on (sized scm1) w /\ n = len v)).
  { apply holds_lift; [|done]. intros n w Hn Hw. split; [done|]. by inv Hn. }
  intros n. apply holds_pure. intros ->.
  eapply holds_bind; [apply sized_context|]. intros ctx. apply holds_pure. cbn. intros Hctx.
  destruct (_ && _) eqn:He; [by apply holds_fail|].
  eapply (holds_bind _ _ _ _ (fun scm2 w => on (sized scm2) w /\ 0 <= scm1 <= bound)).
  { intros w Hw. pose proof (sized_make_room _ (len v) (StoragePressureState.target_quota_bytes
      (StoragePressureContext.state_for_scm_bytes ctx scm1)) "storage_pressure_target_quota" w Hw) as Hm.
    destruct (make_room _ _ _ _ _ _ w) as [w' [x|x|]]; cbn in *; try done. split; [done|].
    split; [by eapply sized_nonneg|apply Hw]. }
  intros scm2. apply holds_pure. intros Hscm1. eapply holds_bind; [apply sized_make_room|]. intros scm3. cbv beta.
  destruct (_ || _) eqn:Hover; [by apply holds_fail|]. apply holds_ret. intros w Hw. exists scm1, scm3. split; [done|].
  exists ctx. bool_to_prop. split_and!; try done; try lia. intros Hem. rewrite Hem in He. cbn in He.
  by destruct (is_identity_related_record local_identity incoming).
Qed.

(** A write adds at most its own size. *)
Lemma total_insert q k v r : well_formed q -> bincode_deserialize v = Ok r ->
  total (entries (<[k := v]> q)) <= total (entries q) + len v.
Proof.
  intros Hq Hr. rewrite <-(total_perm _ _ (entries_delete (<[k := v]> q) k v r (lookup_insert_eq _ _ _) Hr)).
  rewrite delete_insert_eq. change (len v + total (entries (delete k q)) <= total (entries q) + len v).
  destruct (q !! k) as [v'|] eqn:Hk; [|rewrite (delete_id q k Hk); lia].
  destruct (Hq k v' Hk) as (r' & Hr' & _).
  rewrite <-(total_perm _ _ (entries_delete q k v' r' Hk (bincode_roundtrip _ _ Hr'))).
  change (len v + total (entries (delete k q)) <= len v' + total (entries (delete k q)) + len v).
  pose proof (len_nonneg v'). lia.
Qed.

Lemma key_of_prefix r : as_bytes CUSTODY_MSG_PREFIX `prefix_of` key_of r.
Proof.
  unfold key_of, custody_key. rewrite as_bytes_app. apply prefix_app_r, destination_prefix_msg.
Qed.

Lemma queue_insert r v c : queue (<[key_of r := v]> c) = <[key_of r := v]> (queue c).
Proof. apply map_filter_insert_True. apply key_of_prefix. Qed.

(** What the theorem says of a new message. *)
Definition accepted_within (snapshot : DeviceStorageSnapshot.t) (source destination : string) (after : Z) : Prop :=
  exists scm1, 0 <= scm1 <= bound /\
    let other := saturating_sub (Z.min (DeviceStorageSnapshot.used_bytes snapshot)
                                       (DeviceStorageSnapshot.total_bytes snapshot)) scm1 in
    after <= saturating_sub (DeviceStorageSnapshot.total_bytes snapshot * 90 / 100) other /\
    (StoragePressureState.emergency_mode (StoragePressureContext.state_for_scm_bytes
       (StoragePressureContext.mk (DeviceStorageSnapshot.total_bytes snapshot) other) scm1) = true ->
     is_identity_related_ids local_identity source destination = true).

Lemma room_within snapshot incoming n scm1 scm after :
  0 < DeviceStorageSnapshot.total_bytes snapshot < 2 ^ 64 -> u64 (DeviceStorageSnapshot.used_bytes snapshot) ->
  0 <= scm <= bound -> 0 <= n -> room snapshot incoming n scm1 scm -> after <= scm + n ->
  accepted_within snapshot (source_peer_id incoming) (destination_peer_id incoming) after.
Proof.
  intros Ht Hu Hscm Hn (ctx & Hctx & Hb & [_ Hhard] & Hem) Hafter. exists scm1. split; [done|].
  pose proof (from_snapshot_ok snapshot scm1 ctx ltac:(unfold fits; lia) Hu ltac:(lia) Hctx) as (Hok & Htot & _).
  assert (Hctx' : ctx = StoragePressureContext.mk (DeviceStorageSnapshot.total_bytes snapshot)
    (saturating_sub (Z.min (DeviceStorageSnapshot.used_bytes snapshot) (DeviceStorageSnapshot.total_bytes snapshot)) scm1)).
  { unfold StoragePressureContext.from_snapshot in Hctx. case_match; [done|]. by inv Hctx. }
  destruct (state_quota ctx scm Hok ltac:(unfold fits; lia)) as [_ Hceil]. rewrite Hceil in Hhard.
  rewrite Htot, Hctx' in Hhard. cbn in Hhard. split; [|by rewrite <-Hctx'].
  assert (DeviceStorageSnapshot.total_bytes snapshot * 90 / 100 < 2 ^ 64 - 1) by (apply Z.div_lt_upper_bound; lia).
  unfold saturating_add, saturating_sub in *. lia.
Qed.

Lemma sized_put snapshot incoming v scm1 scm' :
  0 < DeviceStorageSnapshot.total_bytes snapshot < 2 ^ 64 -> u64 (DeviceStorageSnapshot.used_bytes snapshot) ->
  bincode_serialize incoming = Ok v -> room snapshot incoming (len v) scm1 scm' ->
  holds (on (sized scm')) (put_message incoming)
    (fun _ => on (fun c => accepted_within snapshot (source_peer_id incoming) (destination_peer_id incoming)
                             (total (entries (queue c))))) (fun _ => True).
Proof.
  intros Ht Hu Hv Hroom.
  eapply holds_conseq; [apply (holds_put_message (sized scm') (fun c => accepted_within snapshot
    (source_peer_id incoming) (destination_peer_id incoming) (total (entries (queue c)))) (fun _ => True))|..]; try done.
  intros c v' Hv' Hc. pose proof (sized_nonneg _ _ Hc). destruct Hc as (Hq & Hscm & Hle).
  assert (v' = v) by congruence. subst v'. eapply (room_within _ _ (len v) scm1 scm'); try done; [apply len_nonneg|].
  rewrite queue_insert, <-Hscm. eapply total_insert; [done|]. by apply bincode_roundtrip.
Qed.
End Capacity.

(** [r] is a record of the message among the keys of the destination. *)
Definition held (c : gmap Bytes Bytes) (d m : string) (r : CustodyMessage.t) : Prop :=
  relay_message_id r = m /\ exists k, stored c k r /\ as_bytes (destination_prefix d) `prefix_of` k.

Lemma held_in_queue c d m r : held c d m r -> exists kv, kv ∈ map_to_list (queue c).
Proof.
  intros [_ (k & (v & Hk & Hp & _) & _)]. exists (k, v). by apply elem_of_map_to_list, map_lookup_filter_Some.
Qed.

Lemma bind_result {S E A C} (m : M S E A) (k : A -> M S E C) s s' x : m s = (s', x) ->
  (m ≫= k) s = match x with Ok a => k a s' | Err e => (s', Err e) | Panic => (s', Panic) end.
Proof. intros Hm. unfold mbind, M_bind. by rewrite Hm. Qed.

(** [find_existing] reads only, finds a record if there is one, and fails only
    with the backend. *)
Lemma find_existing_spec d m (w : world B) :
  (find_existing d m w).1 = w /\
  match (find_existing d m w).2 with
  | Ok (Some r) => held (contents (db w)) d m r
  | Ok None => forall r, ~ held (contents (db w)) d m r
  | _ => forall l, scan_prefix (as_bytes (destination_prefix d)) (db w) <> Ok l
  end.
Proof.
  unfold find_existing, scan_messages, db_scan, mbind, M_bind, mret, M_ret. cbn.
  destruct (scan_prefix (as_bytes (destination_prefix d)) (db w)) as [l|e|] eqn:Hl; cbn; [|done..]. split; [done|].
  apply scan_prefix_ok in Hl. destruct (List.find _ _) as [r|] eqn:Hf.
  - apply List.find_some in Hf as [Hin Hr]. apply bool_decide_eq_true in Hr. split; [done|].
    apply list_elem_of_In, list_elem_of_omap in Hin as ([k v] & Hin & Hv). rewrite Hl in Hin.
    apply elem_of_map_to_list, map_lookup_filter_Some in Hin as [Hk Hp]. cbn in Hp, Hv. exists k. split; [|done].
    exists v. split_and!; [done|etrans; [apply destination_prefix_msg|done]|]. by destruct (bincode_deserialize v); inv Hv.
  - intros r [Hr (k & (v & Hk & _ & Hv) & Hp)]. eapply List.find_none in Hf; [by case_bool_decide|].
    apply list_elem_of_In, list_elem_of_omap. exists (k, v). split; [|cbn; by rewrite Hv].
    rewrite Hl. by apply elem_of_map_to_list, map_lookup_filter_Some.
Qed.

End Storage.

(** ** Runs on the memory backend *)

Module CustodyStorageDemo.
Import CustodyDemo.

Definition after_day : world MemoryStorage.t := run_calls None None None day registered.


Definition device_state : DeviceStorageSnapshot.t := DeviceStorageSnapshot.mk 1000000 1000.

Lemma registered_empty r : ~ held (contents (db registered)) peer "m1" r.
Proof.
  assert (Hq : map_to_list (queue (contents (db registered))) = []) by by vm_compute.
  intros Hr. apply held_in_queue in Hr as [kv Hkv]. rewrite Hq in Hkv. by apply elem_of_nil in Hkv.
Qed.

End CustodyStorageDemo.
