(* ===== verification/Onion.v ===== *)
(** * Onion envelopes (core/src/privacy/onion.rs)

    A message for a destination wrapped once per relay of a path; a relay peels
    one layer and learns the next hop.  The ephemeral secrets drawn while
    wrapping are an argument; the ciphers are the crates of the ratchet. *)

From S2P Require Import Prelude Backend Drift State Records MeshStore Ratchet.

Definition MAX_ONION_HOPS : Z := 5.
Definition X25519_KEY_SIZE : Z := 32.
Definition XCHACHA_NONCE_SIZE : Z := 24.

Inductive OnionError : Type :=
| InvalidEnvelope
| EncryptionFailed
| DecryptionFailed
| TooManyHops (max : Z)
| InvalidRoutingInfo
| NoLayersRemaining
| InvalidHopAddress
| IoError (msg : string).

Module OnionLayer.

Record t : Type := mk {
  ephemeral_pk : Bytes;
  encrypted_routing_info : Bytes;
  encrypted_payload : Bytes
}.

#[global] Instance t_eq_dec : EqDecision t.
Proof. solve_decision. Defined.

#[global] Instance t_layout : Layout t.
Proof.
  apply (layout_iso (fun l => (ephemeral_pk l, encrypted_routing_info l, encrypted_payload l))
    (fun '(a, b, c) => mk a b c)).
  by intros [].
Defined.

#[global] Instance t_countable : Countable t := layout_countable.
End OnionLayer.

Module OnionEnvelope.
Record t : Type := mk { current_layer : OnionLayer.t; remaining_layers : Bytes }.
End OnionEnvelope.

(** Poly1305 appends a tag of 16 bytes. *)
Class AeadTag (C : RatchetCrates) : Prop :=
  aead_len : forall k n ad m c, aead_encrypt k n ad m = Ok c -> len c = len m + 16.

Module Onion.
Import OnionLayer OnionEnvelope.

Section Code.
Context `{RatchetCrates} `{Bincode OnionLayer.t}.

Definition derive_layer_key (shared_secret : Bytes) : Bytes :=
  blake3_derive_key "SCMessenger-onion-layer-key-v1" shared_secret.

Definition derive_nonce (shared_secret : Bytes) (counter : Z) : Bytes :=
  take (Z.to_nat XCHACHA_NONCE_SIZE)
    (blake3_derive_key "SCMessenger-onion-layer-nonce-v1" (shared_secret ++ [counter])).

(** The layer for the holder of [pk]: both parts are sealed with the key shared
    with it, the nonces are also the associated data. *)
Definition seal_layer (ephemeral_secret : Secret) (pk : PublicKey) (routing_info payload : Bytes)
    : outcome OnionError OnionLayer.t :=
  let ephemeral_pk := x25519_public ephemeral_secret in
  let shared_secret := diffie_hellman ephemeral_secret pk in
  let key := derive_layer_key shared_secret in
  let routing_nonce := derive_nonce shared_secret 0 in
  let! encrypted_routing_info :=
    map_err (fun _ => EncryptionFailed) (aead_encrypt key routing_nonce routing_nonce routing_info) in
  let payload_nonce := derive_nonce shared_secret 1 in
  let! encrypted_payload :=
    map_err (fun _ => EncryptionFailed) (aead_encrypt key payload_nonce payload_nonce payload) in
  Ok (OnionLayer.mk ephemeral_pk encrypted_routing_info encrypted_payload).

Definition serialize_layer (l : OnionLayer.t) : outcome OnionError Bytes :=
  map_err (fun _ => InvalidEnvelope) (bincode_serialize l).

(** One turn of the loop over the relays, last to first. *)
Definition wrap_relay (eph : nat -> Secret) (path : list PublicKey) (i : nat) (remaining_layers : Bytes)
    : outcome OnionError Bytes :=
  let! relay_pk := index path (Z.of_nat i) in
  let! next_hop_pk := index path (Z.of_nat i + 1) in
  let! layer := seal_layer (eph i) relay_pk next_hop_pk remaining_layers in
  serialize_layer layer.

Definition construct_onion (eph : nat -> Secret) (path : list PublicKey) (payload : Bytes)
    : outcome OnionError OnionEnvelope.t :=
  if (len path =? 0) || (len path >? MAX_ONION_HOPS) then Err (TooManyHops MAX_ONION_HOPS) else
  let! destination_pk := index path (len path - 1) in
  let! layer := seal_layer (eph (length path - 1)%nat) destination_pk [] payload in
  let! remaining_layers := serialize_layer layer in
  let! remaining_layers :=
    for_each (wrap_relay eph path) (reverse (seq 0 (length path - 1))) remaining_layers in
  let! outermost := map_err (fun _ => InvalidEnvelope) (bincode_deserialize remaining_layers) in
  Ok (OnionEnvelope.mk outermost []).

Definition peel_layer (envelope : OnionEnvelope.t) (relay_secret_key : Secret)
    : outcome OnionError (option PublicKey * Bytes) :=
  let layer := current_layer envelope in
  if negb (len (ephemeral_pk layer) =? X25519_KEY_SIZE) then Err InvalidEnvelope else
  let shared_secret := diffie_hellman relay_secret_key (ephemeral_pk layer) in
  let key := derive_layer_key shared_secret in
  let routing_nonce := derive_nonce shared_secret 0 in
  let payload_nonce := derive_nonce shared_secret 1 in
  let! routing_info :=
    if len (encrypted_routing_info layer) =? 0 then Ok []
    else map_err (fun _ => DecryptionFailed)
           (aead_decrypt key routing_nonce routing_nonce (encrypted_routing_info layer)) in
  let! payload := map_err (fun _ => DecryptionFailed)
                    (aead_decrypt key payload_nonce payload_nonce (encrypted_payload layer)) in
  if len routing_info =? 0 then Ok (None, payload)
  else if negb (len routing_info =? X25519_KEY_SIZE) then Err InvalidHopAddress
  else Ok (Some routing_info, payload).

(** What the nodes on a path do with an envelope: peel, read the next layer,
    pass it on; the hops they learn and the payload at the end. *)
Fixpoint travel (envelope : OnionEnvelope.t) (secrets : list Secret) : outcome OnionError (list PublicKey * Bytes) :=
  match secrets with
  | [] => Err NoLayersRemaining
  | sk :: secrets =>
      let! '(next_hop, bytes) := peel_layer envelope sk in
      match next_hop with
      | None => Ok ([], bytes)
      | Some pk =>
          let! layer := map_err (fun _ => InvalidEnvelope) (bincode_deserialize bytes) in
          let! '(hops, payload) := travel (OnionEnvelope.mk layer []) secrets in
          Ok (pk :: hops, payload)
      end
  end.

End Code.

(** ** Correctness *)

Section Correct.
Context {CR : RatchetCrates} {CRS : RatchetCratesSpec CR} {CRT : AeadTag CR}.
Context `{HCL : Bincode OnionLayer.t} {HCLS : BincodeSpec OnionLayer.t}.

Lemma seal_total e pk routing payload : exists l, seal_layer e pk routing payload = Ok l.
Proof.
  unfold seal_layer. set (k := derive_layer_key _).
  destruct (aead_total k (derive_nonce (diffie_hellman e pk) 0) (derive_nonce (diffie_hellman e pk) 0) routing) as [c ->].
  destruct (aead_total k (derive_nonce (diffie_hellman e pk) 1) (derive_nonce (diffie_hellman e pk) 1) payload) as [d ->].
  by eexists.
Qed.

(** The holder of the secret opens the layer that was sealed for its key. *)
Lemma peel_seal e sk routing payload l r : seal_layer e (x25519_public sk) routing payload = Ok l ->
  peel_layer (OnionEnvelope.mk l r) sk =
    if len routing =? 0 then Ok (None, payload)
    else if negb (len routing =? X25519_KEY_SIZE) then Err InvalidHopAddress else Ok (Some routing, payload).
Proof.
  unfold seal_layer. set (s := diffie_hellman e (x25519_public sk)).
  destruct (aead_encrypt (derive_layer_key s) (derive_nonce s 0) _ routing) as [c| |] eqn:Hc; [|done..]. cbn.
  destruct (aead_encrypt (derive_layer_key s) (derive_nonce s 1) _ payload) as [d| |] eqn:Hd; [|done..]. cbn.
  intros Hl. inv Hl. unfold peel_layer. cbn. rewrite x25519_public_32. cbn.
  rewrite (dh_agree sk e). fold s. rewrite (aead_open _ _ _ _ _ Hc), (aead_open _ _ _ _ _ Hd). cbn.
  pose proof (aead_len _ _ _ _ _ Hc). pose proof (len_nonneg routing).
  rewrite (proj2 (Z.eqb_neq (len c) 0)) by lia. done.
Qed.

Section Path.
Context (eph : nat -> Secret) (secrets : list Secret) (payload : Bytes).
Let path : list PublicKey := map x25519_public secrets.
Context (Hlen : 1 <= len secrets <= MAX_ONION_HOPS).

Lemma path_index i sk : secrets !! i = Some sk -> @index OnionError _ path (Z.of_nat i) = Ok (x25519_public sk).
Proof.
  intros Hi. assert (Hp : path !! i = Some (x25519_public sk)) by (unfold path; by rewrite list_lookup_fmap, Hi).
  unfold index. rewrite (proj2 (Z.leb_le 0 (Z.of_nat i))) by lia. by rewrite Nat2Z.id, Hp.
Qed.

(** The bytes after the relays from [k] on have been wrapped. *)
Lemma onion_chain m k B0 L0 : (k + m = length secrets - 1)%nat ->
  bincode_serialize L0 = Ok B0 ->
  (forall r sk, secrets !! (length secrets - 1)%nat = Some sk ->
     peel_layer (OnionEnvelope.mk L0 r) sk = Ok (None, payload)) ->
  exists B L, for_each (wrap_relay eph path) (reverse (seq k m)) B0 = Ok B /\ bincode_deserialize B = Ok L /\
    forall r, travel (OnionEnvelope.mk L r) (drop k secrets) = Ok (drop (S k) path, payload).
Proof.
  intros Hkm H0 Hdest. revert k Hkm. induction m as [|m IH]; intros k Hkm.
  - exists B0, L0. split; [done|]. split; [by apply bincode_roundtrip|]. intros r.
    destruct (lookup_lt_is_Some_2 secrets k) as [sk Hsk]; [unfold len in Hlen; lia|].
    rewrite (drop_S _ _ _ Hsk). cbn. rewrite Hdest by (by rewrite <-Hkm, Nat.add_0_r). cbn.
    rewrite (drop_ge path) by (unfold path; rewrite length_map; lia). done.
  - destruct (IH (S k)) as (B & L & HB & HL & Htr); [lia|].
    destruct (lookup_lt_is_Some_2 secrets k) as [sk Hsk]; [lia|].
    destruct (lookup_lt_is_Some_2 secrets (S k)) as [sk' Hsk']; [lia|].
    destruct (seal_total (eph k) (x25519_public sk) (x25519_public sk') B) as [l Hl].
    destruct (bincode_serialize_total l) as [B' HB'].
    exists B', l. split_and!.
    + rewrite <-cons_seq, reverse_cons, for_each_app, HB. cbn. unfold wrap_relay.
      rewrite (path_index k sk Hsk). cbn. replace (Z.of_nat k + 1) with (Z.of_nat (S k)) by lia.
      rewrite (path_index (S k) sk' Hsk'). cbn. rewrite Hl. cbn. unfold serialize_layer. by rewrite HB'.
    + by apply bincode_roundtrip.
    + intros r. rewrite (drop_S _ _ _ Hsk). cbn. rewrite (peel_seal _ _ _ _ _ _ Hl), x25519_public_32. cbn.
      rewrite HL. cbn. rewrite Htr. cbn.
      assert (Hp : path !! S k = Some (x25519_public sk')) by (unfold path; by rewrite list_lookup_fmap, Hsk').
      by rewrite (drop_S path _ _ Hp).
Qed.
End Path.

Lemma index_last {A} (l : list A) x : last l = Some x -> @index OnionError A l (len l - 1) = Ok x.
Proof.
  rewrite last_lookup. intros Hx. pose proof (lookup_lt_Some _ _ _ Hx). unfold index, len.
  rewrite (proj2 (Z.leb_le 0 _)) by lia.
  replace (Z.to_nat (Z.of_nat (length l) - 1)) with (pred (length l)) by lia. by rewrite Hx.
Qed.

(** C22. An onion for 1 to 5 nodes can always be built, and the nodes of the path,
    peeling it one after the other with their secrets, learn exactly the key of
    the next node each, and the last one the payload; a path that is empty or
    longer than 5 is refused. *)
Theorem onion_roundtrip eph secrets payload :
  let path := map x25519_public secrets in
  (1 <= len secrets <= MAX_ONION_HOPS ->
   exists envelope, construct_onion eph path payload = Ok envelope /\
     travel envelope secrets = Ok (tail path, payload)) /\
  (len secrets = 0 \/ MAX_ONION_HOPS < len secrets ->
   construct_onion eph path payload = Err (TooManyHops MAX_ONION_HOPS)).
Proof.
  intros path. assert (Hpl : len path = len secrets) by apply len_map.
  assert (Hb : (len path =? 0) || (len path >? MAX_ONION_HOPS) = true <-> len secrets = 0 \/ MAX_ONION_HOPS < len secrets).
  { rewrite orb_true_iff, Z.eqb_eq, Z.gtb_lt, Hpl. lia. }
  pose proof (len_nonneg secrets) as Hnn.
  split; intros Hlen; unfold construct_onion.
  2:{ by rewrite (proj2 Hb Hlen). }
  destruct ((len path =? 0) || (len path >? MAX_ONION_HOPS)) eqn:Hbad; [exfalso; apply proj1 in Hb; specialize (Hb eq_refl); lia|].
  destruct (last secrets) as [sk|] eqn:Hsk; [|apply last_None in Hsk; rewrite Hsk in Hlen; unfold len in Hlen; cbn in Hlen; lia].
  assert (Hp : last path = Some (x25519_public sk)) by (unfold path; by rewrite fmap_last, Hsk).
  rewrite (index_last _ _ Hp). cbn.
  destruct (seal_total (eph (length path - 1)%nat) (x25519_public sk) [] payload) as [L0 HL0]. rewrite HL0. cbn.
  destruct (bincode_serialize_total L0) as [B0 HB0]. unfold serialize_layer at 1. rewrite HB0. cbn.
  assert (Hlp : length path = length secrets) by apply length_map. rewrite Hlp.
  destruct (onion_chain eph secrets payload Hlen (length secrets - 1) 0 B0 L0) as (B & L & HB & HL & Htr); [done|done| |].
  { intros r sk' Hsk'. assert (sk' = sk); [|subst; by rewrite (peel_seal _ _ _ _ _ _ HL0)].
    rewrite last_lookup in Hsk. rewrite <-Nat.sub_1_r in Hsk. congruence. }
  fold path in HB. rewrite HB. cbn. rewrite HL. cbn. eexists. split; [done|]. rewrite <-(drop_0 secrets).
  by rewrite Htr.
Qed.
End Correct.
End Onion.

(** ** The application's interface (core/src/iron_core.rs) *)

Module PeelResult.
Record t : Type := mk { next_hop : option Bytes; remaining_data : Bytes }.
End PeelResult.

Module OnionFacade.
Import Onion.

Section Code.
Context `{CR : RatchetCrates} `{HCL : Bincode OnionLayer.t} `{HCE : Bincode OnionEnvelope.t} `{HCV : Bincode Bytes}.
(** [hex::decode] and [serde_json::from_str]. *)
Context (hex_decode : string -> option Bytes) (json_strings : string -> option (list string)).

Definition decode_key (hex : string) : outcome IronCoreError PublicKey :=
  match hex_decode hex with
  | None => Err InvalidInput
  | Some bytes => if negb (len bytes =? 32) then Err InvalidInput else Ok bytes
  end.

Fixpoint decode_keys (l : list string) : outcome IronCoreError (list PublicKey) :=
  match l with
  | [] => Ok []
  | h :: l => let! k := decode_key h in let! ks := decode_keys l in Ok (k :: ks)
  end.

Definition prepare_onion_message (eph : nat -> Secret) (envelope_data : Bytes) (relay_public_keys_json : string)
    : outcome IronCoreError Bytes :=
  match json_strings relay_public_keys_json with
  | None => Err InvalidInput
  | Some relay_keys =>
      if len relay_keys =? 0 then Ok envelope_data else
      let! path := decode_keys relay_keys in
      let! envelope := map_err (fun _ => CryptoError) (construct_onion eph path envelope_data) in
      map_err (fun _ => Internal) (bincode_serialize envelope)
  end.

Definition peel_onion_layer (onion_data relay_secret_key : Bytes) : outcome IronCoreError PeelResult.t :=
  if negb (len relay_secret_key =? 32) then Err InvalidInput else
  let! envelope := map_err (fun _ => InvalidInput) (bincode_deserialize onion_data) in
  let! '(next_hop, remaining) := map_err (fun _ => CryptoError) (peel_layer envelope relay_secret_key) in
  let remaining_data := unwrap_or remaining (bincode_serialize remaining) in
  Ok (PeelResult.mk next_hop remaining_data).

End Code.

(** The format of [bincode] 1.3 for these types: a vector is its length in 8
    bytes, little endian, and its elements; a structure is its fields.  A value
    is only read from a buffer that starts with its encoding. *)
Definition vec_bytes (v : Bytes) : Bytes := u64_to_le_bytes (len v) ++ v.

Definition layer_bytes (l : OnionLayer.t) : Bytes :=
  vec_bytes (OnionLayer.ephemeral_pk l) ++ vec_bytes (OnionLayer.encrypted_routing_info l) ++
  vec_bytes (OnionLayer.encrypted_payload l).

Definition envelope_bytes (e : OnionEnvelope.t) : Bytes :=
  layer_bytes (OnionEnvelope.current_layer e) ++ vec_bytes (OnionEnvelope.remaining_layers e).

Class BincodeFormat `{Bincode Bytes} `{Bincode OnionEnvelope.t} : Prop := {
  format_vec : forall v : Bytes, bincode_serialize v = Ok (vec_bytes v);
  format_read : forall d (e : OnionEnvelope.t), bincode_deserialize d = Ok e ->
    envelope_bytes e `prefix_of` d /\ len (OnionLayer.ephemeral_pk (OnionEnvelope.current_layer e)) < 2 ^ 64;
  format_no_panic : forall d, @bincode_deserialize OnionEnvelope.t _ d <> Panic
}.

Section Forwarding.
Context {CR : RatchetCrates} `{HCV : Bincode Bytes} `{HCE : Bincode OnionEnvelope.t} {HF : BincodeFormat}.

(** A vector on its own is not the encoding of an envelope. *)
Lemma vec_not_envelope (v : Bytes) (e : OnionEnvelope.t) : len v < 2 ^ 64 ->
  len (OnionLayer.ephemeral_pk (OnionEnvelope.current_layer e)) < 2 ^ 64 ->
  ~ envelope_bytes e `prefix_of` vec_bytes v.
Proof.
  intros Hv He [rest Hp]. unfold envelope_bytes, layer_bytes in Hp.
  destruct e as [[eph ri pl] rem]. cbn in *. unfold vec_bytes at 1 2 in Hp. rewrite <-!app_assoc in Hp.
  apply app_inj_1 in Hp as [Hlen Hp]; [|done].
  apply (f_equal from_le_bytes) in Hlen.
  rewrite !from_le_u64 in Hlen by (unfold fits; pose proof (len_nonneg v); pose proof (len_nonneg eph); lia).
  apply (f_equal len) in Hp. unfold vec_bytes in Hp. autorewrite with rust_simp in *.
  pose proof (len_nonneg ri). pose proof (len_nonneg pl). pose proof (len_nonneg rem). pose proof (len_nonneg rest). lia.
Qed.

(** C40. What a relay hands on after peeling a layer cannot be peeled by the
    next hop through the same interface: the remaining data are wrapped as a
    plain vector and not as an envelope, so peeling them fails with
    InvalidInput for every key, whatever onion the first relay received. *)
Theorem onion_forwarding_stuck data sk r sk' :
  peel_onion_layer data sk = Ok r -> len (PeelResult.remaining_data r) < 2 ^ 64 ->
  peel_onion_layer (PeelResult.remaining_data r) sk' = Err InvalidInput.
Proof.
  unfold peel_onion_layer. intros Hr Hlen. case_hyp Hr; [done|].
  destruct (bincode_deserialize data) as [e| |]; [|done..]. cbn in Hr.
  destruct (peel_layer e sk) as [[next rest]| |]; [|done..]. cbn in Hr. rewrite format_vec in Hr. cbn in Hr.
  inv Hr. cbn in *. case_goal; [done|].
  destruct (bincode_deserialize (vec_bytes rest)) as [e'| |] eqn:He; [|done|].
  - apply format_read in He as [Hp Hs]. exfalso. apply (vec_not_envelope rest e'); [|done..].
    unfold vec_bytes in Hlen. len_lia.
  - by apply format_no_panic in He.
Qed.
End Forwarding.
End OnionFacade.

(** ** Samples and witnesses *)

Module OnionSamples.

(** Toy crates with a 16-byte tag. *)
#[export] Instance crates : RatchetCrates := {
  x25519_public a := le_bytes 32 (from_le_bytes a);
  diffie_hellman a p := le_bytes 32 ((from_le_bytes a mod 2 ^ 256) * from_le_bytes p);
  blake3_derive_key ctx d := le_bytes 32 (3 * from_le_bytes d + Z.of_nat (String.length ctx));
  blake3_hash_hex s := s;
  aead_encrypt k n ad m := Ok (le_bytes 16 (from_le_bytes (k ++ n ++ ad)) ++ m);
  aead_decrypt k n ad c :=
    if decide (take 16 c = le_bytes 16 (from_le_bytes (k ++ n ++ ad))) then Ok (drop 16 c)
    else Err "tag mismatch"%string
}.

#[export] Instance crates_spec : RatchetCratesSpec crates.
Proof.
  split; cbv [x25519_public diffie_hellman aead_encrypt aead_decrypt crates].
  - intros a b. rewrite !from_le_le_bytes. f_equal. apply Z.mul_comm.
  - intros a. apply len_le_bytes.
  - eauto.
  - intros k n ad m c Hc.
    assert (c = le_bytes 16 (from_le_bytes (k ++ n ++ ad)) ++ m) as -> by congruence. set (t := le_bytes 16 _).
    assert (Ht : length t = 16%nat) by apply length_le_bytes.
    rewrite take_app_length', drop_app_length', decide_True; done.
  - intros k n ad c. case_decide; done.
Qed.

#[export] Instance crates_tag : AeadTag crates.
Proof. intros k n ad m c Hc. cbv [aead_encrypt crates] in Hc.
  assert (c = le_bytes 16 (from_le_bytes (k ++ n ++ ad)) ++ m) as -> by congruence. rewrite len_app, len_le_bytes. lia. Qed.

#[export] Existing Instances sample_bincode sample_bincode_spec.

Definition node (z : Z) : Secret := le_bytes 32 z.

Lemma onion_roundtrip_witness :
  exists envelope,
    Onion.construct_onion (fun i => node (7 + Z.of_nat i)) (map x25519_public [node 3; node 5; node 9]) [104; 105]
      = Ok envelope /\
    Onion.travel envelope [node 3; node 5; node 9] = Ok ([node 5; node 9], [104; 105]).
Proof.
  destruct (proj1 (Onion.onion_roundtrip (fun i => node (7 + Z.of_nat i)) [node 3; node 5; node 9] [104; 105]))
    as (e & He & Ht); [by_eval|].
  assert (Htail : tail (map x25519_public [node 3; node 5; node 9]) = [node 5; node 9]) by by vm_compute.
  rewrite Htail in Ht. exists e. split; [exact He|exact Ht].
Defined.

(** A reader of the format. *)
Definition read_vec (d : Bytes) : option (Bytes * Bytes) :=
  if len d <? 8 then None else
  let n := from_le_bytes (take 8 d) in
  let r := drop 8 d in
  if len r <? n then None else Some (take (Z.to_nat n) r, drop (Z.to_nat n) r).

Definition read_envelope (d : Bytes) : option OnionEnvelope.t :=
  if bool_decide (bytes d) then
    '(a, d) ← read_vec d; '(b, d) ← read_vec d; '(c, d) ← read_vec d; '(r, d) ← read_vec d;
    Some (OnionEnvelope.mk (OnionLayer.mk a b c) r)
  else None.

#[local] Instance vec_codec : Bincode Bytes :=
  {| bincode_serialize v := Ok (OnionFacade.vec_bytes v);
     bincode_deserialize d := match read_vec d with Some (v, _) => Ok v | None => Err "eof"%string end |}.

#[local] Instance envelope_codec : Bincode OnionEnvelope.t :=
  {| bincode_serialize e := Ok (OnionFacade.envelope_bytes e);
     bincode_deserialize d := match read_envelope d with Some e => Ok e | None => Err "eof"%string end |}.

Lemma read_vec_ok d v rest : bytes d -> read_vec d = Some (v, rest) ->
  d = OnionFacade.vec_bytes v ++ rest /\ len v < 2 ^ 64 /\ bytes rest.
Proof.
  unfold read_vec. intros Hd. repeat case_goal; [done..|]. intros H. bool_to_prop.
  assert (Hd8 : bytes (take 8 d)) by by apply Forall_take.
  assert (Hl8 : length (take 8 d) = 8%nat) by (rewrite length_take; unfold len in *; lia).
  pose proof (from_le_bytes_range _ Hd8) as Hr. unfold len in Hr at 1. rewrite Hl8 in Hr.
  unfold fits in Hr. injection H as Hv Hrest.
  assert (Hlv : len v = from_le_bytes (take 8 d)) by (subst v; rewrite len_take by lia; lia).
  split; [|split; [lia|subst rest; by apply Forall_drop, Forall_drop]].
  assert (H8 : u64_to_le_bytes (len v) = take 8 d).
  { rewrite Hlv. unfold u64_to_le_bytes. rewrite <-(le_from_le_bytes (take 8 d)) at 2 by done. by rewrite Hl8. }
  unfold OnionFacade.vec_bytes. rewrite H8, <-app_assoc, <-Hv, <-Hrest, take_drop, take_drop. done.
Qed.

#[local] Instance format : OnionFacade.BincodeFormat.
Proof.
  split; [done| |].
  - intros d e. cbn. unfold read_envelope. case_bool_decide as Hd; [|done].
    destruct (read_vec d) as [[a d1]|] eqn:H1; [|done]. cbn. apply read_vec_ok in H1 as (-> & Ha & Hd1); [|done].
    destruct (read_vec d1) as [[b d2]|] eqn:H2; [|done]. cbn. apply read_vec_ok in H2 as (-> & _ & Hd2); [|done].
    destruct (read_vec d2) as [[c d3]|] eqn:H3; [|done]. cbn. apply read_vec_ok in H3 as (-> & _ & Hd3); [|done].
    destruct (read_vec d3) as [[r d4]|] eqn:H4; [|done]. cbn. apply read_vec_ok in H4 as (-> & _ & Hd4); [|done].
    intros He. injection He as <-. split; [|done]. exists d4.
    unfold OnionFacade.envelope_bytes, OnionFacade.layer_bytes. cbn. by rewrite <-!app_assoc.
  - intros d. cbn. by destruct (read_envelope d).
Qed.

(** A two-node onion: the first peel works, the second cannot. *)
Definition onion_data : Bytes :=
  match Onion.construct_onion (fun i => node (7 + Z.of_nat i)) (map x25519_public [node 3; node 5]) [104; 105] with
  | Ok e => OnionFacade.envelope_bytes e
  | _ => []
  end.

Lemma onion_forwarding_stuck_witness :
  exists r, OnionFacade.peel_onion_layer onion_data (node 3) = Ok r /\
    PeelResult.next_hop r = Some (node 5) /\
    OnionFacade.peel_onion_layer (PeelResult.remaining_data r) (node 5) = Err InvalidInput.
Proof.
  destruct (OnionFacade.peel_onion_layer onion_data (node 3)) as [r|e|] eqn:Hr; [|exfalso; revert Hr; by vm_compute..].
  assert (Hn : (len (PeelResult.remaining_data r) <? 2 ^ 64) && bool_decide (PeelResult.next_hop r = Some (node 5)) = true).
  { assert (Hb : match OnionFacade.peel_onion_layer onion_data (node 3) with
                 | Ok r => (len (PeelResult.remaining_data r) <? 2 ^ 64) && bool_decide (PeelResult.next_hop r = Some (node 5))
                 | _ => false end = true) by by vm_compute.
    by rewrite Hr in Hb. }
  bool_to_prop. exists r. split_and!; [done|tauto|].
  apply (OnionFacade.onion_forwarding_stuck onion_data (node 3) r (node 5) Hr). tauto.
Defined.
End OnionSamples.
