(* ===== verification/Circuit.v ===== *)
(** * Circuits: choosing the relays of an onion path (core/src/privacy/circuit.rs)

    Reliability scores are [f32] values, which the code only compares and
    clamps; comparison of binary32 and binary64 numbers is the same function of
    their sign, exponent and mantissa.  The random draws (the number of hops,
    the random sample) are arguments.  The selection loop has no bound in the
    code: it runs on fuel here, [None] when the fuel is used up. *)

From S2P Require Import Prelude Float64 Backend Drift MeshStore Ratchet Onion.

Abbreviation f32 := spec_float.

Inductive CircuitError : Type := InsufficientPeers | PeerNotFound | InvalidConfig | DuplicatePeer.

Module PeerInfo.

Record t : Type := mk {
  peer_id : string;
  public_key : Bytes;
  reliability_score : f32;
  network_segment : string
}.
End PeerInfo.

Module CircuitPath.
Import PeerInfo.

Record t : Type := mk { circuit_id : Z; hops : list (string * Bytes); destination : option PeerInfo.t }.

Definition copy_key (pk : Bytes) : outcome CircuitError Bytes :=
  if negb (len pk =? 32) then Err InvalidConfig else Ok pk.

Fixpoint hop_keys (hops : list (string * Bytes)) : outcome CircuitError (list Bytes) :=
  match hops with
  | [] => Ok []
  | (_, pk) :: hops => let! k := copy_key pk in let! ks := hop_keys hops in Ok (k :: ks)
  end.

Definition public_keys (self : t) : outcome CircuitError (list Bytes) :=
  let! keys := hop_keys (hops self) in
  match destination self with
  | Some dest => let! k := copy_key (public_key dest) in Ok (keys ++ [k])
  | None => Ok keys
  end.

Definition hop_count (self : t) : Z := len (hops self).
End CircuitPath.

Module CircuitConfig.

Record t : Type := mk {
  min_hops : Z;
  max_hops : Z;
  prefer_diverse_paths : bool;
  min_reliability : f32
}.

(** [Default]. *)
Definition default_config : t := mk 3 5 true (F64.lit 1 2).

Definition validate (self : t) : outcome CircuitError unit :=
  if (min_hops self =? 0) || (max_hops self =? 0) then Err InvalidConfig
  else if min_hops self >? max_hops self then Err InvalidConfig
  else if F64.ltb (min_reliability self) (F64.of_Z 0) || F64.ltb (F64.of_Z 1) (min_reliability self)
  then Err InvalidConfig
  else Ok tt.
End CircuitConfig.

Module CircuitBuilder.
Import PeerInfo CircuitConfig.

Record t : Type := mk { peers : list PeerInfo.t; config : CircuitConfig.t }.

Definition new (peers : list PeerInfo.t) (config : CircuitConfig.t) : outcome CircuitError t :=
  let! _ := validate config in Ok (mk peers config).

(** The peers that may serve as relays towards a destination. *)
Definition eligible (self : t) (destination : PeerInfo.t) : list PeerInfo.t :=
  filter (fun p => F64.leb (min_reliability (config self)) (reliability_score p) = true /\
                   peer_id p <> peer_id destination) (peers self).

Definition by_score (a b : PeerInfo.t) : comparison := F64.cmp (reliability_score a) (reliability_score b).

(** The hash map of the segments. *)
Definition group (l : list PeerInfo.t) : gmap string (list PeerInfo.t) :=
  foldl (fun m p => <[network_segment p := default [] (m !! network_segment p) ++ [p]]> m) ∅ l.

Section Select.
Context {MI : MapIter string (list PeerInfo.t)}.

(** The [while] loop. *)
Fixpoint select_loop (fuel : nat) (num_hops : Z) (segments : list string)
    (by_segment : gmap string (list PeerInfo.t)) (selected : list (string * Bytes)) (used_peers : gset string)
    (segment_idx : nat) : option (outcome CircuitError (list (string * Bytes))) :=
  match fuel with
  | O => None
  | S fuel =>
      if len selected <? num_hops then
        if len segments =? 0 then Some (Err InsufficientPeers) else
        match segments !! (segment_idx mod length segments)%nat ≫= (fun s => by_segment !! s) with
        | None => Some Panic
        | Some peers_in_segment =>
            match max_by by_score (filter (fun p => peer_id p ∉ used_peers) peers_in_segment) with
            | Some peer =>
                select_loop fuel num_hops segments by_segment (selected ++ [(peer_id peer, public_key peer)])
                  ({[peer_id peer]} ∪ used_peers) (S segment_idx)
            | None => select_loop fuel num_hops segments by_segment selected used_peers (S segment_idx)
            end
        end
      else Some (Ok selected)
  end.

Definition select_diverse_hops (fuel : nat) (num_hops : Z) (destination : PeerInfo.t) (self : t)
    : option (outcome CircuitError (list (string * Bytes))) :=
  let eligible := eligible self destination in
  if len eligible <? num_hops then Some (Err InsufficientPeers) else
  let by_segment := group eligible in
  select_loop fuel num_hops (map_iter by_segment).*1 by_segment [] {[peer_id destination]} 0.

(** [choose_multiple] of the crate [rand] is the argument [sample]. *)
Definition select_random_hops (sample : list PeerInfo.t -> Z -> list PeerInfo.t) (num_hops : Z)
    (destination : PeerInfo.t) (self : t) : outcome CircuitError (list (string * Bytes)) :=
  let eligible := eligible self destination in
  if len eligible <? num_hops then Err InsufficientPeers
  else Ok (map (fun p => (peer_id p, public_key p)) (sample eligible num_hops)).

Definition build_circuit (fuel : nat) (circuit_id num_hops : Z) (sample : list PeerInfo.t -> Z -> list PeerInfo.t)
    (destination : PeerInfo.t) (self : t) : option (outcome CircuitError CircuitPath.t) :=
  if num_hops >? len (peers self) then Some (Err InsufficientPeers) else
  let selected :=
    if prefer_diverse_paths (config self) then select_diverse_hops fuel num_hops destination self
    else Some (select_random_hops sample num_hops destination self) in
  (fun r => let! hops := r in Ok (CircuitPath.mk circuit_id hops (Some destination))) <$> selected.

End Select.

Fixpoint update_first (id : string) (score : f32) (l : list PeerInfo.t) : option (list PeerInfo.t) :=
  match l with
  | [] => None
  | p :: l =>
      if bool_decide (peer_id p = id)
      then Some (PeerInfo.mk (peer_id p) (public_key p) score (network_segment p) :: l)
      else cons p <$> update_first id score l
  end.

Definition update_peer_reliability (id : string) (score : f32) (self : t) : outcome CircuitError t :=
  match update_first id (F64.clamp score (F64.of_Z 0) (F64.of_Z 1)) (peers self) with
  | Some peers => Ok (mk peers (config self))
  | None => Err PeerNotFound
  end.

End CircuitBuilder.

(** ** The selection loop *)

Module CircuitSelection.
Import PeerInfo CircuitConfig CircuitBuilder.

Lemma group_snoc l p : group (l ++ [p]) =
  <[network_segment p := default [] (group l !! network_segment p) ++ [p]]> (group l).
Proof. unfold group. by rewrite foldl_app. Qed.

(** The peers of a segment, in their order. *)
Lemma group_lookup l s :
  group l !! s = let ps := filter (fun p => network_segment p = s) l in if decide (ps = []) then None else Some ps.
Proof.
  induction l as [|p l IH] using rev_ind; [done|]. rewrite group_snoc, filter_app. cbn zeta in *.
  destruct (decide (network_segment p = s)) as [<-|Hne].
  - rewrite lookup_insert_eq, IH. rewrite filter_cons_True, filter_nil by done.
    destruct (decide (_ ++ [p] = [])) as [Hn|_]; [by apply app_eq_nil in Hn as [_ ?]|].
    f_equal. f_equal. by case_decide as Hps; rewrite ?Hps.
  - rewrite lookup_insert_ne by done. rewrite filter_cons_False, filter_nil, app_nil_r by done. exact IH.
Qed.

Lemma group_elem l s ps p : group l !! s = Some ps -> p ∈ ps -> p ∈ l.
Proof. rewrite group_lookup. cbn zeta. case_decide; [done|]. intros [= <-] [_ Hp]%list_elem_of_filter. done. Qed.

Lemma group_find l p : p ∈ l -> exists ps, group l !! network_segment p = Some ps /\ p ∈ ps.
Proof.
  intros Hp. rewrite group_lookup. cbn zeta.
  assert (Hin : p ∈ filter (fun q => network_segment q = network_segment p) l) by (by apply list_elem_of_filter).
  case_decide as Hps; [rewrite Hps in Hin; by apply elem_of_nil in Hin|]. by eexists.
Qed.

Section Loop.
Context {MI : MapIter string (list PeerInfo.t)}.
Context (E : list PeerInfo.t) (num_hops : Z).
Let segs : list string := (map_iter (group E)).*1.
Let run (fuel : nat) := select_loop fuel num_hops segs (group E).

(** The ids that are still to be had. *)
Definition unused (used : gset string) : gset string := list_to_set (peer_id <$> E) ∖ used.

Lemma segment_present i : (length segs <> 0)%nat ->
  exists s ps, segs !! (i mod length segs)%nat = Some s /\ group E !! s = Some ps.
Proof.
  intros Hs. destruct (lookup_lt_is_Some_2 segs (i mod length segs)) as [s Hi]; [by apply Nat.mod_upper_bound|].
  exists s. assert (Hin : s ∈ segs) by (by eapply list_elem_of_lookup_2).
  unfold segs in Hin. apply elem_of_map_iter_keys in Hin as [ps Hps]. eauto.
Qed.

(** The peer the loop takes from a segment. *)
Definition candidate (used : gset string) (i : nat) : option PeerInfo.t :=
  ps ← segs !! (i mod length segs)%nat ≫= (fun s => group E !! s);
  max_by by_score (filter (fun p => peer_id p ∉ used) ps).

Lemma candidate_elem used i p : candidate used i = Some p -> p ∈ E /\ peer_id p ∉ used.
Proof.
  unfold candidate. intros H. apply bind_Some in H as (ps & Hps & Hp). apply bind_Some in Hps as (s & _ & Hs).
  apply max_by_elem, list_elem_of_filter in Hp as [Hu Hp]. split; [by eapply group_elem|done].
Qed.

Lemma run_step fuel sel used i : (length segs <> 0)%nat -> len sel < num_hops ->
  run (S fuel) sel used i =
    match candidate used i with
    | Some p => run fuel (sel ++ [(peer_id p, public_key p)]) ({[peer_id p]} ∪ used) (S i)
    | None => run fuel sel used (S i)
    end.
Proof.
  intros Hs Hlt. unfold run. cbn. rewrite (proj2 (Z.ltb_lt _ _) Hlt).
  rewrite (proj2 (Z.eqb_neq (len segs) 0)) by (unfold len; lia).
  destruct (segment_present i Hs) as (s & ps & Hi & Hps).
  unfold candidate. rewrite Hi. cbn. rewrite Hps. done.
Qed.

Lemma run_done fuel sel used i : num_hops <= len sel -> run (S fuel) sel used i = Some (Ok sel).
Proof. intros Hge. unfold run. cbn. by rewrite (proj2 (Z.ltb_ge _ _) Hge). Qed.

(** Some segment still has a peer, and the loop comes to it within one round. *)
Lemma unused_candidate used : unused used <> ∅ -> (length segs <> 0)%nat /\
  forall i, exists k, (k < length segs)%nat /\ is_Some (candidate used (i + k)).
Proof.
  intros [id Hid]%set_choose_L. unfold unused in Hid. apply elem_of_difference in Hid as [Hid Hu].
  apply elem_of_list_to_set, list_elem_of_fmap in Hid as (p & -> & Hp).
  destruct (group_find _ _ Hp) as (ps & Hps & Hpin).
  assert (Hin : network_segment p ∈ segs) by (apply elem_of_map_iter_keys; by rewrite Hps).
  apply list_elem_of_lookup_1 in Hin as [j Hj]. pose proof (lookup_lt_Some _ _ _ Hj) as Hlt.
  split; [lia|]. intros i. set (n := length segs) in *.
  exists ((j + n - i mod n) mod n)%nat. split; [apply Nat.mod_upper_bound; lia|].
  assert (Hmod : ((i + (j + n - i mod n) mod n) mod n = j)%nat).
  { rewrite Nat.Div0.add_mod_idemp_r. pose proof (Nat.mod_upper_bound i n ltac:(lia)).
    pose proof (Nat.div_mod_eq i n). replace (i + (j + n - i mod n))%nat with (j + (1 + i / n) * n)%nat by lia.
    rewrite Nat.Div0.mod_add. by apply Nat.mod_small. }
  unfold candidate. fold n. rewrite Hmod, Hj. cbn. rewrite Hps. cbn.
  destruct (max_by _ _) eqn:Hm; [by eexists|]. apply max_by_None in Hm. exfalso.
  apply (not_elem_of_nil p). rewrite <-Hm. by apply list_elem_of_filter.
Qed.

(** Within a round the loop takes a peer. *)
Lemma run_advance k : forall sel used i, len sel < num_hops -> (length segs <> 0)%nat ->
  is_Some (candidate used (i + k)) ->
  exists n p, (n <= k)%nat /\ p ∈ E /\ peer_id p ∉ used /\
    (forall fuel, run (S n + fuel) sel used i =
       run fuel (sel ++ [(peer_id p, public_key p)]) ({[peer_id p]} ∪ used) (S (i + n)%nat)).
Proof.
  induction k as [|k IH]; intros sel used i Hlt Hs Hc.
  - destruct Hc as [p Hp]. rewrite Nat.add_0_r in Hp. exists 0%nat, p.
    destruct (candidate_elem _ _ _ Hp). split_and!; try done. intros fuel. rewrite Nat.add_0_r.
    cbn [plus]. by rewrite run_step, Hp.
  - destruct (candidate used i) as [p|] eqn:Hp.
    + exists 0%nat, p. destruct (candidate_elem _ _ _ Hp). split_and!; try done; [lia|]. intros fuel.
      rewrite Nat.add_0_r. cbn [plus]. by rewrite run_step, Hp.
    + destruct (IH sel used (S i)) as (n & p & Hn & HpE & Hu & Hrun); [done..|by rewrite Nat.add_succ_comm|].
      exists (S n), p. split_and!; try done; [lia|]. intros fuel. rewrite Nat.add_succ_l, run_step, Hp by done.
      rewrite Hrun. f_equal. lia.
Qed.

Lemma unused_take used id : id ∈ unused used -> size (unused ({[id]} ∪ used)) = (size (unused used) - 1)%nat.
Proof.
  intros Hid. assert (Heq : unused ({[id]} ∪ used) = unused used ∖ {[id]}).
  { unfold unused. generalize (list_to_set (C := gset string) (peer_id <$> E)). intros I. set_solver. }
  rewrite Heq, size_difference, size_singleton; [done|]. by apply singleton_subseteq_l.
Qed.

Lemma in_unused p used : p ∈ E -> peer_id p ∉ used -> peer_id p ∈ unused used.
Proof.
  intros Hp Hu. apply elem_of_difference. split; [|done]. apply elem_of_list_to_set, list_elem_of_fmap. eauto.
Qed.

(** What the loop has chosen: different peers, with their keys. *)
Definition chosen (sel : list (string * Bytes)) (used : gset string) : Prop :=
  NoDup sel.*1 /\ (forall id, id ∈ sel.*1 -> id ∈ used) /\
  Forall (fun h => exists p, p ∈ E /\ h = (peer_id p, public_key p)) sel.

Lemma chosen_snoc sel used p : chosen sel used -> p ∈ E -> peer_id p ∉ used ->
  chosen (sel ++ [(peer_id p, public_key p)]) ({[peer_id p]} ∪ used).
Proof.
  intros (Hn & Hu & Hf) Hp Hnu. split_and!.
  - rewrite fmap_app. apply NoDup_app. split_and!; [done| |by apply NoDup_singleton].
    intros id Hid Hin. cbn in Hin. apply list_elem_of_singleton in Hin as ->. auto.
  - intros id. rewrite fmap_app, elem_of_app. cbn. rewrite list_elem_of_singleton. set_solver.
  - apply Forall_app. split; [done|]. constructor; [eauto|constructor].
Qed.

(** Enough ids: the loop ends within [r] rounds. *)
Lemma run_ends r : forall sel used i, chosen sel used -> num_hops = len sel + Z.of_nat r ->
  (r <= size (unused used))%nat ->
  exists hops used', chosen hops used' /\ len hops = num_hops /\
    forall fuel, (r * length segs + 1 <= fuel)%nat -> run fuel sel used i = Some (Ok hops).
Proof.
  induction r as [|r IH]; intros sel used i Hc Hn Hr.
  - exists sel, used. split_and!; [done|lia|]. intros [|fuel] Hf; [lia|]. apply run_done. lia.
  - destruct (unused_candidate used) as [Hs Hcand]; [intros He; rewrite He, size_empty in Hr; lia|].
    destruct (Hcand i) as (k & Hk & Hsome).
    destruct (run_advance k sel used i ltac:(lia) Hs Hsome) as (n & p & Hnk & Hp & Hu & Hrun).
    destruct (IH (sel ++ [(peer_id p, public_key p)]) ({[peer_id p]} ∪ used) (S (i + n))%nat) as (hops & used' & Hc' & Hl & Hend).
    + by apply chosen_snoc.
    + rewrite len_app. unfold len in *. cbn. lia.
    + rewrite unused_take by (by apply in_unused). lia.
    + exists hops, used'. split_and!; try done. intros fuel Hf.
      replace fuel with (S n + (fuel - S n))%nat by lia. rewrite Hrun. apply Hend. lia.
Qed.

(** Too few ids: it never ends. *)
Lemma run_forever fuel : forall sel used i, E <> [] -> len sel + Z.of_nat (size (unused used)) < num_hops ->
  run fuel sel used i = None.
Proof.
  induction fuel as [|fuel IH]; intros sel used i HE Hlt; [done|].
  assert (Hs : (length segs <> 0)%nat).
  { destruct E as [|p E'] eqn:HEq; [done|]. destruct (group_find (p :: E') p) as (ps & Hps & _); [left|].
    unfold segs. intros H0%length_zero_iff_nil.
    apply (not_elem_of_nil (network_segment p)). rewrite <-H0. apply elem_of_map_iter_keys. by rewrite Hps. }
  rewrite run_step by (done || lia). destruct (candidate used i) as [p|] eqn:Hp; [|by apply IH].
  apply candidate_elem in Hp as [Hp Hu]. apply IH; [done|].
  pose proof (in_unused p used Hp Hu) as Hin. rewrite unused_take, len_app by done.
  assert (0 < size (unused used))%nat by (apply Nat.neq_0_lt_0; intros H0%size_empty_inv; set_solver).
  unfold len in *. cbn. lia.
Qed.
End Loop.

(** C23. Choosing the relays of a circuit ends exactly when there are as many
    different eligible ids as hops: then the loop needs at most one round over
    the network segments per hop, and returns the wanted number of different
    relays, each an eligible peer (reliable enough and not the destination) with
    its key.  With fewer different ids than hops, which repeated ids in the peer
    list make possible, it never ends. *)
Theorem circuit_selection_terminates {MI : MapIter string (list PeerInfo.t)} self destination num_hops :
  let E := eligible self destination in
  let ids := list_to_set (C := gset string) (peer_id <$> E) in
  let rounds := Z.to_nat num_hops in
  let segments := size (group E) in
  0 <= num_hops <= len E ->
  (num_hops <= Z.of_nat (size ids) ->
   exists hops, len hops = num_hops /\ NoDup hops.*1 /\
     Forall (fun h => exists p, p ∈ E /\ h = (peer_id p, public_key p)) hops /\
     forall fuel, (rounds * segments + 1 <= fuel)%nat ->
       select_diverse_hops fuel num_hops destination self = Some (Ok hops)) /\
  (Z.of_nat (size ids) < num_hops -> forall fuel, select_diverse_hops fuel num_hops destination self = None).
Proof.
  intros E ids rounds segments Hn. unfold select_diverse_hops. fold E.
  rewrite (proj2 (Z.ltb_ge _ _)) by lia.
  assert (Hun : unused E {[peer_id destination]} = ids).
  { unfold unused, ids. assert (peer_id destination ∉ (list_to_set (peer_id <$> E) : gset string)); [|set_solver].
    rewrite elem_of_list_to_set, list_elem_of_fmap. intros (p & Hid & Hp). unfold E, eligible in Hp.
    apply list_elem_of_filter in Hp as [[_ Hne] _]. congruence. }
  split.
  - intros Hle. destruct (run_ends E num_hops rounds [] {[peer_id destination]} 0) as (hops & used' & (Hd & _ & Hf) & Hl & Hend).
    + split_and!; [constructor|by intros id Hid%elem_of_nil|constructor].
    + unfold len, rounds. cbn. lia.
    + rewrite Hun. unfold rounds. lia.
    + exists hops. split_and!; try done. intros fuel Hfuel. apply Hend.
      rewrite length_fmap, length_map_iter. exact Hfuel.
  - intros Hlt fuel. apply run_forever; [|rewrite Hun; unfold len; cbn; lia].
    intros He. rewrite He in Hn. unfold len in Hn. cbn in Hn. lia.
Qed.

Lemma hop_keys_len hops keys : CircuitPath.hop_keys hops = Ok keys -> len keys = len hops.
Proof.
  revert keys. induction hops as [|[id pk] hops IH]; cbn; intros keys H; [by inv H|].
  unfold CircuitPath.copy_key in H. case_hyp H; [done|].
  destruct (CircuitPath.hop_keys hops) as [ks| |]; [|done..]. inv H. rewrite !len_cons. by rewrite (IH ks).
Qed.

(** A circuit of five relays, which the default configuration allows, has six
    keys and is too long for an onion. *)
Lemma circuit_of_five_refused `{RatchetCrates} `{Bincode OnionLayer.t} eph payload self keys :
  CircuitPath.public_keys self = Ok keys -> is_Some (CircuitPath.destination self) ->
  CircuitPath.hop_count self = max_hops default_config ->
  Onion.construct_onion eph keys payload = Err (TooManyHops MAX_ONION_HOPS).
Proof.
  intros Hk [d Hd] Hc. unfold CircuitPath.public_keys in Hk. rewrite Hd in Hk.
  destruct (CircuitPath.hop_keys (CircuitPath.hops self)) as [ks| |] eqn:Hks; [|done..]. cbn in Hk.
  destruct (CircuitPath.copy_key _) as [k| |]; [|done..]. inv Hk. apply hop_keys_len in Hks.
  unfold CircuitPath.hop_count, default_config in Hc. cbn in Hc.
  unfold Onion.construct_onion. rewrite len_app, Hks, Hc. done.
Qed.

(** *** Two runs *)

#[local] Instance iter : MapIter string (list PeerInfo.t) := map_iter_default.

Definition peer (id seg : string) : PeerInfo.t := PeerInfo.mk id (repeat_byte 1 32) (F64.lit 9 10) seg.

Definition sample_builder (ids : list (string * string)) : CircuitBuilder.t :=
  CircuitBuilder.mk (map (fun '(id, seg) => peer id seg) ids) default_config.

Definition dest : PeerInfo.t := peer "dest" "c".

Lemma circuit_selection_terminates_witness :
  (exists hops, len hops = 2 /\ NoDup hops.*1 /\
     select_diverse_hops 5 2 dest (sample_builder [("p1", "a"); ("p2", "a"); ("p3", "b")]%string) = Some (Ok hops)) /\
  (forall fuel, select_diverse_hops fuel 3 dest (sample_builder [("p1", "a"); ("p1", "b"); ("p2", "a")]%string) = None).
Proof.
  split.
  - destruct (proj1 (circuit_selection_terminates (sample_builder [("p1", "a"); ("p2", "a"); ("p3", "b")]%string)
      dest 2 ltac:(by_eval))) as (hops & Hl & Hn & _ & Hrun); [by_eval|].
    exists hops. split_and!; [done|done|]. apply Hrun. by_eval.
  - apply (proj2 (circuit_selection_terminates (sample_builder [("p1", "a"); ("p1", "b"); ("p2", "a")]%string)
      dest 3 ltac:(by_eval))). by_eval.
Defined.
End CircuitSelection.
