(* ===== verification/NegativeCache.v ===== *)
(** * The negative cache of unreachable peers (core/src/routing/negative_cache.rs)

    A Bloom filter in front of a map of recently unreachable peers.  The filter
    is an optimisation: the theorem of this file is that a cache with it gives
    every answer of the map alone, in every history of calls, for every hash
    function and every iteration order of the map, and never panics.

    The algorithm of Rust's [DefaultHasher] is not specified, so it is an
    interface; [ln] and [powf] are those of the platform (Float64.v).  Instants
    and durations are numbers of nanoseconds; [elapsed] saturates at zero. *)

From S2P Require Import Prelude Float64.

(** The 64-bit hash of the strings written to a hasher, in order. *)
Class DefaultHasher : Type := hash_finish : list string -> Z.

(** [v[i] = x]. *)
Definition set_index {E A} (l : list A) (i : Z) (x : A) : outcome E (list A) :=
  if (0 <=? i) && (i <? len l) then Ok (<[Z.to_nat i := x]> l) else Panic.

Module BloomFilter.
Section Filter.
Context `{LN : LibmLn, POW : LibmPow, EXP : Libm, HASH : DefaultHasher} {E : Type}.

Record t : Type := mk {
  bits : list bool;
  size : Z;
  k : Z;
  count : Z
}.

Definition new (expected_items : Z) (false_positive_rate : f64) : t :=
  let ln2 := f64_ln (F64.of_Z 2) in
  let m := F64.div (F64.mul (F64.neg (F64.of_Z expected_items)) (f64_ln false_positive_rate))
                   (F64.mul ln2 ln2) in
  let size := F64.to_uint 64 (F64.ceil m) in
  let k := F64.to_uint 64 (F64.ceil
             (F64.mul (F64.div (F64.of_Z size) (F64.of_Z expected_items)) ln2)) in
  mk (replicate (Z.to_nat size) false) size k 0.

Definition for_peer_cache : t := new 1000 (F64.lit 1 100).

(** [% self.size] panics for an empty filter. *)
Definition hash_positions (peer_id : string) (self : t) : outcome E (list Z) :=
  let h1 := hash_finish [peer_id] in
  let h2 := hash_finish [peer_id; "salt"%string] in
  if (size self =? 0) && (0 <? k self) then Panic
  else Ok (map (fun i => wrap 64 (h1 + wrap 64 (i * h2)) mod size self) (seqZ 0 (k self))).

Definition insert (peer_id : string) (self : t) : outcome E t :=
  let! positions := hash_positions peer_id self in
  let! bits := for_each (fun pos bits => set_index bits pos true) positions (bits self) in
  Ok (mk bits (size self) (k self) (wrap 64 (count self + 1))).

Fixpoint all_set (bits : list bool) (positions : list Z) : outcome E bool :=
  match positions with
  | [] => Ok true
  | pos :: positions =>
      let! b := index bits pos in
      if negb b then Ok false else all_set bits positions
  end.

Definition contains (peer_id : string) (self : t) : outcome E bool :=
  let! positions := hash_positions peer_id self in
  all_set (bits self) positions.

Definition false_positive_rate (self : t) : f64 :=
  if count self =? 0 then F64.of_Z 0 else
  let n := F64.of_Z (count self) in
  let m := F64.of_Z (size self) in
  let k := F64.of_Z (k self) in
  f64_powf (F64.sub (F64.of_Z 1) (f64_exp (F64.div (F64.mul (F64.neg k) n) m))) k.

Definition clear (self : t) : t :=
  mk (map (fun _ => false) (bits self)) (size self) (k self) 0.
End Filter.
End BloomFilter.

Module NegativeCacheEntry.

Record t : Type := mk {
  confirmed_at : Z;
  ttl : Z;
  confirmation_count : Z
}.

Definition new (now ttl : Z) : t := mk now ttl 1.

Definition is_expired (now : Z) (self : t) : bool :=
  saturating_sub now (confirmed_at self) >? ttl self.

Definition refresh (now : Z) (self : t) : t :=
  mk now (ttl self) (wrap 32 (confirmation_count self + 1)).

#[export] Instance eq_dec : EqDecision t.
Proof. solve_decision. Defined.

End NegativeCacheEntry.
Import (hints) NegativeCacheEntry.

Module NegativeCacheStats.

Record t : Type := mk {
  negative_checks : Z;
  bloom_hits : Z;
  bloom_misses : Z;
  entry_count : Z;
  expired_count : Z
}.

Definition default : t := mk 0 0 0 0 0.

Definition check (self : t) : t :=
  mk (wrap 64 (negative_checks self + 1)) (bloom_hits self) (bloom_misses self) (entry_count self) (expired_count self).

Definition hit (self : t) : t :=
  mk (negative_checks self) (wrap 64 (bloom_hits self + 1)) (bloom_misses self) (entry_count self) (expired_count self).

Definition miss (self : t) : t :=
  mk (negative_checks self) (bloom_hits self) (wrap 64 (bloom_misses self + 1)) (entry_count self) (expired_count self).

Definition expire (n : Z) (self : t) : t :=
  mk (negative_checks self) (bloom_hits self) (bloom_misses self) (entry_count self) (wrap 64 (expired_count self + n)).

End NegativeCacheStats.

Module NegativeCache.
Section Cache.
Context `{LN : LibmLn, POW : LibmPow, EXP : Libm, HASH : DefaultHasher} {E : Type}.
Context {MI : MapIter string NegativeCacheEntry.t}.

Record t : Type := mk {
  bloom : BloomFilter.t;
  entries : gmap string NegativeCacheEntry.t;
  default_ttl : Z;
  max_entries : Z;
  stats_ : NegativeCacheStats.t
}.

Definition new (default_ttl max_entries : Z) : t :=
  mk BloomFilter.for_peer_cache ∅ default_ttl max_entries NegativeCacheStats.default.

(** Ten minutes, in nanoseconds. *)
Definition with_defaults : t := new (600 * 10 ^ 9) 10000.

Definition len (self : t) : Z := Z.of_nat (size (entries self)).

Definition with_stats (f : NegativeCacheStats.t -> NegativeCacheStats.t) (self : t) : t :=
  mk (bloom self) (entries self) (default_ttl self) (max_entries self) (f (stats_ self)).

Definition with_entries (es : gmap string NegativeCacheEntry.t) (self : t) : t :=
  mk (bloom self) es (default_ttl self) (max_entries self) (stats_ self).

Definition is_definitely_unreachable (now : Z) (peer_id : string) (self : t) : outcome E (t * bool) :=
  let self := with_stats NegativeCacheStats.check self in
  let! c := BloomFilter.contains peer_id (bloom self) in
  if negb c then Ok (with_stats NegativeCacheStats.miss self, false) else
  let miss := (with_stats NegativeCacheStats.miss self, false) in
  match entries self !! peer_id with
  | Some entry =>
      if negb (NegativeCacheEntry.is_expired now entry)
      then Ok (with_stats NegativeCacheStats.hit self, true)
      else Ok miss
  | None => Ok miss
  end.

(** The first of the entries with the earliest confirmation. *)
Definition oldest_key (es : gmap string NegativeCacheEntry.t) : option string :=
  fst <$> min_by (fun x y => NegativeCacheEntry.confirmed_at x.2 ?= NegativeCacheEntry.confirmed_at y.2) (map_iter es).

Definition evict_oldest (self : t) : t :=
  match oldest_key (entries self) with
  | Some oldest_key => with_entries (delete oldest_key (entries self)) self
  | None => self
  end.

Definition record_unreachable (now : Z) (peer_id : string) (self : t) : outcome E t :=
  let! b := BloomFilter.insert peer_id (bloom self) in
  let self := mk b (entries self) (default_ttl self) (max_entries self) (stats_ self) in
  match entries self !! peer_id with
  | Some entry => Ok (with_entries (<[peer_id := NegativeCacheEntry.refresh now entry]> (entries self)) self)
  | None =>
      let self := if len self >=? max_entries self then evict_oldest self else self in
      Ok (with_entries (<[peer_id := NegativeCacheEntry.new now (default_ttl self)]> (entries self)) self)
  end.

Definition clear_unreachable (peer_id : string) (self : t) : t :=
  with_entries (delete peer_id (entries self)) self.

(** [self.entries.retain(..)] with the number of removed entries. *)
Definition retain (keep : NegativeCacheEntry.t -> bool) (self : t) : t * Z :=
  let before := len self in
  let self := with_entries (filter (fun kv => keep kv.2 = true) (entries self)) self in
  let removed := before - len self in
  (with_stats (NegativeCacheStats.expire removed) self, removed).

Definition cleanup_expired (now : Z) (self : t) : t * Z :=
  retain (fun entry => negb (NegativeCacheEntry.is_expired now entry)) self.

Definition stats (self : t) : NegativeCacheStats.t :=
  let s := stats_ self in
  NegativeCacheStats.mk (NegativeCacheStats.negative_checks s) (NegativeCacheStats.bloom_hits s)
    (NegativeCacheStats.bloom_misses s) (len self) (NegativeCacheStats.expired_count s).

Definition false_positive_rate (self : t) : f64 := BloomFilter.false_positive_rate (bloom self).

Definition is_empty (self : t) : bool := bool_decide (entries self = ∅).

Definition clear (self : t) : t :=
  mk (BloomFilter.clear (bloom self)) ∅ (default_ttl self) (max_entries self) (stats_ self).

Definition prune_below_confidence (min_confirmations : f64) (self : t) : t * Z :=
  let threshold := F64.to_uint 32 (F64.ceil min_confirmations) in
  retain (fun entry => NegativeCacheEntry.confirmation_count entry >=? threshold) self.

Definition should_exempt_from_negative_cache (reputation_score : f64) : bool :=
  F64.leb (F64.lit 1 2) reputation_score.

Definition record_unreachable_with_reputation (now : Z) (peer_id : string) (reputation_score : f64)
    (self : t) : outcome E (t * bool) :=
  if should_exempt_from_negative_cache reputation_score then Ok (self, false)
  else let! self := record_unreachable now peer_id self in Ok (self, true).

End Cache.
End NegativeCache.

(** ** The filter has no false negatives *)

Section FilterLemmas.
Context `{LN : LibmLn, POW : LibmPow, EXP : Libm, HASH : DefaultHasher} {E : Type}.
Import BloomFilter.
Implicit Types (f : BloomFilter.t) (p q : string).

Definition filter_wf f : Prop := len (bits f) = size f /\ 0 < size f.

(** The bits of a peer, all in range. *)
Definition positions f p : list Z :=
  map (fun i => wrap 64 (hash_finish [p] + wrap 64 (i * hash_finish [p; "salt"%string])) mod size f) (seqZ 0 (k f)).

Lemma hash_positions_Ok f p : filter_wf f -> hash_positions (E := E) p f = Ok (positions f p).
Proof. intros [_ Hs]. unfold hash_positions. zbool. done. Qed.

Lemma positions_range f p i : filter_wf f -> i ∈ positions f p -> 0 <= i < len (bits f).
Proof.
  intros [-> Hs] Hi. apply list_elem_of_fmap in Hi as (j & -> & _). by apply Z.mod_pos_bound.
Qed.

(** A bit is set. *)
Definition set_at (l : list bool) (i : Z) : Prop := l !! Z.to_nat i = Some true.

Lemma index_set_at l i : 0 <= i -> set_at l i -> @index E bool l i = Ok true.
Proof. intros Hi Hl. unfold index, set_at in *. zbool. by rewrite Hl. Qed.

Lemma all_set_spec l ps : Forall (fun i => 0 <= i < len l) ps ->
  exists b, @all_set E l ps = Ok b /\ (b = true <-> Forall (set_at l) ps).
Proof.
  induction 1 as [|i ps Hi Hps (b & Hb & IH)]; cbn [all_set]; [exists true; by rewrite Forall_nil|].
  destruct (index_in_range (E := E) l i Hi) as ([] & -> & Hl); cbn [negb].
  - exists b. rewrite Forall_cons, IH. unfold set_at at 2. naive_solver.
  - exists false. rewrite Forall_cons. unfold set_at at 1. naive_solver.
Qed.

Lemma set_all_spec ps l : Forall (fun i => 0 <= i < len l) ps ->
  exists l', for_each (E := E) (fun pos bits => set_index bits pos true) ps l = Ok l' /\ len l' = len l /\
    (forall i, set_at l i -> set_at l' i) /\ Forall (set_at l') ps.
Proof.
  revert l. induction ps as [|i ps IH]; intros l Hps; cbn [for_each]; [by exists l|]. inv Hps.
  unfold set_index at 1. zbool.
  destruct (IH (<[Z.to_nat i := true]> l)) as (l' & -> & Hlen & Hold & Hnew).
  { by setoid_rewrite len_insert. }
  rewrite len_insert in Hlen.
  exists l'. split_and!; [done|done| |constructor; [|done]].
  - intros j Hj. apply Hold. unfold set_at in *.
    destruct (decide (Z.to_nat i = Z.to_nat j)) as [->|?]; [|by rewrite list_lookup_insert_ne].
    apply list_lookup_insert_eq. by apply lookup_lt_Some in Hj.
  - apply Hold. unfold set_at. apply list_lookup_insert_eq. unfold len in *. lia.
Qed.

Lemma contains_spec f p : filter_wf f ->
  exists b, contains (E := E) p f = Ok b /\ (b = true <-> Forall (set_at (bits f)) (positions f p)).
Proof.
  intros Hf. unfold contains. rewrite hash_positions_Ok by done. apply all_set_spec.
  apply Forall_forall. intros i. by apply positions_range.
Qed.

Lemma insert_filter_spec f p : filter_wf f ->
  exists f', insert (E := E) p f = Ok f' /\ filter_wf f' /\ size f' = size f /\ k f' = k f /\
    (forall i, set_at (bits f) i -> set_at (bits f') i) /\ Forall (set_at (bits f')) (positions f p).
Proof.
  intros Hf. unfold insert. rewrite hash_positions_Ok by done.
  destruct (set_all_spec (positions f p) (bits f)) as (l' & -> & Hlen & Hold & Hnew).
  { apply Forall_forall. intros i. by apply positions_range. }
  eexists. split; [done|]. cbn [bits size k]. unfold filter_wf in *. cbn [bits size]. naive_solver lia.
Qed.
End FilterLemmas.

(** ** The cache answers like its map *)

Module NegativeHistory.
Section History.
Context `{LN : LibmLn, POW : LibmPow, EXP : Libm, HASH : DefaultHasher} {E : Type}.
Context {MI : MapIter string NegativeCacheEntry.t}.
Import NegativeCache.
Abbreviation entry_map := (gmap string NegativeCacheEntry.t).

Inductive call : Type :=
| Query (now : Z) (peer : string)
| RecordUnreachable (now : Z) (peer : string)
| RecordWithReputation (now : Z) (peer : string) (score : f64)
| ClearPeer (peer : string)
| Cleanup (now : Z)
| Prune (min_confirmations : f64)
| ClearAll.

Inductive answer : Type :=
| Answered (b : bool)
| Removed (n : Z)
| Done.

Definition step (c : call) (self : t) : outcome E (t * answer) :=
  match c with
  | Query now p => let! '(self, b) := is_definitely_unreachable now p self in Ok (self, Answered b)
  | RecordUnreachable now p => let! self := record_unreachable now p self in Ok (self, Done)
  | RecordWithReputation now p r =>
      let! '(self, b) := record_unreachable_with_reputation now p r self in Ok (self, Answered b)
  | ClearPeer p => Ok (clear_unreachable p self, Done)
  | Cleanup now => let '(self, n) := cleanup_expired now self in Ok (self, Removed n)
  | Prune m => let '(self, n) := prune_below_confidence m self in Ok (self, Removed n)
  | ClearAll => Ok (clear self, Done)
  end.

Fixpoint run (cs : list call) (self : t) : outcome E (t * list answer) :=
  match cs with
  | [] => Ok (self, [])
  | c :: cs =>
      let! '(self, a) := step c self in
      let! '(self, l) := run cs self in
      Ok (self, a :: l)
  end.

(** The reference: the map of entries, with no filter. *)
Definition map_record (ttl max now : Z) (p : string) (m : entry_map) : entry_map :=
  match m !! p with
  | Some e => <[p := NegativeCacheEntry.refresh now e]> m
  | None =>
      let m := if Z.of_nat (size m) <? max then m else
               match oldest_key m with Some k => delete k m | None => m end in
      <[p := NegativeCacheEntry.new now ttl]> m
  end.

Definition map_retain (P : NegativeCacheEntry.t -> bool) (m : entry_map) : entry_map * answer :=
  let m' := filter (fun kv => P kv.2 = true) m in
  (m', Removed (Z.of_nat (size m) - Z.of_nat (size m'))).

Definition map_step (ttl max : Z) (c : call) (m : entry_map) : entry_map * answer :=
  match c with
  | Query now p =>
      (m, Answered (match m !! p with Some e => now - NegativeCacheEntry.confirmed_at e <=? NegativeCacheEntry.ttl e
                    | None => false end))
  | RecordUnreachable now p => (map_record ttl max now p m, Done)
  | RecordWithReputation now p r =>
      if F64.leb (F64.lit 1 2) r then (m, Answered false) else (map_record ttl max now p m, Answered true)
  | ClearPeer p => (delete p m, Done)
  | Cleanup now => map_retain (fun e => now - NegativeCacheEntry.confirmed_at e <=? NegativeCacheEntry.ttl e) m
  | Prune f => map_retain (fun e => F64.to_uint 32 (F64.ceil f) <=? NegativeCacheEntry.confirmation_count e) m
  | ClearAll => (∅, Done)
  end.

Fixpoint map_run (ttl max : Z) (cs : list call) (m : entry_map) : entry_map * list answer :=
  match cs with
  | [] => (m, [])
  | c :: cs =>
      let '(m, a) := map_step ttl max c m in
      let '(m, l) := map_run ttl max cs m in
      (m, a :: l)
  end.

(** What holds between the calls: every peer of the map is in the filter, the
    map is bounded, its lifetimes are not negative, and every check counted as
    a hit or as a miss. *)
Definition covered (b : BloomFilter.t) (m : entry_map) : Prop :=
  forall p, is_Some (m !! p) -> Forall (set_at (BloomFilter.bits b)) (positions b p).

Definition counted (s : NegativeCacheStats.t) : Prop :=
  wrap 64 (NegativeCacheStats.bloom_hits s + NegativeCacheStats.bloom_misses s) = NegativeCacheStats.negative_checks s.

Record inv (ttl max : Z) (self : t) : Prop := mk_inv {
  inv_filter : filter_wf (bloom self);
  inv_covered : covered (bloom self) (entries self);
  inv_size : Z.of_nat (size (entries self)) <= Z.max 1 max;
  inv_ttl : map_Forall (fun _ e => NegativeCacheEntry.ttl e = ttl) (entries self);
  inv_config : default_ttl self = ttl /\ max_entries self = max;
  inv_counted : counted (stats_ self)
}.

Lemma not_expired_eq now ttl e : 0 <= ttl -> NegativeCacheEntry.ttl e = ttl ->
  negb (NegativeCacheEntry.is_expired now e) = (now - NegativeCacheEntry.confirmed_at e <=? NegativeCacheEntry.ttl e).
Proof.
  intros Ht <-. unfold NegativeCacheEntry.is_expired, saturating_sub. apply Bool.eq_iff_eq_true.
  rewrite negb_true_iff, Z.leb_le, Z.gtb_ltb, Z.ltb_ge. lia.
Qed.

Lemma covered_subset b m m' : covered b m -> (forall p, is_Some (m' !! p) -> is_Some (m !! p)) -> covered b m'.
Proof. intros Hb Hm p Hp. by apply Hb, Hm. Qed.

Lemma counted_check_hit s : counted s -> counted (NegativeCacheStats.hit (NegativeCacheStats.check s)).
Proof.
  unfold counted. destruct s as [c h m n e]. cbn. intros <-. unfold wrap.
  rewrite Zplus_mod_idemp_l, (Zplus_mod_idemp_l (h + m)). f_equal. lia.
Qed.

Lemma counted_check_miss s : counted s -> counted (NegativeCacheStats.miss (NegativeCacheStats.check s)).
Proof.
  unfold counted. destruct s as [c h m n e]. cbn. intros <-. unfold wrap.
  rewrite Zplus_mod_idemp_r, (Zplus_mod_idemp_l (h + m)). f_equal. lia.
Qed.

Lemma map_retain_ext P Q (m : entry_map) : map_Forall (fun _ e => P e = Q e) m -> map_retain P m = map_retain Q m.
Proof.
  intros Hm. assert (Hf : filter (fun kv : string * _ => P kv.2 = true) m = filter (fun kv => Q kv.2 = true) m).
  { apply map_filter_ext. intros p e He. cbn. by rewrite (Hm p e He). }
  unfold map_retain. by rewrite Hf.
Qed.

(** Evicting makes room for one entry. *)
Lemma evicted_size (m : entry_map) max : Z.of_nat (size m) <= Z.max 1 max -> max <= Z.of_nat (size m) ->
  Z.of_nat (size (match oldest_key m with Some k => delete k m | None => m end)) <= Z.max 1 max - 1.
Proof.
  intros Hm Hmax. unfold oldest_key. destruct (min_by _ _) as [[k e]|] eqn:Hmin; cbn.
  - apply min_by_elem, elem_of_map_iter in Hmin. rewrite map_size_delete_Some by eauto.
    pose proof (map_size_ne_0_lookup_2 m k). naive_solver lia.
  - apply min_by_None in Hmin. assert (Hs : size m = 0%nat) by by rewrite <-length_map_iter, Hmin. lia.
Qed.

Lemma map_record_size ttl max now p (m : entry_map) : Z.of_nat (size m) <= Z.max 1 max ->
  Z.of_nat (size (map_record ttl max now p m)) <= Z.max 1 max.
Proof.
  intros Hm. unfold map_record. destruct (m !! p) as [e|] eqn:Hp; [by rewrite map_size_insert_Some by eauto|].
  destruct (_ <? _) eqn:Hlt; bool_to_prop.
  - rewrite map_size_insert, Hp. lia.
  - pose proof (evicted_size m max Hm Hlt) as He. revert He.
    generalize (match oldest_key m with Some k => delete k m | None => m end). intros m' He.
    rewrite map_size_insert. destruct (m' !! p); unfold id; lia.
Qed.

Lemma map_record_keys ttl max now p (m : entry_map) q :
  is_Some (map_record ttl max now p m !! q) -> q = p \/ is_Some (m !! q).
Proof.
  unfold map_record. destruct (m !! p) as [e|].
  - rewrite lookup_insert_is_Some. naive_solver.
  - rewrite lookup_insert_is_Some. intros [->|[_ Hq]]; [by left|right]. revert Hq. case_goal; [done|].
    destruct (oldest_key m); [rewrite lookup_delete_is_Some|]; naive_solver.
Qed.

Lemma map_record_ttl ttl max now p (m : entry_map) :
  map_Forall (fun _ e => NegativeCacheEntry.ttl e = ttl) m ->
  map_Forall (fun _ e => NegativeCacheEntry.ttl e = ttl) (map_record ttl max now p m).
Proof.
  intros Hm. unfold map_record. destruct (m !! p) as [e|] eqn:Hp; apply map_Forall_insert_2; try done.
  - exact (Hm p e Hp).
  - case_goal; [done|]. destruct (oldest_key m); [|done]. by apply map_Forall_delete.
Qed.

Lemma record_spec ttl max now p self : inv ttl max self ->
  exists self', record_unreachable (E := E) now p self = Ok self' /\ inv ttl max self' /\
    entries self' = map_record ttl max now p (entries self).
Proof.
  intros [Hf Hc Hs Ht [Hd Hm] Hn]. unfold record_unreachable.
  destruct (insert_filter_spec (E := E) (bloom self) p Hf) as (b & -> & Hb & Hsz & Hk & Hold & Hnew).
  assert (Hpos : forall q, positions b q = positions (bloom self) q)
    by (intros q; unfold positions; by rewrite Hsz, Hk).
  assert (Hres : inv ttl max (mk b (map_record ttl max now p (entries self)) (default_ttl self) (max_entries self) (stats_ self))).
  { split; cbn; auto using map_record_size, map_record_ttl. intros q Hq. rewrite Hpos.
    apply map_record_keys in Hq as [->|Hq]; [done|]. eapply Forall_impl; [by apply Hc|]. apply Hold. }
  unfold map_record in *. cbn [entries]. destruct (entries self !! p) as [e|]; [eexists; split; [done|]; by split|].
  unfold len, evict_oldest in *. cbn [entries max_entries] in *. rewrite Hm in *. rewrite Z.geb_leb.
  eexists. split; [done|]. revert Hres. rewrite Z.leb_antisym.
  destruct (_ <? _) eqn:Hlt; cbn; [rewrite Hd; by split|]. destruct (oldest_key (entries self)); cbn; rewrite Hd; by split.
Qed.

Lemma retain_spec ttl max P self : inv ttl max self ->
  inv ttl max (retain P self).1 /\
  map_retain P (entries self) = (entries (retain P self).1, Removed (retain P self).2).
Proof.
  intros [Hf Hc Hs Ht Hd Hn]. split; [|done]. split; cbn; try done.
  - apply (covered_subset _ _ _ Hc). intros p [e He]. apply map_lookup_filter_Some in He as []. eauto.
  - etrans; [|exact Hs]. apply Nat2Z.inj_le. apply map_subseteq_size, map_filter_subseteq.
  - intros p e He. apply map_lookup_filter_Some in He as [He _]. exact (Ht p e He).
Qed.

Lemma query_spec ttl max now p self : 0 <= ttl -> inv ttl max self ->
  exists self', is_definitely_unreachable (E := E) now p self =
      Ok (self', match entries self !! p with
                 | Some e => now - NegativeCacheEntry.confirmed_at e <=? NegativeCacheEntry.ttl e
                 | None => false end) /\
    inv ttl max self' /\ entries self' = entries self.
Proof.
  intros Httl [Hf Hc Hs Ht Hd Hn]. unfold is_definitely_unreachable. cbn [bloom with_stats entries].
  destruct (contains_spec (E := E) (bloom self) p Hf) as (b & -> & Hb).
  destruct b; cbn [negb]; destruct (entries self !! p) as [e|] eqn:Hp.
  - rewrite <-(not_expired_eq now ttl) by (done || exact (Ht p e Hp)).
    destruct (negb _); (eexists; split; [done|]); (split; [split|done]); cbn; auto using counted_check_hit, counted_check_miss.
  - eexists; split; [done|]. split; [split|done]; cbn; auto using counted_check_miss.
  - exfalso. enough (false = true) by done. apply Hb, Hc. eauto.
  - eexists; split; [done|]. split; [split|done]; cbn; auto using counted_check_miss.
Qed.

Lemma step_spec ttl max c self : 0 <= ttl -> inv ttl max self ->
  exists self' a, step c self = Ok (self', a) /\ inv ttl max self' /\
    map_step ttl max c (entries self) = (entries self', a).
Proof.
  intros Httl Hi. destruct c as [now p|now p|now p r|p|now|f|]; cbn [step map_step].
  - destruct (query_spec ttl max now p self Httl Hi) as (s & -> & Hs & He). rewrite <-He. eauto.
  - destruct (record_spec ttl max now p self Hi) as (s & -> & Hs & <-). eauto.
  - unfold record_unreachable_with_reputation, should_exempt_from_negative_cache. destruct (F64.leb _ _); [eauto|].
    destruct (record_spec ttl max now p self Hi) as (s & -> & Hs & <-). eauto.
  - eexists _, _. split; [done|]. split; [|done]. destruct Hi as [Hf Hc Hs Ht Hd Hn]. split; cbn; try done.
    + apply (covered_subset _ _ _ Hc). intros q. rewrite lookup_delete_is_Some. naive_solver.
    + etrans; [|exact Hs]. apply Nat2Z.inj_le, map_subseteq_size, delete_subseteq.
    + by apply map_Forall_delete.
  - unfold cleanup_expired. pose proof (retain_spec ttl max (fun e => negb (NegativeCacheEntry.is_expired now e)) self Hi) as [H1 H2].
    destruct (retain _ self) as [s n]. cbn [fst snd] in *. eexists _, _. split; [done|]. split; [done|]. rewrite <-H2.
    apply map_retain_ext. intros q e He. symmetry. apply (not_expired_eq now ttl); [done|exact (inv_ttl _ _ _ Hi q e He)].
  - unfold prune_below_confidence. set (th := F64.to_uint 32 (F64.ceil f)).
    pose proof (retain_spec ttl max (fun e => NegativeCacheEntry.confirmation_count e >=? th) self Hi) as [H1 H2].
    destruct (retain _ self) as [s n]. cbn [fst snd] in *. eexists _, _. split; [done|]. split; [done|]. rewrite <-H2.
    apply map_retain_ext. intros q e He. symmetry. apply Z.geb_leb.
  - eexists _, _. split; [done|]. split; [|done]. destruct Hi as [Hf Hc Hs Ht Hd Hn]. split; cbn; try done.
    + destruct Hf as [Hl Hz]. split; cbn; [by rewrite len_map|done].
    + intros q. rewrite lookup_empty. by intros [? ?].
    + rewrite map_size_empty. lia.
Qed.

Lemma new_inv ttl max : 0 < BloomFilter.size BloomFilter.for_peer_cache -> inv ttl max (NegativeCache.new ttl max).
Proof.
  intros Hsize. split; cbn; try done; [split; [|done]|intros q; rewrite lookup_empty; by intros [? ?]|rewrite map_size_empty; lia].
  cbn in *. rewrite len_replicate. lia.
Qed.

Lemma run_spec ttl max cs self : 0 <= ttl -> inv ttl max self ->
  exists self' l, run cs self = Ok (self', l) /\ inv ttl max self' /\
    map_run ttl max cs (entries self) = (entries self', l).
Proof.
  intros Httl. revert self. induction cs as [|c cs IH]; intros self Hi; cbn [run map_run]; [eauto|].
  destruct (step_spec ttl max c self Httl Hi) as (s & a & -> & Hs & ->).
  destruct (IH s Hs) as (s' & l & -> & Hs' & ->). eauto.
Qed.
End History.

(** C18. The Bloom filter in front of the negative cache is invisible: from a
    new cache, whatever the hash function, the calls and the clock, no call
    panics and every answer is the one the map of entries alone gives; a peer
    in the map is never missed by the filter.  The map never holds more than
    [max_entries] peers (one when that is zero), and every check counts as a
    hit or a miss. *)
Theorem negative_cache_equivalence `{LN : LibmLn, HASH : DefaultHasher}
    {MI : MapIter string NegativeCacheEntry.t} {E : Type} ttl max cs :
  0 <= ttl -> 0 < BloomFilter.size BloomFilter.for_peer_cache ->
  exists self answers, run (E := E) cs (NegativeCache.new ttl max) = Ok (self, answers) /\
    map_run ttl max cs ∅ = (NegativeCache.entries self, answers) /\
    NegativeCache.len self <= Z.max 1 max /\
    wrap 64 (NegativeCacheStats.bloom_hits (NegativeCache.stats self) +
             NegativeCacheStats.bloom_misses (NegativeCache.stats self)) =
      NegativeCacheStats.negative_checks (NegativeCache.stats self).
Proof.
  intros Httl Hsize.
  destruct (run_spec (E := E) ttl max cs (NegativeCache.new ttl max) Httl) as (s & l & Hr & Hi & Hm).
  { by apply new_inv. }
  exists s, l. destruct Hi as [_ _ Hs _ _ Hn]. by split_and!.
Qed.

(** For the witness: logarithms to fifteen digits of the two arguments the
    filter uses, and the length of the strings as their hash. *)
Definition sample_ln : LibmLn := fun x =>
  if F64.ltb x (F64.of_Z 1) then F64.lit (-4605170185988091) (10 ^ 15) else F64.lit 693147180559945 (10 ^ 15).

Definition sample_hasher : DefaultHasher := fun l => fold_right (fun s n => Z.of_nat (String.length s) + 31 * n) 7 l.

Lemma negative_cache_equivalence_witness :
  exists self answers,
    run (HASH := sample_hasher) (MI := map_iter_default) (E := Empty_set)
      [RecordUnreachable 5 "a"%string; Query 7 "b"%string; Query 105 "a"%string; Query 106 "a"%string; Cleanup 106]
      (NegativeCache.new (LN := sample_ln) 100 2) = Ok (self, answers) /\
    answers = [Done; Answered false; Answered true; Answered false; Removed 1].
Proof.
  edestruct (negative_cache_equivalence (LN := sample_ln)
    (HASH := sample_hasher) (MI := map_iter_default) (E := Empty_set) 100 2
    [RecordUnreachable 5 "a"%string; Query 7 "b"%string; Query 105 "a"%string; Query 106 "a"%string; Cleanup 106])
    as (self & answers & Hrun & Hmap & _ & _); [lia|vm_compute; reflexivity|].
  exists self, answers. split; [exact Hrun|].
  assert (Ha : (map_run (MI := map_iter_default) 100 2
    [RecordUnreachable 5 "a"%string; Query 7 "b"%string; Query 105 "a"%string; Query 106 "a"%string; Cleanup 106] ∅).2
    = [Done; Answered false; Answered true; Answered false; Removed 1]) by (vm_compute; reflexivity).
  rewrite Hmap in Ha. exact Ha.
Defined.

End NegativeHistory.
