(* ===== verification/LocalCell.v ===== *)
(** * Layer 1 of routing: the local cell (core/src/routing/local.rs)

    The table of peers in direct range: sightings, announced recipient hints,
    reliability scores, the timeouts Active -> Stale -> Dormant and the eviction
    of the least reliable peer.  Peer ids and hints are byte lists; the clock
    (in seconds) is an argument; iteration over the table is in any order. *)

From S2P Require Import Prelude Float64.

Abbreviation PeerId := (list Z).
Abbreviation RecipientHint := (list Z).

Module TransportType.
Inductive t : Type := BLE | WiFiAware | WiFiDirect | TCP | QUIC.

#[global] Instance eq_dec : EqDecision t.
Proof. solve_decision. Defined.
End TransportType.

Module PeerStatus.
Inductive t : Type :=
| Active (last_seen : Z) (transport : TransportType.t)
| Stale (last_seen : Z) (last_transport : TransportType.t)
| Dormant (last_seen : Z).

(** [matches!(status, PeerStatus::Active { .. })]. *)
Definition is_active (s : t) : bool := match s with Active _ _ => true | _ => false end.
End PeerStatus.

Module PeerInfo.
Record t : Type := mk {
  peer_id : PeerId;
  status : PeerStatus.t;
  reachable_hints : list RecipientHint;
  message_count : Z;
  reliability_score : f64;
  transports : list TransportType.t;
  is_gateway : bool;
  sync_count : Z;
  avg_sync_ms : Z
}.

Definition with_status (s : PeerStatus.t) (p : t) : t :=
  mk (peer_id p) s (reachable_hints p) (message_count p) (reliability_score p) (transports p)
     (is_gateway p) (sync_count p) (avg_sync_ms p).

(** Active, announcing the hint. *)
Definition reaches (hint : RecipientHint) (p : t) : bool :=
  match status p with
  | PeerStatus.Active _ _ => bool_decide (hint ∈ reachable_hints p)
  | _ => false
  end.
End PeerInfo.

Module CellSummary.
Record t : Type := mk {
  peer_count : Z;
  gateway_count : Z;
  reachable_hints : list RecipientHint;
  avg_reliability : f64;
  timestamp : Z
}.
End CellSummary.

Module PeerEvent.
Inductive t : Type :=
| PeerBecameActive (id : PeerId)
| PeerBecameStale (id : PeerId)
| PeerBecameDormant (id : PeerId)
| PeerEvicted (id : PeerId).
End PeerEvent.

(** Comparing with NaN makes the [expect] of a comparator panic; [sort_by] and
    [min_by] compare every element of a list of two or more. *)
Definition comparable {A} (score : A -> f64) (l : list A) : bool :=
  (len l <=? 1) || forallb (fun x => negb (F64.is_nan (score x))) l.

(** Collecting hints that are not yet in the list. *)
Definition push_new (hints : list RecipientHint) (hint : RecipientHint) : list RecipientHint :=
  if bool_decide (hint ∈ hints) then hints else hints ++ [hint].

Definition collect_hints (hints : list RecipientHint) (l : list (list RecipientHint)) : list RecipientHint :=
  fold_left (fun hints hs => fold_left push_new hs hints) l hints.

Module LocalCell.
Section Cell.
Context {E : Type} {MI : MapIter PeerId PeerInfo.t}.
Import PeerInfo.

Record t : Type := mk {
  local_id : PeerId;
  peers : gmap PeerId PeerInfo.t;
  active_timeout : Z;
  stale_timeout : Z;
  max_peers : Z
}.

Definition with_timeouts (local_id : PeerId) (active_timeout stale_timeout : Z) : t :=
  mk local_id ∅ active_timeout stale_timeout 1000.

Definition new (local_id : PeerId) : t := with_timeouts local_id 300 1800.

Definition with_peers (ps : gmap PeerId PeerInfo.t) (self : t) : t :=
  mk (local_id self) ps (active_timeout self) (stale_timeout self) (max_peers self).

(** [self.peers.values()]. *)
Definition values (self : t) : list PeerInfo.t := (map_iter (peers self)).*2.

Definition evict_lowest_reliability (self : t) : outcome E t :=
  if bool_decide (peers self = ∅) then Ok self else
  if negb (comparable reliability_score (values self)) then Panic else
  match min_by (fun a b => F64.cmp (reliability_score a) (reliability_score b)) (values self) with
  | Some p => Ok (with_peers (delete (peer_id p) (peers self)) self)
  | None => Panic
  end.

(** A first sighting: neutral reliability, nothing known. *)
Definition sighted (now : Z) (id : PeerId) (transport : TransportType.t) : PeerInfo.t :=
  PeerInfo.mk id (PeerStatus.Active now transport) [] 0 (F64.lit 1 2) [transport] false 0 0.

Definition seen_again (now : Z) (transport : TransportType.t) (p : PeerInfo.t) : PeerInfo.t :=
  PeerInfo.mk (peer_id p) (PeerStatus.Active now transport) (reachable_hints p) (message_count p)
    (reliability_score p)
    (if bool_decide (transport ∈ transports p) then transports p else transports p ++ [transport])
    (is_gateway p) (sync_count p) (avg_sync_ms p).

Definition peer_seen (now : Z) (id : PeerId) (transport : TransportType.t) (self : t) : outcome E t :=
  match peers self !! id with
  | Some p => Ok (with_peers (<[id := seen_again now transport p]> (peers self)) self)
  | None =>
      let! self := if Z.of_nat (size (peers self)) >=? max_peers self
                   then evict_lowest_reliability self else Ok self in
      Ok (with_peers (<[id := sighted now id transport]> (peers self)) self)
  end.

(** [if let Some(peer) = self.peers.get_mut(id) { .. }]. *)
Definition update (f : PeerInfo.t -> PeerInfo.t) (id : PeerId) (self : t) : t :=
  with_peers (alter f id (peers self)) self.

Definition update_peer_hints (id : PeerId) (hints : list RecipientHint) (self : t) : t :=
  update (fun p => PeerInfo.mk (peer_id p) (status p) hints (message_count p) (reliability_score p)
                     (transports p) (is_gateway p) (sync_count p) (avg_sync_ms p)) id self.

Definition mark_as_gateway (id : PeerId) (g : bool) (self : t) : t :=
  update (fun p => PeerInfo.mk (peer_id p) (status p) (reachable_hints p) (message_count p) (reliability_score p)
                     (transports p) g (sync_count p) (avg_sync_ms p)) id self.

(** The division panics if the 32-bit count has wrapped around to zero. *)
Definition record_sync (id : PeerId) (sync_duration_ms messages_exchanged : Z) (self : t) : outcome E t :=
  match peers self !! id with
  | Some p =>
      let sync_count' := wrap 32 (sync_count p + 1) in
      if sync_count' =? 0 then Panic else
      let avg := wrap 64 (wrap 64 (avg_sync_ms p * sync_count p) + sync_duration_ms) / sync_count' in
      let p := PeerInfo.mk (peer_id p) (status p) (reachable_hints p) messages_exchanged (reliability_score p)
                 (transports p) (is_gateway p) sync_count' avg in
      Ok (with_peers (<[id := p]> (peers self)) self)
  | None => Ok self
  end.

Definition adjusted (success : bool) (score : f64) : f64 :=
  let increment := if success then F64.lit 1 10 else F64.lit (-15) 100 in
  F64.clamp (F64.add score increment) (F64.of_Z 0) (F64.of_Z 1).

Definition update_reliability (id : PeerId) (success : bool) (self : t) : t :=
  update (fun p => PeerInfo.mk (peer_id p) (status p) (reachable_hints p) (message_count p)
                     (adjusted success (reliability_score p))
                     (transports p) (is_gateway p) (sync_count p) (avg_sync_ms p)) id self.

Definition peers_for_hint (hint : RecipientHint) (self : t) : list PeerInfo.t :=
  filter (fun p => PeerInfo.reaches hint p = true) (values self).

Definition active_peers (self : t) : outcome E (list PeerInfo.t) :=
  let ps := filter (fun p => PeerStatus.is_active (status p) = true) (values self) in
  if comparable reliability_score ps
  then Ok (sort_by (fun a b => F64.cmp (reliability_score b) (reliability_score a)) ps)
  else Panic.

Definition gateway_peers (self : t) : list PeerInfo.t :=
  filter (fun p => is_gateway p && PeerStatus.is_active (status p) = true) (values self).

(** One turn of the loop of [tick]; the subtraction of the seconds wraps. *)
Definition aged (self : t) (now : Z) (id : PeerId) (s : PeerStatus.t) : PeerStatus.t * list PeerEvent.t :=
  match s with
  | PeerStatus.Active last_seen transport =>
      if wrap 64 (now - last_seen) >? active_timeout self
      then (PeerStatus.Stale last_seen transport, [PeerEvent.PeerBecameStale id])
      else (s, [])
  | PeerStatus.Stale last_seen _ =>
      if wrap 64 (now - last_seen) >? stale_timeout self
      then (PeerStatus.Dormant last_seen, [PeerEvent.PeerBecameDormant id])
      else (s, [])
  | PeerStatus.Dormant _ => (s, [])
  end.

Definition tick_peer (now : Z) (acc : t * list PeerEvent.t) (id : PeerId) : t * list PeerEvent.t :=
  let '(self, events) := acc in
  match peers self !! id with
  | Some p =>
      let '(s, ev) := aged self now id (status p) in
      (with_peers (<[id := with_status s p]> (peers self)) self, events ++ ev)
  | None => acc
  end.

Definition tick (now : Z) (self : t) : t * list PeerEvent.t :=
  fold_left (tick_peer now) (map_iter (peers self)).*1 (self, []).

Definition summarize (now : Z) (self : t) : CellSummary.t :=
  let gateway_count := len (filter (fun p => is_gateway p = true) (values self)) in
  let all_hints := collect_hints [] (map reachable_hints (values self)) in
  let avg_reliability :=
    if bool_decide (peers self = ∅) then F64.of_Z 0
    else F64.div (fold_left (fun s p => F64.add s (reliability_score p)) (values self) (F64.of_Z 0))
                 (F64.of_Z (Z.of_nat (size (peers self)))) in
  CellSummary.mk (wrap 32 (Z.of_nat (size (peers self)))) (wrap 32 gateway_count) all_hints avg_reliability now.

Definition peer_count (self : t) : Z := Z.of_nat (size (peers self)).

Definition active_count (self : t) : Z :=
  len (filter (fun p => PeerStatus.is_active (status p) = true) (values self)).

Definition get_peer (id : PeerId) (self : t) : option PeerInfo.t := peers self !! id.

End Cell.
End LocalCell.

(** ** Ageing *)

Section Ageing.
Context {MI : MapIter PeerId PeerInfo.t}.
Import LocalCell.
Implicit Types (self : LocalCell.t).

Definition aged_peer self (now : Z) (p : PeerInfo.t) : PeerInfo.t :=
  PeerInfo.with_status (aged self now [] (PeerInfo.status p)).1 p.

Lemma aged_status self now id s : (aged self now id s).1 = (aged self now [] s).1.
Proof. unfold aged. destruct s; by try case_goal. Qed.

Lemma tick_fold now ks self0 self ev : NoDup ks ->
  active_timeout self = active_timeout self0 -> stale_timeout self = stale_timeout self0 ->
  let '(self', _) := fold_left (tick_peer now) ks (self, ev) in
  local_id self' = local_id self /\ max_peers self' = max_peers self /\
  active_timeout self' = active_timeout self /\ stale_timeout self' = stale_timeout self /\
  forall id, peers self' !! id = if decide (id ∈ ks) then aged_peer self0 now <$> peers self !! id else peers self !! id.
Proof.
  intros Hnd. revert self ev. induction Hnd as [|k ks Hk Hnd IH]; intros self ev Ha Hs; cbn [fold_left].
  { split_and!; done. }
  set (acc := tick_peer now (self, ev) k).
  assert (Hacc : local_id acc.1 = local_id self /\ max_peers acc.1 = max_peers self /\
    active_timeout acc.1 = active_timeout self /\ stale_timeout acc.1 = stale_timeout self /\
    forall id, peers acc.1 !! id = if decide (id = k) then aged_peer self0 now <$> peers self !! id else peers self !! id).
  { unfold acc, tick_peer. destruct (peers self !! k) as [p|] eqn:Hp.
    - pose proof (aged_status self now k (PeerInfo.status p)) as Hst.
      destruct (aged self now k (PeerInfo.status p)) as [s e]. cbn [fst] in Hst. subst s. cbn. split_and!; try done.
      intros id. case_decide as Hid; [subst id; rewrite lookup_insert_eq, Hp|by rewrite lookup_insert_ne].
      cbn. f_equal. unfold aged_peer, aged. by rewrite Ha, Hs.
    - cbn. split_and!; try done. intros id. case_decide; [subst; by rewrite Hp|done]. }
  destruct Hacc as (H1 & H2 & H3 & H4 & H5). destruct acc as [self1 ev1]. cbn [fst] in *.
  specialize (IH self1 ev1 ltac:(congruence) ltac:(congruence)).
  destruct (fold_left _ ks _) as [self' ev']. destruct IH as (J1 & J2 & J3 & J4 & J5).
  split_and!; try congruence. intros id. rewrite J5, H5.
  destruct (decide (id = k)) as [->|Hne].
  - rewrite (decide_False (P := k ∈ ks)), (decide_True (P := k ∈ k :: ks)) by (done || by left). done.
  - destruct (decide (id ∈ ks)); [rewrite decide_True by (by right); done|].
    rewrite decide_False; [done|]. by intros [?|?]%elem_of_cons.
Qed.

(** A tick ages every peer, whatever the order. *)
Lemma tick_spec now self :
  (tick now self).1 = with_peers (aged_peer self now <$> peers self) self.
Proof.
  unfold tick. pose proof (tick_fold now (map_iter (peers self)).*1 self self [] (NoDup_map_iter_keys _) eq_refl eq_refl) as H.
  destruct (fold_left _ _ _) as [self' ev]. destruct H as (H1 & H2 & H3 & H4 & H5).
  destruct self' as [i ps a s m]. cbn in *. unfold with_peers. f_equal; try done.
  apply map_eq. intros id. rewrite H5, lookup_fmap. case_decide as Hid; [done|].
  rewrite elem_of_map_iter_keys in Hid. destruct (peers self !! id); [destruct Hid; eauto|done].
Qed.
End Ageing.

(** ** The invariant of the cell *)

Module LocalHistory.
Section History.
Context {E : Type} {MI : MapIter PeerId PeerInfo.t}.
Import LocalCell.
Implicit Types (self : LocalCell.t).

Inductive call : Type :=
| Seen (now : Z) (id : PeerId) (transport : TransportType.t)
| Hints (id : PeerId) (hints : list RecipientHint)
| Gateway (id : PeerId) (g : bool)
| Synced (id : PeerId) (duration messages : Z)
| Outcome (id : PeerId) (success : bool)
| Tick (now : Z).

Definition step (c : call) (self : t) : outcome E t :=
  match c with
  | Seen now id tr => peer_seen now id tr self
  | Hints id hs => Ok (update_peer_hints id hs self)
  | Gateway id g => Ok (mark_as_gateway id g self)
  | Synced id d m => record_sync id d m self
  | Outcome id b => Ok (update_reliability id b self)
  | Tick now => Ok (tick now self).1
  end.

Definition run (cs : list call) (self : t) : outcome E t := for_each step cs self.

(** A peer's entry after at most [n] calls. *)
Record peer_ok (n : Z) (id : PeerId) (p : PeerInfo.t) : Prop := mk_peer_ok {
  ok_id : PeerInfo.peer_id p = id;
  ok_score : F64.between (F64.of_Z 0) (F64.of_Z 1) (PeerInfo.reliability_score p);
  ok_transports : PeerInfo.transports p <> [] /\ NoDup (PeerInfo.transports p);
  ok_syncs : 0 <= PeerInfo.sync_count p <= n
}.

Record cell_ok (n : Z) (self : t) : Prop := mk_cell_ok {
  cell_peers : map_Forall (peer_ok n) (peers self);
  cell_size : Z.of_nat (size (peers self)) <= Z.max 1 (max_peers self)
}.

Lemma peer_ok_mono n m id p : n <= m -> peer_ok n id p -> peer_ok m id p.
Proof. intros Hn [H1 H2 H3 H4]. split; auto; lia. Qed.

Lemma adjusted_between b s : F64.between (F64.of_Z 0) (F64.of_Z 1) s ->
  F64.between (F64.of_Z 0) (F64.of_Z 1) (adjusted b s).
Proof.
  intros Hs. apply F64.clamp_between; [done..| |by vm_compute].
  apply F64.add_not_nan; [|by destruct b]. by apply (F64.between_finite _ _ _) in Hs.
Qed.

Lemma scores_comparable (P : PeerInfo.t -> Prop) `{forall p, Decision (P p)} n self : map_Forall (peer_ok n) (peers self) ->
  comparable PeerInfo.reliability_score (filter P (values self)) = true.
Proof.
  intros Hp. unfold comparable. apply orb_true_iff. right. apply forallb_forall.
  intros p Hin. apply list_elem_of_In in Hin. apply list_elem_of_filter in Hin as [_ Hin].
  apply list_elem_of_fmap in Hin as ([id q] & -> & Hq). apply elem_of_map_iter in Hq.
  destruct (ok_score _ _ _ (Hp _ _ Hq)) as [Hn _]. cbn. by rewrite Hn.
Qed.

Lemma values_comparable n self : map_Forall (peer_ok n) (peers self) ->
  comparable PeerInfo.reliability_score (values self) = true.
Proof.
  intros Hp. rewrite <-(filter_keep (fun _ => True) (values self)) by by apply Forall_true.
  by apply (scores_comparable _ n).
Qed.

(** Eviction removes one peer. *)
Lemma evict_spec n self : map_Forall (peer_ok n) (peers self) ->
  exists self', evict_lowest_reliability (E := E) self = Ok self' /\ max_peers self' = max_peers self /\
    map_Forall (peer_ok n) (peers self') /\ Z.of_nat (size (peers self')) <= Z.max 0 (Z.of_nat (size (peers self)) - 1).
Proof.
  intros Hp. unfold evict_lowest_reliability. case_bool_decide as He.
  { exists self. rewrite He, map_size_empty. split_and!; [done..|lia]. }
  rewrite (values_comparable n) by done. cbn [negb].
  destruct (min_by _ _) as [p|] eqn:Hmin.
  - eexists. split; [done|]. cbn. apply min_by_elem in Hmin.
    apply list_elem_of_fmap in Hmin as ([id q] & -> & Hq). apply elem_of_map_iter in Hq. cbn in *.
    rewrite (ok_id _ _ _ (Hp _ _ Hq)). split_and!; [done|by apply map_Forall_delete|].
    rewrite map_size_delete_Some by eauto. lia.
  - exfalso. apply min_by_None, fmap_nil_inv in Hmin. apply He, map_size_empty_inv.
    by rewrite <-length_map_iter, Hmin.
Qed.

Lemma sighted_ok n now id tr : 0 <= n -> peer_ok n id (sighted now id tr).
Proof.
  intros Hn. split; cbn; [done| |split; [done|apply NoDup_singleton]|lia].
  split_and!; [done|unfold F64.le; by vm_compute..].
Qed.

Lemma seen_again_ok n now id tr p : peer_ok n id p -> peer_ok n id (seen_again now tr p).
Proof.
  intros [H1 H2 [H3 H4] H5]. split; cbn; try done. case_bool_decide as Hin; [done|]. split; [by destruct (PeerInfo.transports p)|].
  apply NoDup_app. split_and!; [done| |apply NoDup_singleton]. intros x Hx ->%list_elem_of_singleton. done.
Qed.

Lemma cell_update_ok n f id self : (forall p, peer_ok n id p -> peer_ok n id (f p)) -> cell_ok n self -> cell_ok n (update f id self).
Proof.
  intros Hf [Hp Hs]. split; cbn.
  - intros k p Hk. apply lookup_alter_Some in Hk as [(-> & q & Hq & ->)|[Hne Hk]]; [apply Hf|]; by apply Hp.
  - rewrite <-(size_dom (D := gset _) (alter _ _ _)), dom_alter_L, size_dom. done.
Qed.

Lemma cell_step_ok n c self : 0 <= n < 2 ^ 32 - 1 -> cell_ok n self ->
  exists self', step c self = Ok self' /\ cell_ok (n + 1) self' /\ max_peers self' = max_peers self.
Proof.
  intros Hn Hc. assert (Hup : forall self, cell_ok n self -> cell_ok (n + 1) self).
  { intros s [Hp Hs]. split; [|done]. eapply map_Forall_impl; [exact Hp|]. intros. eapply peer_ok_mono; [|done]. lia. }
  destruct c as [now id tr|id hs|id g|id d m|id b|now]; cbn [step].
  - unfold peer_seen. destruct (peers self !! id) as [p|] eqn:Hid.
    + eexists. split; [done|]. split; [|done]. apply Hup. destruct Hc as [Hp Hs]. split; cbn.
      * apply map_Forall_insert_2; [|done]. by apply seen_again_ok, Hp.
      * by rewrite map_size_insert_Some by eauto.
    + assert (Hroom : exists s, (if Z.of_nat (size (peers self)) >=? max_peers self then evict_lowest_reliability self
        else Ok self) = @Ok E _ s /\ max_peers s = max_peers self /\ map_Forall (peer_ok n) (peers s) /\
        Z.of_nat (size (peers s)) <= Z.max 1 (max_peers self) - 1).
      { destruct Hc as [Hp Hs]. case_goal; bool_to_prop; [|exists self; split_and!; [done..|lia]].
        destruct (evict_spec n self Hp) as (s & -> & H1 & H2 & H3). exists s. split_and!; [done..|lia]. }
      destruct Hroom as (s & -> & H1 & H2 & H3). eexists. split; [done|]. split; [|done]. apply Hup. split; cbn.
      * apply map_Forall_insert_2; [|done]. apply sighted_ok. lia.
      * rewrite map_size_insert, H1. destruct (peers s !! id); unfold Datatypes.id; lia.
  - eexists. split; [done|]. split; [|done]. apply Hup, cell_update_ok; [|done]. intros p [? ? ? ?]. by split.
  - eexists. split; [done|]. split; [|done]. apply Hup, cell_update_ok; [|done]. intros p [? ? ? ?]. by split.
  - unfold record_sync. destruct (peers self !! id) as [p|] eqn:Hid; [|eauto]. destruct Hc as [Hp Hs].
    pose proof (Hp _ _ Hid) as [Hpi Hps Hpt Hpc]. rewrite wrap_small by (unfold fits; lia). zbool.
    eexists. split; [done|]. split; [|done]. split; cbn.
    + apply map_Forall_insert_2; [split; cbn; try done; lia|]. by apply Hup.
    + by rewrite map_size_insert_Some by eauto.
  - eexists. split; [done|]. split; [|done]. apply Hup, cell_update_ok; [|done]. intros p [? ? ? ?].
    split; cbn; auto using adjusted_between.
  - eexists. split; [done|]. rewrite tick_spec. split; [|done]. apply Hup. destruct Hc as [Hp Hs]. split; cbn.
    + apply map_Forall_fmap. eapply map_Forall_impl; [exact Hp|]. intros i p [? ? ? ?]. by split.
    + by rewrite map_size_fmap.
Qed.

Lemma cell_run_ok cs n self : 0 <= n -> n + len cs < 2 ^ 32 -> cell_ok n self ->
  exists self', run cs self = Ok self' /\ cell_ok (n + len cs) self' /\ max_peers self' = max_peers self.
Proof.
  unfold run. revert n self. induction cs as [|c cs IH]; intros n self Hn Hl Hc; cbn [for_each].
  { exists self. rewrite len_nil, Z.add_0_r. by split_and!. }
  rewrite len_cons in *. pose proof (len_nonneg cs).
  destruct (cell_step_ok n c self) as (s & -> & Hs & Hm); [lia|done|].
  destruct (IH (n + 1) s) as (s' & -> & Hs' & Hm'); [lia|lia|done|].
  exists s'. split_and!; [done| |congruence]. by replace (n + (1 + len cs)) with (n + 1 + len cs) by lia.
Qed.

Lemma by_score_sorted n self : map_Forall (peer_ok n) (peers self) ->
  StronglySorted (fun a b => F64.le (PeerInfo.reliability_score b) (PeerInfo.reliability_score a))
    (sort_by (fun a b => F64.cmp (PeerInfo.reliability_score b) (PeerInfo.reliability_score a))
       (filter (fun p => PeerStatus.is_active (PeerInfo.status p) = true) (values self))).
Proof.
  intros Hp. apply (sort_by_sorted _ (fun p => F64.is_nan (PeerInfo.reliability_score p) = false)).
  - intros x y Hx Hy. by apply F64.cmp_antisym.
  - intros x y z Hx Hy Hz Hxy Hyz. exact (F64.le_trans _ _ _ Hz Hy Hx Hyz Hxy).
  - apply Forall_forall. intros p Hin. apply list_elem_of_filter in Hin as [_ Hin].
    apply list_elem_of_fmap in Hin as ([id q] & -> & Hq). apply elem_of_map_iter in Hq.
    by destruct (ok_score _ _ _ (Hp _ _ Hq)).
Qed.
End History.

(** The local cell under any sequence of fewer than 2^32 calls, in any
    iteration order: no call panics; the table has at most 1000 peers, each
    under its own id, with a reliability score between 0 and 1 and at least one
    transport, no transport twice; the list of active peers is exactly the
    active entries, the most reliable first, and the [expect] of its comparator
    never fails because no score becomes NaN. *)
Theorem local_cell_safe {E : Type} {MI : MapIter PeerId PeerInfo.t} id cs :
  len cs < 2 ^ 32 ->
  exists self l, run (E := E) cs (LocalCell.new id) = Ok self /\
    cell_ok (len cs) self /\ LocalCell.peer_count self <= 1000 /\
    LocalCell.active_peers (E := E) self = Ok l /\
    l ≡ₚ filter (fun p => PeerStatus.is_active (PeerInfo.status p) = true) (LocalCell.values self) /\
    StronglySorted (fun a b => F64.le (PeerInfo.reliability_score b) (PeerInfo.reliability_score a)) l.
Proof.
  intros Hl. destruct (cell_run_ok (E := E) cs 0 (LocalCell.new id)) as (self & Hr & Hc & Hm); [lia|lia| |].
  { split; cbn; [apply map_Forall_empty|rewrite map_size_empty; lia]. }
  rewrite Z.add_0_l in Hc. destruct (Hc) as [Hp Hs]. rewrite Hm in Hs.
  eexists self, _. split; [exact Hr|]. split; [exact Hc|]. split; [exact Hs|].
  unfold LocalCell.active_peers. rewrite (scores_comparable _ (len cs)) by done. split; [done|].
  split; [apply sort_by_perm|]. by apply (by_score_sorted (len cs)).
Qed.

Lemma local_cell_safe_witness : exists self l,
  run (E := Empty_set) (MI := map_iter_reverse)
    [Seen 10 [1] TransportType.BLE; Seen 11 [2] TransportType.TCP; Outcome [2] true; Seen 12 [1] TransportType.QUIC;
     Synced [1] 20 3; Tick 311] (LocalCell.new [0]) = Ok self /\
  LocalCell.active_peers (E := Empty_set) (MI := map_iter_reverse) self = Ok l /\
  map PeerInfo.peer_id l = [[2]; [1]].
Proof.
  destruct (local_cell_safe (E := Empty_set) (MI := map_iter_reverse) [0]
    [Seen 10 [1] TransportType.BLE; Seen 11 [2] TransportType.TCP; Outcome [2] true; Seen 12 [1] TransportType.QUIC;
     Synced [1] 20 3; Tick 311]) as (self & l & Hr & _ & _ & Ha & _); [by vm_compute|].
  exists self, l. split; [exact Hr|]. split; [exact Ha|].
  assert (Hc : match run (E := Empty_set) (MI := map_iter_reverse)
    [Seen 10 [1] TransportType.BLE; Seen 11 [2] TransportType.TCP; Outcome [2] true; Seen 12 [1] TransportType.QUIC;
     Synced [1] 20 3; Tick 311] (LocalCell.new [0]) with
    | Ok s => match LocalCell.active_peers (E := Empty_set) (MI := map_iter_reverse) s with
              | Ok l => map PeerInfo.peer_id l = [[2]; [1]] | _ => False end
    | _ => False end) by (vm_compute; reflexivity).
  rewrite Hr, Ha in Hc. exact Hc.
Defined.

(** A clock that is set back by one second ages every active peer at once: the
    difference of the seconds wraps around. *)
Lemma clock_set_back self now id p tr :
  LocalCell.active_timeout self < 2 ^ 64 - 1 -> 0 < now < 2 ^ 64 ->
  LocalCell.peers self !! id = Some p -> PeerInfo.status p = PeerStatus.Active now tr ->
  PeerInfo.status (aged_peer self (now - 1) p) = PeerStatus.Stale now tr.
Proof.
  intros Ht Hn Hp Hs. unfold aged_peer, LocalCell.aged. cbn. rewrite Hs.
  replace (wrap 64 (now - 1 - now)) with (2 ^ 64 - 1).
  - rewrite Z.gtb_ltb. by rewrite (proj2 (Z.ltb_lt _ _)) by lia.
  - unfold wrap. replace (now - 1 - now) with (2 ^ 64 - 1 + (-1) * 2 ^ 64) by lia.
    rewrite Z_mod_plus_full, Z.mod_small by lia. done.
Qed.

End LocalHistory.
