(* ===== verification/GlobalRoutes.v ===== *)
(** * Layer 3 of routing: global routes (core/src/routing/global.rs)

    Route advertisements per destination hint: at most a few per hint, one per
    next hop, replaced only by newer versions, expiring after their lifetime;
    and the requests for routes that are still unknown. *)

From S2P Require Import Prelude Float64 LocalCell.

Module RouteAdvertisement.
Record t : Type := mk {
  destination_hint : RecipientHint;
  next_hop : PeerId;
  hop_count : Z;
  reliability : f64;
  last_confirmed : Z;
  sequence : Z;
  ttl : Z
}.
End RouteAdvertisement.

Module RouteRequest.
Record t : Type := mk {
  hint : RecipientHint;
  requested_at : Z;
  attempts : Z;
  max_attempts : Z
}.
End RouteRequest.

(** The sort of the standard library on slices of up to 20 elements: each
    element moves left while it is less than its neighbour.  The comparator it
    is used with here is not transitive, so the order of the steps matters. *)
Fixpoint shift_left {A} (cmp : A -> A -> comparison) (x : A) (sorted_rev : list A) : list A :=
  match sorted_rev with
  | [] => [x]
  | y :: l => match cmp x y with Lt => y :: shift_left cmp x l | _ => x :: y :: l end
  end.

Definition insertion_sort {A} (cmp : A -> A -> comparison) (l : list A) : list A :=
  rev (fold_left (fun acc x => shift_left cmp x acc) l []).

Lemma shift_left_perm {A} (cmp : A -> A -> comparison) x l : shift_left cmp x l ≡ₚ x :: l.
Proof. induction l as [|y l IH]; cbn; [done|]. destruct (cmp x y); try done. rewrite IH. apply Permutation_swap. Qed.

Lemma insertion_sort_perm {A} (cmp : A -> A -> comparison) l : insertion_sort cmp l ≡ₚ l.
Proof.
  unfold insertion_sort. rewrite <-Permutation_rev.
  assert (H : forall acc, fold_left (fun acc x => shift_left cmp x acc) l acc ≡ₚ l ++ acc).
  { induction l as [|x l IH]; intros acc; cbn; [done|]. rewrite IH, shift_left_perm. symmetry. apply Permutation_middle. }
  by rewrite H, app_nil_r.
Qed.

Module GlobalRoutes.
Import RouteAdvertisement.
Section Routes.
Context {E : Type}.

Record t : Type := mk {
  routes : gmap RecipientHint (list RouteAdvertisement.t);
  max_routes_per_hint : Z;
  max_total_routes : Z;
  local_advertisements : list RouteAdvertisement.t;
  pending_requests : gmap RecipientHint RouteRequest.t
}.

Definition with_limits (max_routes_per_hint max_total_routes : Z) : t :=
  mk ∅ max_routes_per_hint max_total_routes [] ∅.

Definition new : t := with_limits 3 10000.

Definition with_routes (rs : gmap RecipientHint (list RouteAdvertisement.t)) (self : t) : t :=
  mk rs (max_routes_per_hint self) (max_total_routes self) (local_advertisements self) (pending_requests self).

Definition with_pending (ps : gmap RecipientHint RouteRequest.t) (self : t) : t :=
  mk (routes self) (max_routes_per_hint self) (max_total_routes self) (local_advertisements self) ps.

Definition route_count (self : t) : Z :=
  map_fold (fun _ v n => len v + n) 0 (routes self).

(** Worst first: most hops, then lowest reliability beyond a tolerance of 0.01,
    then oldest. *)
Definition worst_cmp (a b : RouteAdvertisement.t) : comparison :=
  if negb (hop_count a =? hop_count b) then hop_count b ?= hop_count a
  else if F64.ltb (F64.lit 1 100) (F64.abs (F64.sub (reliability a) (reliability b)))
  then F64.cmp (reliability a) (reliability b)
  else last_confirmed a ?= last_confirmed b.

Definition better_than (ad worst : RouteAdvertisement.t) : bool :=
  (hop_count ad <? hop_count worst)
  || ((hop_count ad =? hop_count worst) && F64.ltb (reliability worst) (reliability ad))
  || ((hop_count ad =? hop_count worst)
      && F64.leb (F64.abs (F64.sub (reliability ad) (reliability worst))) (F64.lit 1 100)
      && (last_confirmed ad >? last_confirmed worst)).

(** [routes_for_hint[pos] = ad] at the first route with the next hop. *)
Fixpoint replace_via (ad : RouteAdvertisement.t) (l : list RouteAdvertisement.t) : list RouteAdvertisement.t :=
  match l with
  | [] => []
  | r :: l => if bool_decide (next_hop r = next_hop ad) then ad :: l else r :: replace_via ad l
  end.

Definition find_via (id : PeerId) (l : list RouteAdvertisement.t) : option RouteAdvertisement.t :=
  snd <$> list_find (fun r => next_hop r = id) l.

(** The routes of the hint after the call, and its answer. *)
Definition add_to (max : Z) (ad : RouteAdvertisement.t) (l : list RouteAdvertisement.t)
    : outcome E (list RouteAdvertisement.t * bool) :=
  match find_via (next_hop ad) l with
  | Some existing =>
      if sequence ad <=? sequence existing then Ok (l, false) else Ok (replace_via ad l, true)
  | None =>
      if len l >=? max then
        let l := insertion_sort worst_cmp l in
        let! worst := index l 0 in
        if better_than ad worst then Ok (drop 1 l ++ [ad], true) else Ok (l, false)
      else Ok (l ++ [ad], true)
  end.

(** [entry(hint).or_default()]: no entry is an empty list. *)
Definition add_route (ad : RouteAdvertisement.t) (self : t) : outcome E (t * bool) :=
  if route_count self >=? max_total_routes self then Ok (self, false) else
  let! '(l, b) := add_to (max_routes_per_hint self) ad (default [] (routes self !! destination_hint ad)) in
  Ok (with_routes (<[destination_hint ad := l]> (routes self)) self, b).

Definition routes_for_hint (hint : RecipientHint) (self : t) : list RouteAdvertisement.t :=
  default [] (routes self !! hint).

Definition best_cmp (a b : RouteAdvertisement.t) : comparison :=
  match hop_count a ?= hop_count b with
  | Eq => match F64.partial_cmp (reliability b) (reliability a) with
          | Some Eq | None => last_confirmed b ?= last_confirmed a
          | Some other => other
          end
  | other => other
  end.

Definition best_route_for_hint (hint : RecipientHint) (self : t) : option RouteAdvertisement.t :=
  match routes self !! hint with Some rs => min_by best_cmp rs | None => None end.

Definition request_route (hint : RecipientHint) (now : Z) (self : t) : t * RouteRequest.t :=
  let request := RouteRequest.mk hint now 0 5 in
  (with_pending (<[hint := request]> (pending_requests self)) self, request).

Definition is_route_pending (hint : RecipientHint) (self : t) : bool :=
  bool_decide (is_Some (pending_requests self !! hint)).

Definition increment_route_request_attempts (hint : RecipientHint) (self : t) : t * bool :=
  match pending_requests self !! hint with
  | Some req =>
      let attempts := wrap 32 (RouteRequest.attempts req + 1) in
      let req := RouteRequest.mk (RouteRequest.hint req) (RouteRequest.requested_at req) attempts (RouteRequest.max_attempts req) in
      (with_pending (<[hint := req]> (pending_requests self)) self, attempts <? RouteRequest.max_attempts req)
  | None => (self, false)
  end.

Definition resolve_route_request (hint : RecipientHint) (self : t) : t :=
  with_pending (delete hint (pending_requests self)) self.

Definition update_local_advertisements (hints : list RecipientHint) (local_id : PeerId) (now : Z) (self : t) : t :=
  mk (routes self) (max_routes_per_hint self) (max_total_routes self)
     (map (fun hint => RouteAdvertisement.mk hint local_id 0 (F64.of_Z 1) now 1 3600) hints) (pending_requests self).

Definition get_advertisements (self : t) : list RouteAdvertisement.t := local_advertisements self.

(** [self.routes.retain(|_, routes| { routes.retain(keep); !routes.is_empty() })]
    with the number of routes removed. *)
Definition retain_routes (keep : RouteAdvertisement.t -> bool) (self : t) : t * Z :=
  let removed := map_fold (fun _ v n => len (filter (fun r => keep r = false) v) + n) 0 (routes self) in
  let kept := omap (fun v => let v := filter (fun r => keep r = true) v in
                             if bool_decide (v = []) then None else Some v) (routes self) in
  (with_routes kept self, removed).

Definition expired (now : Z) (r : RouteAdvertisement.t) : bool := saturating_sub now (last_confirmed r) >=? ttl r.

Definition cleanup (now : Z) (self : t) : t * Z :=
  let '(self, removed) := retain_routes (fun r => negb (expired now r)) self in
  (with_pending (filter (fun kv => saturating_sub now (RouteRequest.requested_at kv.2) <= 300) (pending_requests self)) self,
   removed).

Definition remove_routes_via (peer_id : PeerId) (self : t) : t * Z :=
  retain_routes (fun r => negb (bool_decide (next_hop r = peer_id))) self.

Definition has_route_for (hint : RecipientHint) (self : t) : bool :=
  match routes self !! hint with Some r => negb (bool_decide (r = [])) | None => false end.

Definition unique_destination_count (self : t) : Z := Z.of_nat (size (routes self)).

Definition pending_request_count (self : t) : Z := Z.of_nat (size (pending_requests self)).

End Routes.
End GlobalRoutes.

(** ** The table *)

Section TableLemmas.
Context {E : Type}.
Import RouteAdvertisement GlobalRoutes.
Implicit Types (l : list RouteAdvertisement.t) (ad r : RouteAdvertisement.t) (self : GlobalRoutes.t).

(** One route per next hop. *)
Definition distinct l : Prop := NoDup (map next_hop l).

Lemma find_via_Some id l r : find_via id l = Some r -> r ∈ l /\ next_hop r = id.
Proof.
  unfold find_via. destruct (list_find _ l) as [[i x]|] eqn:Hf; cbn; intros Heq; inv Heq.
  apply list_find_Some in Hf as (Hl & Hx & _). split; [by eapply list_elem_of_lookup_2|done].
Qed.

Lemma find_via_None id l : find_via id l = None <-> id ∉ map next_hop l.
Proof.
  unfold find_via. destruct (list_find _ l) as [[i x]|] eqn:Hf; cbn; (split; [try done|]).
  - intros Hin. apply list_find_Some in Hf as (Hl & Hx & _). destruct Hin. apply list_elem_of_fmap.
    exists x. split; [done|]. by eapply list_elem_of_lookup_2.
  - intros _ Hin. apply list_elem_of_fmap in Hin as (x & Hid & Hx). apply list_find_None in Hf.
    rewrite Forall_forall in Hf. by apply (Hf x).
  - done.
Qed.

(** Two routes with the same next hop are the same entry. *)
Lemma distinct_inj l r r' : distinct l -> r ∈ l -> r' ∈ l -> next_hop r = next_hop r' -> r = r'.
Proof.
  intros Hd Hr Hr' Heq. apply list_elem_of_lookup_1 in Hr as [i Hi]. apply list_elem_of_lookup_1 in Hr' as [j Hj].
  assert (i = j) as ->; [|congruence].
  apply (NoDup_lookup (next_hop <$> l) i j (next_hop r)); [done|..];
    rewrite list_lookup_fmap; [by rewrite Hi|by rewrite Hj, Heq].
Qed.

Lemma replace_via_hops ad l : map next_hop (replace_via ad l) = map next_hop l.
Proof. induction l as [|r l IH]; cbn; [done|]. case_bool_decide as Hr; cbn; [by rewrite Hr|by rewrite IH]. Qed.

Lemma replace_via_elem ad l : next_hop ad ∈ map next_hop l -> ad ∈ replace_via ad l.
Proof.
  induction l as [|r l IH]; cbn; [by intros ?%elem_of_nil|]. intros Hin. case_bool_decide as Hr; [by left|].
  right. apply IH. apply elem_of_cons in Hin as [Heq|]; [by destruct Hr|done].
Qed.

Lemma replace_via_old ad l r : r ∈ replace_via ad l -> r = ad \/ r ∈ l.
Proof.
  induction l as [|x l IH]; cbn; [by right|]. case_bool_decide.
  - intros [->|?]%elem_of_cons; [by left|right; by right].
  - intros [->|?]%elem_of_cons; [right; by left|]. destruct IH as [?|?]; [done|by left|right; by right].
Qed.

(** Every branch of an addition to the routes of one hint. *)
Record added (max : Z) ad l l' (b : bool) : Prop := mk_added {
  added_distinct : distinct l';
  added_max : len l' <= max;
  added_growth : len l' <= len l + 1;
  added_refused : b = false -> l' ≡ₚ l;
  added_accepted : b = true -> ad ∈ l';
  added_from : forall r, r ∈ l' -> r = ad \/ r ∈ l;
  added_versions : forall r r', r ∈ l -> r' ∈ l' -> next_hop r = next_hop r' -> sequence r <= sequence r'
}.

Lemma distinct_perm l l' : l ≡ₚ l' -> distinct l -> distinct l'.
Proof. unfold distinct. intros Hp. by rewrite Hp. Qed.

Lemma len_perm {A} (l l' : list A) : l ≡ₚ l' -> len l = len l'.
Proof. intros Hp. unfold len. by rewrite Hp. Qed.

(** An addition that keeps some of the old routes and perhaps adds a new next hop. *)
Lemma added_sub max ad l l' : distinct l -> 
  (forall r, r ∈ l' -> r ∈ l) -> distinct l' -> next_hop ad ∉ map next_hop l ->
  len l' <= len l -> len l' < max -> added max ad l (l' ++ [ad]) true.
Proof.
  intros Hd Hsub Hd' Hnew Hlen Hmax. split; try done.
  - unfold distinct in *. rewrite map_app. apply NoDup_app. split_and!; [done| |apply NoDup_singleton].
    intros x Hx ->%list_elem_of_singleton. apply Hnew.
    apply list_elem_of_fmap in Hx as (r & Hr & Hin). rewrite Hr. apply list_elem_of_fmap. eauto.
  - rewrite len_app, len_cons, len_nil. lia.
  - rewrite len_app, len_cons, len_nil. lia.
  - intros _. apply elem_of_app. right. by left.
  - intros r Hr. apply elem_of_app in Hr as [?|Hr]; [auto|]. apply list_elem_of_singleton in Hr. auto.
  - intros r r' Hr Hr' Heq. apply elem_of_app in Hr' as [Hr'|Hr']; [|apply list_elem_of_singleton in Hr'; subst r'].
    + rewrite (distinct_inj l r r'); [lia|done|done|by apply Hsub|done].
    + destruct Hnew. rewrite <-Heq. apply list_elem_of_fmap. eauto.
Qed.

Lemma added_same max ad l l' : distinct l -> len l <= max -> l' ≡ₚ l -> added max ad l l' false.
Proof.
  intros Hd Hl Hp. split; try done.
  - by apply (distinct_perm l).
  - by rewrite (len_perm _ _ Hp).
  - rewrite (len_perm _ _ Hp). lia.
  - intros r. rewrite Hp. auto.
  - intros r r' Hr. rewrite Hp. intros Hr' Heq. rewrite (distinct_inj l r r') by done. lia.
Qed.

Lemma add_to_spec max ad l : 0 < max -> distinct l -> len l <= max ->
  exists l' b, add_to (E := E) max ad l = Ok (l', b) /\ added max ad l l' b.
Proof.
  intros Hmax Hd Hl. unfold add_to. destruct (find_via (next_hop ad) l) as [ex|] eqn:Hf.
  - apply find_via_Some in Hf as [Hex Hn]. destruct (_ <=? _) eqn:Hs; bool_to_prop.
    { eexists _, _. split; [done|]. by apply added_same. }
    eexists _, _. split; [done|].
    assert (Hlen : len (replace_via ad l) = len l) by by rewrite <-!(len_map next_hop), replace_via_hops.
    assert (Hd' : distinct (replace_via ad l)) by (unfold distinct; by rewrite replace_via_hops).
    assert (Had : ad ∈ replace_via ad l) by (apply replace_via_elem; rewrite <-Hn; apply list_elem_of_fmap; eauto).
    split; try done; try lia; [apply replace_via_old|].
    intros r r' Hr Hr' Heq. destruct (decide (next_hop r' = next_hop ad)) as [Hv|Hv].
    + rewrite (distinct_inj _ r' ad Hd' Hr' Had Hv). rewrite (distinct_inj l r ex); [lia|done..|congruence].
    + destruct (replace_via_old ad l r' Hr') as [->|Hin]; [done|]. rewrite (distinct_inj l r r'); [lia|done..].
  - apply find_via_None in Hf. destruct (_ >=? _) eqn:Hfull; bool_to_prop.
    + pose proof (insertion_sort_perm worst_cmp l) as Hp. destruct (insertion_sort worst_cmp l) as [|w l0] eqn:Hsort.
      { apply Permutation_nil_l in Hp. subst l. rewrite len_nil in *. lia. }
      rewrite index_head. destruct (better_than ad w); [|eexists _, _; split; [done|by apply added_same]].
      eexists _, _. split; [done|]. change (drop 1 (w :: l0)) with l0.
      pose proof (len_perm _ _ Hp) as Hlen. rewrite len_cons in Hlen.
      pose proof (distinct_perm _ _ (Permutation_sym Hp) Hd) as Hdw. unfold distinct in Hdw. cbn in Hdw. apply NoDup_cons in Hdw as [_ Hdw].
      apply added_sub; [done| |exact Hdw|done|lia|lia]. intros r Hr. rewrite <-Hp. by right.
    + eexists _, _. split; [done|]. apply added_sub; auto; lia.
Qed.

Lemma route_count_insert h l rs self :
  route_count (with_routes (<[h := l]> rs) self) = len l + route_count (with_routes (delete h rs) self).
Proof.
  unfold route_count. cbn [routes with_routes]. rewrite <-insert_delete_eq.
  rewrite map_fold_insert_L; [done|intros; lia|apply lookup_delete_eq].
Qed.

Lemma route_count_delete h self :
  route_count self = len (routes_for_hint h self) + route_count (with_routes (delete h (routes self)) self).
Proof.
  unfold routes_for_hint. destruct (routes self !! h) as [l|] eqn:Hh; cbn [default from_option]; unfold id.
  - rewrite <-(route_count_insert h l (routes self) self), insert_id by done. by destruct self.
  - rewrite delete_id, len_nil by done. by destruct self.
Qed.
End TableLemmas.

(** ** Histories *)

Module GlobalHistory.
Section History.
Context {E : Type}.
Import RouteAdvertisement GlobalRoutes.
Implicit Types (self : GlobalRoutes.t).

Inductive call : Type :=
| Add (ad : RouteAdvertisement.t)
| Request (hint : RecipientHint) (now : Z)
| Retry (hint : RecipientHint)
| Resolve (hint : RecipientHint)
| Advertise (hints : list RecipientHint) (id : PeerId) (now : Z)
| Cleanup (now : Z)
| RemoveVia (id : PeerId).

Definition step (c : call) self : outcome E t :=
  match c with
  | Add ad => let! '(self, _) := add_route ad self in Ok self
  | Request h now => Ok (request_route h now self).1
  | Retry h => Ok (increment_route_request_attempts h self).1
  | Resolve h => Ok (resolve_route_request h self)
  | Advertise hs id now => Ok (update_local_advertisements hs id now self)
  | Cleanup now => Ok (cleanup now self).1
  | RemoveVia id => Ok (remove_routes_via id self).1
  end.

Definition run (cs : list call) self : outcome E t := for_each step cs self.

Record table_ok (m n : Z) self : Prop := mk_table_ok {
  table_limits : max_routes_per_hint self = m /\ max_total_routes self = n;
  table_hints : map_Forall (fun h l => distinct l /\ len l <= m /\ Forall (fun r => destination_hint r = h) l) (routes self);
  table_total : route_count self <= n
}.

(** A route is only ever followed by a version that is not older. *)
Definition versions_kept self self' : Prop :=
  forall h r r', r ∈ routes_for_hint h self -> r' ∈ routes_for_hint h self' ->
    next_hop r = next_hop r' -> sequence r <= sequence r'.

Lemma routes_for_hint_ok m n h self : 0 < m -> table_ok m n self ->
  distinct (routes_for_hint h self) /\ len (routes_for_hint h self) <= m /\
  Forall (fun r => destination_hint r = h) (routes_for_hint h self).
Proof.
  intros Hm [_ Hh _]. unfold routes_for_hint. destruct (routes self !! h) as [l|] eqn:Hl; [exact (Hh h l Hl)|].
  cbn. rewrite len_nil. split_and!; [apply NoDup_nil_2|lia|constructor].
Qed.

Lemma versions_sub m n self self' : 0 < m -> table_ok m n self ->
  (forall h r, r ∈ routes_for_hint h self' -> r ∈ routes_for_hint h self) -> versions_kept self self'.
Proof.
  intros Hm Hok Hsub h r r' Hr Hr' Heq. destruct (routes_for_hint_ok m n h self Hm Hok) as [Hd _].
  rewrite (distinct_inj _ r r' Hd Hr (Hsub _ _ Hr') Heq). lia.
Qed.

Lemma add_route_ok m n ad self : 0 < m -> table_ok m n self ->
  exists self' b, add_route (E := E) ad self = Ok (self', b) /\ table_ok m n self' /\ versions_kept self self' /\
    (forall h, h <> destination_hint ad -> routes_for_hint h self' = routes_for_hint h self) /\
    (b = true -> ad ∈ routes_for_hint (destination_hint ad) self') /\
    (b = false -> routes_for_hint (destination_hint ad) self' ≡ₚ routes_for_hint (destination_hint ad) self).
Proof.
  intros Hm Hok. unfold add_route. destruct (_ >=? _) eqn:Hfull; bool_to_prop.
  { exists self, false. split_and!; try done. by apply (versions_sub m n). }
  destruct (Hok) as [[Hlm Hln] Hh Ht]. rewrite Hlm. fold (routes_for_hint (destination_hint ad) self).
  destruct (routes_for_hint_ok m n (destination_hint ad) self Hm Hok) as (Hd & Hl & Hdest).
  destruct (add_to_spec (E := E) m ad _ Hm Hd Hl) as (l' & b & -> & [A1 A2 A3 A4 A5 A6 A7]).
  eexists _, b. split; [done|]. unfold routes_for_hint, versions_kept in *. cbn [routes with_routes] in *.
  split_and!.
  - split; cbn; [done| |].
    + apply map_Forall_insert_2; [|done]. split_and!; [done|done|]. apply Forall_forall. intros r Hr.
      destruct (A6 r Hr) as [->|Hin]; [done|]. rewrite Forall_forall in Hdest. by apply Hdest.
    + rewrite route_count_insert. rewrite (route_count_delete (destination_hint ad)) in Hfull. unfold routes_for_hint in Hfull.
      rewrite Hln in Hfull. lia.
  - intros h r r' Hr. destruct (decide (h = destination_hint ad)) as [->|Hne].
    + unfold routes_for_hint in *. cbn. rewrite lookup_insert_eq. cbn. intros Hr' Heq. by apply A7.
    + unfold routes_for_hint in *. cbn. rewrite lookup_insert_ne by done. intros Hr' Heq.
      destruct (routes_for_hint_ok m n h self Hm Hok) as [Hdh _]. rewrite (distinct_inj _ r r' Hdh Hr Hr' Heq). lia.
  - intros h Hne. by rewrite lookup_insert_ne.
  - intros ->. rewrite lookup_insert_eq. by apply A5.
  - intros ->. rewrite lookup_insert_eq. by apply A4.
Qed.

Lemma retain_lookup P h self :
  routes_for_hint h (retain_routes P self).1 = filter (fun r => P r = true) (routes_for_hint h self).
Proof.
  unfold routes_for_hint, retain_routes. cbn. rewrite lookup_omap. destruct (routes self !! h) as [l|]; cbn; [|done].
  case_bool_decide as Hl; cbn; [by rewrite Hl|done].
Qed.

Lemma split_count P l : len (filter (fun r : RouteAdvertisement.t => P r = true) l) +
  len (filter (fun r => P r = false) l) = len l.
Proof.
  induction l as [|r l IH]; [done|]. rewrite !filter_cons.
  destruct (P r); cbn [decide decide_rel]; repeat case_decide; try done; rewrite ?len_cons; lia.
Qed.

(** Removing counts exactly what is gone. *)
Lemma retain_count P self : route_count self = route_count (retain_routes P self).1 + (retain_routes P self).2.
Proof.
  unfold retain_routes, route_count. cbn [fst snd routes with_routes].
  generalize (routes self). clear self. intros rs. induction rs as [|h l rs Hh IH] using map_ind.
  { by rewrite omap_empty, !map_fold_empty. }
  rewrite !map_fold_insert_L by (done || (intros; lia)). rewrite IH.
  set (f := fun v : list RouteAdvertisement.t => if bool_decide (filter _ v = []) then None else Some _).
  pose proof (split_count P l) as Hs.
  destruct (decide (filter (fun r => P r = true) l = [])) as [He|He].
  - assert (Hf : f l = None) by (unfold f; by rewrite bool_decide_eq_true_2).
    rewrite omap_insert_None by done. rewrite delete_id by (rewrite lookup_omap, Hh; done).
    rewrite He, len_nil in Hs. lia.
  - assert (Hf : f l = Some (filter (fun r => P r = true) l)) by (unfold f; by rewrite bool_decide_eq_false_2).
    rewrite (omap_insert_Some _ _ _ _ _ Hf).
    rewrite map_fold_insert_L; [lia|intros; lia|]. by rewrite lookup_omap, Hh.
Qed.

Lemma retain_removed P self : 0 <= (retain_routes P self).2.
Proof.
  unfold retain_routes. cbn [snd]. generalize (routes self). intros rs.
  apply (map_fold_weak_ind (fun r _ => 0 <= r)); [lia|]. intros h l rs' r _ Hr.
  pose proof (len_nonneg (filter (fun x => P x = false) l)). lia.
Qed.

Lemma retain_ok m n P self : 0 < m -> table_ok m n self ->
  table_ok m n (retain_routes P self).1 /\ versions_kept self (retain_routes P self).1.
Proof.
  intros Hm Hok. split.
  - destruct Hok as [Hl Hh Ht]. split; [done| |].
    + intros h l. cbn. rewrite lookup_omap. destruct (routes self !! h) as [l0|] eqn:Hl0; cbn; [|done].
      case_bool_decide; [done|]. intros Heq. inv Heq. destruct (Hh h l0 Hl0) as (Hd & Hn & Hf). split_and!.
      * unfold distinct in *. apply (sublist_NoDup _ (map next_hop l0)); [done|].
        apply (fmap_sublist next_hop). apply sublist_filter.
      * pose proof (length_filter (fun r => P r = true) l0). unfold len in *. lia.
      * apply Forall_forall. intros r [_ Hr]%list_elem_of_filter. rewrite Forall_forall in Hf. by apply Hf.
    + pose proof (retain_count P self). pose proof (retain_removed P self). lia.
  - apply (versions_sub m n); try done. intros h r. rewrite retain_lookup. by intros [_ ?]%list_elem_of_filter.
Qed.

Lemma step_table_ok m n c self : 0 < m -> table_ok m n self ->
  exists self', step c self = Ok self' /\ table_ok m n self' /\ versions_kept self self'.
Proof.
  intros Hm Hok.
  assert (Hsame : forall self', routes self' = routes self -> max_routes_per_hint self' = max_routes_per_hint self ->
    max_total_routes self' = max_total_routes self -> table_ok m n self' /\ versions_kept self self').
  { intros s' H1 H2 H3. split; [|apply (versions_sub m n); try done; intros h r; unfold routes_for_hint; by rewrite H1].
    destruct Hok as [Hl Hh Ht]. split; [by rewrite H2, H3|by rewrite H1|]. unfold route_count in *. by rewrite H1. }
  destruct c as [ad|h now|h|h|hs id now|now|id]; cbn [step].
  - destruct (add_route_ok m n ad self Hm Hok) as (s' & b & -> & H1 & H2 & _). eauto.
  - eexists. split; [done|]. by apply Hsame.
  - eexists. split; [done|]. unfold increment_route_request_attempts. destruct (_ !! h); by apply Hsame.
  - eexists. split; [done|]. by apply Hsame.
  - eexists. split; [done|]. by apply Hsame.
  - eexists. split; [done|]. unfold cleanup. pose proof (retain_ok m n (fun r => negb (expired now r)) self Hm Hok) as [H1 H2].
    destruct (retain_routes _ self) as [s k]. cbn in *. split; [|exact H2]. destruct H1 as [Hl Hh Ht]. by split.
  - eexists. split; [done|]. by apply retain_ok.
Qed.

Lemma run_table_ok m n cs self : 0 < m -> table_ok m n self ->
  exists self', run cs self = Ok self' /\ table_ok m n self'.
Proof.
  intros Hm. apply (for_each_total (table_ok m n)). intros c s _ Hs.
  destruct (step_table_ok m n c s Hm Hs) as (s' & ? & ? & _). eauto.
Qed.

Lemma with_limits_ok m n : 0 <= n -> table_ok m n (with_limits m n).
Proof. intros Hn. split; cbn; [done|apply map_Forall_empty|]. unfold route_count. cbn. by rewrite map_fold_empty. Qed.

(** The best route has the fewest hops, whatever the reliabilities, NaN included. *)
Lemma fold_best_hops l x :
  let r := fold_left (fun x y => match best_cmp x y with Gt => y | _ => x end) l x in
  hop_count r <= hop_count x /\ forall y, y ∈ l -> hop_count r <= hop_count y.
Proof.
  revert x. induction l as [|y l IH]; intros x; cbn; [split; [lia|by intros ? ?%elem_of_nil]|].
  set (w := match best_cmp x y with Gt => y | _ => x end).
  assert (Hw : hop_count w <= hop_count x /\ hop_count w <= hop_count y).
  { unfold w, best_cmp. destruct (Z.compare_spec (hop_count x) (hop_count y)); [|lia..].
    destruct (F64.partial_cmp _ _) as [[]|]; repeat case_goal; lia. }
  destruct (IH w) as [H1 H2]. split; [lia|]. intros z Hz. apply elem_of_cons in Hz as [->|Hz]; [lia|by apply H2].
Qed.

Lemma best_route_spec h self r : best_route_for_hint h self = Some r ->
  r ∈ routes_for_hint h self /\ forall r', r' ∈ routes_for_hint h self -> hop_count r <= hop_count r'.
Proof.
  unfold best_route_for_hint, routes_for_hint. destruct (routes self !! h) as [l|]; [|done]. cbn.
  intros Hm. split; [by apply min_by_elem in Hm|]. intros r' Hr'. destruct l as [|x l]; [done|].
  cbn in Hm. inv Hm. destruct (fold_best_hops l x) as [H1 H2].
  apply elem_of_cons in Hr' as [->|Hr']; [done|by apply H2].
Qed.

Lemma best_route_None h self : best_route_for_hint h self = None <-> routes_for_hint h self = [].
Proof.
  unfold best_route_for_hint, routes_for_hint. destruct (routes self !! h) as [l|]; [|done]. apply min_by_None.
Qed.
End History.

(** The global table in any history of calls, with room for at least one
    route per hint: no call panics; a hint never has more than
    [max_routes_per_hint] routes, the table never more than [max_total_routes];
    routes are filed under their destination, one per next hop; and in every
    step a route is only followed by a version of at least its sequence
    number. *)
Theorem global_routes_invariant {E : Type} m n cs c : 0 < m -> 0 <= n ->
  exists self self', run (E := E) cs (GlobalRoutes.with_limits m n) = Ok self /\ table_ok m n self /\
    step (E := E) c self = Ok self' /\ table_ok m n self' /\ versions_kept self self'.
Proof.
  intros Hm Hn. destruct (run_table_ok (E := E) m n cs _ Hm (with_limits_ok m n Hn)) as (self & Hr & Hok).
  destruct (step_table_ok (E := E) m n c self Hm Hok) as (self' & Hs & Hok' & Hv). eauto 10.
Qed.

(** Two versions of a route over one next hop, the older one last. *)
Definition sample_route (hop : PeerId) (hops seq : Z) : RouteAdvertisement.t :=
  RouteAdvertisement.mk [7] hop hops (F64.lit 9 10) 100 seq 60.

Lemma global_routes_invariant_witness : exists self self',
  run (E := Empty_set) [Add (sample_route [1] 3 5); Add (sample_route [2] 2 1)] (GlobalRoutes.with_limits 2 10) = Ok self /\
  step (E := Empty_set) (Add (sample_route [1] 1 4)) self = Ok self' /\ versions_kept self self'.
Proof.
  destruct (global_routes_invariant (E := Empty_set) 2 10 [Add (sample_route [1] 3 5); Add (sample_route [2] 2 1)]
    (Add (sample_route [1] 1 4))) as (s & s' & H1 & _ & H2 & _ & H3); [lia|lia|].
  exists s, s'. split; [exact H1|]. split; [exact H2|exact H3].
Defined.

(** The answer of [add_route] in every reachable table: a refused route
    changes no route of any hint (though the order of the routes of its hint
    may change), an accepted one is in the table afterwards, and the routes of
    the other hints are untouched. *)
Theorem add_route_spec {E : Type} m n ad self : 0 < m -> table_ok m n self ->
  exists self' b, GlobalRoutes.add_route (E := E) ad self = Ok (self', b) /\
    (forall h, h <> RouteAdvertisement.destination_hint ad ->
      GlobalRoutes.routes_for_hint h self' = GlobalRoutes.routes_for_hint h self) /\
    (b = true -> ad ∈ GlobalRoutes.routes_for_hint (RouteAdvertisement.destination_hint ad) self') /\
    (b = false -> GlobalRoutes.routes_for_hint (RouteAdvertisement.destination_hint ad) self' ≡ₚ
      GlobalRoutes.routes_for_hint (RouteAdvertisement.destination_hint ad) self).
Proof.
  intros Hm Hok. destruct (add_route_ok (E := E) m n ad self Hm Hok) as (s' & b & H1 & _ & _ & H2 & H3 & H4). eauto 10.
Qed.

Lemma add_route_spec_witness : exists self' b,
  GlobalRoutes.add_route (E := Empty_set) (sample_route [1] 3 5) GlobalRoutes.new = Ok (self', b).
Proof.
  destruct (add_route_spec (E := Empty_set) 3 10000 (sample_route [1] 3 5) GlobalRoutes.new) as (s & b & H & _);
    [lia|apply with_limits_ok; lia|]. exists s, b. exact H.
Defined.

(** A full table refuses even a newer version of a route it has. *)
Example full_table_refuses_update :
  match run (E := Empty_set) [Add (sample_route [1] 3 5)] (GlobalRoutes.with_limits 2 1) with
  | Ok self => match GlobalRoutes.add_route (E := Empty_set) (sample_route [1] 3 6) self with
               | Ok (_, b) => b = false | _ => False end
  | _ => False end.
Proof. vm_compute. reflexivity. Qed.

(** The route with fewer hops is the best one. *)
Example best_route_of_equals :
  match run (E := Empty_set) [Add (sample_route [1] 3 5); Add (sample_route [2] 2 1)] GlobalRoutes.new with
  | Ok self => RouteAdvertisement.next_hop <$> GlobalRoutes.best_route_for_hint [7] self = Some [2] | _ => False end.
Proof. vm_compute. reflexivity. Qed.

End GlobalHistory.
