(* ===== verification/Neighborhood.v ===== *)
(** * Layer 2 of routing: neighbourhood gossip (core/src/routing/neighborhood.rs)

    Gateways to other cells with what they reach, summaries of cells further
    away, the exchange of gossip and the choice of the cheapest gateway. *)

From S2P Require Import Prelude Float64 LocalCell.

Module EnergyClass.
Inductive t : Type := Charging | High | Low | Critical.

Definition default : t := High.

Definition cost_multiplier (self : t) : f64 :=
  match self with
  | Charging => F64.lit 1 2
  | High => F64.of_Z 1
  | Low => F64.of_Z 2
  | Critical => F64.of_Z 8
  end.

Definition from_battery (battery_pct : Z) (is_charging : bool) : t :=
  if is_charging then Charging
  else if battery_pct >? 50 then High
  else if battery_pct >? 20 then Low
  else Critical.
End EnergyClass.

Module GatewayInfo.
Record t : Type := mk {
  gateway_id : PeerId;
  cell_summary : CellSummary.t;
  hops_away : Z;
  last_updated : Z;
  transport : TransportType.t;
  energy_class : EnergyClass.t
}.
End GatewayInfo.

Module NeighborhoodSummary.
Record t : Type := mk {
  total_reachable : Z;
  reachable_hints : list RecipientHint;
  path_reliability : f64;
  hop_count : Z;
  timestamp : Z
}.
End NeighborhoodSummary.

Module NeighborhoodGossip.
Record t : Type := mk {
  local_summary : CellSummary.t;
  neighborhood_summaries : list NeighborhoodSummary.t;
  timestamp : Z;
  energy_class : EnergyClass.t
}.
End NeighborhoodGossip.

Module NeighborhoodTable.
Section Table.
Context {MG : MapIter PeerId GatewayInfo.t} {MS : MapIter (list RecipientHint) NeighborhoodSummary.t}.
Import GatewayInfo.

Record t : Type := mk {
  gateways : gmap PeerId GatewayInfo.t;
  summaries : list NeighborhoodSummary.t;
  max_staleness : Z;
  max_gateways : Z;
  max_hops : Z
}.

Definition with_max_staleness (max_staleness : Z) : t := mk ∅ [] max_staleness 100 4.

Definition new : t := with_max_staleness 3600.

Definition with_gateways (gs : gmap PeerId GatewayInfo.t) (self : t) : t :=
  mk gs (summaries self) (max_staleness self) (max_gateways self) (max_hops self).

Definition with_summaries (ss : list NeighborhoodSummary.t) (self : t) : t :=
  mk (gateways self) ss (max_staleness self) (max_gateways self) (max_hops self).

(** [self.gateways.values()]. *)
Definition values (self : t) : list GatewayInfo.t := (map_iter (gateways self)).*2.

(** The freshest summary per list of hints; the order of the result is that of
    the intermediate hash map. *)
Definition freshest (unique : gmap (list RecipientHint) NeighborhoodSummary.t) (s : NeighborhoodSummary.t)
    : gmap (list RecipientHint) NeighborhoodSummary.t :=
  let key := NeighborhoodSummary.reachable_hints s in
  match unique !! key with
  | Some existing =>
      if NeighborhoodSummary.timestamp s >? NeighborhoodSummary.timestamp existing then <[key := s]> unique else unique
  | None => <[key := s]> unique
  end.

Definition rebuild_summaries (self : t) : t :=
  with_summaries (map_iter (fold_left freshest (summaries self) ∅)).*2 self.

Definition evict_stalest_gateway (self : t) : t :=
  match min_by (fun a b => last_updated a ?= last_updated b) (values self) with
  | Some g => with_gateways (delete (gateway_id g) (gateways self)) self
  | None => self
  end.

Definition update_gateway_with_energy (now : Z) (id : PeerId) (cell_summary : CellSummary.t) (hops : Z)
    (transport : TransportType.t) (energy : EnergyClass.t) (self : t) : t :=
  if hops >? max_hops self then self else
  let self := with_gateways (<[id := GatewayInfo.mk id cell_summary hops now transport energy]> (gateways self)) self in
  let self := if Z.of_nat (size (gateways self)) >? max_gateways self then evict_stalest_gateway self else self in
  rebuild_summaries self.

Definition update_gateway (now : Z) (id : PeerId) (cell_summary : CellSummary.t) (hops : Z)
    (transport : TransportType.t) (self : t) : t :=
  update_gateway_with_energy now id cell_summary hops transport EnergyClass.default self.

Definition gateways_for_hint (hint : RecipientHint) (self : t) : list GatewayInfo.t :=
  filter (fun g => hint ∈ CellSummary.reachable_hints (cell_summary g)) (values self).

Definition gateway_cost (gw : GatewayInfo.t) : f64 :=
  let base_cost := F64.of_Z (hops_away gw) in
  let energy_mult := EnergyClass.cost_multiplier (energy_class gw) in
  let reliability := F64.max (CellSummary.avg_reliability (cell_summary gw)) (F64.lit 1 100) in
  F64.div (F64.mul base_cost energy_mult) reliability.

Definition best_gateway_for_hint (hint : RecipientHint) (self : t) : option GatewayInfo.t :=
  min_by (fun a b => F64.cmp (gateway_cost a) (gateway_cost b)) (gateways_for_hint hint self).

(** Update the first summary with the same hops and hints if the gossip is
    fresher, or append one. *)
Fixpoint merge_summary (s : NeighborhoodSummary.t) (l : list NeighborhoodSummary.t) : list NeighborhoodSummary.t :=
  match l with
  | [] => [s]
  | existing :: l =>
      if bool_decide (NeighborhoodSummary.hop_count existing = NeighborhoodSummary.hop_count s /\
                      NeighborhoodSummary.reachable_hints existing = NeighborhoodSummary.reachable_hints s)
      then (if NeighborhoodSummary.timestamp s >? NeighborhoodSummary.timestamp existing then s else existing) :: l
      else existing :: merge_summary s l
  end.

(** The hop count of the neighbour plus one, in a byte. *)
Definition merge_neighbor (timestamp : Z) (self : t) (n : NeighborhoodSummary.t) : t :=
  let our_hops := wrap 8 (NeighborhoodSummary.hop_count n + 1) in
  if our_hops <=? max_hops self then
    with_summaries (merge_summary
      (NeighborhoodSummary.mk (NeighborhoodSummary.total_reachable n) (NeighborhoodSummary.reachable_hints n)
         (NeighborhoodSummary.path_reliability n) our_hops timestamp) (summaries self)) self
  else self.

Definition process_gossip (now : Z) (from_peer : PeerId) (gossip : NeighborhoodGossip.t) (self : t) : t :=
  let self := update_gateway now from_peer (NeighborhoodGossip.local_summary gossip) 1 TransportType.TCP self in
  let self := fold_left (merge_neighbor (NeighborhoodGossip.timestamp gossip))
                (NeighborhoodGossip.neighborhood_summaries gossip) self in
  rebuild_summaries self.

Definition add_gateway_summary (ss : list NeighborhoodSummary.t) (g : GatewayInfo.t) : list NeighborhoodSummary.t :=
  let c := cell_summary g in
  let s := NeighborhoodSummary.mk (CellSummary.peer_count c) (CellSummary.reachable_hints c) (CellSummary.avg_reliability c)
             (hops_away g) (last_updated g) in
  if existsb (fun x => bool_decide (NeighborhoodSummary.reachable_hints x = NeighborhoodSummary.reachable_hints s /\
                                    NeighborhoodSummary.hop_count x = NeighborhoodSummary.hop_count s)) ss
  then ss else ss ++ [s].

Definition generate_gossip (now : Z) (local_summary : CellSummary.t) (self : t) : NeighborhoodGossip.t :=
  NeighborhoodGossip.mk local_summary (fold_left add_gateway_summary (values self) (summaries self)) now EnergyClass.default.

(** The subtractions of the seconds wrap. *)
Definition cleanup (now : Z) (self : t) : t * Z :=
  let initial_count := Z.of_nat (size (gateways self)) in
  let fresh := fun ts => wrap 64 (now - ts) <= max_staleness self in
  let self' := with_gateways (filter (fun kv => fresh (last_updated kv.2)) (gateways self)) self in
  let self' := with_summaries (filter (fun s => fresh (NeighborhoodSummary.timestamp s)) (summaries self)) self' in
  (self', initial_count - Z.of_nat (size (gateways self'))).

Definition all_gateways (self : t) : list GatewayInfo.t := values self.

Definition all_reachable_hints (self : t) : list RecipientHint :=
  collect_hints (collect_hints [] (map (fun g => CellSummary.reachable_hints (cell_summary g)) (values self)))
    (map NeighborhoodSummary.reachable_hints (summaries self)).

Definition gateway_count (self : t) : Z := Z.of_nat (size (gateways self)).

Definition summary_count (self : t) : Z := len (summaries self).

End Table.
End NeighborhoodTable.

(** ** Costs are numbers *)

Section Cost.
Import GatewayInfo NeighborhoodTable.

Lemma base_cost_finite h e : 0 <= h < 256 -> F64.is_finite (F64.mul (F64.of_Z h) (EnergyClass.cost_multiplier e)) = true.
Proof.
  assert (Hall : forallb (fun n => forallb (fun e => F64.is_finite (F64.mul (F64.of_Z (Z.of_nat n)) (EnergyClass.cost_multiplier e)))
    [EnergyClass.Charging; EnergyClass.High; EnergyClass.Low; EnergyClass.Critical]) (seq 0 256) = true) by (vm_compute; reflexivity).
  intros Hh. rewrite forallb_forall in Hall. specialize (Hall (Z.to_nat h) ltac:(apply in_seq; lia)).
  rewrite Z2Nat.id in Hall by lia. rewrite forallb_forall in Hall. apply Hall. destruct e; cbn; auto.
Qed.

Lemma max_positive a : let r := F64.max a (F64.lit 1 100) in F64.is_nan r = false /\ forall s, r <> S754_zero s.
Proof.
  cbv zeta. let q := eval vm_compute in (F64.lit 1 100) in replace (F64.lit 1 100) with q by (vm_compute; reflexivity).
  unfold F64.max, F64.ltb. destruct a as [s|[]| |[] m e]; cbn [F64.is_nan SFltb SFcompare]; 
    repeat case_match; (split; [done|congruence]).
Qed.

Lemma cost_not_nan g : 0 <= hops_away g < 256 -> F64.is_nan (gateway_cost g) = false.
Proof.
  intros Hg. destruct (max_positive (CellSummary.avg_reliability (cell_summary g))) as [H1 H2].
  apply F64.div_not_nan; [by apply base_cost_finite|exact H1|exact H2].
Qed.
End Cost.

(** ** Histories *)

Module NeighborhoodHistory.
Section History.
Context {MG : MapIter PeerId GatewayInfo.t} {MS : MapIter (list RecipientHint) NeighborhoodSummary.t}.
Import GatewayInfo NeighborhoodTable.
Implicit Types (self : NeighborhoodTable.t).

Inductive call : Type :=
| Update (now : Z) (id : PeerId) (c : CellSummary.t) (hops : Z) (tr : TransportType.t) (e : EnergyClass.t)
| Gossip (now : Z) (from : PeerId) (g : NeighborhoodGossip.t)
| Cleanup (now : Z).

(** Hop counts are bytes. *)
Definition call_ok (c : call) : Prop := match c with Update _ _ _ hops _ _ => 0 <= hops < 256 | _ => True end.

#[export] Instance call_ok_dec c : Decision (call_ok c).
Proof. destruct c; cbn; apply _. Defined.

Definition step self (c : call) : t :=
  match c with
  | Update now id s hops tr e => update_gateway_with_energy now id s hops tr e self
  | Gossip now from g => process_gossip now from g self
  | Cleanup now => (cleanup now self).1
  end.

Definition run (cs : list call) self : t := fold_left step cs self.

Definition summaries_ok self : Prop :=
  Forall (fun s => 0 <= NeighborhoodSummary.hop_count s <= max_hops self) (summaries self).

Definition distinct_hints self : Prop := NoDup (map NeighborhoodSummary.reachable_hints (summaries self)).

Record gateways_ok self : Prop := mk_gateways_ok {
  gw_entries : map_Forall (fun id g => gateway_id g = id /\ 0 <= hops_away g <= max_hops self) (gateways self);
  gw_size : Z.of_nat (size (gateways self)) <= max_gateways self
}.

Record table_ok (max hops : Z) self : Prop := mk_table_ok {
  tok_config : max_gateways self = max /\ max_hops self = hops;
  tok_gateways : gateways_ok self;
  tok_summaries : summaries_ok self;
  tok_distinct : distinct_hints self
}.

(** Rebuilding keeps summaries of the list, and one per list of hints. *)
Lemma freshest_from l u key s : fold_left freshest l u !! key = Some s ->
  u !! key = Some s \/ s ∈ l /\ NeighborhoodSummary.reachable_hints s = key.
Proof.
  revert u. induction l as [|x l IH]; intros u; cbn; [auto|]. intros Hs. apply IH in Hs as [Hs|[Hs Hk]].
  - unfold freshest in Hs. destruct (u !! _) eqn:Hu; [case_hyp Hs|]; auto;
      (apply lookup_insert_Some in Hs as [[<- ->]|[_ Hs]]; [right; split; [by left|done]|auto]).
  - right. split; [by right|done].
Qed.

Lemma rebuild_ok self :
  (summaries_ok self -> summaries_ok (rebuild_summaries self)) /\ distinct_hints (rebuild_summaries self).
Proof.
  unfold summaries_ok, distinct_hints, rebuild_summaries. cbn. set (u := fold_left freshest (summaries self) ∅).
  assert (Hu : forall key s, (key, s) ∈ map_iter u -> s ∈ summaries self /\ NeighborhoodSummary.reachable_hints s = key).
  { intros key s Hin. apply elem_of_map_iter, freshest_from in Hin as [Hin|Hin]; [by rewrite lookup_empty in Hin|done]. }
  split.
  - rewrite !Forall_forall. intros Hs s Hin. apply list_elem_of_fmap in Hin as ([key s'] & -> & Hin).
    apply Hs. by apply (Hu key).
  - assert (Hk : map NeighborhoodSummary.reachable_hints (map_iter u).*2 = (map_iter u).*1).
    { change (NeighborhoodSummary.reachable_hints <$> (map_iter u).*2 = (map_iter u).*1).
      rewrite <-list_fmap_compose. apply list_fmap_ext. intros i [key s] Hi. cbn. apply (Hu key). by eapply list_elem_of_lookup_2. }
    rewrite Hk. apply NoDup_map_iter_keys.
Qed.

Lemma evict_gateway_ok self :
  map_Forall (fun id g => gateway_id g = id /\ 0 <= hops_away g <= max_hops self) (gateways self) ->
  map_Forall (fun id g => gateway_id g = id /\ 0 <= hops_away g <= max_hops self) (gateways (evict_stalest_gateway self)) /\
  Z.of_nat (size (gateways (evict_stalest_gateway self))) <= Z.max 0 (Z.of_nat (size (gateways self)) - 1).
Proof.
  intros Hg. unfold evict_stalest_gateway. destruct (min_by _ _) as [g|] eqn:Hmin.
  - apply min_by_elem, list_elem_of_fmap in Hmin as ([id g'] & -> & Hin). apply elem_of_map_iter in Hin. cbn in *.
    destruct (Hg id g' Hin) as [-> _]. split; [by apply map_Forall_delete|]. rewrite map_size_delete_Some by eauto. lia.
  - apply min_by_None, fmap_nil_inv in Hmin. split; [done|].
    assert (Hs : size (gateways self) = 0%nat) by by rewrite <-length_map_iter, Hmin. lia.
Qed.

Lemma gateway_update_ok max hops now id c h tr e self : 0 < max -> 0 <= h -> table_ok max hops self ->
  table_ok max hops (update_gateway_with_energy now id c h tr e self).
Proof.
  intros Hmax Hh Hok. unfold update_gateway_with_energy. destruct (_ >? _) eqn:Hhops; bool_to_prop; [done|].
  destruct Hok as [[Hm Hp] [Hg Hs] Hsum Hd].
  set (s1 := with_gateways (<[id := GatewayInfo.mk id c h now tr e]> (gateways self)) self).
  assert (H1 : map_Forall (fun id g => gateway_id g = id /\ 0 <= hops_away g <= max_hops s1) (gateways s1)).
  { apply map_Forall_insert_2; [cbn; split; [done|lia]|done]. }
  assert (H2 : Z.of_nat (size (gateways s1)) <= max + 1).
  { cbn. rewrite map_size_insert. destruct (gateways self !! id); unfold Datatypes.id; lia. }
  set (s2 := if Z.of_nat (size (gateways s1)) >? max_gateways s1 then evict_stalest_gateway s1 else s1).
  assert (Hs2 : table_ok max hops (rebuild_summaries s2) <-> gateways_ok s2).
  { destruct (rebuild_ok s2) as [R1 R2]. split; [by intros [? [? ?] ? ?]; split|]. intros [G1 G2].
    assert (Hc : max_gateways s2 = max /\ max_hops s2 = hops /\ summaries s2 = summaries self).
    { unfold s2, evict_stalest_gateway. repeat case_match; done. }
    destruct Hc as (C1 & C2 & C3). split; [done|by split| |done].
    apply R1. unfold summaries_ok in *. by rewrite C2, C3, <-Hp. }
  apply Hs2. unfold s2. destruct (_ >? _) eqn:Hbig; bool_to_prop; [|by split].
  destruct (evict_gateway_ok s1 H1) as [E1 E2].
  assert (Hc : max_gateways (evict_stalest_gateway s1) = max /\ max_hops (evict_stalest_gateway s1) = max_hops s1)
    by (unfold evict_stalest_gateway; case_goal; done).
  destruct Hc as [C1 C2]. split; [by rewrite C2|rewrite C1; lia].
Qed.

Lemma merge_summary_ok n s l : 0 <= NeighborhoodSummary.hop_count s <= n ->
  Forall (fun s => 0 <= NeighborhoodSummary.hop_count s <= n) l ->
  Forall (fun s => 0 <= NeighborhoodSummary.hop_count s <= n) (merge_summary s l).
Proof.
  intros Hs. induction 1 as [|x l Hx Hl IH]; cbn; [by constructor|]. case_bool_decide; constructor; try done.
  by destruct (_ >? _).
Qed.

Lemma merge_neighbor_ok ts self n : summaries_ok self ->
  summaries_ok (merge_neighbor ts self n) /\ gateways (merge_neighbor ts self n) = gateways self /\
  max_gateways (merge_neighbor ts self n) = max_gateways self /\ max_hops (merge_neighbor ts self n) = max_hops self.
Proof.
  intros Hs. unfold merge_neighbor. destruct (_ <=? _) eqn:Hh; bool_to_prop; [|done]. split; [|done].
  apply merge_summary_ok; [|done]. cbn. pose proof (fits_wrap 8 (NeighborhoodSummary.hop_count n + 1) ltac:(lia)) as [? _]. lia.
Qed.

Lemma merge_all_ok ts l self : summaries_ok self ->
  summaries_ok (fold_left (merge_neighbor ts) l self) /\ gateways (fold_left (merge_neighbor ts) l self) = gateways self /\
  max_gateways (fold_left (merge_neighbor ts) l self) = max_gateways self /\
  max_hops (fold_left (merge_neighbor ts) l self) = max_hops self.
Proof.
  revert self. induction l as [|n l IH]; intros self Hs; cbn; [done|].
  destruct (merge_neighbor_ok ts self n Hs) as (H1 & H2 & H3 & H4).
  destruct (IH _ H1) as (J1 & J2 & J3 & J4). split_and!; [done|congruence..].
Qed.

Lemma gossip_step_ok max hops c self : 0 < max -> call_ok c -> table_ok max hops self -> table_ok max hops (step self c).
Proof.
  intros Hmax Hc Hok. destruct c as [now id s h tr e|now from g|now]; cbn [step].
  - apply gateway_update_ok; [done|cbn in Hc; lia|done].
  - unfold process_gossip. set (s1 := update_gateway _ _ _ _ _ _).
    assert (Hok1 : table_ok max hops s1) by (apply gateway_update_ok; [done|lia|done]).
    destruct Hok1 as [[Hm Hp] [Hg Hs] Hsum _]. set (s2 := fold_left _ _ s1).
    destruct (merge_all_ok (NeighborhoodGossip.timestamp g) (NeighborhoodGossip.neighborhood_summaries g) s1 Hsum)
      as (J1 & J2 & J3 & J4). fold s2 in J1, J2, J3, J4. destruct (rebuild_ok s2) as [R1 R2].
    split; [cbn; by rewrite J3, J4|split; cbn; by rewrite J2, ?J3, ?J4|by apply R1|done].
  - destruct Hok as [Hc1 [Hg Hs] Hsum Hd]. split; cbn; [done|split; cbn| |].
    + intros id g Hg'. apply map_lookup_filter_Some in Hg' as [Hg' _]. exact (Hg id g Hg').
    + etrans; [|exact Hs]. apply Nat2Z.inj_le, map_subseteq_size, map_filter_subseteq.
    + unfold summaries_ok in *. cbn. rewrite Forall_forall in *. intros s [_ Hin]%list_elem_of_filter. by apply Hsum.
    + unfold distinct_hints in *. cbn. eapply sublist_NoDup; [exact Hd|]. apply (fmap_sublist NeighborhoodSummary.reachable_hints).
      apply sublist_filter.
Qed.

Lemma gossip_run_ok max hops cs self : 0 < max -> Forall call_ok cs -> table_ok max hops self -> table_ok max hops (run cs self).
Proof.
  intros Hmax Hcs. unfold run. revert self. induction Hcs as [|c cs Hc Hcs IH]; intros self Hok; cbn; [done|].
  apply IH. by apply gossip_step_ok.
Qed.

(** The chosen gateway announces the hint and is a cheapest one. *)
Lemma best_gateway_spec hint self g : gateways_ok self -> max_hops self < 256 -> best_gateway_for_hint hint self = Some g ->
  g ∈ gateways_for_hint hint self /\
  forall g', g' ∈ gateways_for_hint hint self -> F64.le (gateway_cost g) (gateway_cost g').
Proof.
  intros [Hg _] Hh Hbest. split; [by apply min_by_elem in Hbest|]. intros g' Hg'.
  apply (min_by_le (fun a b => F64.cmp (gateway_cost a) (gateway_cost b))
    (fun g => F64.is_nan (gateway_cost g) = false)) with (y := g') in Hbest; [done| | | |done].
  - intros x y. apply F64.cmp_antisym.
  - intros x y z. apply F64.le_trans.
  - apply Forall_forall. intros x [_ Hx]%list_elem_of_filter. apply list_elem_of_fmap in Hx as ([id x'] & -> & Hx).
    apply elem_of_map_iter in Hx. apply cost_not_nan. destruct (Hg id x' Hx). cbn. lia.
Qed.

Lemma new_ok : table_ok 100 4 NeighborhoodTable.new.
Proof.
  split; cbn; [done|split; cbn; [apply map_Forall_empty|by rewrite map_size_empty]|by constructor|by constructor].
Qed.
End History.

(** The neighbourhood table in any history of updates, gossip and cleanups,
    whatever the gossip says: at most 100 gateways, each under its own id; no
    gateway or summary more than four hops away; one summary per list of
    hints; and for every hint the chosen gateway is one of minimal cost among
    those that announce it, costs being numbers whatever reliability the
    gossip claimed. *)
Theorem neighborhood_invariant {MG : MapIter PeerId GatewayInfo.t} {MS : MapIter (list RecipientHint) NeighborhoodSummary.t}
    cs hint :
  Forall call_ok cs ->
  let self := run cs NeighborhoodTable.new in
  table_ok 100 4 self /\
  (NeighborhoodTable.best_gateway_for_hint hint self = None <-> NeighborhoodTable.gateways_for_hint hint self = []) /\
  forall g, NeighborhoodTable.best_gateway_for_hint hint self = Some g ->
    g ∈ NeighborhoodTable.gateways_for_hint hint self /\
    forall g', g' ∈ NeighborhoodTable.gateways_for_hint hint self ->
      F64.le (NeighborhoodTable.gateway_cost g) (NeighborhoodTable.gateway_cost g').
Proof.
  intros Hcs self. assert (Hok : table_ok 100 4 self) by (apply gossip_run_ok; [lia|done|apply new_ok]).
  split; [done|]. split; [apply min_by_None|]. intros g. apply best_gateway_spec; [by destruct Hok|].
  destruct Hok as [[_ ->] _ _ _]. lia.
Qed.

(** A gateway of three hops, and a nearer one short of battery. *)
Definition sample_cell : CellSummary.t := CellSummary.mk 5 1 [[7]] (F64.lit 8 10) 0.

Definition sample_calls : list call :=
  [Update 10 [1] sample_cell 3 TransportType.BLE EnergyClass.High;
   Update 11 [2] sample_cell 1 TransportType.TCP EnergyClass.Critical;
   Gossip 12 [3] (NeighborhoodGossip.mk (CellSummary.mk 1 0 [] S754_nan 0)
     [NeighborhoodSummary.mk 4 [[9]] (F64.lit 1 2) 255 12] 12 EnergyClass.High)].

Lemma neighborhood_invariant_witness :
  GatewayInfo.gateway_id <$> NeighborhoodTable.best_gateway_for_hint (MG := map_iter_default) [7]
    (run (MG := map_iter_default) (MS := map_iter_default) sample_calls NeighborhoodTable.new) = Some [1] /\
  table_ok 100 4 (run (MG := map_iter_default) (MS := map_iter_default) sample_calls NeighborhoodTable.new).
Proof.
  split; [vm_compute; reflexivity|].
  apply (neighborhood_invariant (MG := map_iter_default) (MS := map_iter_default) sample_calls [7]).
  repeat constructor; cbn; lia.
Defined.

(** The byte of the hop count wraps around: a summary announced at distance
    255 is taken over at distance 0. *)
Example gossip_hops_wrap :
  map NeighborhoodSummary.hop_count (NeighborhoodTable.summaries
    (run (MG := map_iter_default) (MS := map_iter_default) sample_calls NeighborhoodTable.new)) = [0].
Proof. vm_compute. reflexivity. Qed.

End NeighborhoodHistory.
