(* ===== verification/RoutingEngine.v ===== *)
(** * The routing decision (core/src/routing/engine.rs)

    The engine asks the layers in order: a peer in range that announces the
    recipient (LocalCell.v), a gateway (Neighborhood.v), a global route
    (GlobalRoutes.v), and else keeps the message, or asks for a route when the
    message is urgent and no request is pending. *)

From S2P Require Import Prelude Float64 LocalCell GlobalRoutes Neighborhood.

Module NextHop.
Inductive t : Type :=
| Direct (peer_id : PeerId) (transport : TransportType.t)
| Gateway (gateway_id : PeerId) (transport : TransportType.t) (hops_remaining : Z)
| GlobalRoute (next_hop_id : PeerId) (total_hops : Z)
| StoreAndCarry
| RouteDiscovery (hint : RecipientHint).
End NextHop.

Module RoutingLayer.
Inductive t : Type := Local | Neighborhood | Global | StoreAndCarry.

#[global] Instance eq_dec : EqDecision t.
Proof. solve_decision. Defined.
End RoutingLayer.

Module RoutingDecision.
Record t : Type := mk {
  message_id : list Z;
  recipient_hint : RecipientHint;
  primary : NextHop.t;
  alternatives : list NextHop.t;
  decided_by : RoutingLayer.t;
  confidence : f64
}.
End RoutingDecision.

Module RoutingMaintenance.
Record t : Type := mk {
  peers_promoted : Z;
  peers_demoted : Z;
  stale_gateways_removed : Z;
  expired_routes_removed : Z
}.
End RoutingMaintenance.

Module RoutingSummary.
Record t : Type := mk {
  local_peers : Z;
  active_peers : Z;
  gateway_peers : Z;
  neighborhood_cells : Z;
  global_routes : Z;
  total_reachable_hints : Z
}.
End RoutingSummary.

Module RoutingEngine.
Section Engine.
Context {ML : MapIter PeerId PeerInfo.t} {MG : MapIter PeerId GatewayInfo.t}
  {MS : MapIter (list RecipientHint) NeighborhoodSummary.t}.

Record t : Type := mk {
  local : LocalCell.t;
  neighborhood : NeighborhoodTable.t;
  global : GlobalRoutes.t;
  local_id : PeerId;
  local_hint : RecipientHint
}.

Definition new (local_id : PeerId) (local_hint : RecipientHint) : t :=
  mk (LocalCell.new local_id) NeighborhoodTable.new GlobalRoutes.new local_id local_hint.

Definition gateway_hop (g : GatewayInfo.t) : NextHop.t :=
  NextHop.Gateway (GatewayInfo.gateway_id g) (GatewayInfo.transport g) (GatewayInfo.hops_away g).

Definition route_hop (r : RouteAdvertisement.t) : NextHop.t :=
  NextHop.GlobalRoute (RouteAdvertisement.next_hop r) (RouteAdvertisement.hop_count r).

(** [if let Some(transport) = peer.transports.first() { alternatives.push(Direct ..) }]. *)
Definition direct_hop (p : PeerInfo.t) : list NextHop.t :=
  match PeerInfo.transports p with
  | transport :: _ => [NextHop.Direct (PeerInfo.peer_id p) transport]
  | [] => []
  end.

Definition collect_alternative_hops (hint : RecipientHint) (skip_layer : RoutingLayer.t) (self : t) : list NextHop.t :=
  (if bool_decide (skip_layer = RoutingLayer.Local) then []
   else flat_map direct_hop (take 1 (LocalCell.peers_for_hint hint (local self))))
  ++ (if bool_decide (skip_layer = RoutingLayer.Neighborhood) then []
      else match NeighborhoodTable.best_gateway_for_hint hint (neighborhood self) with
           | Some gw => [gateway_hop gw] | None => [] end)
  ++ (if bool_decide (skip_layer = RoutingLayer.Global) then []
      else match GlobalRoutes.best_route_for_hint hint (global self) with
           | Some route => [route_hop route] | None => [] end).

Definition route_message (recipient_hint : RecipientHint) (message_id : list Z) (priority : Z) (self : t) : RoutingDecision.t :=
  match LocalCell.peers_for_hint recipient_hint (local self) with
  | best_peer :: _ =>
      let transport := match PeerInfo.transports best_peer with tr :: _ => tr | [] => TransportType.BLE end in
      RoutingDecision.mk message_id recipient_hint (NextHop.Direct (PeerInfo.peer_id best_peer) transport)
        (collect_alternative_hops recipient_hint RoutingLayer.Local self) RoutingLayer.Local
        (F64.min (PeerInfo.reliability_score best_peer) (F64.lit 98 100))
  | [] =>
      match NeighborhoodTable.best_gateway_for_hint recipient_hint (neighborhood self) with
      | Some gw =>
          RoutingDecision.mk message_id recipient_hint (gateway_hop gw)
            (collect_alternative_hops recipient_hint RoutingLayer.Neighborhood self) RoutingLayer.Neighborhood
            (F64.sub (F64.lit 85 100) (F64.mul (F64.of_Z (GatewayInfo.hops_away gw)) (F64.lit 5 100)))
      | None =>
          match GlobalRoutes.best_route_for_hint recipient_hint (global self) with
          | Some route =>
              RoutingDecision.mk message_id recipient_hint (route_hop route)
                (collect_alternative_hops recipient_hint RoutingLayer.Global self) RoutingLayer.Global
                (RouteAdvertisement.reliability route)
          | None =>
              let should_request := negb (GlobalRoutes.is_route_pending recipient_hint (global self)) && (priority >=? 100) in
              if should_request then
                RoutingDecision.mk message_id recipient_hint (NextHop.RouteDiscovery recipient_hint) []
                  RoutingLayer.StoreAndCarry (F64.of_Z 0)
              else
                RoutingDecision.mk message_id recipient_hint NextHop.StoreAndCarry []
                  RoutingLayer.StoreAndCarry (F64.of_Z 0)
          end
      end
  end.

Definition collect_alternative_hops_count (hint : RecipientHint) (count : Z) (self : t) : list NextHop.t :=
  let local_peers := LocalCell.peers_for_hint hint (local self) in
  let alternatives := flat_map direct_hop (truncate (Z.min count (len local_peers)) local_peers) in
  let alternatives :=
    if len alternatives <? count then
      match NeighborhoodTable.best_gateway_for_hint hint (neighborhood self) with
      | Some gw => alternatives ++ [gateway_hop gw] | None => alternatives end
    else alternatives in
  if len alternatives <? count then
    match GlobalRoutes.best_route_for_hint hint (global self) with
    | Some route => alternatives ++ [route_hop route] | None => alternatives end
  else alternatives.

Definition route_redundant (recipient_hint : RecipientHint) (message_id : list Z) (priority redundancy : Z) (self : t)
    : RoutingDecision.t :=
  let d := route_message recipient_hint message_id priority self in
  if redundancy >? 1 then
    RoutingDecision.mk (RoutingDecision.message_id d) (RoutingDecision.recipient_hint d) (RoutingDecision.primary d)
      (collect_alternative_hops_count recipient_hint (redundancy - 1) self) (RoutingDecision.decided_by d)
      (RoutingDecision.confidence d)
  else d.

Definition is_for_us (recipient_hint : RecipientHint) (self : t) : bool := bool_decide (recipient_hint = local_hint self).

Definition tick (now : Z) (self : t) : t * RoutingMaintenance.t :=
  let '(local, events) := LocalCell.tick now (local self) in
  let promoted := len (filter (fun e => match e with PeerEvent.PeerBecameActive _ => true | _ => false end = true) events) in
  let demoted := len (filter (fun e => match e with PeerEvent.PeerBecameStale _ => true | _ => false end = true) events) in
  let '(neighborhood, gateways_removed) := NeighborhoodTable.cleanup now (neighborhood self) in
  let '(global, routes_removed) := GlobalRoutes.cleanup now (global self) in
  (mk local neighborhood global (local_id self) (local_hint self),
   RoutingMaintenance.mk promoted demoted gateways_removed routes_removed).

Definition count_reachable_hints (now : Z) (self : t) : Z :=
  let hints := CellSummary.reachable_hints (LocalCell.summarize now (local self))
               ++ NeighborhoodTable.all_reachable_hints (neighborhood self) in
  Z.of_nat (size (list_to_set hints : gset RecipientHint)).

Definition routing_summary (now : Z) (self : t) : RoutingSummary.t :=
  let local_summary := LocalCell.summarize now (local self) in
  RoutingSummary.mk (LocalCell.peer_count (local self)) (LocalCell.active_count (local self))
    (CellSummary.gateway_count local_summary) (NeighborhoodTable.gateway_count (neighborhood self))
    (GlobalRoutes.route_count (global self)) (count_reachable_hints now self).

End Engine.
End RoutingEngine.

(** ** Reachable engines *)

Module RoutingHistory.
Section History.
Context {E : Type} {ML : MapIter PeerId PeerInfo.t} {MG : MapIter PeerId GatewayInfo.t}
  {MS : MapIter (list RecipientHint) NeighborhoodSummary.t}.
Import RoutingEngine.
Implicit Types (self : RoutingEngine.t).

(** Calls on the layers through the mutable accessors, and the common tick. *)
Inductive call : Type :=
| OnLocal (c : LocalHistory.call)
| OnNeighborhood (c : NeighborhoodHistory.call)
| OnGlobal (c : GlobalHistory.call)
| Maintain (now : Z).

Definition call_ok (c : call) : Prop := match c with OnNeighborhood c => NeighborhoodHistory.call_ok c | _ => True end.

Definition step (c : call) self : outcome E t :=
  match c with
  | OnLocal c => let! l := LocalHistory.step c (local self) in
                 Ok (mk l (neighborhood self) (global self) (local_id self) (local_hint self))
  | OnNeighborhood c => Ok (mk (local self) (NeighborhoodHistory.step (neighborhood self) c) (global self) (local_id self) (local_hint self))
  | OnGlobal c => let! g := GlobalHistory.step c (global self) in
                  Ok (mk (local self) (neighborhood self) g (local_id self) (local_hint self))
  | Maintain now => Ok (tick now self).1
  end.

Definition run (cs : list call) self : outcome E t := for_each step cs self.

Record engine_ok (n : Z) self : Prop := mk_engine_ok {
  eng_local : LocalHistory.cell_ok n (local self);
  eng_max : LocalCell.max_peers (local self) = 1000;
  eng_neighborhood : NeighborhoodHistory.table_ok 100 4 (neighborhood self);
  eng_global : GlobalHistory.table_ok 3 10000 (global self)
}.

Lemma engine_step_ok n c self : 0 <= n < 2 ^ 32 - 1 -> call_ok c -> engine_ok n self ->
  exists self', step c self = Ok self' /\ engine_ok (n + 1) self'.
Proof.
  intros Hn Hc [HL Hm HN HG].
  assert (Hage : LocalHistory.cell_ok (n + 1) (local self)).
  { destruct HL as [Hp Hs]. split; [|done]. eapply map_Forall_impl; [exact Hp|].
    intros. eapply LocalHistory.peer_ok_mono; [|done]. lia. }
  destruct c as [c|c|c|now]; cbn [step].
  - destruct (LocalHistory.cell_step_ok (E := E) n c (local self) Hn HL) as (s & -> & Hs & Hms).
    eexists. split; [done|]. split; cbn; [done|congruence|done|done].
  - eexists. split; [done|]. split; [done|done| |done]. by apply NeighborhoodHistory.gossip_step_ok.
  - destruct (GlobalHistory.step_table_ok (E := E) 3 10000 c (global self) ltac:(lia) HG) as (g & -> & Hg & _).
    eexists. split; [done|]. by split.
  - eexists. split; [done|]. unfold tick.
    destruct (LocalHistory.cell_step_ok (E := E) n (LocalHistory.Tick now) (local self) Hn HL) as (s & Hs & Hs' & Hms).
    assert (Hes : s = (LocalCell.tick now (local self)).1) by (cbn [LocalHistory.step] in Hs; congruence). rewrite Hes in Hs', Hms.
    pose proof (NeighborhoodHistory.gossip_step_ok 100 4 (NeighborhoodHistory.Cleanup now) (neighborhood self) ltac:(lia) I HN) as HN'.
    cbn [NeighborhoodHistory.step] in HN'.
    destruct (GlobalHistory.step_table_ok (E := E) 3 10000 (GlobalHistory.Cleanup now) (global self) ltac:(lia) HG) as (g & Hg & Hg' & _).
    assert (Heg : g = (GlobalRoutes.cleanup now (global self)).1) by (cbn [GlobalHistory.step] in Hg; congruence). rewrite Heg in Hg'.
    destruct (LocalCell.tick now (local self)) as [l ev], (NeighborhoodTable.cleanup now (neighborhood self)) as [nb k],
      (GlobalRoutes.cleanup now (global self)) as [g' k']. cbn [fst] in *. split; [exact Hs'|cbn; congruence|exact HN'|exact Hg'].
Qed.

Lemma engine_run_ok cs n self : 0 <= n -> n + len cs < 2 ^ 32 -> Forall call_ok cs -> engine_ok n self ->
  exists self', run cs self = Ok self' /\ engine_ok (n + len cs) self'.
Proof.
  unfold run. intros Hn Hl Hcs. revert n self Hn Hl. induction Hcs as [|c cs Hc Hcs IH]; intros n self Hn Hl Hok; cbn [for_each].
  { exists self. by rewrite len_nil, Z.add_0_r. }
  rewrite len_cons in *. pose proof (len_nonneg cs).
  destruct (engine_step_ok n c self) as (s & -> & Hs); [lia|done|done|].
  destruct (IH (n + 1) s) as (s' & -> & Hs'); [lia|lia|done|].
  exists s'. split; [done|]. by replace (n + (1 + len cs)) with (n + 1 + len cs) by lia.
Qed.

Lemma new_engine_ok id hint : engine_ok 0 (RoutingEngine.new id hint).
Proof.
  split; cbn; [|done|apply NeighborhoodHistory.new_ok|apply GlobalHistory.with_limits_ok; lia].
  split; cbn; [apply map_Forall_empty|rewrite map_size_empty; lia].
Qed.

(** ** What the decision means

    The specification, layer by layer. *)
Inductive decides self (hint : RecipientHint) (priority : Z) : NextHop.t -> RoutingLayer.t -> Prop :=
| decides_direct id p tr :
    LocalCell.peers (local self) !! id = Some p -> PeerInfo.reaches hint p = true ->
    tr ∈ PeerInfo.transports p ->
    decides self hint priority (NextHop.Direct id tr) RoutingLayer.Local
| decides_gateway id g :
    (forall i p, LocalCell.peers (local self) !! i = Some p -> PeerInfo.reaches hint p = false) ->
    NeighborhoodTable.gateways (neighborhood self) !! id = Some g ->
    hint ∈ CellSummary.reachable_hints (GatewayInfo.cell_summary g) ->
    (forall i g', NeighborhoodTable.gateways (neighborhood self) !! i = Some g' ->
      hint ∈ CellSummary.reachable_hints (GatewayInfo.cell_summary g') ->
      F64.le (NeighborhoodTable.gateway_cost g) (NeighborhoodTable.gateway_cost g')) ->
    decides self hint priority (NextHop.Gateway id (GatewayInfo.transport g) (GatewayInfo.hops_away g)) RoutingLayer.Neighborhood
| decides_route r :
    (forall i p, LocalCell.peers (local self) !! i = Some p -> PeerInfo.reaches hint p = false) ->
    (forall i g, NeighborhoodTable.gateways (neighborhood self) !! i = Some g ->
      hint ∉ CellSummary.reachable_hints (GatewayInfo.cell_summary g)) ->
    r ∈ GlobalRoutes.routes_for_hint hint (global self) -> RouteAdvertisement.destination_hint r = hint ->
    (forall r', r' ∈ GlobalRoutes.routes_for_hint hint (global self) ->
      RouteAdvertisement.hop_count r <= RouteAdvertisement.hop_count r') ->
    decides self hint priority (NextHop.GlobalRoute (RouteAdvertisement.next_hop r) (RouteAdvertisement.hop_count r)) RoutingLayer.Global
| decides_nothing :
    (forall i p, LocalCell.peers (local self) !! i = Some p -> PeerInfo.reaches hint p = false) ->
    (forall i g, NeighborhoodTable.gateways (neighborhood self) !! i = Some g ->
      hint ∉ CellSummary.reachable_hints (GatewayInfo.cell_summary g)) ->
    GlobalRoutes.routes_for_hint hint (global self) = [] ->
    decides self hint priority
      (if decide (GlobalRoutes.pending_requests (global self) !! hint = None /\ 100 <= priority)
       then NextHop.RouteDiscovery hint else NextHop.StoreAndCarry)
      RoutingLayer.StoreAndCarry.

Lemma peers_for_hint_elem hint p (cell : LocalCell.t) n : LocalHistory.cell_ok n cell ->
  p ∈ LocalCell.peers_for_hint hint cell <->
  LocalCell.peers cell !! PeerInfo.peer_id p = Some p /\ PeerInfo.reaches hint p = true.
Proof.
  intros [Hp _]. unfold LocalCell.peers_for_hint, LocalCell.values. rewrite list_elem_of_filter, list_elem_of_fmap. split.
  - intros (Hr & [id q] & -> & Hin). apply elem_of_map_iter in Hin. cbn in *.
    by rewrite (LocalHistory.ok_id _ _ _ (Hp _ _ Hin)).
  - intros [Hin Hr]. split; [done|]. exists (PeerInfo.peer_id p, p). split; [done|]. by apply elem_of_map_iter.
Qed.

Lemma peers_for_hint_nil hint (cell : LocalCell.t) n : LocalHistory.cell_ok n cell ->
  LocalCell.peers_for_hint hint cell = [] ->
  forall i p, LocalCell.peers cell !! i = Some p -> PeerInfo.reaches hint p = false.
Proof.
  intros Hc Hnil i p Hp. destruct (PeerInfo.reaches hint p) eqn:Hr; [|done].
  assert (Hin : p ∈ LocalCell.peers_for_hint hint cell).
  { apply (peers_for_hint_elem hint p cell n Hc). split; [|done]. destruct Hc as [Hok _].
    by rewrite (LocalHistory.ok_id _ _ _ (Hok _ _ Hp)). }
  rewrite Hnil in Hin. by apply elem_of_nil in Hin.
Qed.

Lemma gateways_for_hint_elem hint g i (nb : NeighborhoodTable.t) :
  NeighborhoodTable.gateways nb !! i = Some g -> hint ∈ CellSummary.reachable_hints (GatewayInfo.cell_summary g) ->
  g ∈ NeighborhoodTable.gateways_for_hint hint nb.
Proof.
  intros Hg Hh. unfold NeighborhoodTable.gateways_for_hint, NeighborhoodTable.values.
  rewrite list_elem_of_filter, list_elem_of_fmap. split; [done|]. exists (i, g). split; [done|]. by apply elem_of_map_iter.
Qed.

Lemma gateways_for_hint_inv hint g (nb : NeighborhoodTable.t) : NeighborhoodHistory.gateways_ok nb ->
  g ∈ NeighborhoodTable.gateways_for_hint hint nb ->
  NeighborhoodTable.gateways nb !! GatewayInfo.gateway_id g = Some g /\ hint ∈ CellSummary.reachable_hints (GatewayInfo.cell_summary g).
Proof.
  intros [Hg _] Hin. unfold NeighborhoodTable.gateways_for_hint, NeighborhoodTable.values in Hin.
  rewrite list_elem_of_filter, list_elem_of_fmap in Hin. destruct Hin as (Hh & [i g'] & -> & Hin). apply elem_of_map_iter in Hin.
  cbn in *. by rewrite (proj1 (Hg _ _ Hin)).
Qed.

Lemma route_message_decides n hint mid priority self : engine_ok n self ->
  let d := route_message hint mid priority self in
  decides self hint priority (RoutingDecision.primary d) (RoutingDecision.decided_by d).
Proof.
  intros [HL _ HN HG]. cbv zeta. unfold route_message.
  destruct (LocalCell.peers_for_hint hint (local self)) as [|p ps] eqn:Hps.
  2:{ assert (Hp : p ∈ LocalCell.peers_for_hint hint (local self)) by (rewrite Hps; by left).
      apply (peers_for_hint_elem hint p _ n HL) in Hp as [Hp Hr]. cbn. apply (decides_direct _ _ _ _ p); try done.
      destruct HL as [Hok _]. destruct (LocalHistory.ok_transports _ _ _ (Hok _ _ Hp)) as [Ht _].
      destruct (PeerInfo.transports p); [done|by left]. }
  pose proof (peers_for_hint_nil hint _ n HL Hps) as Hnone.
  assert (Hgw : NeighborhoodHistory.gateways_ok (neighborhood self)) by (by destruct HN).
  destruct (NeighborhoodTable.best_gateway_for_hint hint (neighborhood self)) as [g|] eqn:Hg.
  { apply NeighborhoodHistory.best_gateway_spec in Hg as [Hin Hmin]; [|done|destruct HN as [[_ ->] _ _ _]; lia].
    destruct (gateways_for_hint_inv hint g _ Hgw Hin) as [Hlk Hh]. cbn. apply decides_gateway; try done.
    intros i g' Hg' Hh'. apply Hmin. by apply (gateways_for_hint_elem hint g' i). }
  apply min_by_None in Hg.
  assert (Hngw : forall i g, NeighborhoodTable.gateways (neighborhood self) !! i = Some g ->
      hint ∉ CellSummary.reachable_hints (GatewayInfo.cell_summary g)).
  { intros i g Hlk Hh. pose proof (gateways_for_hint_elem hint g i _ Hlk Hh) as Hin. rewrite Hg in Hin. by apply elem_of_nil in Hin. }
  destruct (GlobalRoutes.best_route_for_hint hint (global self)) as [r|] eqn:Hr.
  { apply GlobalHistory.best_route_spec in Hr as [Hin Hmin]. cbn. apply decides_route; try done.
    destruct (GlobalHistory.routes_for_hint_ok 3 10000 hint (global self) ltac:(lia) HG) as (_ & _ & Hd).
    rewrite Forall_forall in Hd. by apply Hd. }
  apply GlobalHistory.best_route_None in Hr.
  pose proof (decides_nothing self hint priority Hnone Hngw Hr) as Hd. unfold GlobalRoutes.is_route_pending.
  destruct (GlobalRoutes.pending_requests (global self) !! hint) eqn:Hpend.
  - rewrite decide_False in Hd by naive_solver. rewrite bool_decide_eq_true_2 by eauto. cbn. exact Hd.
  - rewrite bool_decide_eq_false_2 by (intros [? ?]; done). cbn [negb andb]. rewrite Z.geb_leb.
    destruct (100 <=? priority) eqn:Hpr; bool_to_prop; cbn.
    + by rewrite decide_True in Hd by done.
    + rewrite decide_False in Hd by lia. exact Hd.
Qed.

Lemma truncate_cons_1 {A} (x : A) l k : 0 < k -> truncate k (x :: l) = x :: truncate (k - 1) l.
Proof.
  intros Hk. rewrite !truncate_take by lia. replace (Z.to_nat k) with (S (Z.to_nat (k - 1))) by lia. done.
Qed.

(** The primary of a decision is among the alternatives that redundancy adds. *)
Lemma alternatives_head n hint mid priority redundancy self : engine_ok n self -> 1 < redundancy ->
  let d := route_redundant hint mid priority redundancy self in
  RoutingDecision.decided_by d <> RoutingLayer.StoreAndCarry ->
  exists l, RoutingDecision.alternatives d = RoutingDecision.primary d :: l.
Proof.
  intros [HL _ HN HG] Hred. cbv zeta. unfold route_redundant. zbool. cbn. unfold route_message, collect_alternative_hops_count.
  destruct (LocalCell.peers_for_hint hint (local self)) as [|p ps] eqn:Hps.
  - assert (Ht : forall k, truncate k ([] : list PeerInfo.t) = []) by (intros k; unfold truncate; case_goal; [done|apply take_nil]).
    rewrite Ht. cbn [flat_map]. rewrite (proj2 (Z.ltb_lt (len (@nil NextHop.t)) (redundancy - 1))) by (unfold len; simpl length; lia).
    destruct (NeighborhoodTable.best_gateway_for_hint _ _) as [g|]; cbn [RoutingDecision.decided_by RoutingDecision.primary app].
    { intros _. case_goal; [|eauto]. destruct (GlobalRoutes.best_route_for_hint _ _); cbn; eauto. }
    rewrite (proj2 (Z.ltb_lt (len (@nil NextHop.t)) (redundancy - 1))) by (unfold len; simpl length; lia).
    destruct (GlobalRoutes.best_route_for_hint _ _) as [r|]; cbn; [eauto|]. case_goal; by intros [].
  - intros _. assert (Hp : p ∈ LocalCell.peers_for_hint hint (local self)) by (rewrite Hps; by left).
    apply (peers_for_hint_elem hint p _ n HL) in Hp as [Hp Hr].
    destruct HL as [Hok _]. destruct (LocalHistory.ok_transports _ _ _ (Hok _ _ Hp)) as [Htr _].
    rewrite len_cons. pose proof (len_nonneg ps).
    rewrite truncate_cons_1 by lia. cbn [flat_map RoutingDecision.primary].
    destruct (PeerInfo.transports p) as [|tr trs] eqn:Htp; [done|].
    assert (Hdh : direct_hop p = [NextHop.Direct (PeerInfo.peer_id p) tr]) by (unfold direct_hop; by rewrite Htp).
    rewrite Hdh. cbn [app]. repeat case_match; cbn [app]; eauto.
Qed.
End History.

(** C17. The routing decision in every engine that calls of its layers and ticks
    can reach: it names a peer in range only if that peer is active and
    announces the recipient, over a transport it was seen on; a gateway only
    if no such peer exists, and then one of minimal cost that announces the
    recipient; a global route only if both are missing, and then one of the
    fewest hops to this recipient; and asks for a route exactly if nothing is
    known, no request is pending and the priority is at least 100.  No call of
    the history panics. *)
Theorem routing_decision_spec {E : Type} {ML : MapIter PeerId PeerInfo.t} {MG : MapIter PeerId GatewayInfo.t}
    {MS : MapIter (list RecipientHint) NeighborhoodSummary.t} id own cs hint mid priority :
  len cs < 2 ^ 32 -> Forall call_ok cs ->
  exists self, run (E := E) cs (RoutingEngine.new id own) = Ok self /\
    let d := RoutingEngine.route_message hint mid priority self in
    decides self hint priority (RoutingDecision.primary d) (RoutingDecision.decided_by d).
Proof.
  intros Hl Hcs. destruct (engine_run_ok (E := E) cs 0 _ ltac:(lia) ltac:(lia) Hcs (new_engine_ok id own)) as (self & Hr & Hok).
  exists self. split; [exact Hr|]. by apply (route_message_decides (0 + len cs)).
Qed.

(** A peer that announces the recipient goes stale; a gateway remains. *)
Definition sample_history : list call :=
  [OnLocal (LocalHistory.Seen 10 [1] TransportType.BLE); OnLocal (LocalHistory.Hints [1] [[7]]);
   OnNeighborhood (NeighborhoodHistory.Update 100 [2] NeighborhoodHistory.sample_cell 2 TransportType.TCP EnergyClass.High);
   OnGlobal (GlobalHistory.Add (GlobalHistory.sample_route [3] 2 1)); Maintain 320].

Lemma routing_decision_spec_witness : exists self,
  run (E := Empty_set) (ML := map_iter_default) (MG := map_iter_default) (MS := map_iter_default)
    sample_history (RoutingEngine.new [0] [5]) = Ok self /\
  decides self [7] 50 (RoutingDecision.primary (RoutingEngine.route_message (ML := map_iter_default) (MG := map_iter_default) [7] [] 50 self))
    (RoutingDecision.decided_by (RoutingEngine.route_message (ML := map_iter_default) (MG := map_iter_default) [7] [] 50 self)).
Proof.
  destruct (routing_decision_spec (E := Empty_set) (ML := map_iter_default) (MG := map_iter_default) (MS := map_iter_default)
    [0] [5] sample_history [7] [] 50) as (self & H1 & H2); [by vm_compute|repeat constructor; cbn; lia|].
  exists self. split; [exact H1|exact H2].
Defined.

(** Redundant routing: whenever some layer knows a path, the first of the
    alternatives that [route_redundant] collects is the primary path itself,
    so a redundancy of two adds no second path. *)
Theorem redundant_repeats_primary {E : Type} {ML : MapIter PeerId PeerInfo.t} {MG : MapIter PeerId GatewayInfo.t}
    {MS : MapIter (list RecipientHint) NeighborhoodSummary.t} id own cs hint mid priority redundancy self :
  len cs < 2 ^ 32 -> Forall call_ok cs -> 1 < redundancy ->
  run (E := E) cs (RoutingEngine.new id own) = Ok self ->
  let d := RoutingEngine.route_redundant hint mid priority redundancy self in
  RoutingDecision.decided_by d <> RoutingLayer.StoreAndCarry ->
  exists l, RoutingDecision.alternatives d = RoutingDecision.primary d :: l.
Proof.
  intros Hl Hcs Hred Hrun.
  destruct (engine_run_ok (E := E) cs 0 _ ltac:(lia) ltac:(lia) Hcs (new_engine_ok id own)) as (self' & Hr & Hok).
  assert (self = self') as -> by congruence. by apply (alternatives_head (0 + len cs)).
Qed.

Lemma redundant_repeats_primary_witness :
  match run (E := Empty_set) (ML := map_iter_default) (MG := map_iter_default) (MS := map_iter_default)
    sample_history (RoutingEngine.new [0] [5]) with
  | Ok self => exists l, RoutingDecision.alternatives
      (RoutingEngine.route_redundant (ML := map_iter_default) (MG := map_iter_default) [7] [] 50 2 self) =
      RoutingDecision.primary (RoutingEngine.route_redundant (ML := map_iter_default) (MG := map_iter_default) [7] [] 50 2 self) :: l
  | _ => False end.
Proof.
  destruct (run _ _) as [self| |] eqn:Hrun; [|vm_compute in Hrun; discriminate Hrun..].
  apply (redundant_repeats_primary (E := Empty_set) (ML := map_iter_default) (MG := map_iter_default) (MS := map_iter_default)
    [0] [5] sample_history [7] [] 50 2 self); [by vm_compute|repeat constructor; cbn; lia|lia|exact Hrun|].
  vm_compute in Hrun. injection Hrun as <-. vm_compute. discriminate.
Defined.

End RoutingHistory.
