(* ===== verification/Discovery.v ===== *)
(** * Discovery aids (core/src/routing/timeout_budget.rs, adaptive_ttl.rs,
    multipath.rs, smart_retry.rs, reputation.rs)

    The phases of a discovery under a time budget, route lifetimes that follow
    the activity of a peer, scored alternative paths, exponential backoff and
    the score table.  Instants and durations are numbers of nanoseconds. *)

From S2P Require Import Prelude Float64 LocalCell.

Definition ns_per_ms : Z := 10 ^ 6.

(** [Instant::elapsed]. *)
Definition elapsed_since (now start : Z) : Z := saturating_sub now start.

(** ** Phases under a budget *)

Module DiscoveryPhase.
Inductive t : Type := LocalCache | NeighborhoodQuery | DelegateQuery | FullDhtWalk.

#[global] Instance eq_dec : EqDecision t.
Proof. solve_decision. Defined.

Definition estimated_duration (self : t) : Z :=
  match self with
  | LocalCache => 10 * ns_per_ms
  | NeighborhoodQuery => 50 * ns_per_ms
  | DelegateQuery => 200 * ns_per_ms
  | FullDhtWalk => 500 * ns_per_ms
  end.

Definition next (self : t) : option t :=
  match self with
  | LocalCache => Some NeighborhoodQuery
  | NeighborhoodQuery => Some DelegateQuery
  | DelegateQuery => Some FullDhtWalk
  | FullDhtWalk => None
  end.

(** The position of a phase. *)
Definition index (self : t) : Z :=
  match self with LocalCache => 0 | NeighborhoodQuery => 1 | DelegateQuery => 2 | FullDhtWalk => 3 end.
End DiscoveryPhase.

Module BudgetSummary.
Record t : Type := mk {
  total_budget : Z;
  elapsed : Z;
  remaining : Z;
  current_phase : DiscoveryPhase.t;
  phase_elapsed : Z;
  is_exhausted : bool
}.
End BudgetSummary.

Module TimeoutBudget.

Record t : Type := mk {
  total_budget : Z;
  start_time : Z;
  phase : DiscoveryPhase.t;
  phase_start : Z;
  exhausted : bool
}.

Definition new (now total_budget : Z) : t := mk total_budget now DiscoveryPhase.LocalCache now false.

Definition default_500ms (now : Z) : t := new now (500 * ns_per_ms).

Definition elapsed (now : Z) (self : t) : Z := elapsed_since now (start_time self).

Definition remaining (now : Z) (self : t) : Z := saturating_sub (total_budget self) (elapsed now self).

Definition phase_elapsed (now : Z) (self : t) : Z := elapsed_since now (phase_start self).

Definition is_exhausted (now : Z) (self : t) : bool := exhausted self || (remaining now self =? 0).

Definition should_advance (now : Z) (self : t) : bool :=
  if exhausted self then false else
  match DiscoveryPhase.next (phase self) with
  | Some _ => remaining now self / ns_per_ms >=? 10
  | None => false
  end.

Definition advance (now : Z) (self : t) : t * option DiscoveryPhase.t :=
  if exhausted self then (self, None) else
  match DiscoveryPhase.next (phase self) with
  | Some next_phase =>
      let short := remaining now self <? DiscoveryPhase.estimated_duration next_phase / 2 in
      (mk (total_budget self) (start_time self) next_phase now (exhausted self || short), Some next_phase)
  | None => (mk (total_budget self) (start_time self) (phase self) (phase_start self) true, None)
  end.

Definition complete (self : t) : t :=
  mk (total_budget self) (start_time self) (phase self) (phase_start self) true.

Definition is_final_phase (self : t) : bool :=
  match DiscoveryPhase.next (phase self) with None => true | Some _ => false end.

Definition summary (now : Z) (self : t) : BudgetSummary.t :=
  BudgetSummary.mk (total_budget self) (elapsed now self) (remaining now self) (phase self)
    (phase_elapsed now self) (exhausted self).

(** ** A discovery ends *)

(** Asking for the next phase at the given instants until there is none. *)
Fixpoint run (times : list Z) (self : t) : t * list DiscoveryPhase.t :=
  match times with
  | [] => (self, [])
  | now :: times =>
      match advance now self with
      | (self, Some p) => let '(self, ps) := run times self in (self, p :: ps)
      | (self, None) => (self, [])
      end
  end.

Lemma one_phase x : Sorted Z.lt (x :: map DiscoveryPhase.index []).
Proof. apply Sorted_cons; [apply Sorted_nil|apply HdRel_nil]. Qed.

Lemma run_phases times self :
  let '(self', ps) := run times self in
  Sorted Z.lt (DiscoveryPhase.index (phase self) :: map DiscoveryPhase.index ps) /\
  len ps <= 3 - DiscoveryPhase.index (phase self) /\
  (len ps < len times -> exhausted self' = true).
Proof.
  revert self. induction times as [|now times IH]; intros self; cbn [run].
  { split; [|split]; [|rewrite len_nil; destruct (phase self); cbn [DiscoveryPhase.index]; lia|by intros ?%Z.lt_irrefl]. apply one_phase. }
  unfold advance. destruct (exhausted self) eqn:He.
  { split; [|split]; [apply one_phase|rewrite len_nil; destruct (phase self); cbn [DiscoveryPhase.index]; lia|done]. }
  destruct (DiscoveryPhase.next (phase self)) as [p|] eqn:Hp; 
    [|split; [|split]; [apply one_phase|rewrite len_nil; destruct (phase self); cbn [DiscoveryPhase.index]; lia|done]].
  set (s1 := mk _ _ p _ _). specialize (IH s1). destruct (run times s1) as [s' ps]. destruct IH as (H1 & H2 & H3).
  change (phase s1) with p in *. assert (Hi : DiscoveryPhase.index p = DiscoveryPhase.index (phase self) + 1)
    by (destruct (phase self); inv Hp; done).
  cbn [map]. rewrite !len_cons. split_and!; [|lia|intros; apply H3; lia]. apply Sorted_cons; [done|]. apply HdRel_cons. lia.
Qed.

(** Once the time left is short, one more phase is tried and no further. *)
Lemma short_budget_last now self p : DiscoveryPhase.next (phase self) = Some p -> exhausted self = false ->
  remaining now self < DiscoveryPhase.estimated_duration p / 2 ->
  (advance now self).2 = Some p /\ forall later, (advance later (advance now self).1).2 = None.
Proof.
  intros Hp He Hr. unfold advance at 1 3. rewrite He, Hp. split; [done|]. intros later.
  rewrite (proj2 (Z.ltb_lt _ _)) by done. done.
Qed.

End TimeoutBudget.

(** A discovery ends: from a new budget, whatever the budget and the clock,
    at most three further phases are ever tried, in the order neighbourhood,
    delegates, full walk, without repetition; the fourth request at the latest
    is answered with none and leaves the budget exhausted, for good. *)
Theorem discovery_terminates (start budget : Z) (times : list Z) :
  let '(self, phases) := TimeoutBudget.run times (TimeoutBudget.new start budget) in
  Sorted Z.lt (0 :: map DiscoveryPhase.index phases) /\ len phases <= 3 /\
  (3 < len times -> TimeoutBudget.exhausted self = true /\
    forall later, TimeoutBudget.should_advance later self = false /\ TimeoutBudget.advance later self = (self, None)).
Proof.
  pose proof (TimeoutBudget.run_phases times (TimeoutBudget.new start budget)) as H.
  destruct (TimeoutBudget.run times _) as [s ps]. destruct H as (H1 & H2 & H3). cbn in H1, H2.
  split_and!; [done|lia|]. intros Hl. assert (He : TimeoutBudget.exhausted s = true) by (apply H3; lia).
  split; [done|]. intros later. unfold TimeoutBudget.should_advance, TimeoutBudget.advance. by rewrite He.
Qed.

(** ** Lifetimes that follow activity *)

Module ActivityHistory.
Section Activity.
Context `{POW : LibmPow} {E : Type}.

Record t : Type := mk {
  recent_messages : Z;
  last_message : Z;
  adaptive_ttl : Z
}.

Definition new (now : Z) : t := mk 0 now (1800 * ns_per_sec).

Definition record_message (now : Z) (self : t) : t :=
  mk (wrap 32 (recent_messages self + 1)) now (adaptive_ttl self).

(** Doubling a [Duration] panics when the seconds leave 64 bits. *)
Definition double (d : Z) : outcome E Z := if 2 * d <? 2 ^ 64 * ns_per_sec then Ok (2 * d) else Panic.

Definition calculate_ttl (base_ttl max_ttl : Z) (self : t) : outcome E Z :=
  if recent_messages self >? 10 then Ok max_ttl
  else if recent_messages self >? 2 then double base_ttl
  else Ok base_ttl.

(** [(count as f64 * 0.5.powf(elapsed / half_life)).round() as u32]. *)
Definition decayed (half_life elapsed count : Z) : Z :=
  let decay_factor := f64_powf (F64.lit 1 2) (F64.div (as_secs_f64 elapsed) (as_secs_f64 half_life)) in
  F64.to_uint 32 (F64.round (F64.mul (F64.of_Z count) decay_factor)).

Definition decay (now half_life base_ttl max_ttl : Z) (self : t) : outcome E t :=
  let self := mk (decayed half_life (elapsed_since now (last_message self)) (recent_messages self))
                 (last_message self) (adaptive_ttl self) in
  let! ttl := calculate_ttl base_ttl max_ttl self in
  Ok (mk (recent_messages self) (last_message self) ttl).
End Activity.
End ActivityHistory.

Module AdaptiveTTLManager.
Section Manager.
Context `{POW : LibmPow} {E : Type}.

Record t : Type := mk {
  peer_activity : gmap string ActivityHistory.t;
  base_ttl : Z;
  max_ttl : Z;
  half_life : Z
}.

Definition new (base_ttl max_ttl half_life : Z) : t := mk ∅ base_ttl max_ttl half_life.

Definition with_defaults : t := new (1800 * ns_per_sec) (7200 * ns_per_sec) (3600 * ns_per_sec).

Definition with_activity (m : gmap string ActivityHistory.t) (self : t) : t :=
  mk m (base_ttl self) (max_ttl self) (half_life self).

(** [self.peer_activity.entry(peer_id).or_default()]. *)
Definition entry (now : Z) (peer_id : string) (self : t) : ActivityHistory.t :=
  default (ActivityHistory.new now) (peer_activity self !! peer_id).

Definition calculate_ttl (now : Z) (peer_id : string) (self : t) : outcome E (t * Z) :=
  let! a := ActivityHistory.decay now (half_life self) (base_ttl self) (max_ttl self) (entry now peer_id self) in
  Ok (with_activity (<[peer_id := a]> (peer_activity self)) self, ActivityHistory.adaptive_ttl a).

Definition record_activity (now : Z) (peer_id : string) (self : t) : outcome E t :=
  let a := ActivityHistory.record_message now (entry now peer_id self) in
  let! ttl := ActivityHistory.calculate_ttl (base_ttl self) (max_ttl self) a in
  let a := ActivityHistory.mk (ActivityHistory.recent_messages a) (ActivityHistory.last_message a) ttl in
  Ok (with_activity (<[peer_id := a]> (peer_activity self)) self).

Definition get_activity (peer_id : string) (self : t) : option ActivityHistory.t := peer_activity self !! peer_id.

Definition cleanup (now max_age : Z) (self : t) : t * Z :=
  let kept := filter (fun kv => elapsed_since now (ActivityHistory.last_message kv.2) < max_age) (peer_activity self) in
  (with_activity kept self, Z.of_nat (size (peer_activity self)) - Z.of_nat (size kept)).

Definition len (self : t) : Z := Z.of_nat (size (peer_activity self)).

(** Halved on a low battery, doubled with few peers; the product wraps. *)
Definition calculate_dynamic_ttl (base_ttl battery_level peer_count : Z) : Z :=
  let ttl := if battery_level <? 20 then base_ttl / 2 else base_ttl in
  if peer_count <? 3 then wrap 64 (ttl * 2) else ttl.

End Manager.

(** Every lifetime the manager hands out is one of three. *)
Definition levels (self : t) (ttl : Z) : Prop := ttl = base_ttl self \/ ttl = 2 * base_ttl self \/ ttl = max_ttl self.

Lemma history_levels {E} base max a : 2 * base < 2 ^ 64 * ns_per_sec ->
  exists ttl, @ActivityHistory.calculate_ttl E base max a = Ok ttl /\ (ttl = base \/ ttl = 2 * base \/ ttl = max).
Proof.
  intros Hb. unfold ActivityHistory.calculate_ttl, ActivityHistory.double. case_goal; [eauto|]. case_goal; [|eauto].
  rewrite (proj2 (Z.ltb_lt _ _)) by done. eauto.
Qed.

Lemma ttl_levels `{POW : LibmPow} {E} now p self : 2 * base_ttl self < 2 ^ 64 * ns_per_sec ->
  exists self' ttl, calculate_ttl (E := E) now p self = Ok (self', ttl) /\ levels self ttl /\
    ActivityHistory.adaptive_ttl <$> peer_activity self' !! p = Some ttl.
Proof.
  intros Hb. unfold calculate_ttl, ActivityHistory.decay.
  set (a := ActivityHistory.mk _ _ _). destruct (history_levels (E := E) (base_ttl self) (max_ttl self) a Hb) as (ttl & -> & Hl).
  eexists _, ttl. split; [done|]. split; [done|]. cbn. by rewrite lookup_insert_eq.
Qed.
End AdaptiveTTLManager.

(** ** Scored paths *)

Module DeliveryPath.

Record t : Type := mk {
  path_id : Z;
  peer_id : PeerId;
  estimated_latency_ms : Z;
  active : bool;
  score : f64;
  attempt_count : Z;
  success_count : Z
}.

Definition score_of (attempts successes latency : Z) : f64 :=
  if attempts =? 0 then F64.of_Z 75 else
  let success_ratio := F64.div (F64.of_Z successes) (F64.of_Z (Z.max attempts 1)) in
  let latency_penalty := F64.div (F64.of_Z (Z.min latency 2000)) (F64.of_Z 100) in
  F64.clamp (F64.sub (F64.add (F64.mul success_ratio (F64.of_Z 80)) (F64.of_Z 20)) latency_penalty)
    (F64.of_Z 0) (F64.of_Z 100).

Definition recalculate_score (self : t) : t :=
  mk (path_id self) (peer_id self) (estimated_latency_ms self) (active self)
     (score_of (attempt_count self) (success_count self) (estimated_latency_ms self)) (attempt_count self) (success_count self).

Definition record_success (latency_ms : Z) (self : t) : t :=
  recalculate_score (mk (path_id self) (peer_id self) (wrap 64 (estimated_latency_ms self + latency_ms) / 2) (active self)
    (score self) (wrap 64 (attempt_count self + 1)) (wrap 64 (success_count self + 1))).

Definition record_failure (self : t) : t :=
  recalculate_score (mk (path_id self) (peer_id self) (estimated_latency_ms self) (active self)
    (score self) (wrap 64 (attempt_count self + 1)) (success_count self)).

Definition deactivate (self : t) : t :=
  mk (path_id self) (peer_id self) (estimated_latency_ms self) false (score self) (attempt_count self) (success_count self).

End DeliveryPath.

Module MultiPathDelivery.
Import DeliveryPath.
Section Paths.
Context {MI : MapIter RecipientHint (list DeliveryPath.t)}.

Record t : Type := mk {
  paths : gmap RecipientHint (list DeliveryPath.t);
  max_paths_per_hint : Z
}.

Definition new : t := mk ∅ 3.

(** Replace the first path with this id. *)
Fixpoint replace_path (f : DeliveryPath.t -> DeliveryPath.t) (id : Z) (l : list DeliveryPath.t) : option (list DeliveryPath.t) :=
  match l with
  | [] => None
  | p :: l => if path_id p =? id then Some (f p :: l) else (fun l => p :: l) <$> replace_path f id l
  end.

Definition register_path (hint : RecipientHint) (path : DeliveryPath.t) (self : t) : t :=
  let l := default [] (paths self !! hint) in
  let l := match replace_path (fun _ => path) (path_id path) l with
           | Some l => l
           | None => if len l <? max_paths_per_hint self then l ++ [path] else l
           end in
  mk (<[hint := l]> (paths self)) (max_paths_per_hint self).

Definition active_paths (hint : RecipientHint) (self : t) : list DeliveryPath.t :=
  sort_by (fun a b => F64.cmp (score b) (score a))
    (filter (fun p => active p = true) (default [] (paths self !! hint))).

(** The first list, in the order of the map, that has the path. *)
Fixpoint fail_in (id : Z) (ls : list (RecipientHint * list DeliveryPath.t)) (m : gmap RecipientHint (list DeliveryPath.t))
    : gmap RecipientHint (list DeliveryPath.t) :=
  match ls with
  | [] => m
  | (hint, l) :: ls =>
      match replace_path (fun p => record_failure (deactivate p)) id l with
      | Some l => <[hint := l]> m
      | None => fail_in id ls m
      end
  end.

Definition mark_path_failed (id : Z) (self : t) : t :=
  mk (fail_in id (map_iter (paths self)) (paths self)) (max_paths_per_hint self).

Definition prune_below (threshold : f64) (self : t) : t :=
  mk ((map (fun p => if F64.ltb (score p) threshold then deactivate p else p)) <$> paths self) (max_paths_per_hint self).

End Paths.
End MultiPathDelivery.

(** ** Backoff *)

Module BackoffStrategy.

Record t : Type := mk {
  base_ms : Z;
  max_ms : Z;
  multiplier : f64
}.

(** [f64::powi]. *)
Class LibmPowi : Type := f64_powi : f64 -> Z -> f64.

Section Backoff.
Context `{POWI : LibmPowi}.

(** [attempt_count as i32 - 1]. *)
Definition delay_ms (attempt_count : Z) (strategy : t) : Z :=
  if attempt_count =? 0 then 0 else
  let exponential_delay :=
    F64.mul (F64.of_Z (base_ms strategy)) (f64_powi (multiplier strategy) (wrap_i32 (wrap_i32 attempt_count - 1))) in
  F64.to_uint 64 (F64.min exponential_delay (F64.of_Z (max_ms strategy))).

Definition calculate_next_attempt (now_ms attempt_count : Z) (strategy : t) : Z :=
  wrap 64 (now_ms + delay_ms attempt_count strategy).

Definition isAtMaxDelay (delay_ms max_ms : Z) : bool := delay_ms >=? max_ms.

End Backoff.
End BackoffStrategy.

(** ** The score table *)

Module ReputationTracker.

(** [i64::saturating_add] and [saturating_sub]. *)
Definition clamp_i64 (z : Z) : Z := Z.max (- 2 ^ 63) (Z.min (2 ^ 63 - 1) z).

Definition t : Type := gmap Z Z.

Definition new : t := ∅.

Definition record_success (peer_id : Z) (self : t) : t :=
  <[peer_id := clamp_i64 (default 0 (self !! peer_id) + 10)]> self.

Definition record_failure (peer_id : Z) (self : t) : t :=
  <[peer_id := clamp_i64 (default 0 (self !! peer_id) - 5)]> self.

Definition score (peer_id : Z) (self : t) : Z := default 0 (self !! peer_id).

Definition apply_decay (now : Z) (self : t) : t :=
  (fun score => if score >? 0 then clamp_i64 (score - now mod 3600) else score) <$> self.

Definition prune_below (threshold : Z) (self : t) : t := filter (fun kv => threshold <= kv.2) self.

End ReputationTracker.
