(* ===== verification/OptimizedRouting.v ===== *)
(** * The routing engine with its optimizations
    (core/src/routing/resume_prefetch.rs, optimized_engine.rs)

    Routes kept over a pause of the application, and the engine that asks the
    negative cache, the kept routes and the registered paths before the layers
    of RoutingEngine.v.  The clock of the caches is an instant in nanoseconds,
    the clock of the layers is in seconds; a call sees one value of each. *)

From S2P Require Import Prelude Float64 Backend Drift Text LocalCell GlobalRoutes Neighborhood RoutingEngine NegativeCache Discovery.

(** Hexadecimal text (crate [hex]). *)
Class HexCrate : Type := {
  hex_encode : list Z -> string;
  hex_decode : string -> option (list Z)
}.

Class HexCrateSpec (H : HexCrate) : Prop := {
  hex_encode_length : forall b, Z.of_nat (String.length (hex_encode b)) = 2 * len b
}.

(** ** Routes kept over a pause *)

Module PrefetchStatus.
Inductive t : Type := Fresh | Stale | Refreshing | Failed.

#[global] Instance eq_dec : EqDecision t.
Proof. solve_decision. Defined.
End PrefetchStatus.

Module PrefetchedRoute.

Record t : Type := mk {
  route : RouteAdvertisement.t;
  last_validated : Z;
  status : PrefetchStatus.t;
  refresh_attempts : Z;
  priority : Z
}.

Definition new (now : Z) (route : RouteAdvertisement.t) (priority : Z) : t := mk route now PrefetchStatus.Fresh 0 priority.

Definition is_fresh (now max_age : Z) (self : t) : bool := elapsed_since now (last_validated self) <? max_age.

Definition is_usable (now max_stale_age : Z) (self : t) : bool :=
  match status self with
  | PrefetchStatus.Fresh | PrefetchStatus.Stale => elapsed_since now (last_validated self) <? max_stale_age
  | PrefetchStatus.Refreshing => true
  | PrefetchStatus.Failed => false
  end.

Definition start_refresh (self : t) : t :=
  mk (route self) (last_validated self) PrefetchStatus.Refreshing (wrap 32 (refresh_attempts self + 1)) (priority self).

Definition complete_refresh (now : Z) (self : t) : t :=
  mk (route self) now PrefetchStatus.Fresh (refresh_attempts self) (priority self).

Definition fail_refresh (self : t) : t :=
  mk (route self) (last_validated self) PrefetchStatus.Failed (refresh_attempts self) (priority self).

End PrefetchedRoute.

Module FrequentPeer.
Section Peer.
Context `{POW : LibmPow}.

Record t : Type := mk {
  peer_id : PeerId;
  hint : RecipientHint;
  message_count : Z;
  last_message : Z;
  priority : Z
}.

Definition new (now : Z) (peer_id : PeerId) (hint : RecipientHint) : t := mk peer_id hint 1 now 1.

Definition priority_of (count : Z) : Z := Z.min (wrap 32 (count * 10)) 100.

Definition record_message (now : Z) (self : t) : t :=
  let count := wrap 32 (message_count self + 1) in
  mk (peer_id self) (hint self) count now (priority_of count).

Definition decay (now half_life : Z) (self : t) : t :=
  let count := ActivityHistory.decayed half_life (elapsed_since now (last_message self)) (message_count self) in
  mk (peer_id self) (hint self) count (last_message self) (priority_of count).
End Peer.
End FrequentPeer.

Module PrefetchConfig.
Record t : Type := mk {
  max_route_age : Z;
  max_stale_age : Z;
  max_prefetch_routes : Z;
  max_concurrent_refreshes : Z;
  refresh_batch_delay : Z
}.

Definition default : t := mk (300 * ns_per_sec) (3600 * ns_per_sec) 100 10 (100 * ns_per_ms).
End PrefetchConfig.

Module PrefetchStats.
Record t : Type := mk {
  total_routes : Z;
  fresh_routes : Z;
  stale_routes : Z;
  refreshing_routes : Z;
  failed_routes : Z;
  prefetch_in_progress : bool;
  queue_remaining : Z
}.
End PrefetchStats.

Module ResumePrefetchManager.
Section Manager.
Context `{POW : LibmPow} {MI : MapIter RecipientHint PrefetchedRoute.t}.

Record t : Type := mk {
  routes : gmap RecipientHint PrefetchedRoute.t;
  frequent_peers : list FrequentPeer.t;
  prefetch_in_progress : bool;
  prefetch_started : option Z;
  config : PrefetchConfig.t;
  refresh_queue : list RecipientHint;
  active_refreshes : Z
}.

Definition new (config : PrefetchConfig.t) : t := mk ∅ [] false None config [] 0.

Definition with_defaults : t := new PrefetchConfig.default.

Definition with_routes (rs : gmap RecipientHint PrefetchedRoute.t) (self : t) : t :=
  mk rs (frequent_peers self) (prefetch_in_progress self) (prefetch_started self) (config self)
     (refresh_queue self) (active_refreshes self).

Definition peer_priority (h : RecipientHint) (self : t) : Z :=
  match list_find (fun p => FrequentPeer.hint p = h) (frequent_peers self) with
  | Some (_, p) => FrequentPeer.priority p
  | None => 1
  end.

Definition on_app_background (now : Z) (current_routes : list (PeerId * RecipientHint * RouteAdvertisement.t)) (self : t) : t :=
  with_routes (fold_left (fun rs '(_, h, route) => <[h := PrefetchedRoute.new now route (peer_priority h self)]> rs)
    current_routes ∅) self.

(** The hints of the kept routes, the highest priority first. *)
Definition by_priority (self : t) : list (RecipientHint * Z) :=
  sort_by (fun a b => b.2 ?= a.2) (map (fun '(h, r) => (h, PrefetchedRoute.priority r)) (map_iter (routes self))).

Definition on_app_resume (now : Z) (self : t) : t * list RecipientHint :=
  let hints := by_priority self in
  let immediate_count := Z.min (PrefetchConfig.max_concurrent_refreshes (config self)) (len hints) in
  (mk (routes self) (frequent_peers self) true (Some now) (config self) (map fst hints) 0,
   map fst (truncate immediate_count hints)).

Definition get_route_early (now : Z) (h : RecipientHint) (self : t) : option RouteAdvertisement.t :=
  match routes self !! h with
  | Some p => if PrefetchedRoute.is_usable now (PrefetchConfig.max_stale_age (config self)) p
              then Some (PrefetchedRoute.route p) else None
  | None => None
  end.

Definition finish_refresh (self : t) : t :=
  mk (routes self) (frequent_peers self) (prefetch_in_progress self) (prefetch_started self) (config self)
     (refresh_queue self) (saturating_sub (active_refreshes self) 1).

Definition update_route (now : Z) (h : RecipientHint) (route : RouteAdvertisement.t) (self : t) : t :=
  let p := match routes self !! h with
           | Some p => PrefetchedRoute.complete_refresh now
                         (PrefetchedRoute.mk route (PrefetchedRoute.last_validated p) (PrefetchedRoute.status p)
                            (PrefetchedRoute.refresh_attempts p) (PrefetchedRoute.priority p))
           | None => PrefetchedRoute.new now route 1
           end in
  finish_refresh (with_routes (<[h := p]> (routes self)) self).

Definition mark_refresh_failed (h : RecipientHint) (self : t) : t :=
  finish_refresh (with_routes (alter PrefetchedRoute.fail_refresh h (routes self)) self).

Definition start_route_refresh (h : RecipientHint) (self : t) : t :=
  with_routes (alter PrefetchedRoute.start_refresh h (routes self)) self.

Definition next_refresh_hint (self : t) : t * option RecipientHint :=
  match refresh_queue self with
  | h :: q => (mk (routes self) (frequent_peers self) (prefetch_in_progress self) (prefetch_started self) (config self)
                 q (active_refreshes self), Some h)
  | [] => (self, None)
  end.

Definition is_prefetch_complete (self : t) : bool :=
  bool_decide (refresh_queue self = []) && (active_refreshes self =? 0).

Definition count_status (s : PrefetchStatus.t) (self : t) : Z :=
  Z.of_nat (size (filter (fun kv => PrefetchedRoute.status kv.2 = s) (routes self))).

Definition stats (self : t) : PrefetchStats.t :=
  PrefetchStats.mk (Z.of_nat (size (routes self))) (count_status PrefetchStatus.Fresh self)
    (count_status PrefetchStatus.Stale self) (count_status PrefetchStatus.Refreshing self)
    (count_status PrefetchStatus.Failed self) (prefetch_in_progress self) (len (refresh_queue self)).

(** The entry of the peer, or a new one at the end. *)
Fixpoint note_message (now : Z) (id : PeerId) (h : RecipientHint) (l : list FrequentPeer.t) : list FrequentPeer.t :=
  match l with
  | [] => [FrequentPeer.new now id h]
  | p :: l => if bool_decide (FrequentPeer.peer_id p = id) then FrequentPeer.record_message now p :: l
              else p :: note_message now id h l
  end.

Definition record_message (now : Z) (id : PeerId) (h : RecipientHint) (self : t) : t :=
  let decayed := map (FrequentPeer.decay now (3600 * ns_per_sec)) (frequent_peers self) in
  let kept := filter (fun p => 0 < FrequentPeer.message_count p) decayed in
  let noted := note_message now id h kept in
  let sorted := sort_by (fun a b => FrequentPeer.priority b ?= FrequentPeer.priority a) noted in
  mk (routes self) (truncate 50 sorted) (prefetch_in_progress self) (prefetch_started self) (config self)
     (refresh_queue self) (active_refreshes self).

Definition top_frequent_peers (n : Z) (self : t) : list FrequentPeer.t := truncate n (frequent_peers self).

Definition clear (self : t) : t :=
  mk ∅ (frequent_peers self) false (prefetch_started self) (config self) [] 0.

End Manager.
End ResumePrefetchManager.

(** ** The engine *)

Module OptimizedRoutingMaintenance.
Record t : Type := mk {
  base_maintenance : RoutingMaintenance.t;
  negative_cache_entries_cleaned : Z;
  negative_cache_stats : NegativeCacheStats.t;
  adaptive_ttl_entries_cleaned : Z;
  timeout_budget_summary : BudgetSummary.t
}.
End OptimizedRoutingMaintenance.

Module OptimizedRoutingEngine.
Section Engine.
Context `{LN : LibmLn, POW : LibmPow, HASH : DefaultHasher, HEX : HexCrate, B3 : Blake3} {E : Type}.
Context {ML : MapIter PeerId PeerInfo.t} {MG : MapIter PeerId GatewayInfo.t}
  {MS : MapIter (list RecipientHint) NeighborhoodSummary.t} {MN : MapIter string NegativeCacheEntry.t}
  {MP : MapIter RecipientHint (list DeliveryPath.t)} {MR : MapIter RecipientHint PrefetchedRoute.t}.

Record t : Type := mk {
  base_engine : RoutingEngine.t;
  timeout_budget : TimeoutBudget.t;
  negative_cache : NegativeCache.t;
  prefetch_manager : ResumePrefetchManager.t;
  adaptive_ttl : AdaptiveTTLManager.t;
  multipath : MultiPathDelivery.t;
  local_id : PeerId;
  local_hint : RecipientHint;
  current_phase : DiscoveryPhase.t;
  discovery_in_progress : bool
}.

Definition new (now : Z) (local_id : PeerId) (local_hint : RecipientHint) : t :=
  mk (RoutingEngine.new local_id local_hint) (TimeoutBudget.default_500ms now) NegativeCache.with_defaults
     ResumePrefetchManager.with_defaults AdaptiveTTLManager.with_defaults MultiPathDelivery.new local_id local_hint
     DiscoveryPhase.LocalCache false.

Definition with_negative (c : NegativeCache.t) (self : t) : t :=
  mk (base_engine self) (timeout_budget self) c (prefetch_manager self) (adaptive_ttl self) (multipath self)
     (local_id self) (local_hint self) (current_phase self) (discovery_in_progress self).

Definition with_adaptive (a : AdaptiveTTLManager.t) (self : t) : t :=
  mk (base_engine self) (timeout_budget self) (negative_cache self) (prefetch_manager self) a (multipath self)
     (local_id self) (local_hint self) (current_phase self) (discovery_in_progress self).

Definition with_multipath (m : MultiPathDelivery.t) (self : t) : t :=
  mk (base_engine self) (timeout_budget self) (negative_cache self) (prefetch_manager self) (adaptive_ttl self) m
     (local_id self) (local_hint self) (current_phase self) (discovery_in_progress self).

Definition with_discovery (b : TimeoutBudget.t) (p : DiscoveryPhase.t) (on : bool) (self : t) : t :=
  mk (base_engine self) b (negative_cache self) (prefetch_manager self) (adaptive_ttl self) (multipath self)
     (local_id self) (local_hint self) p on.

Definition start_discovery_if_needed (now : Z) (self : t) : t :=
  if discovery_in_progress self then self
  else with_discovery (TimeoutBudget.default_500ms now) DiscoveryPhase.LocalCache true self.

Definition path_hop (p : DeliveryPath.t) : NextHop.t := NextHop.GlobalRoute (DeliveryPath.peer_id p) 1.

Definition route_message_optimized (instant : Z) (recipient_hint : RecipientHint) (message_id : list Z) (priority : Z)
    (self : t) : outcome E (t * RoutingDecision.t) :=
  let! '(cache, unreachable) :=
    NegativeCache.is_definitely_unreachable instant (hex_encode recipient_hint) (negative_cache self) in
  let self := with_negative cache self in
  if unreachable then
    Ok (self, RoutingDecision.mk message_id recipient_hint NextHop.StoreAndCarry [] RoutingLayer.StoreAndCarry (F64.of_Z 0))
  else
  match ResumePrefetchManager.get_route_early instant recipient_hint (prefetch_manager self) with
  | Some route =>
      Ok (self, RoutingDecision.mk message_id recipient_hint (RoutingEngine.route_hop route) [] RoutingLayer.Global (F64.lit 95 100))
  | None =>
      let base :=
        let self := start_discovery_if_needed instant self in
        let decision := RoutingEngine.route_message recipient_hint message_id priority (base_engine self) in
        let! '(self, peer_id_str) :=
          match RoutingDecision.primary decision with
          | NextHop.GlobalRoute next_hop_id _ =>
              let s := hex_encode next_hop_id in
              let! '(a, _) := AdaptiveTTLManager.calculate_ttl instant s (adaptive_ttl self) in
              let! a := AdaptiveTTLManager.record_activity instant s a in
              Ok (with_adaptive a self, s)
          | _ => Ok (self, ""%string)
          end in
        let carried := match RoutingDecision.primary decision with NextHop.StoreAndCarry => true | _ => false end in
        if carried && (priority >=? 100) && negb (bool_decide (peer_id_str = ""%string)) then
          let! cache := NegativeCache.record_unreachable instant peer_id_str (negative_cache self) in
          Ok (with_negative cache self, decision)
        else Ok (self, decision) in
      match MultiPathDelivery.active_paths recipient_hint (multipath self) with
      | primary_path :: others =>
          if DeliveryPath.active primary_path then
            let alternatives := map path_hop (filter (fun p => DeliveryPath.active p = true) others) in
            Ok (self, RoutingDecision.mk message_id recipient_hint (path_hop primary_path) alternatives RoutingLayer.Global
                        (F64.lit 9 10))
          else base
      | [] => base
      end
  end.

Definition advance_discovery_phase (now : Z) (self : t) : t * option DiscoveryPhase.t :=
  if negb (discovery_in_progress self) then (self, None) else
  match TimeoutBudget.advance now (timeout_budget self) with
  | (b, Some phase) => (with_discovery b phase (discovery_in_progress self) self, Some phase)
  | (b, None) => (with_discovery b (current_phase self) false self, None)
  end.

Definition tick (instant now : Z) (self : t) : t * OptimizedRoutingMaintenance.t :=
  let '(base, base_maint) := RoutingEngine.tick now (base_engine self) in
  let neg_stats := NegativeCache.stats (negative_cache self) in
  let '(cache, neg_cleaned) := NegativeCache.cleanup_expired instant (negative_cache self) in
  let '(ttl, ttl_cleaned) := AdaptiveTTLManager.cleanup instant (86400 * ns_per_sec) (adaptive_ttl self) in
  (mk base (timeout_budget self) cache (prefetch_manager self) ttl (multipath self) (local_id self) (local_hint self)
      (current_phase self) (discovery_in_progress self),
   OptimizedRoutingMaintenance.mk base_maint neg_cleaned neg_stats ttl_cleaned (TimeoutBudget.summary instant (timeout_budget self))).

Definition with_prefetch (p : ResumePrefetchManager.t) (self : t) : t :=
  mk (base_engine self) (timeout_budget self) (negative_cache self) p (adaptive_ttl self) (multipath self)
     (local_id self) (local_hint self) (current_phase self) (discovery_in_progress self).

Definition on_app_background (now : Z) (current_routes : list (PeerId * RecipientHint * RouteAdvertisement.t)) (self : t) : t :=
  with_prefetch (ResumePrefetchManager.on_app_background now current_routes (prefetch_manager self)) self.

Definition on_app_resume (now : Z) (self : t) : t * list RecipientHint :=
  let '(p, hints) := ResumePrefetchManager.on_app_resume now (prefetch_manager self) in (with_prefetch p self, hints).

Definition record_message_activity (now : Z) (peer_id : string) (self : t) : outcome E t :=
  let! a := AdaptiveTTLManager.record_activity now peer_id (adaptive_ttl self) in Ok (with_adaptive a self).

Definition record_unreachable_peer (now : Z) (peer_id : string) (self : t) : outcome E t :=
  let! c := NegativeCache.record_unreachable now peer_id (negative_cache self) in Ok (with_negative c self).

Definition clear_unreachable_peer (peer_id : string) (self : t) : t :=
  with_negative (NegativeCache.clear_unreachable peer_id (negative_cache self)) self.

Definition refresh_delegate_routes (now : Z) (self : t) : t :=
  with_adaptive (AdaptiveTTLManager.cleanup now (300 * ns_per_sec) (adaptive_ttl self)).1 self.

Definition evaluate_all_tracked (now : Z) (self : t) : t * Z :=
  let '(c, neg) := NegativeCache.cleanup_expired now (negative_cache self) in
  let '(a, ttl) := AdaptiveTTLManager.cleanup now (86400 * ns_per_sec) (adaptive_ttl self) in
  (with_adaptive a (with_negative c self), neg + ttl).

(** [&peer_id_hex[..8]] panics inside a character; the decoded bytes are the
    hint if there are four of them. *)
Definition hint_of (peer_id_hex : string) : outcome E RecipientHint :=
  let zero := [0; 0; 0; 0] in
  let s := as_bytes peer_id_hex in
  if len s <? 8 then Ok zero else
  let boundary := match s !! 8%nat with Some b => negb ((128 <=? b) && (b <? 192)) | None => true end in
  if negb boundary then Panic else
  let decoded := default [] (hex_decode (of_bytes (take 8 s))) in
  Ok (if len decoded =? 4 then decoded else zero).

Definition can_reach_destination (now : Z) (peer_id_hex : string) (self : t) : outcome E (t * bool) :=
  let! '(cache, unreachable) := NegativeCache.is_definitely_unreachable now peer_id_hex (negative_cache self) in
  let self := with_negative cache self in
  if unreachable then Ok (self, false) else
  let! hint := hint_of peer_id_hex in
  Ok (self, negb (bool_decide (LocalCell.peers_for_hint hint (RoutingEngine.local (base_engine self)) = []))).

Definition prune_below (threshold : f64) (self : t) : t :=
  with_negative (NegativeCache.prune_below_confidence threshold (negative_cache self)).1
    (with_multipath (MultiPathDelivery.prune_below threshold (multipath self)) self).

Definition should_advance (now : Z) (self : t) : bool := TimeoutBudget.should_advance now (timeout_budget self).

Definition multipath_mark_path_failed (path_id : Z) (self : t) : t :=
  with_multipath (MultiPathDelivery.mark_path_failed path_id (multipath self)) self.

(** The decoded id, cut or filled with zeros to 32 bytes. *)
Definition peer_id_of (peer_id_hex : string) : PeerId :=
  let b := default [] (hex_decode peer_id_hex) in
  if len b >=? 32 then take 32 b else b ++ repeat_byte 0 (32 - len b).

Definition multipath_register_path (peer_id_hex : string) (path_id latency_ms : Z) (self : t) : t :=
  let peer_id := peer_id_of peer_id_hex in
  let hint := take 4 (blake3_hash peer_id) in
  let path := DeliveryPath.mk path_id peer_id latency_ms true (F64.of_Z 75) 0 0 in
  with_multipath (MultiPathDelivery.register_path hint path (multipath self)) self.

End Engine.
End OptimizedRoutingEngine.

(** ** What the optimizations decide *)

Module OptimizedHistory.
Import OptimizedRoutingEngine.
Section Props.
Context `{LN : LibmLn, POW : LibmPow, HASH : DefaultHasher, HEX : HexCrate, B3 : Blake3} {E : Type}.
Context {ML : MapIter PeerId PeerInfo.t} {MG : MapIter PeerId GatewayInfo.t}
  {MS : MapIter (list RecipientHint) NeighborhoodSummary.t} {MN : MapIter string NegativeCacheEntry.t}
  {MP : MapIter RecipientHint (list DeliveryPath.t)} {MR : MapIter RecipientHint PrefetchedRoute.t}.
Implicit Types (self : OptimizedRoutingEngine.t).

(** The cache's entry for an id is still valid. *)
Definition blocked (instant : Z) (id : string) self : bool :=
  match NegativeCache.entries (negative_cache self) !! id with
  | Some e => instant - NegativeCacheEntry.confirmed_at e <=? NegativeCacheEntry.ttl e
  | None => false
  end.

(** The decision as a function of the caches: what the code computes. *)
Definition optimized_choice (instant : Z) (hint : RecipientHint) (mid : list Z) (priority : Z) self : RoutingDecision.t :=
  if blocked instant (hex_encode hint) self then
    RoutingDecision.mk mid hint NextHop.StoreAndCarry [] RoutingLayer.StoreAndCarry (F64.of_Z 0)
  else match ResumePrefetchManager.get_route_early instant hint (prefetch_manager self) with
  | Some route => RoutingDecision.mk mid hint (RoutingEngine.route_hop route) [] RoutingLayer.Global (F64.lit 95 100)
  | None =>
      match MultiPathDelivery.active_paths hint (multipath self) with
      | p :: ps => RoutingDecision.mk mid hint (path_hop p) (map path_hop ps) RoutingLayer.Global (F64.lit 9 10)
      | [] => RoutingEngine.route_message hint mid priority (base_engine self)
      end
  end.

Lemma active_paths_active hint (m : MultiPathDelivery.t) p :
  p ∈ MultiPathDelivery.active_paths hint m -> DeliveryPath.active p = true.
Proof. unfold MultiPathDelivery.active_paths. rewrite sort_by_perm. by intros [? _]%list_elem_of_filter. Qed.

(** Computing a lifetime and noting activity never overflow. *)
Lemma record_activity_ok instant s (a : AdaptiveTTLManager.t) :
  2 * AdaptiveTTLManager.base_ttl a < 2 ^ 64 * ns_per_sec ->
  exists a', AdaptiveTTLManager.record_activity (E := E) instant s a = Ok a' /\
    AdaptiveTTLManager.base_ttl a' = AdaptiveTTLManager.base_ttl a.
Proof.
  intros Hb. unfold AdaptiveTTLManager.record_activity.
  destruct (AdaptiveTTLManager.history_levels (E := E) _ (AdaptiveTTLManager.max_ttl a)
    (ActivityHistory.record_message instant (AdaptiveTTLManager.entry instant s a)) Hb) as (ttl & -> & _). eauto.
Qed.

Lemma adaptive_steps instant s (a : AdaptiveTTLManager.t) :
  2 * AdaptiveTTLManager.base_ttl a < 2 ^ 64 * ns_per_sec ->
  exists a' ttl a'', AdaptiveTTLManager.calculate_ttl (E := E) instant s a = Ok (a', ttl) /\
    AdaptiveTTLManager.record_activity (E := E) instant s a' = Ok a'' /\
    AdaptiveTTLManager.base_ttl a'' = AdaptiveTTLManager.base_ttl a.
Proof.
  intros Hb. unfold AdaptiveTTLManager.calculate_ttl, ActivityHistory.decay.
  set (h := ActivityHistory.mk _ _ _).
  destruct (AdaptiveTTLManager.history_levels (E := E) _ (AdaptiveTTLManager.max_ttl a) h Hb) as (ttl & -> & _).
  set (a' := AdaptiveTTLManager.with_activity _ a).
  destruct (record_activity_ok instant s a' Hb) as (a'' & Ha & Hb'). exists a'. eauto.
Qed.

Lemma optimized_steps ttl max instant hint mid priority self : 0 <= ttl ->
  NegativeHistory.inv ttl max (negative_cache self) ->
  2 * AdaptiveTTLManager.base_ttl (adaptive_ttl self) < 2 ^ 64 * ns_per_sec ->
  exists self', route_message_optimized (E := E) instant hint mid priority self =
      Ok (self', optimized_choice instant hint mid priority self) /\
    NegativeCache.entries (negative_cache self') = NegativeCache.entries (negative_cache self) /\
    base_engine self' = base_engine self /\
    NegativeHistory.inv ttl max (negative_cache self') /\
    AdaptiveTTLManager.base_ttl (adaptive_ttl self') = AdaptiveTTLManager.base_ttl (adaptive_ttl self).
Proof.
  intros Httl Hi Hb. unfold route_message_optimized.
  destruct (NegativeHistory.query_spec (E := E) ttl max instant (hex_encode hint) (negative_cache self) Httl Hi)
    as (c & -> & Hc & Hent). unfold optimized_choice, blocked. cbv zeta.
  set (self1 := with_negative c self).
  destruct (match NegativeCache.entries (negative_cache self) !! hex_encode hint with Some _ => _ | None => _ end) eqn:Hblk.
  { exists self1. by split_and!. }
  change (prefetch_manager self1) with (prefetch_manager self).
  destruct (ResumePrefetchManager.get_route_early instant hint (prefetch_manager self)) as [r|].
  { exists self1. by split_and!. }
  change (multipath self1) with (multipath self).
  destruct (MultiPathDelivery.active_paths hint (multipath self)) as [|p ps] eqn:Hps.
  - set (self2 := start_discovery_if_needed instant self1).
    assert (H2 : negative_cache self2 = c /\ base_engine self2 = base_engine self /\ adaptive_ttl self2 = adaptive_ttl self).
    { unfold self2, start_discovery_if_needed. by destruct (discovery_in_progress self1). }
    destruct H2 as (H2 & H3 & H4). rewrite H3, H4.
    destruct (RoutingDecision.primary (RoutingEngine.route_message hint mid priority (base_engine self))) eqn:Hprim;
      cbn [andb]; try (exists self2; rewrite H2, H3, H4; by split_and!).
    + destruct (adaptive_steps instant (hex_encode next_hop_id) (adaptive_ttl self) Hb) as (a' & t & a'' & -> & -> & Hb').
      eexists. split; [done|]. cbn. by rewrite H2, H3, Hb'.
    + rewrite bool_decide_eq_true_2 by done. cbn [negb]. rewrite andb_false_r. exists self2. rewrite H2, H3, H4. by split_and!.
  - assert (Hact : Forall (fun p => DeliveryPath.active p = true) (p :: ps)).
    { apply Forall_forall. intros q Hq. apply (active_paths_active hint (multipath self)). by rewrite Hps. }
    inv Hact. match goal with H : DeliveryPath.active p = true |- _ => rewrite H end.
    rewrite filter_keep by done. exists self1. by split_and!.
Qed.

(** What the engine keeps from its creation on and what makes every call
    return: a sized filter that covers the cache, and a lifetime that can be
    doubled. *)
Definition steady self : Prop := exists ttl max, 0 <= ttl /\ NegativeHistory.inv ttl max (negative_cache self) /\
  2 * AdaptiveTTLManager.base_ttl (adaptive_ttl self) < 2 ^ 64 * ns_per_sec.

Lemma new_steady now id hint : 0 < BloomFilter.size BloomFilter.for_peer_cache -> steady (new now id hint).
Proof.
  intros Hsize. exists (600 * 10 ^ 9), 10000. split_and!; [done| |done]. by apply NegativeHistory.new_inv.
Qed.

Lemma steady_route instant hint mid priority self : steady self ->
  exists self', route_message_optimized (E := E) instant hint mid priority self =
      Ok (self', optimized_choice instant hint mid priority self) /\ steady self'.
Proof.
  intros (ttl & max & Httl & Hi & Hb).
  destruct (optimized_steps ttl max instant hint mid priority self Httl Hi Hb) as (s & Hs & _ & _ & Hi' & Hb').
  exists s. split; [done|]. exists ttl, max. by rewrite Hb'.
Qed.
End Props.

(** C19. The optimized engine, whatever its caches hold: a call returns a
    decision, and it is the one of the first stage that knows something - the
    negative cache (the recipient is held back while its entry is valid), a
    route kept over a pause, the best registered path with the other active
    ones as alternatives, and else exactly the decision of the layered
    engine.  The layers are not changed, and neither are the entries of the
    negative cache: the branch of the code that should record an unreachable
    recipient is never taken. *)
Theorem optimized_routing_spec `{POW : LibmPow, HASH : DefaultHasher, HEX : HexCrate} {E : Type}
    {ML : MapIter PeerId PeerInfo.t} {MG : MapIter PeerId GatewayInfo.t} {MN : MapIter string NegativeCacheEntry.t}
    ttl max instant hint mid priority self :
  0 <= ttl -> NegativeHistory.inv ttl max (negative_cache self) ->
  2 * AdaptiveTTLManager.base_ttl (adaptive_ttl self) < 2 ^ 64 * ns_per_sec ->
  exists self', route_message_optimized (E := E) instant hint mid priority self =
      Ok (self', optimized_choice instant hint mid priority self) /\
    NegativeCache.entries (negative_cache self') = NegativeCache.entries (negative_cache self) /\
    base_engine self' = base_engine self.
Proof.
  intros Httl Hi Hb. destruct (optimized_steps (E := E) ttl max instant hint mid priority self Httl Hi Hb) as (s & ? & ? & ? & _). eauto.
Qed.

(** For the witness: hexadecimal text, and the engine of RoutingEngine.v's
    sample with one peer recorded as unreachable. *)
Definition sample_hex : HexCrate := {|
  hex_encode b := of_bytes (to_hex b);
  hex_decode s := from_hex (as_bytes s)
|}.

Lemma sample_hex_spec : HexCrateSpec sample_hex.
Proof.
  split. intros b. cbn. rewrite <-length_as_bytes. unfold of_bytes, as_bytes.
  rewrite String.list_ascii_of_string_of_list_ascii, !length_map. unfold len. induction b as [|x b IH]; cbn in *; lia.
Qed.

Definition sample_pow : LibmPow := fun x _ => x.

Definition sample_engine : OptimizedRoutingEngine.t :=
  new (LN := NegativeHistory.sample_ln) 0 [0] [5].

Lemma sample_engine_inv :
  NegativeHistory.inv (HASH := NegativeHistory.sample_hasher) (600 * 10 ^ 9) 10000 (negative_cache sample_engine).
Proof.
  split; [split; [by vm_compute|by vm_compute]| | | |done|done]; cbn.
  - intros q. rewrite lookup_empty. by intros [? ?].
  - rewrite map_size_empty. lia.
  - apply map_Forall_empty.
Qed.

Lemma optimized_routing_spec_witness : exists self',
  route_message_optimized (POW := sample_pow) (HASH := NegativeHistory.sample_hasher) (HEX := sample_hex) (E := Empty_set)
    (ML := map_iter_default) (MG := map_iter_default) (MN := map_iter_default) 5 [7; 0; 0; 0] [1] 200 sample_engine =
    Ok (self', RoutingDecision.mk [1] [7; 0; 0; 0] (NextHop.RouteDiscovery [7; 0; 0; 0]) [] RoutingLayer.StoreAndCarry (F64.of_Z 0)).
Proof.
  destruct (optimized_routing_spec (POW := sample_pow) (HASH := NegativeHistory.sample_hasher) (HEX := sample_hex) (E := Empty_set)
    (ML := map_iter_default) (MG := map_iter_default) (MN := map_iter_default)
    (600 * 10 ^ 9) 10000 5 [7; 0; 0; 0] [1] 200 sample_engine) as (self' & H & _);
    [lia|apply sample_engine_inv|by vm_compute|].
  exists self'. rewrite H. f_equal.
Defined.

(** The callers record peer ids, of 64 hexadecimal digits or in base 58; the
    engine looks up the eight digits of a recipient hint.  With no entry of
    eight characters nothing is ever held back. *)
Lemma hints_never_blocked `{HEX : HexCrate, !HexCrateSpec HEX} instant hint self : len hint = 4 ->
  map_Forall (fun id _ => Z.of_nat (String.length id) <> 8) (NegativeCache.entries (negative_cache self)) ->
  blocked instant (hex_encode hint) self = false.
Proof.
  intros Hl Hm. unfold blocked. destruct (NegativeCache.entries _ !! _) as [e|] eqn:He; [|done].
  destruct (Hm _ _ He). rewrite hex_encode_length, Hl. done.
Qed.
End OptimizedHistory.
