(* ===== verification/AuditLog.v ===== *)
(** * The audit log (core/src/observability.rs)

    Events linked by hashes: every event carries the hash of the one before.
    Proved: the links hold in every log the operations produce, through
    pruning, saving and loading; two valid logs that agree on their last event
    agree on everything they both hold, or show a collision of the hash.  And
    what the validation does not see: the last event and missing ones at the
    end.

    The identifiers of events and the clock are arguments; serde_json is an
    interface (Backend.v), BLAKE3 one of Drift.v. *)

From S2P Require Import Prelude Drift Backend Text.

Module AuditEventType.
Inductive t : Type :=
| IdentityCreated | IdentityDeleted | MessageSent | MessageReceived | RelayEnabled | RelayDisabled | ContactAdded
| ContactBlocked | ContactRemoved | BackupExported | BackupImported | ConsentGranted | StorageCompacted.

#[global] Instance eq_dec : EqDecision t.
Proof. solve_decision. Defined.

Definition display (self : t) : string :=
  match self with
  | IdentityCreated => "IdentityCreated" | IdentityDeleted => "IdentityDeleted" | MessageSent => "MessageSent"
  | MessageReceived => "MessageReceived" | RelayEnabled => "RelayEnabled" | RelayDisabled => "RelayDisabled"
  | ContactAdded => "ContactAdded" | ContactBlocked => "ContactBlocked" | ContactRemoved => "ContactRemoved"
  | BackupExported => "BackupExported" | BackupImported => "BackupImported" | ConsentGranted => "ConsentGranted"
  | StorageCompacted => "StorageCompacted"
  end.

Definition all : list t :=
  [IdentityCreated; IdentityDeleted; MessageSent; MessageReceived; RelayEnabled; RelayDisabled; ContactAdded;
   ContactBlocked; ContactRemoved; BackupExported; BackupImported; ConsentGranted; StorageCompacted].

#[global] Instance layout : Layout t.
Proof.
  apply (layout_iso display (fun s => default IdentityCreated (list_find (fun x => display x = s) all ≫= fun p => Some p.2))).
  intros []; vm_compute; reflexivity.
Defined.
End AuditEventType.

Module AuditEvent.
Record t : Type := mk {
  event_id : string;
  event_type : AuditEventType.t;
  timestamp_unix_secs : Z;
  identity_id : option string;
  peer_id : option string;
  details : option string;
  prev_hash : string
}.

#[global] Instance eq_dec : EqDecision t.
Proof. solve_decision. Defined.

#[global] Instance layout : Layout t.
Proof.
  apply (layout_iso (fun e => (event_id e, event_type e, timestamp_unix_secs e, identity_id e, peer_id e, details e, prev_hash e))
    (fun '(i, k, n, a, p, d, h) => mk i k n a p d h)).
  by intros [].
Defined.

#[global] Instance countable : Countable t := layout_countable.

Definition new (id : string) (now : Z) (event_type : AuditEventType.t) (identity_id peer_id details : option string)
    (prev_hash : string) : t := mk id event_type now identity_id peer_id details prev_hash.

Section Hash.
Context `{B3 : Blake3} `{JE : SerdeJson t} {E : Type}.

(** The hash of the event's JSON, in hexadecimal; a failing serialization panics. *)
Definition chain_hash (self : t) : outcome E string :=
  match json_to_string self with
  | Ok json => Ok (of_bytes (to_hex (blake3_hash json)))
  | _ => Panic
  end.
End Hash.
End AuditEvent.

Definition GENESIS : string := "0000000000000000000000000000000000000000000000000000000000000000".

(** [String::from_utf8_lossy]: the longest prefix of a character that cannot be
    continued becomes the replacement character. *)
Definition replacement : Bytes := [239; 191; 189].

Fixpoint utf8_lossy (l : Bytes) : Bytes :=
  match l with
  | [] => []
  | a :: l1 =>
      if in_range 0 127 a then a :: utf8_lossy l1 else
      match l1 with
      | [] => replacement
      | b :: l2 =>
          if in_range 194 223 a && in_range 128 191 b then a :: b :: utf8_lossy l2 else
          if negb (lead3 a b || lead4 a b) then replacement ++ utf8_lossy l1 else
          match l2 with
          | [] => replacement
          | c :: l3 =>
              if lead3 a b && in_range 128 191 c then a :: b :: c :: utf8_lossy l3 else
              if negb (lead4 a b && in_range 128 191 c) then replacement ++ utf8_lossy l2 else
              match l3 with
              | [] => replacement
              | d :: l4 =>
                  if in_range 128 191 d then a :: b :: c :: d :: utf8_lossy l4 else replacement ++ utf8_lossy l3
              end
          end
      end
  end.

Lemma utf8_lossy_valid l : utf8_valid l = true -> utf8_lossy l = l.
Proof.
  induction l as [l IH] using (induction_ltof1 _ length). unfold ltof in IH.
  destruct l as [|a l1]; [done|]. cbn [utf8_valid utf8_lossy].
  destruct (in_range 0 127 a); [intros H; f_equal; apply IH; [cbn; lia|done]|].
  destruct l1 as [|b l2]; [done|].
  destruct (in_range 194 223 a && _); [intros H; do 2 f_equal; apply IH; [cbn; lia|done]|].
  destruct l2 as [|c l3]; [done|].
  destruct (lead3 a b) eqn:H3; cbn [andb orb negb].
  - destruct (in_range 128 191 c) eqn:Hc; cbn [andb]; [intros H; do 3 f_equal; apply IH; [cbn; lia|done]|].
    rewrite andb_false_r. by destruct l3.
  - destruct l3 as [|d l4]; [done|]. destruct (lead4 a b); cbn [andb negb]; [|done].
    destruct (in_range 128 191 c); cbn [andb negb]; [|done].
    destruct (in_range 128 191 d); cbn [andb]; [|done]. intros H. do 4 f_equal. apply IH; [cbn; lia|done].
Qed.

Inductive AuditLogError : Type :=
| ChainBroken (event_index : Z) (expected found : string)
| EmptyLog
| PersistenceError.

Module AuditLog.

Record t : Type := mk {
  events : list AuditEvent.t;
  last_hash : string;
  pruned_head_hash : option string
}.

#[global] Instance eq_dec : EqDecision t.
Proof. solve_decision. Defined.

#[global] Instance layout : Layout t.
Proof.
  apply (layout_iso (fun l => (events l, last_hash l, pruned_head_hash l)) (fun '(e, h, p) => mk e h p)).
  by intros [].
Defined.

#[global] Instance countable : Countable t := layout_countable.

Definition new : t := mk [] GENESIS None.

Section Log.
Context `{B3 : Blake3} `{JE : SerdeJson AuditEvent.t} `{JL : SerdeJson t}.
Context {B : Type} `{HB : StorageBackend B}.
Abbreviation result := (outcome AuditLogError).

Definition KEY : Bytes := as_bytes "audit_log_v1".

Definition persist (self : t) (backend : B) : result B :=
  let! json := map_err (fun _ => PersistenceError) (json_to_string self) in
  map_err (fun _ => PersistenceError) (put KEY json backend).

Definition load (backend : B) : result t :=
  match get KEY backend with
  | Ok (Some data) =>
      match json_from_str (utf8_lossy data) with
      | Ok log => Ok log
      | Err _ => Ok new
      | Panic => Panic
      end
  | Panic => Panic
  | _ => Ok new
  end.

(** [iter().position(|e| e.timestamp_unix_secs >= before)]. *)
Fixpoint position_since (before : Z) (l : list AuditEvent.t) : option nat :=
  match l with
  | [] => None
  | e :: l => if AuditEvent.timestamp_unix_secs e >=? before then Some 0%nat else S <$> position_since before l
  end.

Definition prune_before (before_timestamp : Z) (self : t) : result (t * Z) :=
  let! '(self, prune_count) :=
    match position_since before_timestamp (events self) with
    | Some O => Ok (self, 0)
    | Some (S i as idx) =>
        match events self !! i with
        | Some e =>
            let! h := AuditEvent.chain_hash e in
            Ok (mk (drop idx (events self)) (last_hash self) (Some h), wrap 32 (Z.of_nat idx))
        | None => Panic
        end
    | None =>
        match last (events self) with
        | Some e =>
            let! h := AuditEvent.chain_hash e in
            Ok (mk [] (last_hash self) (Some h), wrap 32 (len (events self)))
        | None => Ok (self, 0)
        end
    end in
  let last_hash := if bool_decide (events self = []) then default GENESIS (pruned_head_hash self) else last_hash self in
  Ok (mk (events self) last_hash (pruned_head_hash self), prune_count).

Definition append (id : string) (now : Z) (event_type : AuditEventType.t) (identity_id peer_id details : option string) (self : t)
    : result (t * AuditEvent.t) :=
  let event := AuditEvent.new id now event_type identity_id peer_id details (last_hash self) in
  let! h := AuditEvent.chain_hash event in
  Ok (mk (events self ++ [event]) h (pruned_head_hash self), event).

(** [for i in 1..self.events.len()]: each event against the one before. *)
Fixpoint check_links (i : Z) (prev : AuditEvent.t) (l : list AuditEvent.t) : result unit :=
  match l with
  | [] => Ok tt
  | e :: l =>
      let! expected := AuditEvent.chain_hash prev in
      if bool_decide (AuditEvent.prev_hash e = expected) then check_links (i + 1) e l
      else Err (ChainBroken i expected (AuditEvent.prev_hash e))
  end.

Definition validate_chain (self : t) : result unit :=
  match events self with
  | [] => Err EmptyLog
  | e :: l =>
      let expected_head := default GENESIS (pruned_head_hash self) in
      if bool_decide (AuditEvent.prev_hash e = expected_head) then check_links 1 e l
      else Err (ChainBroken 0 expected_head (AuditEvent.prev_hash e))
  end.

End Log.
End AuditLog.

(** ** The chain *)

Module AuditChain.
Import AuditLog.
Section Chain.
Context `{B3 : Blake3} `{JE : SerdeJson AuditEvent.t} {JES : SerdeJsonSpec AuditEvent.t}.
Implicit Types (l : list AuditEvent.t) (e : AuditEvent.t) (self : AuditLog.t).

(** The hash of an event, as a value. *)
Definition hash_of e : string :=
  match json_to_string e with Ok json => of_bytes (to_hex (blake3_hash json)) | _ => ""%string end.

Lemma chain_hash_Ok {E} e : AuditEvent.chain_hash (E := E) e = Ok (hash_of e).
Proof. unfold AuditEvent.chain_hash, hash_of. destruct (json_total e) as [d ->]. done. Qed.

(** The events link up from the hash [h] to the hash [h']. *)
Fixpoint chain (h : string) l (h' : string) : Prop :=
  match l with
  | [] => h = h'
  | e :: l => AuditEvent.prev_hash e = h /\ chain (hash_of e) l h'
  end.

Lemma chain_app h l1 l2 h' : chain h (l1 ++ l2) h' <-> exists m, chain h l1 m /\ chain m l2 h'.
Proof.
  revert h. induction l1 as [|e l1 IH]; intros h; cbn; [naive_solver|]. rewrite IH. naive_solver.
Qed.

Lemma chain_end h l e h' : chain h (l ++ [e]) h' <-> chain h l (AuditEvent.prev_hash e) /\ h' = hash_of e.
Proof. rewrite chain_app. cbn. naive_solver. Qed.

Lemma check_links_chain i prev l : check_links i prev l = Ok tt <-> exists h', chain (hash_of prev) l h'.
Proof.
  revert i prev. induction l as [|e l IH]; intros i prev; cbn; [naive_solver|]. rewrite chain_hash_Ok.
  case_bool_decide as He; [rewrite IH; naive_solver|]. split; [done|naive_solver].
Qed.

Definition head_of self : string := default GENESIS (pruned_head_hash self).

Lemma validate_chain_iff self : validate_chain self = Ok tt <-> events self <> [] /\ exists h', chain (head_of self) (events self) h'.
Proof.
  unfold validate_chain, head_of. destruct (events self) as [|e l]; [naive_solver|].
  case_bool_decide as He; cbn; [rewrite check_links_chain; naive_solver|]. split; [done|naive_solver].
Qed.

(** The invariant of a log. *)
Definition log_ok self : Prop := chain (head_of self) (events self) (last_hash self).

Lemma position_since_lt before l i : position_since before l = Some i -> (i < length l)%nat.
Proof.
  revert i. induction l as [|e l IH]; intros i; cbn; [done|]. case_goal; [intros Hi; inv Hi; lia|].
  destruct (position_since before l) as [j|]; cbn; [|done]. intros Hi. inv Hi. specialize (IH j eq_refl). lia.
Qed.

Lemma prune_ok before self : log_ok self ->
  exists self' n, prune_before before self = Ok (self', n) /\ log_ok self' /\
    (exists pre, events self = pre ++ events self' /\ Forall (fun e => AuditEvent.timestamp_unix_secs e < before) pre).
Proof.
  unfold log_ok. intros Hc. unfold prune_before.
  assert (Hpos : forall l, match position_since before l with
    | Some i => Forall (fun e => AuditEvent.timestamp_unix_secs e < before) (take i l)
    | None => Forall (fun e => AuditEvent.timestamp_unix_secs e < before) l end).
  { induction l as [|e l IH]; cbn; [constructor|]. case_goal; [constructor|]. bool_to_prop.
    destruct (position_since before l); cbn; constructor; (lia || done). }
  specialize (Hpos (events self)). destruct (position_since before (events self)) as [[|i]|] eqn:Hp.
  - eexists _, _. split; [done|]. cbn. split; [|by exists []].
    unfold head_of in *. cbn. case_bool_decide as He; [by rewrite He|done].
  - pose proof (position_since_lt _ _ _ Hp) as Hlt. destruct (lookup_lt_is_Some_2 (events self) i) as [e He]; [lia|].
    rewrite He, chain_hash_Ok. eexists _, _. split; [done|]. cbn [events pruned_head_hash last_hash head_of].
    assert (Hsplit : events self = (take i (events self) ++ [e]) ++ drop (S i) (events self)).
    { rewrite <-(take_drop (S i) (events self)) at 1. by rewrite (take_S_r _ _ _ He). }
    split; [|exists (take (S i) (events self)); by rewrite take_drop].
    rewrite Hsplit in Hc. apply chain_app in Hc as (m & Hc1 & Hc2). apply chain_end in Hc1 as [_ ->].
    unfold head_of. cbn. case_bool_decide as Hd; [by rewrite Hd|done].
  - destruct (last (events self)) as [e|] eqn:Hl.
    + rewrite chain_hash_Ok. eexists _, _. split; [done|]. cbn. split; [done|].
      exists (events self). by rewrite app_nil_r.
    + apply last_None in Hl. eexists _, _. split; [done|]. cbn. rewrite Hl in *. unfold head_of. cbn. split; [done|]. by exists [].
Qed.

Lemma append_ok id now k i p d self : log_ok self ->
  exists self' e, append id now k i p d self = Ok (self', e) /\ log_ok self' /\ events self' = events self ++ [e].
Proof.
  intros Hc. unfold append. rewrite chain_hash_Ok. eexists _, _. split; [done|]. split; [|done].
  unfold log_ok, head_of in *. cbn. apply chain_end. done.
Qed.

(** ** What validation sees *)

Definition collision : Prop := exists e1 e2, e1 <> e2 /\ hash_of e1 = hash_of e2.

Lemma chains_agree l1 l2 h1 h2 e m1 m2 : chain h1 (l1 ++ [e]) m1 -> chain h2 (l2 ++ [e]) m2 ->
  (exists pre, l1 = pre ++ l2 \/ l2 = pre ++ l1) \/ collision.
Proof.
  revert l2 e m1 m2. induction l1 as [|x l1 IH] using rev_ind; intros l2 e m1 m2 H1 H2.
  { left. exists l2. right. by rewrite app_nil_r. }
  destruct l2 as [|y l2 _] using rev_ind; [left; exists (l1 ++ [x]); left; by rewrite app_nil_r|].
  apply chain_end in H1 as [H1 _], H2 as [H2 _].
  pose proof (proj2 (proj1 (chain_end _ _ _ _) H1)) as Hx. pose proof (proj2 (proj1 (chain_end _ _ _ _) H2)) as Hy.
  destruct (decide (x = y)) as [->|Hne]; [|right; exists x, y; split; [done|congruence]].
  destruct (IH l2 y _ _ H1 H2) as [[pre [->| ->]]|Hcol]; [left; exists pre; left; by rewrite app_assoc|left; exists pre; right; by rewrite app_assoc|by right].
Qed.

Lemma validated_last self : validate_chain self = Ok tt -> exists l e, events self = l ++ [e].
Proof.
  intros [Hne _]%validate_chain_iff. destruct (events self) as [|e l _] using rev_ind; [done|eauto].
Qed.

Lemma suffix_app l1 l2 e : (exists pre, l1 = pre ++ l2 \/ l2 = pre ++ l1) ->
  exists pre, l1 ++ [e] = pre ++ l2 ++ [e] \/ l2 ++ [e] = pre ++ l1 ++ [e].
Proof. intros [pre [->| ->]]; exists pre; [left|right]; by rewrite <-app_assoc. Qed.

(** ** Histories *)

Inductive call : Type :=
| Append (id : string) (now : Z) (k : AuditEventType.t) (identity peer details : option string)
| Prune (before : Z)
| Restart.

Section History.
Context `{JL : SerdeJson AuditLog.t} {JLS : SerdeJsonSpec AuditLog.t}.
Context (Hutf8 : forall (a : AuditLog.t) d, json_to_string a = Ok d -> utf8_valid d = true).
Context {B : Type} `{HB : StorageBackend B} {HBS : StorageBackendSpec B} {HBR : Reliable B}.

(** A restart saves the log and loads it again. *)
Definition step (c : call) (s : AuditLog.t * B) : outcome AuditLogError (AuditLog.t * B) :=
  let '(self, db) := s in
  match c with
  | Append id now k i p d => let! '(self, _) := append id now k i p d self in Ok (self, db)
  | Prune before => let! '(self, _) := prune_before before self in Ok (self, db)
  | Restart => let! db := persist self db in let! self := load db in Ok (self, db)
  end.

Lemma persist_load self (db : B) : exists db', persist self db = Ok db' /\ load db' = Ok self.
Proof using HBR HBS Hutf8 JLS.
  unfold persist, load. destruct (json_total self) as [d Hd]. rewrite Hd. cbn [map_err].
  destruct (put_total KEY d db) as [db' Hp]. rewrite Hp. exists db'. split; [done|].
  destruct (get_total KEY db') as [r Hg]. rewrite Hg. apply get_ok in Hg. rewrite (put_ok _ _ _ _ Hp), lookup_insert_eq in Hg.
  subst r. rewrite utf8_lossy_valid by (by eapply Hutf8). by rewrite (json_roundtrip _ _ Hd).
Qed.

Lemma step_log_ok c self (db : B) : log_ok self -> exists self' db', step c (self, db) = Ok (self', db') /\ log_ok self'.
Proof using HBR HBS Hutf8 JLS JES.
  intros Hok. destruct c as [id now k i p d|before|]; cbn [step].
  - destruct (append_ok id now k i p d self Hok) as (s' & e & -> & Hs & _). eauto.
  - destruct (prune_ok before self Hok) as (s' & n & -> & Hs & _). eauto.
  - destruct (persist_load self db) as (db' & -> & Hl). rewrite Hl. eauto.
Qed.
End History.
End Chain.


(** C30. What the validation of a log shows.  Two logs that validate and end in
    the same event agree on all events both of them hold (one is the other
    with older events in front), or two different events with the same hash
    are known: no event but the last can be altered, removed or inserted
    unnoticed.  The last event is not protected: replacing it by any event
    with the same link, or cutting off any number of events at the end, is
    accepted, since [last_hash] is never compared. *)
Theorem audit_tamper_evidence `{B3 : Blake3} `{JE : SerdeJson AuditEvent.t} {JES : SerdeJsonSpec AuditEvent.t}
    (log log' : AuditLog.t) :
  AuditLog.validate_chain log = Ok tt ->
  (AuditLog.validate_chain log' = Ok tt -> last (AuditLog.events log) = last (AuditLog.events log') ->
    (exists pre, AuditLog.events log = pre ++ AuditLog.events log' \/ AuditLog.events log' = pre ++ AuditLog.events log)
    \/ collision) /\
  (forall l e e' h, AuditLog.events log = l ++ [e] -> AuditEvent.prev_hash e' = AuditEvent.prev_hash e ->
    AuditLog.validate_chain (AuditLog.mk (l ++ [e']) h (AuditLog.pruned_head_hash log)) = Ok tt) /\
  (forall l l' h, AuditLog.events log = l ++ l' -> l <> [] ->
    AuditLog.validate_chain (AuditLog.mk l h (AuditLog.pruned_head_hash log)) = Ok tt).
Proof.
  intros Hv. pose proof (proj1 (validate_chain_iff _) Hv) as [Hne [h0 Hc]]. split_and!.
  - intros Hv' Hlast. pose proof (proj1 (validate_chain_iff _) Hv') as [_ [h0' Hc']].
    destruct (validated_last log Hv) as (l1 & e1 & E1). destruct (validated_last log' Hv') as (l2 & e2 & E2).
    rewrite E1, E2 in *. rewrite !last_snoc in Hlast. injection Hlast as <-.
    destruct (chains_agree _ _ _ _ _ _ _ Hc Hc') as [Hpre|?]; [left|by right]. by apply suffix_app.
  - intros l e e' h He Hp. apply validate_chain_iff. cbn. split; [by destruct l|]. rewrite He in Hc.
    apply chain_end in Hc as [Hc _]. exists (hash_of e'). apply chain_end. by rewrite Hp.
  - intros l l' h He Hl. apply validate_chain_iff. cbn. split; [done|]. rewrite He in Hc. apply chain_app in Hc as (m & Hc & _). by exists m.
Qed.

(** For the witnesses: hexadecimal text for JSON, the memory backend. *)
#[export] Instance sample_event_json : SerdeJson AuditEvent.t := hex_json AuditEvent.t.
#[export] Instance sample_event_json_spec : SerdeJsonSpec AuditEvent.t := hex_json_spec AuditEvent.t.
#[export] Instance sample_log_json : SerdeJson AuditLog.t := hex_json AuditLog.t.
#[export] Instance sample_log_json_spec : SerdeJsonSpec AuditLog.t := hex_json_spec AuditLog.t.
#[local] Instance bytes_iter : MapIter Bytes Bytes := map_iter_default.
#[local] Existing Instances MemoryStorage.storage_backend MemoryStorage.storage_backend_spec.
#[local] Existing Instance sample_blake3.

Definition sample_calls : list call :=
  [Append "a" 10 AuditEventType.IdentityCreated None None None; Append "b" 20 AuditEventType.MessageSent None (Some "p"%string) None;
   Prune 15; Restart; Append "c" 30 AuditEventType.ContactBlocked None None None].

Definition sample_run : outcome AuditLogError (AuditLog.t * MemoryStorage.t) :=
  for_each step sample_calls (AuditLog.new, MemoryStorage.new).


Definition sample_log : AuditLog.t :=
  AuditLog.mk [AuditEvent.mk "a" AuditEventType.IdentityCreated 10 None None None GENESIS] "forged" None.

Lemma audit_tamper_evidence_witness :
  AuditLog.validate_chain sample_log = Ok tt /\
  AuditLog.validate_chain (AuditLog.mk [AuditEvent.mk "x" AuditEventType.IdentityDeleted 99 None None None GENESIS] "" None) = Ok tt.
Proof.
  split; [reflexivity|].
  apply (audit_tamper_evidence sample_log sample_log eq_refl) with (l := [])
    (e := AuditEvent.mk "a" AuditEventType.IdentityCreated 10 None None None GENESIS); reflexivity.
Defined.

End AuditChain.
