(* ===== verification/Blocked.v ===== *)
(** * The block list (core/src/store/blocked.rs)

    Blocked peers and devices, and the registry of the devices of each peer,
    as JSON records in the shared backend.  A block of a peer also writes a
    block for each registered device; a device registered for a blocked peer is
    blocked at once.  The clock is an argument. *)

From S2P Require Import Prelude Backend State Records.

Definition BLOCKED_PREFIX : string := "blocked:".
Definition DEVICE_REGISTRY_PREFIX : string := "blocked_devs:".

Module BlockedIdentity.

Record t : Type := mk {
  peer_id : string;
  device_id : option string;
  blocked_at : Z;
  reason : option string;
  notes : option string;
  is_deleted : bool
}.

#[global] Instance eq_dec : EqDecision t.
Proof. solve_decision. Defined.

#[global] Instance layout : Layout t.
Proof.
  apply (layout_iso (fun b => (peer_id b, device_id b, blocked_at b, reason b, notes b, Z.b2z (is_deleted b)))
    (fun '(p, d, a, r, n, x) => mk p d a r n (x =? 1))).
  by intros [? ? ? ? ? []].
Defined.

#[global] Instance countable : Countable t := layout_countable.

Definition new (now : Z) (peer_id : string) : t := mk peer_id None now None None false.

Definition full_relay (now : Z) : t := new now "relay-stub".

Definition with_device_id (device_id : string) (self : t) : t :=
  mk (peer_id self) (Some device_id) (blocked_at self) (reason self) (notes self) (is_deleted self).

Definition with_reason (reason : string) (self : t) : t :=
  mk (peer_id self) (device_id self) (blocked_at self) (Some reason) (notes self) (is_deleted self).

Definition storage_key (self : t) : string :=
  match device_id self with
  | Some device_id => BLOCKED_PREFIX +:+ peer_id self +:+ ":" +:+ device_id
  | None => BLOCKED_PREFIX +:+ peer_id self
  end.
End BlockedIdentity.

Module BlockedManager.
Import BlockedIdentity.

Section Code.
Context {B : Type} `{HB : StorageBackend B} `{HJB : SerdeJson BlockedIdentity.t} `{HJD : SerdeJson (list string)}.

Abbreviation result := (M B IronCoreError).

(** [format!("{}{}", BLOCKED_PREFIX, peer_id)] and with [":{}"] for a device. *)
Definition block_key (peer_id : string) (device_id : option string) : Bytes :=
  as_bytes (match device_id with
            | Some device_id => BLOCKED_PREFIX +:+ peer_id +:+ ":" +:+ device_id
            | None => BLOCKED_PREFIX +:+ peer_id
            end).

Definition registry_key (peer_id : string) : Bytes := as_bytes (DEVICE_REGISTRY_PREFIX +:+ peer_id).

Definition get_known_devices (peer_id : string) : result (list string) :=
  r ← get_json (registry_key peer_id);
  mret (default [] r).

Definition block (blocked : BlockedIdentity.t) : result unit :=
  put_json (as_bytes (storage_key blocked)) blocked;;
  match device_id blocked with
  | Some _ => mret tt
  | None =>
      devices ← get_known_devices (peer_id blocked);
      for_loop (fun device_id _ =>
        let device_blocked := mk (peer_id blocked) (Some device_id) (blocked_at blocked) (reason blocked)
                                (notes blocked) (is_deleted blocked) in
        put_json (as_bytes (storage_key device_blocked)) device_blocked) devices tt
  end.

Definition block_and_delete (now : Z) (peer_id : string) (reason : option string) : result unit :=
  let blocked := new now peer_id in
  let blocked := mk (BlockedIdentity.peer_id blocked) (device_id blocked) (blocked_at blocked)
    (match reason with Some r => Some r | None => BlockedIdentity.reason blocked end) (notes blocked) true in
  block blocked.

Definition unregister_device_from_registry (peer_id device_id : string) : result unit :=
  devices ← get_known_devices peer_id;
  let devices := filter (fun d => d <> device_id) devices in
  match devices with
  | [] => stored (kv_remove (registry_key peer_id))
  | _ => put_json (registry_key peer_id) devices
  end.

Definition unblock (peer_id : string) (device_id : option string) : result unit :=
  match device_id with
  | Some did =>
      stored (kv_remove (block_key peer_id (Some did)));;
      unregister_device_from_registry peer_id did
  | None =>
      stored (kv_remove (block_key peer_id None));;
      devices ← get_known_devices peer_id;
      for_loop (fun did _ => stored (kv_remove (block_key peer_id (Some did)))) devices tt;;
      stored (kv_remove (registry_key peer_id))
  end.

Definition is_blocked (peer_id : string) (device_id : option string) : result bool :=
  found ← match device_id with
          | Some d => r ← stored (kv_get (block_key peer_id (Some d))); mret (bool_decide (is_Some r))
          | None => mret false
          end;
  if found : bool then mret true else
  r ← stored (kv_get (block_key peer_id None));
  mret (bool_decide (is_Some r)).

Definition get (peer_id : string) (device_id : option string) : result (option BlockedIdentity.t) :=
  get_json (block_key peer_id device_id).

Definition list_blocked : result (list BlockedIdentity.t) :=
  all ← stored (kv_scan (as_bytes BLOCKED_PREFIX));
  blocked_list ← for_records (fun _ blocked acc => mret (acc ++ [blocked])) all [];
  mret (sort_by (newest blocked_at) blocked_list).

Definition count : result Z :=
  l ← list_blocked;
  mret (len l).

Definition is_blocked_and_deleted (peer_id : string) : result bool :=
  r ← get_json (block_key peer_id None);
  mret (match r with Some blocked => is_deleted blocked | None => false end).

Definition blocked_only_peer_ids : result (gset string) :=
  l ← list_blocked;
  mret (list_to_set (map BlockedIdentity.peer_id (filter (fun b => is_deleted b = false) l))).

Definition register_device_id (now : Z) (peer_id device_id : string) : result bool :=
  devices ← get_known_devices peer_id;
  if bool_decide (device_id ∈ devices) then mret false else
  put_json (registry_key peer_id) (devices ++ [device_id]);;
  peer_is_blocked ← is_blocked peer_id None;
  (if peer_is_blocked : bool then
     peer_block ← get peer_id None;
     let blocked := mk peer_id (Some device_id)
       (match peer_block with Some b => blocked_at b | None => now end)
       (b ← peer_block; reason b) None
       (match peer_block with Some b => is_deleted b | None => false end) in
     put_json (as_bytes (storage_key blocked)) blocked
   else mret tt);;
  mret true.

Definition register_device_ids (now : Z) (peer_id : string) (device_ids : list string) : result Z :=
  for_loop (fun device_id registered =>
    newly ← register_device_id now peer_id device_id;
    mret (if newly : bool then registered + 1 else registered)) device_ids 0.

Definition is_device_blocked (peer_id device_id : string) : result bool := is_blocked peer_id (Some device_id).

End Code.
End BlockedManager.
