(* ===== verification/BlockedProps.v ===== *)
(** * The block list refines a map of blocks and a map of devices

    Peer ids without a colon (all ids of the program: hexadecimal or base 58)
    keep the keys of blocks apart, so the records of the backend stand for a
    map; every operation acts on it as the specification [BlockList] says. *)

From S2P Require Import Prelude Backend State Text Records Blocked.
Import BlockedIdentity.

(** ** Keys with a separator *)

Definition colon : Z := 58.

Definition simple (p : string) : Prop := colon ∉ as_bytes p.

#[export] Instance simple_dec p : Decision (simple p).
Proof. unfold simple. apply _. Defined.

Lemma separator_inj (c : Z) a b l l' : c ∉ a -> c ∉ b -> a ++ c :: l = b ++ c :: l' -> a = b /\ l = l'.
Proof.
  revert b. induction a as [|x a IH]; intros [|y b] Ha Hb He; cbn in He.
  - injection He as ->. done.
  - injection He as -> _. destruct Hb. left.
  - injection He as -> _. destruct Ha. left.
  - injection He as -> He. destruct (IH b) as [-> ->]; [| |done|done].
    + intros Hin. apply Ha. by right.
    + intros Hin. apply Hb. by right.
Qed.

Definition block_schema : schema (string * option string) BlockedIdentity.t.
Proof.
  refine {| area := as_bytes BLOCKED_PREFIX; key_of k := BlockedManager.block_key k.1 k.2; valid k := simple k.1 |}.
  - abstract (intros [p [d|]]; cbn [fst snd BlockedManager.block_key]; unfold BlockedManager.block_key; rewrite as_bytes_app; by eexists).
  - abstract (intros [p d] [p' d'] Hp Hp'; cbn [fst snd] in *; unfold BlockedManager.block_key, simple in *;
      destruct d as [d|], d' as [d'|]; rewrite !as_bytes_app; intros He; apply app_inv_head in He;
      [ cbn [as_bytes String.list_ascii_of_string map app] in He; apply (separator_inj colon) in He as [Hpe Hde]; [|done..];
        apply as_bytes_inj in Hpe, Hde; by subst
      | destruct Hp'; rewrite <-He; apply elem_of_app; right; cbn; left
      | destruct Hp; rewrite He; apply elem_of_app; right; cbn; left
      | apply as_bytes_inj in He; by subst ]).
Defined.

Definition registry_schema : schema string (list string) := prefixed (list string) DEVICE_REGISTRY_PREFIX.

(** ** The specification *)

Module BlockList.

Record t : Type := mk {
  blocks : gmap (string * option string) BlockedIdentity.t;
  devices : gmap string (list string)
}.

Definition empty : t := mk ∅ ∅.

Definition known (p : string) (s : t) : list string := default [] (devices s !! p).

Definition is_blocked (p : string) (d : option string) (s : t) : bool :=
  bool_decide (is_Some (blocks s !! (p, d))) || bool_decide (is_Some (blocks s !! (p, None))).

Definition block_devices (b : BlockedIdentity.t) (ds : list string) (m : gmap (string * option string) BlockedIdentity.t) :=
  fold_left (fun m d => <[(peer_id b, Some d) := with_device_id d b]> m) ds m.

Definition block (b : BlockedIdentity.t) (s : t) : t :=
  let m := <[(peer_id b, device_id b) := b]> (blocks s) in
  mk (match device_id b with None => block_devices b (known (peer_id b) s) m | Some _ => m end) (devices s).

Definition deleted_block (now : Z) (p : string) (r : option string) : BlockedIdentity.t := BlockedIdentity.mk p None now r None true.

Definition unregister (p d : string) (s : t) : gmap string (list string) :=
  let l := filter (fun d' => d' <> d) (known p s) in
  match l with [] => delete p (devices s) | _ => <[p := l]> (devices s) end.

Definition unblock (p : string) (d : option string) (s : t) : t :=
  match d with
  | Some d => mk (delete (p, Some d) (blocks s)) (unregister p d s)
  | None =>
      mk (fold_left (fun m d => delete (p, Some d) m) (known p s) (delete (p, None) (blocks s))) (delete p (devices s))
  end.

Definition all (s : t) : list BlockedIdentity.t := (map_to_list (blocks s)).*2.

Definition register (p d : string) (s : t) : t * bool :=
  if bool_decide (d ∈ known p s) then (s, false) else
  (mk (match blocks s !! (p, None) with
       | Some b => <[(p, Some d) := BlockedIdentity.mk p (Some d) (blocked_at b) (reason b) None (is_deleted b)]> (blocks s)
       | None => blocks s
       end) (<[p := known p s ++ [d]]> (devices s)), true).

Definition register_all (p : string) (ds : list string) (s : t) : t * Z :=
  fold_left (fun '(s, n) d => let '(s, newly) := register p d s in (s, if newly : bool then n + 1 else n)) ds (s, 0).

(** *** Blocks and devices *)

Lemma block_devices_lookup b ds m p d :
  block_devices b ds m !! (p, d) =
  match d with
  | Some x => if bool_decide (p = peer_id b /\ x ∈ ds) then Some (with_device_id x b) else m !! (p, d)
  | None => m !! (p, d)
  end.
Proof.
  unfold block_devices. revert m. induction ds as [|x ds IH]; intros m; cbn [fold_left].
  - destruct d; [|done]. rewrite bool_decide_false; [done|]. set_solver.
  - rewrite IH. destruct d as [y|]; [|by rewrite lookup_insert_ne].
    destruct (decide ((p, Some y) = (peer_id b, Some x))) as [He|Hne].
    + injection He as -> ->. rewrite lookup_insert_eq. rewrite (bool_decide_true (_ /\ x ∈ x :: ds)) by set_solver. by case_bool_decide.
    + rewrite lookup_insert_ne by done. repeat case_bool_decide; try done; set_solver.
Qed.

Lemma unblock_devices_lookup (p : string) (ds : list string) (m : gmap (string * option string) BlockedIdentity.t) (q : string) (d : option string) :
  fold_left (fun m d => delete (p, Some d) m) ds m !! (q, d) =
  match d with
  | Some x => if bool_decide (q = p /\ x ∈ ds) then None else m !! (q, d)
  | None => m !! (q, d)
  end.
Proof.
  revert m. induction ds as [|x ds IH]; intros m; cbn [fold_left].
  - destruct d; [|done]. rewrite bool_decide_false; [done|]. set_solver.
  - rewrite IH. destruct d as [y|]; [|by rewrite lookup_delete_ne].
    destruct (decide ((q, Some y) = (p, Some x))) as [He|Hne].
    + injection He as -> ->. rewrite lookup_delete_eq. rewrite (bool_decide_true (_ /\ x ∈ x :: ds)) by set_solver. by case_bool_decide.
    + rewrite lookup_delete_ne by done. repeat case_bool_decide; try done; set_solver.
Qed.

Lemma unregister_known p d s q :
  default [] (unregister p d s !! q) = if decide (q = p) then filter (fun d' => d' <> d) (known p s) else known q s.
Proof.
  unfold unregister. cbn zeta. destruct (filter (fun d' => d' <> d) (known p s)) as [|x l] eqn:Hl; case_decide as Hq; subst.
  - by rewrite lookup_delete_eq.
  - by rewrite lookup_delete_ne.
  - by rewrite lookup_insert_eq.
  - by rewrite lookup_insert_ne.
Qed.

(** Blocks are filed under their peer and device, and the block of a peer
    comes with a block of each of its registered devices. *)
Definition covered (s : t) : Prop :=
  (forall p d b, blocks s !! (p, d) = Some b -> peer_id b = p /\ device_id b = d) /\
  (forall p d, is_Some (blocks s !! (p, None)) -> d ∈ known p s -> is_Some (blocks s !! (p, Some d))).

Lemma covered_empty : covered empty.
Proof. split; intros p d; unfold empty; cbn [blocks]; rewrite lookup_empty; [done|]. by intros [? ?]. Qed.

Lemma covered_block b s : covered s -> covered (block b s).
Proof.
  intros [Hk Hc]. unfold block. destruct (device_id b) as [x|] eqn:Hd; split; cbn [blocks known devices] in *.
  - intros p d b' [[He <-]|[_ Hb]]%lookup_insert_Some; [|by apply Hk]. by injection He as <- <-.
  - intros p d Hp Hin. rewrite lookup_insert_ne in Hp by done. apply lookup_insert_is_Some'. right. by apply Hc.
  - intros p d b'. rewrite block_devices_lookup.
    destruct d as [y|]; [case_bool_decide as Hy; [intros [= <-]; by destruct Hy as [-> _]|rewrite lookup_insert_ne by done; apply Hk]|].
    intros [[He <-]|[_ Hb]]%lookup_insert_Some; [|by apply Hk]. by injection He as <-.
  - intros p d. rewrite !block_devices_lookup. intros Hp Hin. case_bool_decide as Hy; [eauto|]. rewrite lookup_insert_ne by done.
    apply Hc; [|done]. destruct (decide (p = peer_id b)) as [->|Hne]; [destruct Hy; by split|].
    by rewrite lookup_insert_ne in Hp by congruence.
Qed.

Lemma covered_unblock p d s : covered s -> covered (unblock p d s).
Proof.
  intros [Hk Hc]. destruct d as [x|]; cbn [unblock]; split; cbn [blocks devices].
  - intros q e b [_ Hb]%lookup_delete_Some. by apply Hk.
  - intros q e Hq He. rewrite lookup_delete_ne in Hq by done.
    assert (Hin : e ∈ known q s /\ (q, Some e) <> (p, Some x)).
    { unfold known at 1 in He. cbn [devices] in He. rewrite unregister_known in He. case_decide as Hqp; [|split; [done|congruence]].
      subst q. apply list_elem_of_filter in He as [Hne He]. split; [done|congruence]. }
    rewrite lookup_delete_ne by (intros E; by apply Hin). apply Hc; [done|apply Hin].
  - intros q e b. rewrite unblock_devices_lookup. destruct e as [y|]; [case_bool_decide; [done|]|];
      intros [_ Hb]%lookup_delete_Some; by apply Hk.
  - intros q e. rewrite !unblock_devices_lookup. unfold known. cbn [devices]. intros Hq He.
    destruct (decide (q = p)) as [->|Hne]; [rewrite lookup_delete_eq in He; by apply elem_of_nil in He|].
    rewrite lookup_delete_ne in He by done. rewrite bool_decide_false by (by intros [? _]).
    rewrite lookup_delete_ne in Hq |- * by congruence. by apply Hc.
Qed.

Lemma covered_register p d s : covered s -> covered (register p d s).1.
Proof.
  intros [Hk Hc]. unfold register. case_bool_decide as Hd; [done|]. cbn [fst]. destruct (blocks s !! (p, None)) as [b|] eqn:Hb; split; cbn [blocks].
  - intros q e b' [[He <-]|[_ Hb']]%lookup_insert_Some; [|by apply Hk]. by injection He as <- <-.
  - intros q e Hq He. rewrite lookup_insert_ne in Hq by done. apply lookup_insert_is_Some'.
    unfold known in He. cbn [devices] in He. destruct (decide (q = p)) as [->|Hne].
    + rewrite lookup_insert_eq in He. apply elem_of_app in He as [He|He%list_elem_of_singleton]; [right; by apply Hc|left; by subst].
    + rewrite lookup_insert_ne in He by done. right. by apply Hc.
  - exact Hk.
  - intros q e Hq He. unfold known in He. cbn [devices] in He. destruct (decide (q = p)) as [->|Hne]; [destruct Hq; congruence|].
    rewrite lookup_insert_ne in He by done. by apply Hc.
Qed.

Lemma covered_register_all p ds s : covered s -> covered (register_all p ds s).1.
Proof.
  unfold register_all. generalize 0 as n. revert s. induction ds as [|d ds IH]; intros s n Hs; cbn [fold_left]; [done|].
  pose proof (covered_register p d s Hs) as H. destruct (register p d s) as [s' r]. by apply IH.
Qed.

End BlockList.

(** ** The calls and their answers *)

Module BlockHistory.

Inductive call : Type :=
| Block (b : BlockedIdentity.t)
| BlockAndDelete (now : Z) (p : string) (r : option string)
| Unblock (p : string) (d : option string)
| IsBlocked (p : string) (d : option string)
| Get (p : string) (d : option string)
| ListBlocked
| Count
| IsBlockedAndDeleted (p : string)
| BlockedOnly
| Register (now : Z) (p d : string)
| RegisterAll (now : Z) (p : string) (ds : list string)
| KnownDevices (p : string).

Inductive answer : Type :=
| AUnit
| ABool (b : bool)
| ABlock (b : option BlockedIdentity.t)
| ABlocks (l : list BlockedIdentity.t)
| ACount (n : Z)
| APeers (s : gset string)
| ADevices (l : list string).

(** The peer a call names. *)
Definition call_ok (c : call) : Prop :=
  match c with
  | Block b => simple (peer_id b)
  | BlockAndDelete _ p _ | Unblock p _ | IsBlocked p _ | Get p _ | IsBlockedAndDeleted p
  | Register _ p _ | RegisterAll _ p _ | KnownDevices p => simple p
  | ListBlocked | Count | BlockedOnly => True
  end.

#[export] Instance call_ok_dec c : Decision (call_ok c).
Proof. destruct c; cbn; apply _. Defined.

Section Code.
Context {B : Type} `{HB : StorageBackend B} `{HJB : SerdeJson BlockedIdentity.t} `{HJD : SerdeJson (list string)}.
Import BlockedManager.

Definition step (c : call) : M B IronCoreError answer :=
  match c with
  | Block b => block b;; mret AUnit
  | BlockAndDelete now p r => block_and_delete now p r;; mret AUnit
  | Unblock p d => unblock p d;; mret AUnit
  | IsBlocked p d => r ← is_blocked p d; mret (ABool r)
  | Get p d => r ← get p d; mret (ABlock r)
  | ListBlocked => r ← list_blocked; mret (ABlocks r)
  | Count => r ← count; mret (ACount r)
  | IsBlockedAndDeleted p => r ← is_blocked_and_deleted p; mret (ABool r)
  | BlockedOnly => r ← blocked_only_peer_ids; mret (APeers r)
  | Register now p d => r ← register_device_id now p d; mret (ABool r)
  | RegisterAll now p ds => r ← register_device_ids now p ds; mret (ACount r)
  | KnownDevices p => r ← get_known_devices p; mret (ADevices r)
  end.
End Code.

Import BlockList.

Definition spec (c : call) (s : BlockList.t) : BlockList.t * answer :=
  match c with
  | Block b => (BlockList.block b s, AUnit)
  | BlockAndDelete now p r => (BlockList.block (deleted_block now p r) s, AUnit)
  | Unblock p d => (BlockList.unblock p d s, AUnit)
  | IsBlocked p d => (s, ABool (BlockList.is_blocked p d s))
  | Get p d => (s, ABlock (blocks s !! (p, d)))
  | ListBlocked => (s, ABlocks (all s))
  | Count => (s, ACount (len (all s)))
  | IsBlockedAndDeleted p => (s, ABool (match blocks s !! (p, None) with Some b => is_deleted b | None => false end))
  | BlockedOnly => (s, APeers (list_to_set (map peer_id (filter (fun b => is_deleted b = false) (all s)))))
  | Register _ p d => let '(s, r) := register p d s in (s, ABool r)
  | RegisterAll _ p ds => let '(s, n) := register_all p ds s in (s, ACount n)
  | KnownDevices p => (s, ADevices (known p s))
  end.

Lemma spec_covered c s : covered s -> covered (spec c s).1.
Proof.
  intros Hs. destruct c; cbn [spec fst]; try done; try (by apply covered_block); try (by apply covered_unblock).
  - pose proof (covered_register p d s Hs). by destruct (register p d s).
  - pose proof (covered_register_all p ds s Hs). by destruct (register_all p ds s).
Qed.

(** Lists of blocks come newest first, otherwise in an unknown order. *)
Definition agrees (a a' : answer) : Prop :=
  match a, a' with
  | ABlocks l, ABlocks l' => l ≡ₚ l' /\ StronglySorted (cmp_le (newest blocked_at)) l
  | _, _ => a = a'
  end.

Definition areas : list Bytes := [as_bytes BLOCKED_PREFIX; as_bytes DEVICE_REGISTRY_PREFIX].

Section Refinement.
Context {B : Type} `{HB : StorageBackend B} {HBS : StorageBackendSpec B} {HBR : Reliable B}.
Context `{HJB : SerdeJson BlockedIdentity.t} {HJBS : SerdeJsonSpec BlockedIdentity.t}.
Context `{HJD : SerdeJson (list string)} {HJDS : SerdeJsonSpec (list string)}.
Implicit Types (s : BlockList.t) (b : B) (c : gmap Bytes Bytes).

Definition related s c : Prop := table block_schema (blocks s) c /\ table registry_schema (devices s) c.

Lemma areas_apart : apart (area block_schema) (area registry_schema).
Proof. apply apart_prefixes; by_eval. Qed.

(** The backend now, against the one at the start of a call. *)
Definition now_at s (c0 : gmap Bytes Bytes) b : Prop := related s (contents b) /\ touches areas c0 (contents b).

Lemma put_block s c0 b p d v (Q : outcome IronCoreError unit -> B -> Prop) : now_at s c0 b -> simple p ->
  (forall b', now_at (mk (<[(p, d) := v]> (blocks s)) (devices s)) c0 b' -> Q (Ok tt) b') ->
  runs (put_json (BlockedManager.block_key p d) v) b Q.
Proof.
  intros [[Hb Hr] Ht] Hp HQ. apply runs_put_json. intros b' e He Hc. apply HQ. split; [split|]; rewrite Hc; cbn.
  - by apply (table_put block_schema _ _ (p, d)).
  - apply table_put_other; [|done]. apply areas_apart. apply (key_area block_schema (p, d)).
  - apply (touches_put _ (area block_schema)); [left|apply (key_area block_schema (p, d))|done].
Qed.

Lemma remove_block s c0 b p d (Q : outcome IronCoreError unit -> B -> Prop) : now_at s c0 b -> simple p ->
  (forall b', now_at (mk (delete (p, d) (blocks s)) (devices s)) c0 b' -> Q (Ok tt) b') ->
  runs (stored (kv_remove (BlockedManager.block_key p d))) b Q.
Proof.
  intros [[Hb Hr] Ht] Hp HQ. apply runs_map_error, runs_remove. intros b' Hc. apply HQ. split; [split|]; rewrite Hc; cbn.
  - by apply (table_remove block_schema _ _ (p, d)).
  - apply table_remove_other; [|done]. apply areas_apart. apply (key_area block_schema (p, d)).
  - apply (touches_remove _ (area block_schema)); [left|apply (key_area block_schema (p, d))|done].
Qed.

Lemma put_registry s c0 b p l (Q : outcome IronCoreError unit -> B -> Prop) : now_at s c0 b ->
  (forall b', now_at (mk (blocks s) (<[p := l]> (devices s))) c0 b' -> Q (Ok tt) b') ->
  runs (put_json (BlockedManager.registry_key p) l) b Q.
Proof.
  intros [[Hb Hr] Ht] HQ. apply runs_put_json. intros b' e He Hc. apply HQ. split; [split|]; rewrite Hc; cbn.
  - apply table_put_other; [|done]. apply (apart_sym _ _ areas_apart), (key_area registry_schema p).
  - by apply (table_put registry_schema _ _ p).
  - apply (touches_put _ (area registry_schema)); [right; left|apply (key_area registry_schema p)|done].
Qed.

Lemma remove_registry s c0 b p (Q : outcome IronCoreError unit -> B -> Prop) : now_at s c0 b ->
  (forall b', now_at (mk (blocks s) (delete p (devices s))) c0 b' -> Q (Ok tt) b') ->
  runs (stored (kv_remove (BlockedManager.registry_key p))) b Q.
Proof.
  intros [[Hb Hr] Ht] HQ. apply runs_map_error, runs_remove. intros b' Hc. apply HQ. split; [split|]; rewrite Hc; cbn.
  - apply table_remove_other; [|done]. apply (apart_sym _ _ areas_apart), (key_area registry_schema p).
  - by apply (table_remove registry_schema _ _ p).
  - apply (touches_remove _ (area registry_schema)); [right; left|apply (key_area registry_schema p)|done].
Qed.

Lemma get_block s c0 b p d (Q : outcome IronCoreError (option BlockedIdentity.t) -> B -> Prop) :
  now_at s c0 b -> simple p -> Q (Ok (blocks s !! (p, d))) b -> runs (get_json (BlockedManager.block_key p d)) b Q.
Proof. intros [[Hb _] _] Hp HQ. by apply (runs_get_json block_schema (blocks s) (p, d)). Qed.

Lemma has_block s c0 b p d (Q : outcome IronCoreError bool -> B -> Prop) :
  now_at s c0 b -> simple p -> Q (Ok (bool_decide (is_Some (blocks s !! (p, d))))) b ->
  runs (r ← stored (kv_get (BlockedManager.block_key p d)); mret (bool_decide (is_Some r))) b Q.
Proof.
  intros [[Hb _] _] Hp HQ. apply runs_bind, runs_map_error, runs_get. cbn. apply runs_ret.
  pose proof (table_get block_schema _ _ (p, d) Hb Hp) as Hg. cbn [key_of block_schema fst snd] in Hg.
  destruct (blocks s !! (p, d)) as [v|]; [destruct Hg as (e & -> & _)|rewrite Hg]; done.
Qed.

Lemma devices_of s c0 b p (Q : outcome IronCoreError (list string) -> B -> Prop) :
  now_at s c0 b -> Q (Ok (known p s)) b -> runs (BlockedManager.get_known_devices p) b Q.
Proof.
  intros [[_ Hr] _] HQ. apply runs_bind.
  apply (runs_get_json registry_schema (devices s) p); [done|done|]. by apply runs_ret.
Qed.

Lemma list_run s c0 b (Q : outcome IronCoreError (list BlockedIdentity.t) -> B -> Prop) : now_at s c0 b ->
  (forall l, l ≡ₚ all s -> StronglySorted (cmp_le (newest blocked_at)) l -> Q (Ok l) b) ->
  runs BlockedManager.list_blocked b Q.
Proof.
  intros [[Hb _] _] HQ. apply runs_bind. apply (runs_scan_table block_schema (blocks s)); [done|].
  intros r l Hrl Hl. apply runs_bind.
  apply (runs_fold_records block_schema _ (fun kv acc => acc ++ [kv.2]) r l); [done|done|].
  apply runs_ret. apply HQ.
  - rewrite sort_by_perm, fold_snd. unfold all. by rewrite Hl.
  - apply (sort_by_ordered (newest blocked_at)).
Qed.

Lemma now_at_start s b : related s (contents b) -> now_at s (contents b) b.
Proof. intros H. split; [done|]. apply touches_refl. Qed.

Lemma storage_key_eq v : as_bytes (storage_key v) = BlockedManager.block_key (peer_id v) (device_id v).
Proof. unfold storage_key, BlockedManager.block_key. by destruct (device_id v). Qed.

Lemma block_run s c0 b v (Q : outcome IronCoreError unit -> B -> Prop) : now_at s c0 b -> simple (peer_id v) ->
  (forall b', now_at (BlockList.block v s) c0 b' -> Q (Ok tt) b') -> runs (BlockedManager.block v) b Q.
Proof.
  intros Hs Hp HQ. unfold BlockedManager.block. rewrite storage_key_eq. apply runs_bind.
  apply (put_block s c0); [done|done|]. intros b1 Hb1. unfold BlockList.block in HQ.
  destruct (device_id v) as [d|] eqn:Hd; [by apply runs_ret, HQ|].
  apply runs_bind. eapply devices_of; [exact Hb1|]. cbn [known devices].
  apply (runs_for_loop _ (fun done _ _ b => now_at (mk (block_devices v done (<[(peer_id v, None) := v]> (blocks s))) (devices s)) c0 b)).
  - done.
  - intros done d rest [] b2 _ Hb2. rewrite storage_key_eq. cbn [peer_id device_id].
    eapply put_block; [exact Hb2|done|]. intros b3 Hb3. exists tt. split; [done|].
    unfold block_devices in *. by rewrite fold_left_app.
  - intros [] b2 Hb2. by apply HQ.
Qed.

Lemma unblock_run s c0 b p d (Q : outcome IronCoreError unit -> B -> Prop) : now_at s c0 b -> simple p ->
  (forall b', now_at (BlockList.unblock p d s) c0 b' -> Q (Ok tt) b') -> runs (BlockedManager.unblock p d) b Q.
Proof.
  intros Hs Hp HQ. destruct d as [d|]; cbn [BlockedManager.unblock BlockList.unblock] in *.
  - apply runs_bind. eapply remove_block; [exact Hs|done|]. intros b1 Hb1.
    apply runs_bind. eapply devices_of; [exact Hb1|]. cbn [known devices].
    change (known p (mk (delete (p, Some d) (blocks s)) (devices s))) with (known p s).
    unfold unregister in HQ. cbn zeta in HQ. destruct (filter (fun d' => d' <> d) (known p s)) as [|x l] eqn:Hl.
    + eapply remove_registry; [exact Hb1|done].
    + eapply put_registry; [exact Hb1|done].
  - apply runs_bind. eapply remove_block; [exact Hs|done|]. intros b1 Hb1.
    apply runs_bind. eapply devices_of; [exact Hb1|]. cbn [known devices].
    change (known p (mk (delete (p, None) (blocks s)) (devices s))) with (known p s).
    apply runs_bind.
    apply (runs_for_loop _ (fun done _ _ b =>
      now_at (mk (fold_left (fun m d => delete (p, Some d) m) done (delete (p, None) (blocks s))) (devices s)) c0 b)).
    + done.
    + intros done d rest [] b2 _ Hb2. eapply remove_block; [exact Hb2|done|]. intros b3 Hb3.
      exists tt. split; [done|]. by rewrite fold_left_app.
    + intros [] b2 Hb2. eapply remove_registry; [exact Hb2|done].
Qed.

Lemma is_blocked_run s c0 b p d (Q : outcome IronCoreError bool -> B -> Prop) : now_at s c0 b -> simple p ->
  Q (Ok (BlockList.is_blocked p d s)) b -> runs (BlockedManager.is_blocked p d) b Q.
Proof.
  intros Hs Hp HQ. unfold BlockedManager.is_blocked. apply runs_bind. unfold BlockList.is_blocked in HQ.
  destruct d as [d|].
  - eapply has_block; [exact Hs|done|]. destruct (bool_decide (is_Some (blocks s !! (p, Some d)))); [done|].
    by eapply has_block.
  - apply runs_ret. eapply has_block; [exact Hs|done|]. by rewrite orb_diag in HQ.
Qed.

Lemma register_run s c0 b now p d (Q : outcome IronCoreError bool -> B -> Prop) : now_at s c0 b -> simple p ->
  (forall b', now_at (register p d s).1 c0 b' -> Q (Ok (register p d s).2) b') ->
  runs (BlockedManager.register_device_id now p d) b Q.
Proof.
  intros Hs Hp HQ. apply runs_bind. eapply devices_of; [exact Hs|]. unfold register in HQ.
  destruct (bool_decide (d ∈ known p s)); [by apply runs_ret, HQ|]. cbn [fst snd] in HQ.
  apply runs_bind. eapply put_registry; [exact Hs|]. intros b1 Hb1.
  apply runs_bind. eapply is_blocked_run; [exact Hb1|done|]. unfold BlockList.is_blocked. rewrite orb_diag. cbn [blocks].
  apply runs_bind. destruct (blocks s !! (p, None)) as [v|] eqn:Hv.
  - rewrite bool_decide_true by eauto. apply runs_bind. eapply get_block; [exact Hb1|done|]. cbn [blocks]. rewrite Hv.
    cbn [mbind option_bind]. rewrite storage_key_eq. cbn [peer_id device_id].
    eapply put_block; [exact Hb1|done|]. intros b2 Hb2. apply runs_ret. by apply HQ.
  - rewrite bool_decide_false by (intros [? ?]; done). apply runs_ret, runs_ret. by apply HQ.
Qed.

Lemma register_all_run s c0 b now p ds (Q : outcome IronCoreError Z -> B -> Prop) : now_at s c0 b -> simple p ->
  (forall b', now_at (register_all p ds s).1 c0 b' -> Q (Ok (register_all p ds s).2) b') ->
  runs (BlockedManager.register_device_ids now p ds) b Q.
Proof.
  intros Hs Hp HQ.
  apply (runs_for_loop _ (fun done _ n b => now_at (register_all p done s).1 c0 b /\ n = (register_all p done s).2)).
  - done.
  - intros done d rest n b1 _ [Hb1 ->]. apply runs_bind. eapply register_run; [exact Hb1|done|]. intros b2 Hb2.
    apply runs_ret. unfold register_all in *. rewrite fold_left_app. cbn [fold_left].
    destruct (fold_left _ done _) as [s1 n1]. cbn [fst snd] in *. destruct (register p d s1) as [s2 r]. cbn [fst snd] in *. eauto.
  - intros n b1 [Hb1 ->]. by apply HQ.
Qed.

(** Every call does what the specification says and touches nothing else. *)
Lemma block_step_refines s b cl : related s (contents b) -> call_ok cl ->
  runs (step cl) b (fun r b' => exists a, r = Ok a /\ agrees a (spec cl s).2 /\
    related (spec cl s).1 (contents b') /\ touches areas (contents b) (contents b')).
Proof.
  intros Hr Hok. pose proof (now_at_start s b Hr) as Hs.
  destruct cl as [v|t p r|p d|p d|p d| | |p| |t p d|t p ds|p]; cbn [call_ok step spec] in *; apply runs_bind.
  - eapply block_run; [exact Hs|done|]. intros b' [? ?]. apply runs_ret. by exists AUnit.
  - unfold BlockedManager.block_and_delete. eapply block_run; [exact Hs|done|]. intros b' [Hb' ?]. apply runs_ret. exists AUnit.
    split_and!; [done|done| |done]. by destruct r.
  - eapply unblock_run; [exact Hs|done|]. intros b' [? ?]. apply runs_ret. by exists AUnit.
  - eapply is_blocked_run; [exact Hs|done|]. apply runs_ret. destruct Hs. eexists. by split_and!.
  - eapply get_block; [exact Hs|done|]. apply runs_ret. destruct Hs. eexists. by split_and!.
  - eapply list_run; [exact Hs|]. intros l Hl Hsort. apply runs_ret. destruct Hs. exists (ABlocks l). by split_and!.
  - apply runs_bind. eapply list_run; [exact Hs|]. intros l Hl Hsort. apply runs_ret, runs_ret. destruct Hs.
    eexists. split_and!; [done| |done|done]. cbn. unfold len. by rewrite Hl.
  - apply runs_bind. eapply get_block; [exact Hs|done|]. apply runs_ret, runs_ret. destruct Hs. eexists. by split_and!.
  - apply runs_bind. eapply list_run; [exact Hs|]. intros l Hl Hsort. apply runs_ret, runs_ret. destruct Hs.
    eexists. split_and!; [done| |done|done]. cbn. f_equal. by rewrite Hl.
  - eapply register_run; [exact Hs|done|]. intros b' [? ?]. apply runs_ret.
    destruct (register p d s) as [s' r]. eexists. by split_and!.
  - eapply register_all_run; [exact Hs|done|]. intros b' [? ?]. apply runs_ret.
    destruct (register_all p ds s) as [s' r]. eexists. by split_and!.
  - eapply devices_of; [exact Hs|]. apply runs_ret. destruct Hs. eexists. by split_and!.
Qed.
End Refinement.
End BlockHistory.
