(* ===== verification/History.v ===== *)
(** * Message history (core/src/store/history.rs)

    Message records as JSON in the shared backend, with queries, the hiding of
    messages of blocked peers, and the retention limits.  Times and message ids
    are arguments; the Unicode lower-casing of a search is a parameter. *)

From S2P Require Import Prelude Backend State Text Records.

Inductive MessageDirection : Type := Sent | Received.

#[export] Instance MessageDirection_eq_dec : EqDecision MessageDirection.
Proof. solve_decision. Defined.

Module MessageRecord.

Record t : Type := mk {
  id : string;
  direction : MessageDirection;
  peer_id : string;
  content : string;
  timestamp : Z;
  sender_timestamp : Z;
  delivered : bool;
  hidden : bool
}.

#[global] Instance eq_dec : EqDecision t.
Proof. solve_decision. Defined.

#[global] Instance layout : Layout t.
Proof.
  apply (layout_iso
    (fun r => (id r, match direction r with Sent => 0 | Received => 1 end, peer_id r, content r, timestamp r, sender_timestamp r,
               Z.b2z (delivered r), Z.b2z (hidden r)))
    (fun '(i, d, p, c, t, s, x, y) => mk i (if d =? 0 then Sent else Received) p c t s (x =? 1) (y =? 1))).
  by intros [? [] ? ? ? ? [] []].
Defined.

#[global] Instance countable : Countable t := layout_countable.

Definition adjust_legacy_timestamps (self : t) : t :=
  if sender_timestamp self =? 0 then
    mk (id self) (direction self) (peer_id self) (content self) (timestamp self) (timestamp self) (delivered self) (hidden self)
  else self.

Definition new_sent (id : string) (now : Z) (peer_id content : string) : t :=
  mk id Sent peer_id content now now false false.

Definition new_received (id : string) (now : Z) (peer_id content : string) (sender_timestamp : Z) : t :=
  mk id Received peer_id content now sender_timestamp true false.

(** [record.hidden = ..] and [record.delivered = true]. *)
Definition set_hidden (h : bool) (self : t) : t :=
  mk (id self) (direction self) (peer_id self) (content self) (timestamp self) (sender_timestamp self) (delivered self) h.

Definition set_delivered (self : t) : t :=
  mk (id self) (direction self) (peer_id self) (content self) (timestamp self) (sender_timestamp self) true (hidden self).
End MessageRecord.

Module HistoryStats.
Record t : Type := mk { total_messages : Z; sent_count : Z; received_count : Z; undelivered_count : Z }.

Definition default_stats : t := mk 0 0 0 0.
End HistoryStats.

Module HistoryManager.
Import MessageRecord.

Definition MSG_PREFIX : string := "msg_".

Section Code.
Context {B : Type} `{HB : StorageBackend B} `{HJ : SerdeJson MessageRecord.t}.
(** [str::to_lowercase], with the tables of Unicode. *)
Context (lower : string -> string).

Abbreviation result := (M B IronCoreError).

Definition msg_key (id : string) : Bytes := as_bytes (MSG_PREFIX +:+ id).

Definition scan_all : result ScanResult := stored (kv_scan (as_bytes MSG_PREFIX)).

Definition add (record : MessageRecord.t) : result unit := put_json (msg_key (id record)) record.

Definition get (id : string) : result (option MessageRecord.t) :=
  r ← get_json (msg_key id);
  mret (adjust_legacy_timestamps <$> r).

(** [records.sort_by_key(Reverse(timestamp))] and the cut at [limit]. *)
Definition newest_first (limit : Z) (records : list MessageRecord.t) : list MessageRecord.t :=
  truncate limit (sort_by (newest timestamp) records).

Definition recent_internal (peer_filter : option string) (limit : Z) (include_hidden : bool)
    : result (list MessageRecord.t) :=
  all ← scan_all;
  records ← for_records (fun _ record acc =>
    let record := adjust_legacy_timestamps record in
    if hidden record && negb include_hidden then mret acc else
    match peer_filter with
    | Some peer => if eq_ignore_ascii_case (peer_id record) peer then mret (acc ++ [record]) else mret acc
    | None => mret (acc ++ [record])
    end) all [];
  mret (newest_first limit records).

Definition recent (peer_filter : option string) (limit : Z) : result (list MessageRecord.t) :=
  recent_internal peer_filter limit false.

Definition recent_including_hidden (peer_filter : option string) (limit : Z) : result (list MessageRecord.t) :=
  recent_internal peer_filter limit true.

Definition conversation (peer_id : string) (limit : Z) : result (list MessageRecord.t) := recent (Some peer_id) limit.

Definition unhide_messages_for_peer (peer : string) : result Z :=
  all ← scan_all;
  for_records (fun _ record count =>
    if hidden record && eq_ignore_ascii_case (peer_id record) peer then
      put_json (msg_key (id record)) (set_hidden false record);;
      mret (wrap 32 (count + 1))
    else mret count) all 0.

Definition hide_messages_for_peer (peer : string) : result Z :=
  all ← scan_all;
  for_records (fun _ record count =>
    if negb (hidden record) && eq_ignore_ascii_case (peer_id record) peer then
      put_json (msg_key (id record)) (set_hidden true record);;
      mret (wrap 32 (count + 1))
    else mret count) all 0.

Definition search (query : string) (limit : Z) : result (list MessageRecord.t) :=
  let query_lower := lower query in
  all ← scan_all;
  records ← for_records (fun _ record acc =>
    let record := adjust_legacy_timestamps record in
    if hidden record then mret acc else
    if str_contains (lower (content record)) query_lower then mret (acc ++ [record]) else mret acc) all [];
  mret (newest_first limit records).

Definition remove_conversation (peer : string) : result unit :=
  all ← scan_all;
  for_records (fun key record _ =>
    let record := adjust_legacy_timestamps record in
    if eq_ignore_ascii_case (peer_id record) peer then stored (kv_remove key) else mret tt) all tt.

Definition mark_delivered (id : string) : result unit :=
  r ← get id;
  match r with
  | Some record => add (set_delivered record)
  | None => mret tt
  end.

Definition clear : result unit :=
  all ← scan_all;
  for_loop (fun kv _ => stored (kv_remove kv.1)) all tt.

Definition delete (id : string) : result unit := stored (kv_remove (msg_key id)).

Definition add_to_stats (record : MessageRecord.t) (stats : HistoryStats.t) : HistoryStats.t :=
  let total := wrap 32 (HistoryStats.total_messages stats + 1) in
  match direction record with
  | Sent =>
      HistoryStats.mk total (wrap 32 (HistoryStats.sent_count stats + 1)) (HistoryStats.received_count stats)
        (if negb (delivered record) then wrap 32 (HistoryStats.undelivered_count stats + 1) else HistoryStats.undelivered_count stats)
  | Received =>
      HistoryStats.mk total (HistoryStats.sent_count stats) (wrap 32 (HistoryStats.received_count stats + 1))
        (HistoryStats.undelivered_count stats)
  end.

Definition stats : result HistoryStats.t :=
  all ← scan_all;
  for_records (fun _ record stats => mret (add_to_stats (adjust_legacy_timestamps record) stats)) all HistoryStats.default_stats.

(** [count_prefix(..).unwrap_or(0) as u32]. *)
Definition count : result Z :=
  r ← attempt (kv_count (as_bytes MSG_PREFIX));
  mret (wrap 32 (default 0 r)).

Definition enforce_retention (max_messages : Z) : result Z :=
  all ← scan_all;
  if len all <=? max_messages then mret 0 else
  records ← for_loop (fun kv acc =>
    lift (match json_from_str kv.2 with Ok rec => Ok (acc ++ [(kv.1, rec)]) | _ => Panic end)) all [];
  let records := sort_by (fun a b => Z.compare (timestamp a.2) (timestamp b.2)) records in
  let to_remove := len records - max_messages in
  for_loop (fun (kv : Bytes * MessageRecord.t) _ => stored (kv_remove kv.1)) (take (Z.to_nat to_remove) records) tt;;
  mret (wrap 32 to_remove).

Definition prune_before (before_timestamp : Z) : result Z :=
  all ← scan_all;
  for_records (fun key record removed =>
    if timestamp record <? before_timestamp then
      stored (kv_remove key);;
      mret (wrap 32 (removed + 1))
    else mret removed) all 0.

Definition flush : result unit :=
  attempt kv_flush;; mret tt.

End Code.
End HistoryManager.
