(* ===== verification/HistoryProps.v ===== *)
(** * The history refines a map of messages

    The calls of the history against a map from message ids to records.  Where
    the code leaves an order open (messages with equal times come in the order
    of the scan), the specification is a relation. *)

From S2P Require Import Prelude Backend State Text Records History.
Import MessageRecord.

Definition msg_schema : schema string MessageRecord.t := prefixed MessageRecord.t HistoryManager.MSG_PREFIX.

Module HistoryCalls.

Inductive call : Type :=
| Add (r : MessageRecord.t)
| Get (i : string)
| Recent (peer : option string) (limit : Z) (include_hidden : bool)
| SetHidden (peer : string) (h : bool)
| Search (query : string) (limit : Z)
| RemoveConversation (peer : string)
| MarkDelivered (i : string)
| Clear
| Delete (i : string)
| Stats
| Count
| EnforceRetention (max_messages : Z)
| PruneBefore (t : Z).

Inductive answer : Type :=
| AUnit
| ARecord (r : option MessageRecord.t)
| ARecords (l : list MessageRecord.t)
| ACount (n : Z)
| AStats (s : HistoryStats.t).

Section Code.
Context {B : Type} `{HB : StorageBackend B} `{HJ : SerdeJson MessageRecord.t} (lower : string -> string).
Import HistoryManager.

Definition step (c : call) : M B IronCoreError answer :=
  match c with
  | Add r => add r;; mret AUnit
  | Get i => r ← get i; mret (ARecord r)
  | Recent p n false => r ← recent p n; mret (ARecords r)
  | Recent p n true => r ← recent_including_hidden p n; mret (ARecords r)
  | SetHidden p false => r ← unhide_messages_for_peer p; mret (ACount r)
  | SetHidden p true => r ← hide_messages_for_peer p; mret (ACount r)
  | Search q n => r ← search lower q n; mret (ARecords r)
  | RemoveConversation p => remove_conversation p;; mret AUnit
  | MarkDelivered i => mark_delivered i;; mret AUnit
  | Clear => clear;; mret AUnit
  | Delete i => delete i;; mret AUnit
  | Stats => r ← stats; mret (AStats r)
  | Count => r ← count; mret (ACount r)
  | EnforceRetention n => r ← enforce_retention n; mret (ACount r)
  | PruneBefore t => r ← prune_before t; mret (ACount r)
  end.

(** ** The specification *)

Implicit Types (s : gmap string MessageRecord.t).

Definition records s : list MessageRecord.t := (map_to_list s).*2.

Definition of_peer (p : string) (r : MessageRecord.t) : Prop := eq_ignore_ascii_case (peer_id r) p = true.

(** The messages a query may show, with the times of old records filled in. *)
Definition visible (p : option string) (include_hidden : bool) (r : MessageRecord.t) : Prop :=
  (hidden r = true -> include_hidden = true) /\ match p with Some p => of_peer p r | None => True end.

Definition found (q : string) (r : MessageRecord.t) : Prop :=
  hidden r = false /\ str_contains (lower (content r)) (lower q) = true.

#[export] Instance of_peer_dec p r : Decision (of_peer p r).
Proof. unfold of_peer. apply _. Defined.

#[export] Instance visible_dec p h r : Decision (visible p h r).
Proof. unfold visible, of_peer. destruct p; apply _. Defined.

#[export] Instance found_dec q r : Decision (found q r).
Proof. unfold found. apply _. Defined.

(** [l] is the [limit] newest of the records [all]. *)
Definition newest_of (limit : Z) (all l : list MessageRecord.t) : Prop :=
  exists all', all' ≡ₚ all /\ l = HistoryManager.newest_first limit all'.

Definition counted (P : MessageRecord.t -> Prop) `{forall r, Decision (P r)} s : Z := len (filter P (records s)).

Definition oldest (a b : string * MessageRecord.t) : comparison := Z.compare (timestamp a.2) (timestamp b.2).

Definition spec (c : call) s s' (a : answer) : Prop :=
  match c with
  | Add r => s' = <[id r := r]> s /\ a = AUnit
  | Get i => s' = s /\ a = ARecord (adjust_legacy_timestamps <$> s !! i)
  | Recent p n h => s' = s /\ exists l, a = ARecords l /\
      newest_of n (filter (visible p h) (map adjust_legacy_timestamps (records s))) l
  | SetHidden p h =>
      s' = (fun r => if bool_decide (of_peer p r) then set_hidden h r else r) <$> s /\
      a = ACount (wrap 32 (counted (fun r => of_peer p r /\ hidden r = negb h) s))
  | Search q n => s' = s /\ exists l, a = ARecords l /\
      newest_of n (filter (found q) (map adjust_legacy_timestamps (records s))) l
  | RemoveConversation p => s' = filter (fun kv => ~ of_peer p kv.2) s /\ a = AUnit
  | MarkDelivered i =>
      s' = match s !! i with Some r => <[i := set_delivered (adjust_legacy_timestamps r)]> s | None => s end /\ a = AUnit
  | Clear => s' = ∅ /\ a = AUnit
  | Delete i => s' = base.delete i s /\ a = AUnit
  | Stats => s' = s /\ a = AStats (HistoryStats.mk (wrap 32 (Z.of_nat (size s)))
      (wrap 32 (counted (fun r => direction r = Sent) s)) (wrap 32 (counted (fun r => direction r = Received) s))
      (wrap 32 (counted (fun r => direction r = Sent /\ delivered r = false) s)))
  | Count => s' = s /\ a = ACount (wrap 32 (Z.of_nat (size s)))
  | EnforceRetention n =>
      if Z.of_nat (size s) <=? n then s' = s /\ a = ACount 0 else
      exists all, all ≡ₚ map_to_list s /\
        s' = filter (fun kv => kv.1 ∉ (take (Z.to_nat (Z.of_nat (size s) - n)) (sort_by oldest all)).*1) s /\
        a = ACount (wrap 32 (Z.of_nat (size s) - n))
  | PruneBefore t =>
      s' = filter (fun kv => t <= timestamp kv.2) s /\
      a = ACount (wrap 32 (counted (fun r => timestamp r < t) s))
  end.

(** Every message is filed under its id. *)
Definition keyed s : Prop := forall k r, s !! k = Some r -> id r = k.

End Code.

(** ** Folds over the records of a map *)

Section Folds.
Implicit Types (l : list (string * MessageRecord.t)).

Lemma fold_filter (P : MessageRecord.t -> Prop) `{forall r, Decision (P r)} (f : MessageRecord.t -> MessageRecord.t) l acc :
  fold_left (fun acc kv => if bool_decide (P (f kv.2)) then acc ++ [f kv.2] else acc) l acc = acc ++ filter P (map f l.*2).
Proof.
  revert acc. induction l as [|kv l IH]; intros acc; cbn [fold_left fmap list_fmap map]; [by rewrite app_nil_r|].
  rewrite IH, filter_cons. repeat case_decide; case_bool_decide; try done. by rewrite <-app_assoc.
Qed.

Lemma fold_count (P : MessageRecord.t -> Prop) `{forall r, Decision (P r)} l n : 0 <= n < 2 ^ 32 ->
  fold_left (fun n (kv : string * MessageRecord.t) => if bool_decide (P kv.2) then wrap 32 (n + 1) else n) l n =
  wrap 32 (n + len (filter P l.*2)).
Proof.
  revert n. induction l as [|kv l IH]; intros n Hn; cbn [fold_left fmap list_fmap].
  - change (len (filter P [])) with 0. rewrite Z.add_0_r. symmetry. by apply wrap_small.
  - rewrite filter_cons. case_bool_decide; case_decide; try done.
    + rewrite IH by (apply fits_wrap; lia). rewrite len_cons. unfold wrap. rewrite Zplus_mod_idemp_l. f_equal. lia.
    + by apply IH.
Qed.

Lemma wrap_succ n m : wrap 32 (wrap 32 (n + 1) + m) = wrap 32 (n + (1 + m)).
Proof. unfold wrap. rewrite Zplus_mod_idemp_l. f_equal. lia. Qed.

Lemma fold_stats l a e c d : fits 32 a -> fits 32 e -> fits 32 c -> fits 32 d ->
  fold_left (fun acc (kv : string * MessageRecord.t) => HistoryManager.add_to_stats (adjust_legacy_timestamps kv.2) acc) l
    (HistoryStats.mk a e c d) =
  HistoryStats.mk (wrap 32 (a + len l)) (wrap 32 (e + len (filter (fun r => direction r = Sent) l.*2)))
    (wrap 32 (c + len (filter (fun r => direction r = Received) l.*2)))
    (wrap 32 (d + len (filter (fun r => direction r = Sent /\ delivered r = false) l.*2))).
Proof.
  revert a e c d. induction l as [|[k r] l IH]; intros a e c d Ha He Hc Hd; cbn [fold_left fmap list_fmap snd].
  - change (len (@nil (string * MessageRecord.t))) with 0. rewrite !filter_nil. change (len (@nil MessageRecord.t)) with 0.
    by rewrite !Z.add_0_r, !wrap_small.
  - assert (Hr : forall s, HistoryManager.add_to_stats (adjust_legacy_timestamps r) s = HistoryManager.add_to_stats r s).
    { intros s. unfold HistoryManager.add_to_stats, adjust_legacy_timestamps. by destruct (sender_timestamp r =? 0). }
    rewrite Hr. unfold HistoryManager.add_to_stats. cbn [HistoryStats.total_messages HistoryStats.sent_count HistoryStats.received_count HistoryStats.undelivered_count].
    rewrite !filter_cons, len_cons.
    destruct (direction r) eqn:Hdir, (delivered r) eqn:Hdel; cbn [negb]; repeat case_decide; try (exfalso; intuition congruence);
      rewrite IH by (done || apply fits_wrap; lia); by rewrite ?len_cons, ?wrap_succ.
Qed.
End Folds.

Section Refinement.
Context {B : Type} `{HB : StorageBackend B} {HBS : StorageBackendSpec B} {HBR : Reliable B}.
Context `{HJ : SerdeJson MessageRecord.t} {HJS : SerdeJsonSpec MessageRecord.t} (lower : string -> string).
Implicit Types (s : gmap string MessageRecord.t) (b : B) (c : gmap Bytes Bytes).

Definition related s c : Prop := table msg_schema s c /\ keyed s.

Definition areas : list Bytes := [area msg_schema].

Lemma put_msg s b r (Q : outcome IronCoreError unit -> B -> Prop) : table msg_schema s (contents b) ->
  (forall b', table msg_schema (<[id r := r]> s) (contents b') -> touches areas (contents b) (contents b') -> Q (Ok tt) b') ->
  runs (HistoryManager.add r) b Q.
Proof.
  intros Ht HQ. apply runs_put_json. intros b' d Hd Hc. apply HQ; rewrite Hc.
  - by apply (table_put msg_schema _ _ (id r)).
  - apply (touches_put _ (area msg_schema)); [left|apply (key_area msg_schema (id r))|apply touches_refl].
Qed.

Lemma get_msg s b i (Q : outcome IronCoreError (option MessageRecord.t) -> B -> Prop) : table msg_schema s (contents b) ->
  Q (Ok (adjust_legacy_timestamps <$> s !! i)) b -> runs (HistoryManager.get i) b Q.
Proof. intros Ht HQ. apply runs_bind. by apply (runs_get_json msg_schema s i). Qed.

(** A query: the scan and a fold that selects records. *)
Lemma query_run (P : MessageRecord.t -> Prop) `{forall r, Decision (P r)}
    (body : Bytes -> MessageRecord.t -> list MessageRecord.t -> M B IronCoreError (list MessageRecord.t))
    limit s b (Q : outcome IronCoreError (list MessageRecord.t) -> B -> Prop) : table msg_schema s (contents b) ->
  (forall k r acc b, body k r acc b =
    (b, Ok (if bool_decide (P (adjust_legacy_timestamps r)) then acc ++ [adjust_legacy_timestamps r] else acc))) ->
  (forall l, newest_of limit (filter P (map adjust_legacy_timestamps (records s))) l -> Q (Ok l) b) ->
  runs (all ← HistoryManager.scan_all; rs ← for_records body all []; mret (HistoryManager.newest_first limit rs)) b Q.
Proof.
  intros Ht Hbody HQ. apply runs_bind. apply (runs_scan_table msg_schema s); [done|]. intros r l Hrl Hl.
  apply runs_bind.
  apply (runs_fold_records msg_schema _ (fun kv acc => if bool_decide (P (adjust_legacy_timestamps kv.2))
    then acc ++ [adjust_legacy_timestamps kv.2] else acc) r l); [done|by intros; rewrite Hbody|].
  apply runs_ret, HQ. rewrite fold_filter. cbn [app]. eexists. split; [|done]. unfold records. by rewrite Hl.
Qed.

(** A loop that changes records and counts the changed ones. *)
Lemma amend_run (body : Bytes -> MessageRecord.t -> Z -> M B IronCoreError Z) (f : MessageRecord.t -> option (option MessageRecord.t))
    (P : MessageRecord.t -> Prop) `{forall r, Decision (P r)} s b (Q : outcome IronCoreError Z -> B -> Prop) :
  table msg_schema s (contents b) ->
  (forall k r n b, s !! k = Some r -> body (key_of msg_schema k) r n b =
    amend_turn f (fun r n => if bool_decide (P r) then wrap 32 (n + 1) else n) (key_of msg_schema k) r n b) ->
  (forall b', table msg_schema (omap (outcome_of f) s) (contents b') -> touches areas (contents b) (contents b') ->
    Q (Ok (wrap 32 (counted P s))) b') ->
  runs (all ← HistoryManager.scan_all; for_records body all 0) b Q.
Proof.
  intros Ht Hbody HQ. apply runs_bind. apply (runs_scan_table msg_schema s); [done|]. intros r l Hrl Hl.
  eapply (runs_amend msg_schema body f); [done|exact Hrl|exact Hl|exact Hbody|].
  intros b' Ht' Hto. cbn beta. rewrite (fold_count P) by lia. rewrite Z.add_0_l. unfold counted, records in HQ.
  replace (len (filter P l.*2)) with (len (filter P (map_to_list s).*2)); [by apply HQ|].
  unfold len. by rewrite Hl.
Qed.

(** The pairs of keys and records that the retention sorts. *)
Definition keyed_pair (kv : string * MessageRecord.t) : Bytes * MessageRecord.t := (HistoryManager.msg_key kv.1, kv.2).

Lemma read_all_run r l b (Q : outcome IronCoreError (list (Bytes * MessageRecord.t)) -> B -> Prop) :
  Forall2 (entry msg_schema) r l -> Q (Ok (map keyed_pair l)) b ->
  runs (for_loop (fun (kv : Bytes * Bytes) acc =>
    lift (match json_from_str kv.2 with Ok rec => Ok (acc ++ [(kv.1, rec)]) | _ => Panic end)) r []) b Q.
Proof.
  intros Hrl HQ.
  assert (H : forall acc, Q (Ok (acc ++ map keyed_pair l)) b -> runs (for_loop (fun (kv : Bytes * Bytes) acc =>
    lift (match json_from_str kv.2 with Ok rec => Ok (acc ++ [(kv.1, rec)]) | _ => Panic end)) r acc) b Q); [|by apply (H [])].
  clear HQ. induction Hrl as [|[k d] [i v] r l [Hk Hd] _ IH]; intros acc HQ; cbn [for_loop fst snd] in *.
  - rewrite app_nil_r in HQ. by apply runs_ret.
  - apply runs_bind, runs_lift. rewrite (json_roundtrip _ _ Hd). apply IH. rewrite <-app_assoc, Hk. done.
Qed.

Lemma retention_run s b n (Q : outcome IronCoreError Z -> B -> Prop) : table msg_schema s (contents b) ->
  (forall s' a b', spec lower (EnforceRetention n) s s' (ACount a) -> table msg_schema s' (contents b') ->
    touches areas (contents b) (contents b') -> Q (Ok a) b') ->
  runs (HistoryManager.enforce_retention n) b Q.
Proof.
  intros Ht HQ. apply runs_bind. apply (runs_scan_table msg_schema s); [done|]. intros r l Hrl Hl.
  assert (Hlen : len r = Z.of_nat (size s)).
  { unfold len. rewrite (Forall2_length _ _ _ Hrl), Hl, length_map_to_list. done. }
  rewrite Hlen. cbn [spec] in HQ. destruct (Z.of_nat (size s) <=? n) eqn:Hn.
  { apply runs_ret. apply (HQ s); [done|done|apply touches_refl]. }
  apply runs_bind, (read_all_run r l); [done|]. rewrite sort_by_map. cbn [keyed_pair snd]. fold oldest.
  change (fun x y => Z.compare (timestamp (keyed_pair x).2) (timestamp (keyed_pair y).2)) with oldest.
  rewrite len_map. assert (Hl2 : len (sort_by oldest l) = Z.of_nat (size s)).
  { unfold len. rewrite sort_by_perm, Hl, length_map_to_list. done. }
  rewrite Hl2. apply runs_bind. rewrite <-fmap_take.
  set (victims := take (Z.to_nat (Z.of_nat (size s) - n)) (sort_by oldest l)).
  apply (runs_remove_entries msg_schema (keyed_pair <$> victims) fst victims s); [done| |].
  - apply Forall2_fmap_l. apply Forall_Forall2_diag, Forall_true. by intros kv.
  - intros b' Ht' Hto. apply runs_ret. eapply HQ; [|exact Ht'|done]. exists l. by split_and!.
Qed.

Lemma spec_keyed cl s s' a : spec lower cl s s' a -> keyed s -> keyed s'.
Proof.
  intros Hs Hk. destruct cl as [r|i|p n h|p h|q n|p|i| |i| | |n|t]; cbn [spec] in Hs;
    try (destruct Hs as [-> _]); try exact Hk.
  - intros k v [[<- <-]|[_ Hv]]%lookup_insert_Some; [done|]. by apply Hk.
  - intros k v [r [<- Hr]]%lookup_fmap_Some. case_bool_decide; cbn; by apply Hk.
  - intros k v [Hv _]%map_lookup_filter_Some. by apply Hk.
  - destruct (s !! i) as [r|] eqn:Hr; [|done]. intros k v [[<- <-]|[_ Hv]]%lookup_insert_Some; [|by apply Hk].
    rewrite <-(Hk i r Hr). unfold adjust_legacy_timestamps. by case_match.
  - intros k v Hv. by rewrite lookup_empty in Hv.
  - intros k v [_ Hv]%lookup_delete_Some. by apply Hk.
  - destruct (_ <=? _); [by destruct Hs as [-> _]|]. destruct Hs as (l & _ & -> & _).
    intros k v [Hv _]%map_lookup_filter_Some. by apply Hk.
  - intros k v [Hv _]%map_lookup_filter_Some. by apply Hk.
Qed.

(** What the code must do in a call. *)
Definition refined cl s b (r : outcome IronCoreError answer) b' : Prop := exists a s', r = Ok a /\
  spec lower cl s s' a /\ related s' (contents b') /\ touches areas (contents b) (contents b').

Lemma refined_intro cl s b a s' b' : related s (contents b) -> spec lower cl s s' a -> table msg_schema s' (contents b') ->
  touches areas (contents b) (contents b') -> refined cl s b (Ok a) b'.
Proof. intros [_ Hk] Hs Ht Hto. exists a, s'. split_and!; try done. split; [done|]. by apply (spec_keyed cl s _ a). Qed.

Lemma refined_same cl s b a : related s (contents b) -> spec lower cl s s a -> refined cl s b (Ok a) b.
Proof. intros Hr Hs. apply (refined_intro cl s b a s); [done|done|apply Hr|apply touches_refl]. Qed.

Lemma recent_refined s b p n h : related s (contents b) ->
  runs (HistoryManager.recent_internal p n h ≫= fun r => mret (ARecords r)) b (refined (Recent p n h) s b).
Proof.
  intros Hr. apply runs_bind. apply (query_run (visible p h) _ n s); [apply Hr| |].
  - intros k r acc b'. cbn zeta. case_bool_decide as Hv; unfold visible, of_peer in Hv;
      destruct (hidden (adjust_legacy_timestamps r)), h, p as [p|]; cbn [andb negb] in *;
      try destruct (eq_ignore_ascii_case _ _); try done; exfalso; intuition congruence.
  - intros l Hl. apply runs_ret, refined_same; [done|]. split; [done|]. by exists l.
Qed.

Lemma search_refined s b q n : related s (contents b) ->
  runs (HistoryManager.search lower q n ≫= fun r => mret (ARecords r)) b (refined (Search q n) s b).
Proof.
  intros Hr. apply runs_bind. apply (query_run (found lower q) _ n s); [apply Hr| |].
  - intros k r acc b'. cbn zeta. case_bool_decide as Hv; unfold found in Hv;
      destruct (hidden (adjust_legacy_timestamps r)); try destruct (str_contains _ _); try done; exfalso; intuition congruence.
  - intros l Hl. apply runs_ret, refined_same; [done|]. split; [done|]. by exists l.
Qed.

(** The change of hidden and shown messages. *)
Definition toggle p h r : option (option MessageRecord.t) :=
  if bool_decide (of_peer p r /\ hidden r = negb h) then Some (Some (set_hidden h r)) else None.

Lemma toggle_all p h s : omap (outcome_of (toggle p h)) s = (fun r => if bool_decide (of_peer p r) then set_hidden h r else r) <$> s.
Proof.
  apply map_eq. intros k. rewrite lookup_omap, lookup_fmap. destruct (s !! k) as [r|]; [|done]. cbn. unfold outcome_of, toggle.
  case_bool_decide as H1; case_bool_decide as H2; try done; try tauto.
  f_equal. destruct r as [? ? ? ? ? ? ? x]. unfold set_hidden. cbn in *. f_equal. destruct h, x; try done; tauto.
Qed.

Lemma hide_refined s b p h body : related s (contents b) ->
  (forall k r m b, s !! k = Some r -> body (key_of msg_schema k) r m b =
    amend_turn (toggle p h) (fun r n => if bool_decide (of_peer p r /\ hidden r = negb h) then wrap 32 (n + 1) else n) (key_of msg_schema k) r m b) ->
  runs ((all ← HistoryManager.scan_all; for_records body all 0) ≫= fun r => mret (ACount r)) b (refined (SetHidden p h) s b).
Proof.
  intros Hr Hbody. apply runs_bind. eapply amend_run; [apply Hr|exact Hbody|]. intros b' Ht' Hto. apply runs_ret.
  rewrite toggle_all in Ht'. eapply refined_intro; [done|done|exact Ht'|done].
Qed.

(** The removal of the records with [P]. *)
Lemma drop_all (P : MessageRecord.t -> Prop) `{forall r, Decision (P r)} s :
  omap (outcome_of (fun r => if bool_decide (P r) then Some None else None)) s = filter (fun kv => ~ P kv.2) s.
Proof.
  apply map_eq. intros k. apply option_eq. intros v. rewrite lookup_omap, map_lookup_filter_Some. cbn.
  destruct (s !! k) as [r|]; cbn; [|split; [done|by intros []]]. unfold outcome_of.
  case_bool_decide; split; try done; [by intros [[= <-] ?]|by intros [= <-]|by intros [[= <-] ?]].
Qed.

Lemma remove_conversation_refined s b p : related s (contents b) ->
  runs (HistoryManager.remove_conversation p;; mret AUnit) b (refined (RemoveConversation p) s b).
Proof.
  intros Hr. apply runs_bind, runs_bind. apply (runs_scan_table msg_schema s); [apply Hr|]. intros r l Hrl Hl.
  eapply (runs_amend msg_schema _ (fun r => if bool_decide (of_peer p r) then Some None else None) (fun _ acc => tt)); [apply Hr|exact Hrl|exact Hl| |].
  - intros k r' [] b' _. unfold amend_turn. cbn zeta.
    replace (peer_id (adjust_legacy_timestamps r')) with (peer_id r') by (unfold adjust_legacy_timestamps; by case_match).
    case_bool_decide as Hp; unfold of_peer in Hp; destruct (eq_ignore_ascii_case (peer_id r') p); try done.
    unfold mbind, M_bind. by destruct (stored _ b') as [? [[]|?|]].
  - intros b' Ht' Hto. rewrite drop_all in Ht'. apply runs_ret. by eapply refined_intro.
Qed.

Lemma prune_refined s b t : related s (contents b) ->
  runs (HistoryManager.prune_before t ≫= fun r => mret (ACount r)) b (refined (PruneBefore t) s b).
Proof.
  intros Hr. apply runs_bind.
  eapply (amend_run _ (fun r => if bool_decide (timestamp r < t) then Some None else None) (fun r => timestamp r < t)); [apply Hr| |].
  - intros k r m b' _. unfold amend_turn. destruct (Z.ltb_spec (timestamp r) t); case_bool_decide; done || lia.
  - intros b' Ht' Hto. rewrite drop_all in Ht'. apply runs_ret. eapply refined_intro; [done| |exact Ht'|done]. split; [|done].
    apply map_filter_ext. intros k v _. cbn. lia.
Qed.

Lemma clear_refined s b : related s (contents b) -> runs (HistoryManager.clear;; mret AUnit) b (refined Clear s b).
Proof.
  intros Hr. apply runs_bind, runs_bind. apply (runs_scan_table msg_schema s); [apply Hr|]. intros r l Hrl Hl.
  apply (runs_remove_entries msg_schema r fst l s); [apply Hr| |].
  - eapply Forall2_impl; [exact Hrl|]. intros kd kv [Hkd _]. by split.
  - intros b' Ht' Hto. apply runs_ret. apply (refined_intro _ s b _ ∅); [done|done| |done].
    replace ∅ with (filter (fun kv : string * MessageRecord.t => kv.1 ∉ l.*1) s); [done|].
    apply map_empty_filter_2. intros k v Hv Hni. apply Hni. rewrite Hl.
    apply (list_elem_of_fmap_2 fst _ (k, v)). by apply elem_of_map_to_list.
Qed.

Lemma mark_delivered_refined s b i : related s (contents b) ->
  runs (HistoryManager.mark_delivered i;; mret AUnit) b (refined (MarkDelivered i) s b).
Proof.
  intros Hr. apply runs_bind, runs_bind. apply (get_msg s); [apply Hr|].
  destruct (s !! i) as [r|] eqn:Hi; cbn [fmap option_fmap option_map].
  - assert (Hid : id (set_delivered (adjust_legacy_timestamps r)) = i).
    { rewrite <-(proj2 Hr i r Hi). unfold adjust_legacy_timestamps. by case_match. }
    apply (put_msg s); [apply Hr|]. rewrite Hid. intros b' Ht' Hto. apply runs_ret.
    eapply refined_intro; [done| |exact Ht'|done]. cbn [spec]. by rewrite Hi.
  - apply runs_ret, runs_ret, refined_same; [done|]. cbn [spec]. by rewrite Hi.
Qed.

Lemma stats_refined s b : related s (contents b) -> runs (HistoryManager.stats ≫= fun r => mret (AStats r)) b (refined Stats s b).
Proof.
  intros Hr. apply runs_bind, runs_bind. apply (runs_scan_table msg_schema s); [apply Hr|]. intros r l Hrl Hl.
  eapply (runs_fold_records msg_schema _ (fun kv acc => HistoryManager.add_to_stats (adjust_legacy_timestamps kv.2) acc)); [exact Hrl|done|].
  apply runs_ret. unfold HistoryStats.default_stats. rewrite fold_stats by (unfold fits; lia). rewrite !Z.add_0_l.
  apply refined_same; [done|]. split; [done|]. unfold counted, records, len. by rewrite !Hl, length_map_to_list.
Qed.

Lemma count_run s b (Q : outcome IronCoreError Z -> B -> Prop) : table msg_schema s (contents b) ->
  Q (Ok (wrap 32 (Z.of_nat (size s)))) b -> runs HistoryManager.count b Q.
Proof.
  intros Ht HQ. apply runs_bind, runs_attempt, runs_count, runs_ret. cbn [default].
  change (as_bytes HistoryManager.MSG_PREFIX) with (area msg_schema). by rewrite (table_count msg_schema s _ Ht).
Qed.

Lemma history_step_refines s b cl : related s (contents b) -> runs (step lower cl) b (refined cl s b).
Proof.
  intros Hr. destruct cl as [r|i|p n h|p h|q n|p|i| |i| | |n|t]; cbn [step].
  - apply runs_bind. apply (put_msg s); [apply Hr|]. intros b' Ht' Hto. apply runs_ret. by eapply refined_intro.
  - apply runs_bind. apply (get_msg s); [apply Hr|]. by apply runs_ret, refined_same.
  - pose proof (recent_refined s b p n h Hr) as H. by destruct h.
  - destruct h; (apply hide_refined; [done|]); intros k r m b' Hi; unfold amend_turn, toggle; cbv beta;
      rewrite (proj2 Hr k r Hi : id r = k); cbn [negb];
      case_bool_decide as Hp; unfold of_peer in Hp;
      destruct (hidden r), (eq_ignore_ascii_case (peer_id r) p); cbn [negb andb]; try done; exfalso; intuition congruence.
  - by apply search_refined.
  - by apply remove_conversation_refined.
  - by apply mark_delivered_refined.
  - by apply clear_refined.
  - apply runs_bind, runs_map_error, runs_remove. intros b' Hc. apply runs_ret.
    apply (refined_intro _ s b _ (base.delete i s)); [done|done| |]; rewrite Hc; [apply (table_remove msg_schema _ _ i); [apply Hr|done]|].
    apply (touches_remove _ (area msg_schema)); [left|apply (key_area msg_schema i)|apply touches_refl].
  - by apply stats_refined.
  - apply runs_bind. apply (count_run s); [apply Hr|]. by apply runs_ret, refined_same.
  - apply runs_bind. apply (retention_run s); [apply Hr|]. intros s' a b' Hs Ht' Hto. apply runs_ret. by eapply refined_intro.
  - by apply prune_refined.
Qed.
End Refinement.
End HistoryCalls.
