(* ===== verification/Contacts.v ===== *)
(** * Contacts (core/src/store/contacts.rs)

    Contact records as JSON in the shared backend, the migration of records
    from before the key prefix, and the recovery of contacts from the message
    history.  The clock is an argument; UUIDs, base 58, hexadecimal decoding,
    the check of Ed25519 keys and Unicode lower-casing are parameters. *)

From S2P Require Import Prelude Drift Backend State Text Records History MeshStore.

Module Contact.

Record t : Type := mk {
  peer_id : string;
  nickname : option string;
  local_nickname : option string;
  public_key : string;
  added_at : Z;
  last_seen : option Z;
  notes : option string;
  last_known_device_id : option string
}.

#[global] Instance eq_dec : EqDecision t.
Proof. solve_decision. Defined.

#[global] Instance layout : Layout t.
Proof.
  apply (layout_iso
    (fun c => (peer_id c, nickname c, local_nickname c, public_key c, added_at c, last_seen c, notes c, last_known_device_id c))
    (fun '(p, n, l, k, a, s, o, d) => mk p n l k a s o d)).
  by intros [].
Defined.

#[global] Instance countable : Countable t := layout_countable.

Definition new (now : Z) (peer_id public_key : string) : t := mk peer_id None None public_key now None None None.

Definition with_nickname (nickname : string) (self : t) : t :=
  mk (peer_id self) (Some nickname) (local_nickname self) (public_key self) (added_at self) (last_seen self) (notes self)
    (last_known_device_id self).

Definition display_name (self : t) : string :=
  match local_nickname self with
  | Some local => local
  | None => default (peer_id self) (nickname self)
  end.

Definition federated_nickname (self : t) : option string := nickname self.

(** Assignments to single fields. *)
Definition set_nickname_field (n : option string) (self : t) : t :=
  mk (peer_id self) n (local_nickname self) (public_key self) (added_at self) (last_seen self) (notes self)
    (last_known_device_id self).

Definition set_local_nickname_field (n : option string) (self : t) : t :=
  mk (peer_id self) (nickname self) n (public_key self) (added_at self) (last_seen self) (notes self)
    (last_known_device_id self).

Definition set_last_seen_field (s : option Z) (self : t) : t :=
  mk (peer_id self) (nickname self) (local_nickname self) (public_key self) (added_at self) s (notes self)
    (last_known_device_id self).

Definition set_device_field (d : option string) (self : t) : t :=
  mk (peer_id self) (nickname self) (local_nickname self) (public_key self) (added_at self) (last_seen self) (notes self) d.
End Contact.

(** [str::cmp]: the bytes, lexicographically. *)
Fixpoint bytes_cmp (a b : Bytes) : comparison :=
  match a, b with
  | [], [] => Eq
  | [], _ => Lt
  | _, [] => Gt
  | x :: a, y :: b => lex (Z.compare x y) (bytes_cmp a b)
  end.

#[export] Instance bytes_cmp_order : CmpOrder bytes_cmp.
Proof.
  split.
  - induction x as [|x a IH]; intros [|y b]; cbn; try done.
    rewrite (Z.compare_antisym y x), IH. by destruct (Z.compare y x).
  - unfold cmp_le. induction x as [|x a IH]; intros [|y b] [|z c]; cbn; try done.
    destruct (Z.compare_spec x y), (Z.compare_spec y z), (Z.compare_spec x z); cbn; subst; try done; try lia.
    apply IH.
Qed.

Definition by_display_name (a b : Contact.t) : comparison :=
  bytes_cmp (as_bytes (Contact.display_name a)) (as_bytes (Contact.display_name b)).

(** The crates the contacts use, and the Unicode tables. *)
Class ContactCrates : Type := {
  uuid_parses : string -> bool;
  hex_decode_str : string -> option Bytes;
  bs58_decode : string -> option Bytes;
  verifying_key_ok : Bytes -> bool;
  contact_hex :: Hex;
  unicode_lower : string -> string
}.

Module ContactManager.
Import Contact.

Definition CONTACT_KEY_PREFIX : string := "contact:".

Definition MIGRATED_KEY : Bytes := as_bytes "metadata_contacts_migrated".

Section Code.
Context {B : Type} `{HB : StorageBackend B} `{HJ : SerdeJson Contact.t} `{HJM : SerdeJson MessageRecord.t} `{HC : ContactCrates}.

Abbreviation result := (M B IronCoreError).

Definition contact_key (peer_id : string) : Bytes := as_bytes (CONTACT_KEY_PREFIX +:+ peer_id).

(** [.map(|opt| opt.is_some()).unwrap_or(false)]. *)
Definition present (k : Bytes) : result bool :=
  r ← attempt (kv_get k);
  mret (bool_decide (is_Some (mjoin r))).

(** One entry of the migration. *)
Definition migrate_entry (key value : Bytes) (migrated : Z) : result Z :=
  if bool_decide (as_bytes CONTACT_KEY_PREFIX `prefix_of` key) then mret migrated else
  match json_from_str value with
  | Ok contact =>
      if bool_decide (as_bytes (peer_id contact) <> key) then mret migrated else
      let prefixed := contact_key (peer_id contact) in
      already_exists ← present prefixed;
      if already_exists : bool then attempt (kv_remove key);; mret migrated else
      r ← attempt (kv_put prefixed value);
      match r with
      | Some _ => attempt (kv_remove key);; mret (wrap 32 (migrated + 1))
      | None => mret migrated
      end
  | Err _ => mret migrated
  | Panic => lift Panic
  end.

Definition migrate_unprefixed_contacts : result unit :=
  done ← present MIGRATED_KEY;
  if done : bool then mret tt else
  entries ← attempt (kv_scan []);
  match entries with
  | None => mret tt
  | Some entries =>
      for_loop (fun kv migrated => migrate_entry kv.1 kv.2 migrated) entries 0;;
      attempt (kv_put MIGRATED_KEY (as_bytes "true"));;
      mret tt
  end.

(** [ContactManager::new]. *)
Definition open : result unit := migrate_unprefixed_contacts.

Definition is_libp2p_ed25519 (bytes : Bytes) : bool :=
  bool_decide (take 6 bytes = [0; 36; 8; 1; 18; 32]).

Definition derive_public_key_from_peer_id (peer_id : string) : outcome IronCoreError string :=
  let trimmed := trim peer_id in
  if (String.length trimmed =? 64)%nat && forallb is_ascii_hexdigit (as_bytes trimmed) then
    match hex_decode_str trimmed with
    | Some bytes =>
        if (len bytes =? 32) && verifying_key_ok bytes then Ok (to_lowercase trimmed) else Err InvalidInput
    | None => Err InvalidInput
    end
  else
    match bs58_decode trimmed with
    | Some bytes =>
        if (len bytes =? 38) && is_libp2p_ed25519 bytes then Ok (hex_encode (drop 6 bytes)) else
        if len bytes >=? 32 then Ok (hex_encode (drop (Z.to_nat (len bytes - 32)) bytes)) else Err InvalidInput
    | None => Err InvalidInput
    end.

Definition add (contact : Contact.t) : result unit := put_json (contact_key (peer_id contact)) contact.

Definition get (peer_id : string) : result (option Contact.t) := get_json (contact_key peer_id).

Definition remove (peer_id : string) : result unit := stored (kv_remove (contact_key peer_id)).

(** One message of the recovery; [self.get(..).is_ok() && self.get(..)?.is_none()]. *)
Definition reconcile_message (now : Z) (msg : MessageRecord.t) (recovered_count : Z) : result Z :=
  let peer := MessageRecord.peer_id msg in
  first ← attempt (get peer);
  match first with
  | None => mret recovered_count
  | Some _ =>
      known ← get peer;
      match known with
      | Some _ => mret recovered_count
      | None =>
          match derive_public_key_from_peer_id peer with
          | Ok pub_key => add (new now peer pub_key);; mret (wrap 32 (recovered_count + 1))
          | Err _ => mret recovered_count
          | Panic => lift Panic
          end
      end
  end.

Definition reconcile_from_history (now : Z) : result Z :=
  all_messages ← HistoryManager.recent_including_hidden None 10000;
  for_loop (reconcile_message now) all_messages 0.

Definition list_contacts : result (list Contact.t) :=
  all ← stored (kv_scan (as_bytes CONTACT_KEY_PREFIX));
  contacts ← for_records (fun _ contact acc => mret (acc ++ [contact])) all [];
  mret (sort_by by_display_name contacts).

Definition matches (query_lower : string) (contact : Contact.t) : bool :=
  let has s := str_contains (unicode_lower s) query_lower in
  let has_opt o := match o with Some n => has n | None => false end in
  has (peer_id contact) || has (public_key contact) || has_opt (nickname contact) || has_opt (local_nickname contact).

Definition search (query : string) : result (list Contact.t) :=
  let query_lower := unicode_lower query in
  all ← list_contacts;
  mret (filter (fun c => matches query_lower c = true) all).

(** [nickname.map(|n| n.trim().to_string()).filter(|n| !n.is_empty())]. *)
Definition normalize_nickname (nickname : option string) : option string :=
  n ← nickname;
  let n := trim n in
  if str_is_empty n then None else Some n.

Definition set_nickname (peer_id : string) (nickname : option string) : result unit :=
  r ← get peer_id;
  match r with
  | Some contact => add (set_nickname_field (normalize_nickname nickname) contact)
  | None => fail InvalidInput
  end.

Definition set_local_nickname (peer_id : string) (nickname : option string) : result unit :=
  r ← get peer_id;
  match r with
  | Some contact => add (set_local_nickname_field (normalize_nickname nickname) contact)
  | None => fail InvalidInput
  end.

Definition update_last_seen (now : Z) (peer_id : string) : result unit :=
  r ← get peer_id;
  match r with
  | Some contact => add (set_last_seen_field (Some now) contact)
  | None => mret tt
  end.

Definition update_last_known_device_id (peer_id : string) (device_id : option string) : result unit :=
  r ← get peer_id;
  match r with
  | Some contact =>
      match device_id with
      | None => add (set_device_field None contact)
      | Some device_id =>
          let normalized := trim device_id in
          if negb (str_is_empty normalized) && uuid_parses normalized
          then add (set_device_field (Some normalized) contact) else mret tt
      end
  | None => mret tt
  end.

(** [count_prefix(..).unwrap_or(0)]. *)
Definition raw_count : result Z :=
  r ← attempt (kv_count (as_bytes CONTACT_KEY_PREFIX));
  mret (default 0 r).

Definition count : result Z :=
  n ← raw_count;
  mret (wrap 32 n).

Definition flush : result unit := attempt kv_flush;; mret tt.

Definition verify_integrity : result unit :=
  contact_count ← count;
  raw_entry_count ← raw_count;
  if (contact_count =? 0) && (raw_entry_count >? 0) then
    r ← attempt (kv_scan (as_bytes CONTACT_KEY_PREFIX));
    if bool_decide (default [] r = []) then mret tt else fail CorruptionDetected
  else mret tt.

End Code.
End ContactManager.
