(* ===== verification/ContactsProps.v ===== *)
(** * Contacts refine a map, and the migration moves every old record

    The calls of the contact manager against a map from peer ids to contacts,
    and what the migration of records under bare peer ids does to a backend. *)

From S2P Require Import Prelude Drift Backend State Text Records History HistoryProps MeshStore Contacts.
Import Contact.

Definition contact_schema : schema string Contact.t := prefixed Contact.t ContactManager.CONTACT_KEY_PREFIX.

Module ContactCalls.

Inductive call : Type :=
| Add (c : Contact.t)
| Get (p : string)
| Remove (p : string)
| ListAll
| Search (query : string)
| SetNickname (p : string) (n : option string)
| SetLocalNickname (p : string) (n : option string)
| UpdateLastSeen (now : Z) (p : string)
| UpdateDevice (p : string) (d : option string)
| Count.

Inductive answer : Type :=
| AUnit
| AContact (c : option Contact.t)
| AContacts (l : list Contact.t)
| ACount (n : Z).

Section Code.
Context {B : Type} `{HB : StorageBackend B} `{HJ : SerdeJson Contact.t} `{HC : ContactCrates}.
Import ContactManager.

Definition step (c : call) : M B IronCoreError answer :=
  match c with
  | Add c => add c;; mret AUnit
  | Get p => r ← get p; mret (AContact r)
  | Remove p => remove p;; mret AUnit
  | ListAll => r ← list_contacts; mret (AContacts r)
  | Search q => r ← search q; mret (AContacts r)
  | SetNickname p n => set_nickname p n;; mret AUnit
  | SetLocalNickname p n => set_local_nickname p n;; mret AUnit
  | UpdateLastSeen now p => update_last_seen now p;; mret AUnit
  | UpdateDevice p d => update_last_known_device_id p d;; mret AUnit
  | Count => r ← count; mret (ACount r)
  end.

(** ** The specification *)

Implicit Types (s : gmap string Contact.t).

Definition contacts s : list Contact.t := (map_to_list s).*2.

(** The contacts in the order of their names; equal names in any order. *)
Definition in_order (all l : list Contact.t) : Prop := l ≡ₚ all /\ StronglySorted (cmp_le by_display_name) l.

(** A change of one contact; unknown peers get the answer [missing]. *)
Definition change (f : Contact.t -> Contact.t) (p : string) (missing : outcome IronCoreError answer) s s' (a : outcome IronCoreError answer) : Prop :=
  match s !! p with
  | Some c => s' = <[p := f c]> s /\ a = Ok AUnit
  | None => s' = s /\ a = missing
  end.

Definition device_update (d : option string) (c : Contact.t) : Contact.t :=
  match d with
  | None => set_device_field None c
  | Some d => if negb (str_is_empty (trim d)) && uuid_parses (trim d) then set_device_field (Some (trim d)) c else c
  end.

Definition spec (c : call) s s' (a : outcome IronCoreError answer) : Prop :=
  match c with
  | Add c => s' = <[peer_id c := c]> s /\ a = Ok AUnit
  | Get p => s' = s /\ a = Ok (AContact (s !! p))
  | Remove p => s' = delete p s /\ a = Ok AUnit
  | ListAll => s' = s /\ exists l, a = Ok (AContacts l) /\ in_order (contacts s) l
  | Search q => s' = s /\ exists l, a = Ok (AContacts l) /\
      in_order (filter (fun c => matches (unicode_lower q) c = true) (contacts s)) l
  | SetNickname p n => change (set_nickname_field (normalize_nickname n)) p (Err InvalidInput) s s' a
  | SetLocalNickname p n => change (set_local_nickname_field (normalize_nickname n)) p (Err InvalidInput) s s' a
  | UpdateLastSeen now p => change (set_last_seen_field (Some now)) p (Ok AUnit) s s' a
  | UpdateDevice p d => change (device_update d) p (Ok AUnit) s s' a
  | Count => s' = s /\ a = Ok (ACount (wrap 32 (Z.of_nat (size s))))
  end.

(** Every contact is filed under its peer id. *)
Definition keyed s : Prop := forall p c, s !! p = Some c -> peer_id c = p.
End Code.

Definition areas : list Bytes := [area contact_schema].

Section Refinement.
Context {B : Type} `{HB : StorageBackend B} {HBS : StorageBackendSpec B} {HBR : Reliable B}.
Context `{HJ : SerdeJson Contact.t} {HJS : SerdeJsonSpec Contact.t} `{HC : ContactCrates}.
Implicit Types (s : gmap string Contact.t) (b : B).

Definition related s (c : gmap Bytes Bytes) : Prop := table contact_schema s c /\ keyed s.

Lemma device_update_peer d c : peer_id (device_update d c) = peer_id c.
Proof. unfold device_update. destruct d; repeat case_match; done. Qed.

Lemma change_keyed f p e s s' a : (forall c, peer_id (f c) = peer_id c) -> change f p e s s' a -> keyed s -> keyed s'.
Proof.
  intros Hf Hc Hk. unfold change in Hc. destruct (s !! p) as [c|] eqn:Hp; destruct Hc as [-> _]; [|done].
  intros q v [[<- <-]|[_ Hv]]%lookup_insert_Some; [|by apply Hk]. rewrite Hf. by apply Hk.
Qed.

Lemma contact_spec_keyed cl s s' a : spec cl s s' a -> keyed s -> keyed s'.
Proof.
  intros Hs Hk. destruct cl as [c|p|p| |q|p n|p n|t p|p d|]; cbn [spec] in Hs;
    try (by destruct Hs as [-> _]); try (by eapply change_keyed; [|exact Hs|done]).
  - destruct Hs as [-> _]. intros q v [[<- <-]|[_ Hv]]%lookup_insert_Some; [done|]. by apply Hk.
  - destruct Hs as [-> _]. intros q v [_ Hv]%lookup_delete_Some. by apply Hk.
  - eapply change_keyed; [apply device_update_peer|exact Hs|done].
Qed.

Lemma put_contact s b c (Q : outcome IronCoreError unit -> B -> Prop) : table contact_schema s (contents b) ->
  (forall b', table contact_schema (<[peer_id c := c]> s) (contents b') -> touches areas (contents b) (contents b') -> Q (Ok tt) b') ->
  runs (ContactManager.add c) b Q.
Proof.
  intros Ht HQ. apply runs_put_json. intros b' d Hd Hc. apply HQ; rewrite Hc.
  - by apply (table_put contact_schema _ _ (peer_id c)).
  - apply (touches_put _ (area contact_schema)); [left|apply (key_area contact_schema (peer_id c))|apply touches_refl].
Qed.

Lemma get_contact s b p (Q : outcome IronCoreError (option Contact.t) -> B -> Prop) : table contact_schema s (contents b) ->
  Q (Ok (s !! p)) b -> runs (ContactManager.get p) b Q.
Proof. intros Ht HQ. by apply (runs_get_json contact_schema s p). Qed.

Lemma list_contacts_run s b (Q : outcome IronCoreError (list Contact.t) -> B -> Prop) : table contact_schema s (contents b) ->
  (forall l, in_order (contacts s) l -> Q (Ok l) b) -> runs ContactManager.list_contacts b Q.
Proof.
  intros Ht HQ. apply runs_bind. apply (runs_scan_table contact_schema s); [done|]. intros r l Hrl Hl. apply runs_bind.
  apply (runs_fold_records contact_schema _ (fun kv acc => acc ++ [kv.2]) r l); [done|done|].
  rewrite fold_snd. apply runs_ret, HQ. split; [|apply (sort_by_ordered by_display_name)].
  rewrite sort_by_perm. unfold contacts. by rewrite Hl.
Qed.

(** What the code must do in a call. *)
Definition refined cl s b (r : outcome IronCoreError answer) b' : Prop := exists s', spec cl s s' r /\
  related s' (contents b') /\ touches areas (contents b) (contents b').

Lemma contact_refined cl s b a s' b' : related s (contents b) -> spec cl s s' a -> table contact_schema s' (contents b') ->
  touches areas (contents b) (contents b') -> refined cl s b a b'.
Proof. intros [_ Hk] Hs Ht Hto. exists s'. split_and!; try done. split; [done|]. by apply (contact_spec_keyed cl s _ a). Qed.

Lemma contact_same cl s b a : related s (contents b) -> spec cl s s a -> refined cl s b a b.
Proof. intros Hr Hs. apply (contact_refined cl s b a s); [done|done|apply Hr|apply touches_refl]. Qed.

(** Read a contact, write its change or give the answer for an unknown peer. *)
Lemma change_run cl f p s b (no : M B IronCoreError unit) missing : related s (contents b) ->
  (forall c, peer_id (f c) = peer_id c) -> (forall b, no b = (b, missing)) ->
  (forall s' a, change f p (map_ok (fun _ => AUnit) missing) s s' a -> spec cl s s' a) ->
  runs ((r ← ContactManager.get p; match r with Some c => ContactManager.add (f c) | None => no end);; mret AUnit) b (refined cl s b).
Proof.
  intros Hr Hf Hno Hs. apply runs_bind, runs_bind. apply (get_contact s); [apply Hr|]. unfold change in Hs.
  destruct (s !! p) as [c|] eqn:Hp.
  - apply (put_contact s); [apply Hr|]. rewrite Hf, (proj2 Hr p c Hp : peer_id c = p). intros b' Ht Hto. apply runs_ret.
    eapply contact_refined; [done| |exact Ht|done]. by apply Hs.
  - unfold runs. rewrite Hno. cbn. destruct missing as [[]|e|]; (apply contact_same; [done|]; by apply Hs).
Qed.

(** A device id that is not valid leaves the record alone. *)
Lemma update_device_run s b p d : related s (contents b) ->
  runs (ContactManager.update_last_known_device_id p d;; mret AUnit) b (refined (UpdateDevice p d) s b).
Proof.
  intros Hr. destruct d as [d|]; [|by apply (change_run _ (device_update None) p s b (mret tt) (Ok tt))].
  destruct (negb (str_is_empty (trim d)) && uuid_parses (trim d)) eqn:Hd.
  - pose proof (change_run (UpdateDevice p (Some d)) (device_update (Some d)) p s b (mret tt) (Ok tt) Hr (device_update_peer _)
      (fun _ => eq_refl) (fun _ _ H => H)) as H. unfold device_update at 1 in H. rewrite Hd in H.
    unfold ContactManager.update_last_known_device_id. cbn zeta. rewrite Hd. exact H.
  - apply runs_bind, runs_bind. apply (get_contact s); [apply Hr|]. destruct (s !! p) as [c|] eqn:Hp; cbn zeta; rewrite ?Hd.
    + apply runs_ret, runs_ret, contact_same; [done|]. cbn [spec]. unfold change, device_update. rewrite Hp, Hd.
      split; [|done]. symmetry. by apply insert_id.
    + apply runs_ret, runs_ret, contact_same; [done|]. cbn [spec]. unfold change. by rewrite Hp.
Qed.

Lemma contact_step_refines s b cl : related s (contents b) -> runs (step cl) b (refined cl s b).
Proof.
  intros Hr. destruct cl as [c|p|p| |q|p n|p n|t p|p d|]; cbn [step].
  - apply runs_bind. apply (put_contact s); [apply Hr|]. intros b' Ht Hto. apply runs_ret. by eapply contact_refined.
  - apply runs_bind. apply (get_contact s); [apply Hr|]. by apply runs_ret, contact_same.
  - apply runs_bind, runs_map_error, runs_remove. intros b' Hc. apply runs_ret.
    apply (contact_refined _ s b _ (delete p s)); [done|done| |]; rewrite Hc; [apply (table_remove contact_schema _ _ p); [apply Hr|done]|].
    apply (touches_remove _ (area contact_schema)); [left|apply (key_area contact_schema p)|apply touches_refl].
  - apply runs_bind. apply (list_contacts_run s); [apply Hr|]. intros l Hl. apply runs_ret, contact_same; [done|]. split; [done|]. by exists l.
  - apply runs_bind, runs_bind. apply (list_contacts_run s); [apply Hr|]. intros l [Hl Hsort]. apply runs_ret, runs_ret, contact_same; [done|].
    split; [done|]. eexists. split; [done|]. split; [by rewrite Hl|]. by apply StronglySorted_filter.
  - by apply (change_run _ (set_nickname_field (ContactManager.normalize_nickname n)) p s b (fail InvalidInput) (Err InvalidInput)).
  - by apply (change_run _ (set_local_nickname_field (ContactManager.normalize_nickname n)) p s b (fail InvalidInput) (Err InvalidInput)).
  - by apply (change_run _ (set_last_seen_field (Some t)) p s b (mret tt) (Ok tt)).
  - by apply update_device_run.
  - apply runs_bind, runs_bind, runs_bind, runs_attempt, runs_count, runs_ret, runs_ret, runs_ret, contact_same; [done|]. split; [done|].
    cbn [default]. change (as_bytes ContactManager.CONTACT_KEY_PREFIX) with (area contact_schema).
    by rewrite (table_count contact_schema s _ (proj1 Hr)).
Qed.
End Refinement.
End ContactCalls.

(** ** The migration *)

Module Migration.
Section Migration.
Context `{HJ : SerdeJson Contact.t} {HJS : SerdeJsonSpec Contact.t}.
Implicit Types (c : gmap Bytes Bytes) (k v : Bytes).

Abbreviation prefix := (as_bytes ContactManager.CONTACT_KEY_PREFIX).

(** A record from before the prefix: a contact under its own peer id. *)
Definition legacy c k : option Bytes :=
  v ← c !! k;
  if bool_decide (prefix `prefix_of` k) then None else
  match json_from_str v with
  | Ok contact => if bool_decide (as_bytes (peer_id contact) = k) then Some v else None
  | _ => None
  end.

(** The contents when the entries with keys in [D] have been looked at. *)
Definition moved (D : list Bytes) c k : option Bytes :=
  match legacy c k with
  | Some v => if bool_decide (k ∈ D) then None else Some v
  | None =>
      match c !! k with
      | Some v => Some v
      | None =>
          if bool_decide (prefix `prefix_of` k) then
            let p := drop (length prefix) k in if bool_decide (p ∈ D) then legacy c p else None
          else None
      end
  end.

Lemma legacy_Some c k v : legacy c k = Some v ->
  c !! k = Some v /\ ~ prefix `prefix_of` k /\ exists contact, json_from_str v = Ok contact /\ as_bytes (peer_id contact) = k.
Proof.
  unfold legacy. destruct (c !! k) as [w|]; [|done]. cbn [mbind option_bind]. case_bool_decide as Hp; [done|].
  destruct (json_from_str w) as [ct|e|] eqn:Hj; [|done..]. case_bool_decide; [|done]. intros [= ->]. eauto.
Qed.

Lemma prefix_drop k : prefix `prefix_of` k -> k = prefix ++ drop (length prefix) k.
Proof. intros [k' ->]. by rewrite drop_app_length. Qed.

Lemma moved_skip D c k v k' : c !! k = Some v -> legacy c k = None -> moved (D ++ [k]) c k' = moved D c k'.
Proof.
  intros Hk Hl. unfold moved. destruct (legacy c k') as [w|] eqn:Hl'.
  - assert (k' <> k) by (intros ->; congruence). repeat case_bool_decide; try done; set_solver.
  - destruct (c !! k'); [done|]. case_bool_decide; [|done]. cbn zeta.
    repeat case_bool_decide; try done; [|set_solver]. destruct (decide (drop (length prefix) k' = k)) as [->|]; [done|set_solver].
Qed.

Lemma moved_take D c k v k' : legacy c k = Some v -> k ∉ D ->
  moved (D ++ [k]) c k' = if bool_decide (k' = k) then None else
    if bool_decide (k' = prefix ++ k) then Some (default v (c !! k')) else moved D c k'.
Proof.
  intros Hl Hk. destruct (legacy_Some c k v Hl) as (Hc & Hnp & _). unfold moved. destruct (decide (k' = k)) as [Hkk|Hkk]; [rewrite (bool_decide_true (k' = k)) by done|rewrite (bool_decide_false (k' = k)) by done].
  { subst k'. rewrite Hl, bool_decide_true; [done|]. set_solver. }
  destruct (decide (k' = prefix ++ k)) as [Hpk|Hpk];
    [rewrite (bool_decide_true (k' = prefix ++ k)) by done|rewrite (bool_decide_false (k' = prefix ++ k)) by done].
  - subst k'. assert (Hl' : legacy c (prefix ++ k) = None).
    { destruct (legacy c (prefix ++ k)) as [w|] eqn:Hw; [|done]. apply legacy_Some in Hw as (_ & Hn & _). destruct Hn. by eexists. }
    rewrite Hl'. destruct (c !! (prefix ++ k)) as [w|]; [done|]. rewrite (bool_decide_true (prefix `prefix_of` _)) by (by eexists).
    rewrite drop_app_length, bool_decide_true by set_solver. done.
  - destruct (legacy c k') as [w|]; [repeat case_bool_decide; try done; set_solver|]. destruct (c !! k'); [done|].
    case_bool_decide as Hp'; [|done]. cbn zeta. assert (drop (length prefix) k' <> k).
    { intros Hd. apply Hpk. rewrite <-Hd. by apply prefix_drop. }
    repeat case_bool_decide; try done; set_solver.
Qed.

(** What the whole migration makes of the contents. *)
Definition migrated c k : option Bytes :=
  if bool_decide (k = ContactManager.MIGRATED_KEY) then Some (as_bytes "true") else
  match legacy c k with
  | Some _ => None
  | None =>
      match c !! k with
      | Some v => Some v
      | None => if bool_decide (prefix `prefix_of` k) then legacy c (drop (length prefix) k) else None
      end
  end.

Lemma moved_all D c k : (forall k, is_Some (c !! k) -> k ∈ D) -> k <> ContactManager.MIGRATED_KEY -> moved D c k = migrated c k.
Proof.
  intros HD Hk. unfold moved, migrated. rewrite (bool_decide_false (k = _)) by done.
  assert (Hl : forall k v, legacy c k = Some v -> k ∈ D).
  { intros k' v Hv. apply HD. apply legacy_Some in Hv as [Hv _]. eauto. }
  destruct (legacy c k) as [v|] eqn:Hv; [by rewrite bool_decide_true by eauto|].
  destruct (c !! k); [done|]. case_bool_decide; [|done]. cbn zeta. case_bool_decide as Hd; [done|].
  destruct (legacy c (drop _ k)) eqn:Hv'; [|done]. by apply Hl in Hv'.
Qed.

Context {B : Type} `{HB : StorageBackend B} {HBS : StorageBackendSpec B} {HBR : Reliable B}.
Implicit Types (b : B).

Lemma present_run k b (Q : outcome IronCoreError bool -> B -> Prop) :
  Q (Ok (bool_decide (is_Some (contents b !! k)))) b -> runs (ContactManager.present k) b Q.
Proof. intros HQ. apply runs_bind, runs_attempt, runs_get. by apply runs_ret. Qed.

Lemma migrate_entry_run D c k v n b : c !! k = Some v -> k ∉ D -> (forall k', contents b !! k' = moved D c k') ->
  runs (ContactManager.migrate_entry k v n) b (fun r b' => exists n', r = Ok n' /\ forall k', contents b' !! k' = moved (D ++ [k]) c k').
Proof.
  intros Hk HD Hb. unfold ContactManager.migrate_entry.
  assert (Hskip : legacy c k = None -> exists n', Ok (E := IronCoreError) n = Ok n' /\ forall k', contents b !! k' = moved (D ++ [k]) c k').
  { intros Hl. exists n. split; [done|]. intros k'. rewrite Hb. symmetry. by eapply moved_skip. }
  unfold legacy in Hskip. rewrite Hk in Hskip. cbn [mbind option_bind] in Hskip.
  case_bool_decide as Hp; [by apply runs_ret, Hskip|]. destruct (json_from_str v) as [ct|e|] eqn:Hj; [|by apply runs_ret, Hskip|by destruct (json_no_panic v)].
  destruct (decide (as_bytes (peer_id ct) = k)) as [Hct|Hct];
    [|rewrite (bool_decide_true (_ <> _)) by done; apply runs_ret, Hskip; by rewrite bool_decide_false].
  rewrite (bool_decide_false (_ <> _)) by tauto. clear Hskip.
  assert (Hkey : ContactManager.contact_key (peer_id ct) = prefix ++ k).
  { unfold ContactManager.contact_key. by rewrite as_bytes_app, Hct. }
  assert (Hl : legacy c k = Some v).
  { unfold legacy. rewrite Hk. cbn. rewrite bool_decide_false by done. rewrite Hj. by rewrite bool_decide_true. }
  cbn zeta. rewrite Hkey. apply runs_bind, present_run.
  assert (Htgt : contents b !! (prefix ++ k) = c !! (prefix ++ k)).
  { rewrite Hb, <-(app_nil_r D). unfold moved. destruct (legacy c (prefix ++ k)) as [w|] eqn:Hw.
    { apply legacy_Some in Hw as (_ & Hn & _). destruct Hn. by eexists. }
    destruct (c !! (prefix ++ k)); [done|]. rewrite bool_decide_true by (by eexists). cbn zeta.
    rewrite app_nil_r, drop_app_length, bool_decide_false; done. }
  rewrite Htgt. destruct (c !! (prefix ++ k)) as [w|] eqn:Hw.
  - rewrite bool_decide_true by eauto. apply runs_bind, runs_attempt, runs_remove. intros b' Hc. apply runs_ret. eexists. split; [done|].
    intros k'. rewrite Hc, (moved_take D c k v) by done. destruct (decide (k' = k)) as [->|E1]; [rewrite bool_decide_true by done; by rewrite lookup_delete_eq|].
    rewrite (bool_decide_false (k' = k)) by done.
    rewrite lookup_delete_ne by done. destruct (decide (k' = prefix ++ k)) as [->|E2]; [by rewrite bool_decide_true, Htgt, Hw by done|].
    rewrite (bool_decide_false (k' = _)) by done. apply Hb.
  - rewrite bool_decide_false by (by intros []). apply runs_bind, runs_attempt, runs_put. intros b1 Hc1.
    apply runs_bind, runs_attempt, runs_remove. intros b2 Hc2. apply runs_ret. eexists. split; [done|].
    intros k'. rewrite Hc2, Hc1, (moved_take D c k v) by done. destruct (decide (k' = k)) as [->|E1]; [rewrite bool_decide_true by done; by rewrite lookup_delete_eq|].
    rewrite (bool_decide_false (k' = k)) by done.
    rewrite lookup_delete_ne by done. destruct (decide (k' = prefix ++ k)) as [->|E2]; [by rewrite bool_decide_true, lookup_insert_eq, Hw by done|].
    rewrite (bool_decide_false (k' = _)) by done.
    rewrite lookup_insert_ne by done. apply Hb.
Qed.

Lemma migrate_run b : runs ContactManager.open b (fun r b' => r = Ok tt /\
  forall k, contents b' !! k = match contents b !! ContactManager.MIGRATED_KEY with
                               | Some _ => contents b !! k
                               | None => migrated (contents b) k
                               end).
Proof.
  apply runs_bind, present_run. destruct (contents b !! ContactManager.MIGRATED_KEY) as [w|] eqn:Hm; [by apply runs_ret|].
  rewrite bool_decide_false by (by intros []). apply runs_bind, runs_attempt, runs_scan. intros r Hr.
  assert (Hall : forall k v, (k, v) ∈ r <-> contents b !! k = Some v).
  { intros k v. rewrite Hr, elem_of_map_to_list. unfold with_prefix. rewrite map_lookup_filter_Some. split; [by intros []|].
    intros Hk. split; [done|]. apply prefix_nil. }
  assert (Hnd : NoDup r.*1) by (rewrite Hr; apply NoDup_fst_map_to_list).
  apply runs_bind.
  apply (runs_for_loop _ (fun before _ _ b' => forall k, contents b' !! k = moved before.*1 (contents b) k)).
  - intros k. unfold moved. destruct (legacy (contents b) k) as [v|] eqn:Hv; [by apply legacy_Some in Hv as [-> _]|].
    destruct (contents b !! k); [done|]. by case_bool_decide.
  - intros before [k v] rest n b' Hsplit Hb'. cbn [fst snd]. rewrite fmap_app. cbn [fmap list_fmap fst].
    apply migrate_entry_run; [|rewrite Hsplit, fmap_app in Hnd; apply NoDup_app in Hnd as (_ & Hnd & _)|done].
    + apply Hall. rewrite Hsplit. apply elem_of_app. right. left.
    + intros Hin. apply (Hnd k Hin). cbn. left.
  - intros n b1 Hb1. apply runs_bind, runs_attempt, runs_put. intros b2 Hc. apply runs_ret. split; [done|]. intros k. rewrite Hc.
    destruct (decide (k = ContactManager.MIGRATED_KEY)) as [->|Hk].
    + rewrite lookup_insert_eq. unfold migrated. by rewrite bool_decide_true.
    + rewrite lookup_insert_ne by done. rewrite Hb1. apply moved_all; [|done]. intros k' [v Hv].
      apply Hall in Hv. by apply (list_elem_of_fmap_2 fst) in Hv.
Qed.

(** Opening the contacts of an old installation: the first opening moves
    every contact under a bare peer id to its new key, without overwriting a
    contact that is already there, leaves everything else alone and marks the
    migration as done; afterwards each old contact is found under its peer id,
    and opening again changes nothing. *)
Theorem contacts_migration b : contents b !! ContactManager.MIGRATED_KEY = None ->
  exists b', ContactManager.open b = (b', Ok tt) /\ (forall k, contents b' !! k = migrated (contents b) k) /\
    (forall p contact v, contents b !! as_bytes p = Some v -> json_from_str v = Ok contact -> peer_id contact = p ->
      ~ prefix `prefix_of` as_bytes p -> contents b !! ContactManager.contact_key p = None ->
      ContactManager.get p b' = (b', Ok (Some contact))) /\
    exists b'', ContactManager.open b' = (b'', Ok tt) /\ contents b'' = contents b'.
Proof.
  intros Hm. destruct (runs_eq _ _ _ (migrate_run b)) as (b' & r & Hrun & -> & Hb'). rewrite Hm in Hb'.
  exists b'. split; [done|]. split; [done|]. split.
  - intros p ct v Hv Hj Hp Hn Hnone.
    assert (Hl : legacy (contents b) (as_bytes p) = Some v).
    { unfold legacy. rewrite Hv. cbn. rewrite bool_decide_false by done. rewrite Hj. by rewrite bool_decide_true by (by rewrite Hp). }
    assert (Hk : ContactManager.contact_key p = prefix ++ as_bytes p) by (unfold ContactManager.contact_key; by rewrite as_bytes_app).
    assert (Hb : contents b' !! ContactManager.contact_key p = Some v).
    { rewrite Hb'. unfold migrated. rewrite Hk in *. rewrite (bool_decide_false (_ = _)) by (intros He%(f_equal head); vm_compute in He; discriminate).
      unfold legacy at 1. rewrite Hnone. cbn [mbind option_bind]. rewrite bool_decide_true by (by eexists). by rewrite drop_app_length. }
    unfold ContactManager.get, get_json, mbind, M_bind, stored, map_error, kv_get.
    destruct (get_total (ContactManager.contact_key p) b') as [w Hw]. rewrite Hw. rewrite (get_ok _ _ _ Hw), Hb.
    unfold from_slice, lift. by rewrite Hj.
  - destruct (runs_eq _ _ _ (migrate_run b')) as (b'' & r & Hrun' & -> & Hb''). exists b''. split; [done|].
    apply map_eq. intros k. rewrite Hb''. rewrite (Hb' ContactManager.MIGRATED_KEY). unfold migrated at 1. by rewrite bool_decide_true.
Qed.
End Migration.

(** For the witness: hexadecimal text for JSON, the memory backend with one old record. *)
#[local] Instance sample_contact_json : SerdeJson Contact.t := hex_json Contact.t.
#[local] Instance sample_contact_json_spec : SerdeJsonSpec Contact.t := hex_json_spec Contact.t.
#[local] Instance sample_iter : MapIter Bytes Bytes := map_iter_default.
#[local] Existing Instances MemoryStorage.storage_backend MemoryStorage.storage_backend_spec.

Definition sample_contact : Contact.t := Contact.new 7 "alice" "key".

Definition old_backend : MemoryStorage.t := {[ as_bytes "alice" := unwrap_or [] (json_to_string sample_contact) ]}.

Lemma contacts_migration_witness : exists b',
  ContactManager.open old_backend = (b', Ok tt) /\ ContactManager.get "alice" b' = (b', Ok (Some sample_contact)).
Proof.
  destruct (contacts_migration (HBS := MemoryStorage.storage_backend_spec) (HBR := memory_storage_reliable) old_backend ltac:(vm_compute; reflexivity)) as (b' & Hopen & _ & Hget & _).
  exists b'. split; [exact Hopen|].
  apply (Hget "alice"%string sample_contact (unwrap_or [] (json_to_string sample_contact)));
    [vm_compute; reflexivity|vm_compute; reflexivity|reflexivity|by_eval|vm_compute; reflexivity].
Defined.
End Migration.
