(* ===== verification/LocalData.v ===== *)
(** * The local data as a whole

    Contacts, history and block list live in one backend.  Any sequence of
    calls to the three managers, and the recovery of contacts from the history,
    acts on three separate maps; keys of other components are untouched.  *)

From S2P Require Import Prelude Drift Backend State Text Records MeshStore Blocked BlockedProps History HistoryProps Contacts ContactsProps.

(** ** The recovery of contacts *)

Lemma derive_no_panic `{HC : ContactCrates} p : ContactManager.derive_public_key_from_peer_id p <> Panic.
Proof. unfold ContactManager.derive_public_key_from_peer_id. repeat case_match; done. Qed.

Section Recovery.
Context `{HC : ContactCrates}.
Implicit Types (s : gmap string Contact.t) (msgs : list MessageRecord.t).

(** The contact that a message of an unknown peer gives rise to. *)
Definition recovered (now : Z) (p : string) : option Contact.t :=
  Contact.new now p <$> ok (ContactManager.derive_public_key_from_peer_id p).

Definition recover (now : Z) s msgs : gmap string Contact.t :=
  fold_left (fun s m => let p := MessageRecord.peer_id m in
    match s !! p, recovered now p with None, Some c => <[p := c]> s | _, _ => s end) msgs s.

(** Known contacts stay; a peer of one of the messages is added if its key can be derived. *)
Lemma recover_lookup now s msgs p :
  recover now s msgs !! p =
  match s !! p with
  | Some c => Some c
  | None => if bool_decide (p ∈ map MessageRecord.peer_id msgs) then recovered now p else None
  end.
Proof.
  revert s. induction msgs as [|m msgs IH]; intros s; [cbn; by destruct (s !! p)|].
  set (q := MessageRecord.peer_id m).
  change (recover now s (m :: msgs)) with
    (recover now (match s !! q, recovered now q with None, Some c => <[q := c]> s | _, _ => s end) msgs).
  rewrite IH. cbn [map]. fold q.
  destruct (decide (p = q)) as [->|Hne].
  - rewrite (bool_decide_true (q ∈ q :: _)) by left. destruct (s !! q) as [c|] eqn:Hq; [by rewrite Hq|].
    destruct (recovered now q) as [c|] eqn:Hr; [by rewrite lookup_insert_eq|]. rewrite Hq. by case_bool_decide.
  - assert (Hs : (match s !! q, recovered now q with None, Some c => <[q := c]> s | _, _ => s end) !! p = s !! p).
    { destruct (s !! q); [done|]. destruct (recovered now q); [|done]. by rewrite lookup_insert_ne. }
    rewrite Hs. destruct (s !! p); [done|].
    repeat case_bool_decide; try done; set_solver.
Qed.
End Recovery.

(** ** Calls, states and the specification *)

Module LocalData.

Record t : Type := mk {
  blocks : BlockList.t;
  contacts : gmap string Contact.t;
  history : gmap string MessageRecord.t
}.

Definition empty : t := mk BlockList.empty ∅ ∅.

Inductive call : Type :=
| OnBlocks (c : BlockHistory.call)
| OnContacts (c : ContactCalls.call)
| OnHistory (c : HistoryCalls.call)
| Reconcile (now : Z).

Inductive answer : Type :=
| FromBlocks (a : BlockHistory.answer)
| FromContacts (a : ContactCalls.answer)
| FromHistory (a : HistoryCalls.answer)
| Recovered (n : Z).

Definition call_ok (c : call) : Prop := match c with OnBlocks c => BlockHistory.call_ok c | _ => True end.

#[export] Instance call_ok_dec c : Decision (call_ok c).
Proof. destruct c; cbn; [apply BlockHistory.call_ok_dec|apply _..]. Defined.

(** The areas of the four tables. *)
Definition areas : list Bytes := BlockHistory.areas ++ ContactCalls.areas ++ HistoryCalls.areas.

Section Code.
Context {B : Type} `{HB : StorageBackend B} `{HC : ContactCrates}.
Context `{HJB : SerdeJson BlockedIdentity.t} `{HJD : SerdeJson (list string)} `{HJC : SerdeJson Contact.t} `{HJM : SerdeJson MessageRecord.t}.

Definition step (c : call) : M B IronCoreError answer :=
  match c with
  | OnBlocks c => a ← BlockHistory.step c; mret (FromBlocks a)
  | OnContacts c => a ← ContactCalls.step c; mret (FromContacts a)
  | OnHistory c => a ← HistoryCalls.step unicode_lower c; mret (FromHistory a)
  | Reconcile now => n ← ContactManager.reconcile_from_history now; mret (Recovered n)
  end.

(** Calls in a row, with the answer or the error of each. *)
Fixpoint run (cs : list call) (b : B) : B * list (outcome IronCoreError answer) :=
  match cs with
  | [] => (b, [])
  | c :: cs => let '(b, r) := step c b in let '(b, rs) := run cs b in (b, r :: rs)
  end.

Definition spec (c : call) (s s' : t) (r : outcome IronCoreError answer) : Prop :=
  match c with
  | OnBlocks c => s' = mk (BlockHistory.spec c (blocks s)).1 (contacts s) (history s) /\
      exists a, r = Ok (FromBlocks a) /\ BlockHistory.agrees a (BlockHistory.spec c (blocks s)).2
  | OnContacts c => exists cs' a, s' = mk (blocks s) cs' (history s) /\
      ContactCalls.spec c (contacts s) cs' a /\ r = map_ok FromContacts a
  | OnHistory c => exists h' a, s' = mk (blocks s) (contacts s) h' /\
      HistoryCalls.spec unicode_lower c (history s) h' a /\ r = Ok (FromHistory a)
  | Reconcile now => exists msgs n, s' = mk (blocks s) (recover now (contacts s) msgs) (history s) /\
      HistoryCalls.newest_of 10000 (map MessageRecord.adjust_legacy_timestamps (HistoryCalls.records (history s))) msgs /\
      r = Ok (Recovered n) /\ n = wrap 32 (Z.of_nat (size (contacts s')) - Z.of_nat (size (contacts s)))
  end.

(** A run of the specification. *)
Inductive trace : list call -> t -> list (outcome IronCoreError answer) -> t -> Prop :=
| trace_nil s : trace [] s [] s
| trace_cons c cs s r s' rs s'' : spec c s s' r -> trace cs s' rs s'' -> trace (c :: cs) s (r :: rs) s''.
End Code.

Section Refinement.
Context {B : Type} `{HB : StorageBackend B} {HBS : StorageBackendSpec B} {HBR : Reliable B} `{HC : ContactCrates}.
Context `{HJB : SerdeJson BlockedIdentity.t} {HJBS : SerdeJsonSpec BlockedIdentity.t}.
Context `{HJD : SerdeJson (list string)} {HJDS : SerdeJsonSpec (list string)}.
Context `{HJC : SerdeJson Contact.t} {HJCS : SerdeJsonSpec Contact.t}.
Context `{HJM : SerdeJson MessageRecord.t} {HJMS : SerdeJsonSpec MessageRecord.t}.
Implicit Types (b : B) (s : t).

Definition related s (c : gmap Bytes Bytes) : Prop :=
  BlockHistory.related (blocks s) c /\ ContactCalls.related (contacts s) c /\ HistoryCalls.related (history s) c.

(** The areas of one manager are apart from the tables of the others. *)
Ltac areas_apart := repeat constructor; apply apart_prefixes; by_eval.

Lemma blocks_elsewhere l c c' : touches (ContactCalls.areas ++ HistoryCalls.areas) c c' ->
  BlockHistory.related l c -> BlockHistory.related l c'.
Proof. intros Ht [H1 H2]. split; (eapply table_touches; [|exact Ht|done]); areas_apart. Qed.

Lemma contacts_elsewhere m c c' : touches (BlockHistory.areas ++ HistoryCalls.areas) c c' ->
  ContactCalls.related m c -> ContactCalls.related m c'.
Proof. intros Ht [H1 H2]. split; [|done]. eapply table_touches; [|exact Ht|done]; areas_apart. Qed.

Lemma history_elsewhere m c c' : touches (BlockHistory.areas ++ ContactCalls.areas) c c' ->
  HistoryCalls.related m c -> HistoryCalls.related m c'.
Proof. intros Ht [H1 H2]. split; [|done]. eapply table_touches; [|exact Ht|done]; areas_apart. Qed.

Lemma touches_more l l' c c' : l ⊆ l' -> touches l c c' -> touches l' c c'.
Proof.
  intros Hl Ht k Hk. apply Ht. unfold outside in *. rewrite Forall_forall in *. intros p Hp. by apply Hk, Hl.
Qed.

Lemma reconcile_run now s b (Q : outcome IronCoreError Z -> B -> Prop) : related s (contents b) ->
  (forall msgs n b', HistoryCalls.newest_of 10000 (map MessageRecord.adjust_legacy_timestamps (HistoryCalls.records (history s))) msgs ->
    table contact_schema (recover now (contacts s) msgs) (contents b') ->
    touches ContactCalls.areas (contents b) (contents b') ->
    n = wrap 32 (Z.of_nat (size (recover now (contacts s) msgs)) - Z.of_nat (size (contacts s))) -> Q (Ok n) b') ->
  runs (ContactManager.reconcile_from_history now) b Q.
Proof.
  intros (_ & [Ht Hk] & Hh) HQ. apply runs_bind.
  apply (HistoryCalls.query_run (HistoryCalls.visible None true) _ 10000 (history s)); [apply Hh| |].
  { intros k r acc b'. cbn zeta. rewrite andb_false_r. case_bool_decide as Hv; [done|]. destruct Hv. by split. }
  intros msgs Hm.
  assert (Hvis : forall l : list MessageRecord.t, filter (HistoryCalls.visible None true) l = l).
  { intros l. apply filter_keep, Forall_true. by split. }
  rewrite Hvis in Hm.
  apply (runs_for_loop _ (fun before _ n b' => table contact_schema (recover now (contacts s) before) (contents b') /\
    touches ContactCalls.areas (contents b) (contents b') /\
    n = wrap 32 (Z.of_nat (size (recover now (contacts s) before)) - Z.of_nat (size (contacts s))))).
  - split_and!; [done|apply touches_refl|]. cbn. by rewrite Z.sub_diag.
  - intros before m rest n b' _ (Ht' & Hto & ->). unfold ContactManager.reconcile_message. cbn zeta. set (p := MessageRecord.peer_id m).
    unfold recover. rewrite fold_left_app. fold (recover now (contacts s) before). cbn [fold_left]. cbn zeta. fold p.
    apply runs_bind, runs_attempt. apply (ContactCalls.get_contact (recover now (contacts s) before)); [done|].
    apply runs_bind. apply (ContactCalls.get_contact (recover now (contacts s) before)); [done|].
    unfold recovered. destruct (recover now (contacts s) before !! p) as [c|] eqn:Hp; [apply runs_ret; eauto|].
    destruct (ContactManager.derive_public_key_from_peer_id p) as [k|e|] eqn:Hd; cbn [ok fmap option_fmap option_map].
    + apply runs_bind. apply (ContactCalls.put_contact (recover now (contacts s) before)); [done|]. intros b1 Ht1 Hto1.
      apply runs_ret. eexists. split; [done|]. split_and!; [done|by eapply touches_trans|].
      rewrite map_size_insert_None by done. unfold wrap. rewrite Zplus_mod_idemp_l. f_equal. lia.
    + apply runs_ret. eauto.
    + by destruct (derive_no_panic p).
  - intros n b' (Ht' & Hto & Hn). by apply (HQ msgs n b').
Qed.

Lemma recover_keyed now m msgs : ContactCalls.keyed m -> ContactCalls.keyed (recover now m msgs).
Proof.
  intros Hk p c Hc. rewrite recover_lookup in Hc. destruct (m !! p) as [c'|] eqn:Hp; [injection Hc as <-; by apply Hk|].
  case_bool_decide; [|done]. unfold recovered in Hc. destruct (ok _); [|done]. by injection Hc as <-.
Qed.

Lemma local_step_refines s b c : related s (contents b) -> call_ok c ->
  runs (step c) b (fun r b' => exists s', spec c s s' r /\ related s' (contents b') /\ touches areas (contents b) (contents b')).
Proof.
  intros (Hb & Hc & Hh) Hok. destruct c as [c|c|c|now]; cbn [step spec call_ok] in *; apply runs_bind.
  - eapply runs_conseq; [by apply (BlockHistory.block_step_refines (blocks s))|]. intros r b' (a & -> & Ha & Hr & Hto). apply runs_ret.
    eexists. split; [split; [done|]; by exists a|]. split; [|by apply (touches_more BlockHistory.areas); [set_solver|]].
    split_and!; [done|apply (contacts_elsewhere _ (contents b))|apply (history_elsewhere _ (contents b))]; try done;
      (apply (touches_more BlockHistory.areas); [set_solver|done]).
  - eapply runs_conseq; [by apply (ContactCalls.contact_step_refines (contacts s))|]. intros r b' (cs' & Hs & Hr & Hto).
    assert (Hfin : exists s', (exists cs' a, s' = mk (blocks s) cs' (history s) /\ ContactCalls.spec c (contacts s) cs' a /\
        map_ok FromContacts r = map_ok FromContacts a) /\ related s' (contents b') /\ touches areas (contents b) (contents b')).
    { eexists. split; [by exists cs', r|]. split; [|by apply (touches_more ContactCalls.areas); [set_solver|]].
      split_and!; [apply (blocks_elsewhere _ (contents b))|done|apply (history_elsewhere _ (contents b))]; try done;
        (apply (touches_more ContactCalls.areas); [set_solver|done]). }
    by destruct r.
  - eapply runs_conseq; [by apply (HistoryCalls.history_step_refines unicode_lower (history s))|].
    intros r b' (a & h' & -> & Hs & Hr & Hto). apply runs_ret. eexists. split; [by exists h', a|].
    split; [|by apply (touches_more HistoryCalls.areas); [set_solver|]].
    split_and!; [apply (blocks_elsewhere _ (contents b))|apply (contacts_elsewhere _ (contents b))|done]; try done;
      (apply (touches_more HistoryCalls.areas); [set_solver|done]).
  - apply (reconcile_run now s); [done|]. intros msgs n b' Hm Ht Hto Hn. apply runs_ret. eexists. split; [by exists msgs, n|].
    split; [|by apply (touches_more ContactCalls.areas); [set_solver|]].
    split_and!; [apply (blocks_elsewhere _ (contents b))| |apply (history_elsewhere _ (contents b))]; try done;
      try (apply (touches_more ContactCalls.areas); [set_solver|done]).
    split; [done|]. apply recover_keyed. apply Hc.
Qed.

Lemma run_refines cs s b : related s (contents b) -> Forall call_ok cs ->
  exists s', trace cs s (run cs b).2 s' /\ related s' (contents (run cs b).1) /\ touches areas (contents b) (contents (run cs b).1).
Proof.
  revert s b. induction cs as [|c cs IH]; intros s b Hr Hok; [exists s; split_and!; [constructor|done|apply touches_refl]|].
  apply Forall_cons in Hok as [Hc Hok]. destruct (runs_eq _ _ _ (local_step_refines s b c Hr Hc)) as (b1 & r & Hs & s1 & Hspec & Hr1 & Hto).
  destruct (IH s1 b1 Hr1 Hok) as (s2 & Htr & Hr2 & Hto2). cbn [run]. rewrite Hs. destruct (run cs b1) as [b2 rs]. cbn [fst snd] in *.
  exists s2. split_and!; [by econstructor|done|by eapply touches_trans].
Qed.

Lemma related_empty b : (forall k p, p ∈ areas -> p `prefix_of` k -> contents b !! k = None) -> related empty (contents b).
Proof.
  intros He. split_and!; split; cbn; try (intros ? ? Hv; by rewrite lookup_empty in Hv);
    apply table_empty; intros k Hk; (eapply He; [|exact Hk]); set_solver.
Qed.
End Refinement.

(** C33. The local data of the application, over one backend whose calls
    succeed: starting without records, any calls to the block list (with peer
    ids that contain no colon), the contacts, the history and the recovery of
    contacts give the answers of three separate maps - no call fails but the
    renaming of an unknown contact, lists come in the promised order, none of
    the managers ever sees a record of another - and no key outside the four
    areas changes. *)
Theorem local_data_refinement {B : Type} `{HB : StorageBackend B} {HBS : StorageBackendSpec B} {HBR : Reliable B} `{HC : ContactCrates}
    `{HJB : SerdeJson BlockedIdentity.t} {HJBS : SerdeJsonSpec BlockedIdentity.t}
    `{HJD : SerdeJson (list string)} {HJDS : SerdeJsonSpec (list string)}
    `{HJC : SerdeJson Contact.t} {HJCS : SerdeJsonSpec Contact.t}
    `{HJM : SerdeJson MessageRecord.t} {HJMS : SerdeJsonSpec MessageRecord.t} (b : B) cs :
  (forall k p, p ∈ areas -> p `prefix_of` k -> contents b !! k = None) -> Forall call_ok cs ->
  exists s', trace cs empty (run cs b).2 s' /\ related s' (contents (run cs b).1) /\
    touches areas (contents b) (contents (run cs b).1).
Proof. intros He Hok. apply run_refines; [by apply related_empty|done]. Qed.

Section Blocking.
Context {B : Type} `{HB : StorageBackend B} {HBS : StorageBackendSpec B} {HBR : Reliable B} `{HC : ContactCrates}.
Context `{HJB : SerdeJson BlockedIdentity.t} {HJBS : SerdeJsonSpec BlockedIdentity.t}.
Context `{HJD : SerdeJson (list string)} {HJDS : SerdeJsonSpec (list string)}.
Context `{HJC : SerdeJson Contact.t} {HJCS : SerdeJsonSpec Contact.t}.
Context `{HJM : SerdeJson MessageRecord.t} {HJMS : SerdeJsonSpec MessageRecord.t}.
Implicit Types (b : B) (s : BlockList.t).

Lemma trace_covered cs (s : t) rs (s' : t) : trace cs s rs s' -> BlockList.covered (blocks s) -> BlockList.covered (blocks s').
Proof.
  induction 1 as [|c cs s r s' rs s'' Hs _ IH]; [done|]. intros Hc. apply IH.
  destruct c as [c|c|c|now]; cbn [spec] in Hs.
  - destruct Hs as [-> _]. by apply BlockHistory.spec_covered.
  - by destruct Hs as (? & ? & -> & _).
  - by destruct Hs as (? & ? & -> & _).
  - by destruct Hs as (? & ? & -> & _).
Qed.

(** Queries as equations. *)
Lemma get_block_eq s b p d : BlockHistory.related s (contents b) -> simple p ->
  BlockedManager.get p d b = (b, Ok (BlockList.blocks s !! (p, d))).
Proof.
  intros Hr Hp. pose proof (BlockHistory.get_block s (contents b) b p d (fun r b' => r = Ok (BlockList.blocks s !! (p, d)) /\ b' = b)
    (BlockHistory.now_at_start _ _ Hr) Hp (conj eq_refl eq_refl)) as H.
  change (runs (BlockedManager.get p d) b (fun r b' => r = Ok (BlockList.blocks s !! (p, d)) /\ b' = b)) in H.
  destruct (runs_eq _ _ _ H) as (b' & r & -> & -> & ->). done.
Qed.

Lemma known_eq s b p : BlockHistory.related s (contents b) -> BlockedManager.get_known_devices p b = (b, Ok (BlockList.known p s)).
Proof.
  intros Hr. pose proof (BlockHistory.devices_of s (contents b) b p (fun r b' => r = Ok (BlockList.known p s) /\ b' = b)
    (BlockHistory.now_at_start _ _ Hr) (conj eq_refl eq_refl)) as H.
  destruct (runs_eq _ _ _ H) as (b' & r & -> & -> & ->). done.
Qed.

Lemma is_blocked_eq s b p d : BlockHistory.related s (contents b) -> simple p ->
  BlockedManager.is_blocked p d b = (b, Ok (BlockList.is_blocked p d s)).
Proof.
  intros Hr Hp. pose proof (BlockHistory.is_blocked_run s (contents b) b p d (fun r b' => r = Ok (BlockList.is_blocked p d s) /\ b' = b)
    (BlockHistory.now_at_start _ _ Hr) Hp (conj eq_refl eq_refl)) as H.
  destruct (runs_eq _ _ _ H) as (b' & r & -> & -> & ->). done.
Qed.

(** What is left of a peer's blocks when the peer is unblocked. *)
Lemma unblocked s p d : BlockList.is_blocked p d (BlockList.unblock p None s) = true <->
  exists x, d = Some x /\ is_Some (BlockList.blocks s !! (p, Some x)) /\ x ∉ BlockList.known p s.
Proof.
  unfold BlockList.is_blocked. cbn [BlockList.unblock BlockList.blocks]. rewrite !BlockList.unblock_devices_lookup.
  rewrite lookup_delete_eq, orb_true_iff, !bool_decide_eq_true. destruct d as [x|].
  - rewrite lookup_delete_ne by done. case_bool_decide as Hx; split; try (by intros [[? ?]|[? ?]]).
    + intros (y & [= <-] & _ & Hn). by destruct Hn, Hx.
    + intros [Hs|[? ?]]; [|done]. exists x. split_and!; [done|done|]. intros Hin. apply Hx. by split.
    + intros (y & [= <-] & Hs & _). by left.
  - rewrite lookup_delete_eq. split; [by intros [[? ?]|[? ?]]|]. by intros (? & ? & _).
Qed.
End Blocking.

(** C34. Blocking a peer and its devices, after any calls on the local data: if
    a peer is blocked, each of its registered devices has a block record of its
    own.  After unblocking the peer the peer itself is not blocked, and a device
    of it still is exactly if it had a record without being registered at that
    time - such a block survives, although the peer was unblocked with all its devices. *)
Theorem block_covers_devices {B : Type} `{HB : StorageBackend B} {HBS : StorageBackendSpec B} {HBR : Reliable B} `{HC : ContactCrates}
    `{HJB : SerdeJson BlockedIdentity.t} {HJBS : SerdeJsonSpec BlockedIdentity.t}
    `{HJD : SerdeJson (list string)} {HJDS : SerdeJsonSpec (list string)}
    `{HJC : SerdeJson Contact.t} {HJCS : SerdeJsonSpec Contact.t}
    `{HJM : SerdeJson MessageRecord.t} {HJMS : SerdeJsonSpec MessageRecord.t} (b0 : B) cs p :
  (forall k q, q ∈ areas -> q `prefix_of` k -> contents b0 !! k = None) -> Forall call_ok cs -> simple p ->
  let b := (run cs b0).1 in
  exists devices, BlockedManager.get_known_devices p b = (b, Ok devices) /\
    (forall blk d, BlockedManager.get p None b = (b, Ok (Some blk)) -> d ∈ devices ->
      exists blk', BlockedManager.get p (Some d) b = (b, Ok (Some blk')) /\
        BlockedIdentity.peer_id blk' = p /\ BlockedIdentity.device_id blk' = Some d) /\
    exists b', BlockedManager.unblock p None b = (b', Ok tt) /\
      BlockedManager.is_blocked p None b' = (b', Ok false) /\
      forall d, BlockedManager.is_blocked p (Some d) b' = (b', Ok true) <->
        (exists blk, BlockedManager.get p (Some d) b = (b, Ok (Some blk))) /\ d ∉ devices.
Proof.
  intros He Hok Hp b. destruct (run_refines cs empty b0 (related_empty b0 He) Hok) as (s & Htr & (Hr & _) & _). fold b in Hr.
  destruct (trace_covered _ _ _ _ Htr BlockList.covered_empty) as [Hk Hc].
  exists (BlockList.known p (blocks s)). split; [by apply known_eq|]. split.
  - intros blk d Hg Hd. rewrite (get_block_eq (blocks s)) in Hg by done. injection Hg as Hg.
    destruct (Hc p d) as [blk' Hb]; [by rewrite Hg|done|]. exists blk'. rewrite (get_block_eq (blocks s)), Hb by done.
    split; [done|]. by apply Hk.
  - destruct (runs_eq _ _ _ (BlockHistory.unblock_run (blocks s) (contents b) b p None
      (fun r b' => r = Ok tt /\ BlockHistory.related (BlockList.unblock p None (blocks s)) (contents b'))
      (BlockHistory.now_at_start _ _ Hr) Hp (fun b' Hb' => conj eq_refl (proj1 Hb')))) as (b' & r & Hrun & -> & Hr').
    exists b'. split; [done|]. split.
    + rewrite (is_blocked_eq _ _ _ _ Hr' Hp). f_equal. f_equal. apply not_true_is_false. rewrite unblocked. by intros (? & ? & _).
    + intros d. rewrite (is_blocked_eq _ _ _ _ Hr' Hp), (get_block_eq _ _ _ _ Hr Hp). split.
      * intros [= Hb]. apply unblocked in Hb as (x & [= <-] & [blk Hb] & Hn). rewrite Hb. eauto.
      * intros [[blk [= Hb]] Hn]. f_equal. f_equal. apply unblocked. exists d. rewrite Hb. eauto.
Qed.

(** The check of the contacts counts the same entries twice: with fewer than
    2^32 of them it finds nothing, whatever they hold. *)
Lemma verify_integrity_blind {B : Type} `{HB : StorageBackend B} {HBS : StorageBackendSpec B} {HBR : Reliable B} (b : B) :
  Z.of_nat (size (with_prefix (as_bytes ContactManager.CONTACT_KEY_PREFIX) (contents b))) < 2 ^ 32 ->
  ContactManager.verify_integrity b = (b, Ok tt).
Proof.
  intros Hn. set (n := Z.of_nat _) in Hn. assert (0 <= n) by (unfold n; lia).
  assert (Hrun : runs ContactManager.verify_integrity b (fun r b' => r = Ok tt /\ b' = b)).
  { apply runs_bind, runs_bind, runs_bind, runs_attempt, runs_count, runs_ret, runs_ret.
    apply runs_bind, runs_bind, runs_attempt, runs_count, runs_ret. cbn [default]. unfold id. fold n.
    rewrite wrap_small by (unfold fits; lia). destruct (Z.eqb_spec n 0); [|by apply runs_ret].
    destruct (Z.gtb_spec n 0); [lia|by apply runs_ret]. }
  destruct (runs_eq _ _ _ Hrun) as (b' & r & -> & -> & ->). done.
Qed.

(** ** Witnesses

    The memory backend, hexadecimal text for JSON, and crates that accept
    identifiers of the right length. *)

#[local] Instance sample_block_json : SerdeJson BlockedIdentity.t := hex_json BlockedIdentity.t.
#[local] Instance sample_block_json_spec : SerdeJsonSpec BlockedIdentity.t := hex_json_spec BlockedIdentity.t.
#[local] Instance sample_devices_json : SerdeJson (list string) := hex_json (list string).
#[local] Instance sample_devices_json_spec : SerdeJsonSpec (list string) := hex_json_spec (list string).
#[local] Instance sample_contact_json : SerdeJson Contact.t := hex_json Contact.t.
#[local] Instance sample_contact_json_spec : SerdeJsonSpec Contact.t := hex_json_spec Contact.t.
#[local] Instance sample_message_json : SerdeJson MessageRecord.t := hex_json MessageRecord.t.
#[local] Instance sample_message_json_spec : SerdeJsonSpec MessageRecord.t := hex_json_spec MessageRecord.t.
#[local] Instance sample_iter : MapIter Bytes Bytes := map_iter_default.
#[local] Existing Instances MemoryStorage.storage_backend MemoryStorage.storage_backend_spec.
#[local] Instance sample_crates : ContactCrates :=
  {| uuid_parses s := (String.length s =? 36)%nat; hex_decode_str s := from_hex (as_bytes s); bs58_decode _ := None;
     verifying_key_ok _ := true; contact_hex := fun b => of_bytes (to_hex b); unicode_lower := to_lowercase |}.

Definition sample_calls : list call :=
  [OnBlocks (BlockHistory.Register 5 "peer" "dev-a");
   OnBlocks (BlockHistory.Block (BlockedIdentity.mk "peer" (Some "dev-b") 7 None None false));
   OnBlocks (BlockHistory.Block (BlockedIdentity.new 9 "peer"));
   OnContacts (ContactCalls.Add (Contact.new 1 "peer" "key"));
   OnContacts (ContactCalls.SetNickname "stranger" None);
   OnHistory (HistoryCalls.Add (MessageRecord.new_sent "m1" 3 "peer" "Hello"));
   OnHistory (HistoryCalls.SetHidden "PEER" true);
   OnHistory (HistoryCalls.Recent None 10 false)].

Definition sample_run : MemoryStorage.t * list (outcome IronCoreError answer) := run sample_calls MemoryStorage.new.

Lemma sample_run_empty (k p : Bytes) : p ∈ areas -> p `prefix_of` k -> contents (B := MemoryStorage.t) MemoryStorage.new !! k = None.
Proof. intros _ _. exact (lookup_empty (M := gmap Bytes) (A := Bytes) k). Qed.

Lemma local_data_refinement_witness : exists s',
  trace sample_calls empty sample_run.2 s' /\ related s' (contents sample_run.1) /\
  nth_error sample_run.2 4 = Some (Err InvalidInput) /\
  nth_error sample_run.2 7 = Some (Ok (FromHistory (HistoryCalls.ARecords []))).
Proof.
  destruct (local_data_refinement (HBR := memory_storage_reliable) MemoryStorage.new sample_calls sample_run_empty
    ltac:(by_eval)) as (s' & Htr & Hr & _).
  exists s'. split; [exact Htr|]. split; [exact Hr|]. split; vm_compute; reflexivity.
Defined.

Lemma block_covers_devices_witness :
  exists blk b', BlockedManager.get "peer" (Some "dev-a"%string) sample_run.1 = (sample_run.1, Ok (Some blk)) /\
    BlockedManager.unblock "peer" None sample_run.1 = (b', Ok tt) /\
    BlockedManager.is_blocked "peer" (Some "dev-a"%string) b' = (b', Ok false) /\
    BlockedManager.is_blocked "peer" (Some "dev-b"%string) b' = (b', Ok true).
Proof.
  destruct (block_covers_devices (HBR := memory_storage_reliable) MemoryStorage.new sample_calls "peer" sample_run_empty
    ltac:(by_eval) ltac:(by_eval)) as (devices & _ & _ & b' & Hu & _ & _).
  change (BlockedManager.unblock "peer" None sample_run.1 = (b', Ok tt)) in Hu.
  eexists _, b'. split; [vm_compute; reflexivity|]. split; [exact Hu|].
  assert (Hb' : b' = (BlockedManager.unblock (B := MemoryStorage.t) "peer" None sample_run.1).1) by (by rewrite Hu).
  rewrite Hb'. split; vm_compute; reflexivity.
Defined.

End LocalData.
