(* ===== verification/Message.v ===== *)
(** * Messages and their codec (core/src/message)

    Plaintext messages and receipts (types.rs), their encoding with size limits
    and the envelope encoding in the drift format with bincode as the fallback
    (codec.rs), and message expiry (ephemeral.rs).  Ids and times are arguments;
    bincode is a parameter. *)

From S2P Require Import Prelude Drift Backend Text EnvelopeWire.

Inductive MessageType : Type := TextMessage | ReceiptMessage | OnionRelay.

#[export] Instance MessageType_eq_dec : EqDecision MessageType.
Proof. solve_decision. Defined.

Inductive DeliveryStatus : Type := StatusSent | StatusDelivered | StatusRead | StatusFailed (reason : string).

#[export] Instance DeliveryStatus_eq_dec : EqDecision DeliveryStatus.
Proof. solve_decision. Defined.

Module Receipt.
Record t : Type := mk { message_id : string; status : DeliveryStatus; timestamp : Z }.

Definition delivered (now : Z) (message_id : string) : t := mk message_id StatusDelivered now.
End Receipt.

Module Message.

Record t : Type := mk {
  id : string;
  sender_id : string;
  recipient_id : string;
  message_type : MessageType;
  payload : Bytes;
  timestamp : Z
}.

#[global] Instance eq_dec : EqDecision t.
Proof. solve_decision. Defined.

#[global] Instance layout : Layout t.
Proof.
  apply (layout_iso
    (fun m => (id m, sender_id m, recipient_id m,
               match message_type m with TextMessage => 0 | ReceiptMessage => 1 | OnionRelay => 2 end, payload m, timestamp m))
    (fun '(i, s, r, k, p, t) => mk i s r (if k =? 0 then TextMessage else if k =? 1 then ReceiptMessage else OnionRelay) p t)).
  by intros [? ? ? [] ? ?].
Defined.

#[global] Instance countable : Countable t := layout_countable.

Definition text (id : string) (now : Z) (sender_id recipient_id text : string) : t :=
  mk id sender_id recipient_id TextMessage (as_bytes text) now.

Definition receipt `{Bincode Receipt.t} (id : string) (now : Z) (sender_id recipient_id : string) (receipt : Receipt.t) : t :=
  mk id sender_id recipient_id ReceiptMessage (unwrap_or [] (bincode_serialize receipt)) now.

(** [String::from_utf8(payload).ok()], for text messages. *)
Definition text_content (self : t) : option string :=
  if bool_decide (message_type self = TextMessage) then
    if utf8_valid (payload self) then Some (of_bytes (payload self)) else None
  else None.

Definition is_recent (now threshold_secs : Z) (self : t) : bool := saturating_sub now (timestamp self) <? threshold_secs.
End Message.

Module TtlConfig.
Record t : Type := mk { expires_in_seconds : Z }.
End TtlConfig.

(** [message::ephemeral::is_expired]. *)
Definition message_expired (now creation_timestamp : Z) (ttl : TtlConfig.t) : bool :=
  now >? wrap 64 (creation_timestamp + TtlConfig.expires_in_seconds ttl).

Definition MAX_MESSAGE_SIZE : Z := 256 * 1024.
Definition MAX_PAYLOAD_SIZE : Z := 8 * 1024.

Definition too_large (what : string) (n max : Z) : string :=
  what +:+ " too large: " +:+ show n +:+ " bytes (max " +:+ show max +:+ ")".

Definition validate_payload_size (payload : Bytes) : outcome string unit :=
  if len payload >? MAX_PAYLOAD_SIZE then Err (too_large "Payload" (len payload) MAX_PAYLOAD_SIZE) else Ok tt.

Module Codec.
Section Code.
Context `{HM : Bincode Message.t} `{HE : Bincode LegacyEnvelope.t} `{EC : EnvelopeCrates}.

Definition encode_message (msg : Message.t) : outcome string Bytes :=
  let! _ := validate_payload_size (Message.payload msg) in
  let! bytes := bincode_serialize msg in
  if len bytes >? MAX_MESSAGE_SIZE then Err (too_large "Encoded message" (len bytes) MAX_MESSAGE_SIZE) else Ok bytes.

Definition decode_message (bytes : Bytes) : outcome string Message.t :=
  if len bytes >? MAX_MESSAGE_SIZE then Err (too_large "Message" (len bytes) MAX_MESSAGE_SIZE) else
  bincode_deserialize bytes.

(** [Vec::try_into::<[u8; n]>] with the message of the codec. *)
Definition into_array (n : Z) (msg : string) (v : Bytes) : outcome string Bytes :=
  if len v =? n then Ok v else Err msg.

Definition encode_drift_envelope (now : Z) (envelope : LegacyEnvelope.t) : outcome string Bytes :=
  let! sender_public_key := into_array 32 "Invalid sender public key length" (LegacyEnvelope.sender_public_key envelope) in
  let! ephemeral_public_key := into_array 32 "Invalid ephemeral public key length" (LegacyEnvelope.ephemeral_public_key envelope) in
  let! nonce := into_array 24 "Invalid nonce length" (LegacyEnvelope.nonce envelope) in
  let! ratchet_dh_public :=
    match LegacyEnvelope.ratchet_dh_public envelope with
    | Some v => let! k := into_array 32 "Invalid ratchet DH public key length" v in Ok (Some k)
    | None => Ok None
    end in
  let compressed := len (LegacyEnvelope.ciphertext envelope) >? COMPRESSION_THRESHOLD in
  let drift_env :=
    DriftEnvelope.mk DRIFT_VERSION EncryptedMessage compressed (repeat_byte 0 16) (repeat_byte 0 4) (wrap 32 now) 0 0 128
      sender_public_key ephemeral_public_key nonce (repeat_byte 0 64) (LegacyEnvelope.ciphertext envelope)
      ratchet_dh_public (LegacyEnvelope.ratchet_message_number envelope) in
  map_err (fun _ => "drift error"%string) (DriftEnvelope.to_bytes drift_env).

Definition encode_envelope (now : Z) (envelope : LegacyEnvelope.t) : outcome string Bytes :=
  let fallback :=
    let! bytes := bincode_serialize envelope in
    if len bytes >? MAX_MESSAGE_SIZE then Err (too_large "Encoded envelope" (len bytes) MAX_MESSAGE_SIZE) else Ok bytes in
  match encode_drift_envelope now envelope with
  | Ok drift_bytes => if len drift_bytes <=? MAX_MESSAGE_SIZE then Ok drift_bytes else fallback
  | Err _ => fallback
  | Panic => Panic
  end.

Definition decode_envelope (bytes : Bytes) : outcome string LegacyEnvelope.t :=
  if len bytes >? MAX_MESSAGE_SIZE then Err (too_large "Envelope" (len bytes) MAX_MESSAGE_SIZE) else
  let fallback := bincode_deserialize bytes in
  if match bytes with v :: _ => v =? DRIFT_VERSION | [] => false end then
    match DriftEnvelope.from_bytes bytes with
    | Ok drift_env => Ok (DriftEnvelope.to_legacy_envelope drift_env)
    | Err _ => fallback
    | Panic => Panic
    end
  else fallback.
End Code.

(** ** Round trips *)

Section Correct.
Context `{HM : Bincode Message.t} {HMS : BincodeSpec Message.t} `{HE : Bincode LegacyEnvelope.t} {HES : BincodeSpec LegacyEnvelope.t}.
Context `{EC : EnvelopeCrates} {ECS : EnvelopeCratesSpec EC}.

(** The lengths and ranges the wire format relies on. *)
Definition envelope_ok (e : LegacyEnvelope.t) : Prop :=
  byte_array 32 (LegacyEnvelope.sender_public_key e) /\ byte_array 32 (LegacyEnvelope.ephemeral_public_key e) /\
  byte_array 24 (LegacyEnvelope.nonce e) /\ bytes (LegacyEnvelope.ciphertext e) /\
  (forall k, LegacyEnvelope.ratchet_dh_public e = Some k -> byte_array 32 k) /\
  (forall n, LegacyEnvelope.ratchet_message_number e = Some n -> u32 n).

(** The ratchet number as the wire keeps it. *)
Definition wire_form (e : LegacyEnvelope.t) : LegacyEnvelope.t :=
  LegacyEnvelope.mk (LegacyEnvelope.sender_public_key e) (LegacyEnvelope.ephemeral_public_key e) (LegacyEnvelope.nonce e)
    (LegacyEnvelope.ciphertext e) (LegacyEnvelope.ratchet_dh_public e)
    (match LegacyEnvelope.ratchet_dh_public e with
     | Some _ => Some (default 0 (LegacyEnvelope.ratchet_message_number e))
     | None => None
     end).

Definition wire_length (e : LegacyEnvelope.t) : Z :=
  len (if len (LegacyEnvelope.ciphertext e) >? COMPRESSION_THRESHOLD then compress (LegacyEnvelope.ciphertext e)
       else LegacyEnvelope.ciphertext e).

Lemma message_roundtrip msg bytes : encode_message msg = Ok bytes -> decode_message bytes = Ok msg.
Proof.
  unfold encode_message, decode_message. intros H. destruct (validate_payload_size _); [|done..].
  destruct (bincode_serialize msg) as [b| |] eqn:Hb; [|done..]. case_hyp H; [done|]. injection H as <-.
  replace (len b >? MAX_MESSAGE_SIZE) with false by done. by apply bincode_roundtrip.
Qed.

(** A well-formed drift envelope is taken for what it is. *)
Lemma decode_drift (e : DriftEnvelope.t) data : DriftEnvelope.wf e -> DriftEnvelope.version e = DRIFT_VERSION ->
  DriftEnvelope.to_bytes e = Ok data ->
  decode_envelope data = Ok (wire_form (DriftEnvelope.to_legacy_envelope e)) /\ len data <= MAX_MESSAGE_SIZE.
Proof.
  intros Hwf Hv Hd.
  assert (Hfit : len (EnvelopeFacts.wire_ciphertext e) <= DriftEnvelope.MAX_CIPHERTEXT).
  { unfold DriftEnvelope.to_bytes in Hd. fold (EnvelopeFacts.wire_ciphertext e) in Hd. case_hyp Hd; [done|]. bool_to_prop. lia. }
  destruct (parse_serialized e Hwf Hv Hfit) as (data' & Hd' & Hlen & Hp). rewrite Hd in Hd'. injection Hd' as <-.
  assert (Hl : len data <= MAX_MESSAGE_SIZE).
  { rewrite Hlen. pose proof (EnvelopeFacts.len_ratchet_extension e Hwf). unfold DriftEnvelope.MAX_CIPHERTEXT, MAX_MESSAGE_SIZE in *.
    destruct (DriftEnvelope.ratchet_dh_public e); lia. }
  split; [|done]. unfold decode_envelope. rewrite Z.gtb_ltb, (proj2 (Z.ltb_ge _ _)) by done.
  destruct data as [|v data].
  { exfalso. pose proof (len_nonneg (EnvelopeFacts.wire_ciphertext e)). pose proof (len_nonneg (DriftEnvelope.ratchet_extension e)).
    change (len (@nil Z)) with 0 in Hlen. lia. }
  assert (v = DRIFT_VERSION) as ->.
  { rewrite EnvelopeFacts.to_bytes_buffer in Hd by done. injection Hd as Hd _. congruence. }
  rewrite Z.eqb_refl, Hp. done.
Qed.

(** The drift envelope the codec builds. *)
Definition codec_envelope (now : Z) (e : LegacyEnvelope.t) : DriftEnvelope.t :=
  DriftEnvelope.mk DRIFT_VERSION EncryptedMessage (len (LegacyEnvelope.ciphertext e) >? COMPRESSION_THRESHOLD)
    (repeat_byte 0 16) (repeat_byte 0 4) (wrap 32 now) 0 0 128 (LegacyEnvelope.sender_public_key e)
    (LegacyEnvelope.ephemeral_public_key e) (LegacyEnvelope.nonce e) (repeat_byte 0 64) (LegacyEnvelope.ciphertext e)
    (LegacyEnvelope.ratchet_dh_public e) (LegacyEnvelope.ratchet_message_number e).

Lemma codec_envelope_wf now e : envelope_ok e -> DriftEnvelope.wf (codec_envelope now e).
Proof.
  intros (Hs & He & Hn & Hc & Hk & Hm). unfold DriftEnvelope.wf, codec_envelope.
  cbn [DriftEnvelope.version DriftEnvelope.message_id DriftEnvelope.recipient_hint DriftEnvelope.created_at DriftEnvelope.ttl_expiry
    DriftEnvelope.hop_count DriftEnvelope.priority DriftEnvelope.sender_public_key DriftEnvelope.ephemeral_public_key DriftEnvelope.nonce
    DriftEnvelope.signature DriftEnvelope.ciphertext DriftEnvelope.ratchet_dh_public DriftEnvelope.ratchet_message_number].
  split_and!; try assumption; try (apply fits_wrap; lia); by_eval.
Qed.

Lemma encode_drift_envelope_eq now e : envelope_ok e ->
  encode_drift_envelope now e = map_err (fun _ => "drift error"%string) (DriftEnvelope.to_bytes (codec_envelope now e)).
Proof.
  intros ([Hs _] & [He _] & [Hn _] & Hc & Hk & Hm). unfold encode_drift_envelope, into_array. rewrite Hs, He, Hn, !Z.eqb_refl.
  unfold codec_envelope. destruct (LegacyEnvelope.ratchet_dh_public e) as [k|] eqn:Ek; [|done].
  destruct (Hk k eq_refl) as [-> _]. done.
Qed.

(** bincode starts a record with its first field, a vector with its 64-bit length. *)
Class EnvelopeFormat : Prop :=
  envelope_prefix : forall (e : LegacyEnvelope.t) d, bincode_serialize e = Ok d ->
    u64_to_le_bytes (len (LegacyEnvelope.sender_public_key e)) `prefix_of` d.

Lemma decode_bincode {EF : EnvelopeFormat} (e : LegacyEnvelope.t) d : len (LegacyEnvelope.sender_public_key e) = 32 ->
  bincode_serialize e = Ok d -> len d <= MAX_MESSAGE_SIZE -> decode_envelope d = Ok e.
Proof using HES.
  intros Hl Hd Hn. unfold decode_envelope. rewrite Z.gtb_ltb, (proj2 (Z.ltb_ge _ _)) by done.
  assert (match d with v :: _ => v =? DRIFT_VERSION | [] => false end = false) as ->.
  { pose proof (EF e d Hd) as [tl ->]. rewrite Hl. done. }
  by apply bincode_roundtrip.
Qed.

(** Encoding an envelope whose fields have their lengths succeeds in the drift
    format when the wire ciphertext fits sixteen bits, and whatever the codec
    produced, drift or bincode, it decodes to the envelope again: exactly in
    the fallback, with the ratchet number as the wire keeps it otherwise. *)
Theorem envelope_codec_roundtrip {EF : EnvelopeFormat} now (e : LegacyEnvelope.t) : envelope_ok e ->
  (wire_length e <= DriftEnvelope.MAX_CIPHERTEXT -> exists data, encode_envelope now e = Ok data) /\
  forall data, encode_envelope now e = Ok data ->
    len data <= MAX_MESSAGE_SIZE /\
    decode_envelope data = Ok (if wire_length e <=? DriftEnvelope.MAX_CIPHERTEXT then wire_form e else e).
Proof using HES ECS.
  intros Hok. pose proof (codec_envelope_wf now e Hok) as Hwf. unfold encode_envelope. rewrite encode_drift_envelope_eq by done.
  change (wire_length e) with (len (EnvelopeFacts.wire_ciphertext (codec_envelope now e))).
  destruct (Z.leb_spec (len (EnvelopeFacts.wire_ciphertext (codec_envelope now e))) DriftEnvelope.MAX_CIPHERTEXT) as [Hfit|Hbig].
  - destruct (parse_serialized _ Hwf eq_refl Hfit) as (data & Hd & _).
    destruct (decode_drift _ _ Hwf eq_refl Hd) as [Hdec Hlen]. rewrite Hd. cbn [map_err].
    rewrite (proj2 (Z.leb_le _ _)) by done. split; [by eexists|]. intros data' Hd'. injection Hd' as <-. done.
  - split; [lia|]. intros data Hd.
    assert (Herr : exists r, DriftEnvelope.to_bytes (codec_envelope now e) = Err r).
    { unfold DriftEnvelope.to_bytes. fold (EnvelopeFacts.wire_ciphertext (codec_envelope now e)).
      rewrite Z.gtb_ltb, (proj2 (Z.ltb_lt _ _)) by done. by eexists. }
    destruct Herr as [r Hr]. rewrite Hr in Hd. cbn [map_err] in Hd.
    destruct (bincode_serialize e) as [b| |] eqn:Hb; [|done..]. case_hyp Hd; [done|]. injection Hd as <-. bool_to_prop.
    split; [lia|]. apply decode_bincode; [|done|lia]. by destruct Hok as [[? _] _].
Qed.

(** Nothing that can arrive makes the decoder panic. *)
Lemma decode_envelope_no_panic data : bytes data -> decode_envelope data <> Panic.
Proof using HES.
  intros Hb. unfold decode_envelope. destruct (_ >? _); [done|].
  pose proof (from_bytes_no_panic data Hb). pose proof (bincode_no_panic (A := LegacyEnvelope.t) data).
  repeat (case_match; try done).
Qed.

End Correct.
End Codec.
