(* ===== verification/IdentityProps.v ===== *)
(** * The identity survives restarts (core/src/identity)

    [in_sync] relates the manager to the four keys of the backend; every call
    keeps it and acts on the manager the way [spec] says.  A restart, which
    builds a new manager from the backend, is one of the calls. *)

From S2P Require Import Prelude Drift Backend State Text Records EnvelopeWire Encrypt EncryptProps Identity.

Lemma of_as_bytes s : of_bytes (as_bytes s) = s.
Proof. apply as_bytes_inj, as_of_bytes, bytes_as_bytes. Qed.

Lemma show_utf8 n : utf8_valid (as_bytes (show n)) = true.
Proof.
  apply ascii_utf8. destruct (show_digits n) as [Hd _]. eapply Forall_impl; [exact Hd|]. intros c. unfold digit, ascii. lia.
Qed.

Module IdentityCalls.
Import IdentityManager.

Inductive call : Type :=
| Initialize (os : fresh)
| SetNickname (name : string)
| ImportKeyBytes (os : fresh) (bytes : Bytes)
| Restart (os : fresh).

Section Spec.
Context {UC : UuidCrate}.

Definition device_ok (d : DeviceMetadata.t) : Prop :=
  utf8_valid (as_bytes (DeviceMetadata.device_id d)) = true /\
  uuid_parse_version (DeviceMetadata.device_id d) = Ok 4 /\ u64 (DeviceMetadata.seniority_timestamp d).

Definition fresh_ok (os : fresh) : Prop :=
  len (random_key os) = 32 /\ device_ok (DeviceMetadata.generate (random_uuid os) (clock os)).

Definition call_ok (c : call) : Prop :=
  match c with
  | SetNickname name => utf8_valid (as_bytes name) = true
  | Initialize os | ImportKeyBytes os _ | Restart os => fresh_ok os
  end.

(** The device of a manager that has keys. *)
Definition with_device (os : fresh) (m : t) : t :=
  set_device (Some (default (DeviceMetadata.generate (random_uuid os) (clock os)) (device_metadata m))) m.

(** What a call does to the manager, and its result. *)
Definition spec (c : call) (m : t) : t * outcome string unit :=
  match c with
  | Initialize os =>
      (with_device os (set_keys (Some (default (IdentityKeys.generate (random_key os)) (keys m))) m), Ok tt)
  | SetNickname name => (set_name (Some name) m, Ok tt)
  | ImportKeyBytes os bytes =>
      if len bytes =? 32 then (with_device os (set_keys (Some (IdentityKeys.mk bytes)) m), Ok tt)
      else (m, Err "Invalid key bytes"%string)
  | Restart os => (m, Ok tt)
  end.
End Spec.

Section Code.
Context {B : Type} `{HB : StorageBackend B} {KC : KeyCrates} {BL : Blake3} {UC : UuidCrate}.

(** A restart keeps the backend and builds the manager anew. *)
Definition step (c : call) : M (t * B) string unit :=
  match c with
  | Initialize os => initialize os
  | SetNickname name => set_nickname name
  | ImportKeyBytes os bytes => import_key_bytes os bytes
  | Restart os => fun s =>
      match with_backend os s.2 with
      | (b, Ok m) => ((m, b), Ok tt)
      | (b, Err e) => ((s.1, b), Err e)
      | (b, Panic) => ((s.1, b), Panic)
      end
  end.
End Code.

Section Refinement.
Context {B : Type} `{HB : StorageBackend B} {HBS : StorageBackendSpec B} {HBR : Reliable B}.
Context {KC : KeyCrates} {BL : Blake3} {UC : UuidCrate}.
Implicit Types (b : B) (m : t).

Definition kept (m : t) (c : gmap Bytes Bytes) : Prop :=
  c !! IDENTITY_KEY = IdentityKeys.to_bytes <$> keys m /\
  c !! NICKNAME_KEY = as_bytes <$> nickname m /\
  c !! DEVICE_ID_KEY = (fun d => as_bytes (DeviceMetadata.device_id d)) <$> device_metadata m /\
  c !! SENIORITY_TIMESTAMP_KEY = (fun d => as_bytes (show (DeviceMetadata.seniority_timestamp d))) <$> device_metadata m.

Definition manager_ok (m : t) : Prop :=
  (forall k, keys m = Some k -> len (IdentityKeys.signing_key k) = 32 /\ is_Some (device_metadata m)) /\
  (forall n, nickname m = Some n -> utf8_valid (as_bytes n) = true) /\
  (forall d, device_metadata m = Some d -> device_ok d).

Definition in_sync (m : t) (b : B) : Prop := store m = IdentityStore.Persistent /\ manager_ok m /\ kept m (contents b).

(** The rules for calls on the state of the manager. *)
Lemma runs_on_store {A} (f : IdentityStore.t -> M B string A) m b Q :
  runs (f (store m)) b (fun r b' => Q r (m, b')) -> runs (on_store f) (m, b) Q.
Proof. unfold runs, on_store. cbn. by destruct (f (store m) b). Qed.

Lemma runs_update g m b (Q : outcome string unit -> t * B -> Prop) : Q (Ok tt) (g m, b) -> runs (update g) (m, b) Q.
Proof. done. Qed.

Lemma runs_gets {S E A} (f : S -> A) s (Q : outcome E A -> S -> Prop) : Q (Ok (f s)) s -> runs (gets f) s Q.
Proof. done. Qed.

(** Loading what was saved. *)
Lemma runs_load_string key b (o : option string) (Q : outcome string (option string) -> B -> Prop) :
  contents b !! key = as_bytes <$> o -> (forall s, o = Some s -> utf8_valid (as_bytes s) = true) ->
  Q (Ok o) b -> runs (IdentityStore.load_string IdentityStore.Persistent key) b Q.
Proof.
  intros Hc Hu HQ. unfold IdentityStore.load_string. apply runs_bind, runs_get. rewrite Hc.
  destruct o as [s|]; cbn; [|by apply runs_ret]. unfold IdentityStore.from_utf8. rewrite (Hu s) by done.
  apply runs_bind, runs_lift, runs_ret. by rewrite of_as_bytes.
Qed.

Lemma runs_load_keys m b (Q : outcome string (option IdentityKeys.t) -> B -> Prop) :
  in_sync m b -> Q (Ok (keys m)) b -> runs (IdentityStore.load_keys IdentityStore.Persistent) b Q.
Proof.
  intros (_ & (Hk & _) & Hc & _) HQ. unfold IdentityStore.load_keys. apply runs_bind, runs_get. rewrite Hc.
  destruct (keys m) as [[k]|]; cbn; [|by apply runs_ret]. destruct (Hk _ eq_refl) as [Hl _]. cbn in Hl.
  unfold IdentityKeys.from_bytes, IdentityKeys.to_bytes. cbn. rewrite Hl, Z.eqb_refl. by apply runs_bind, runs_lift, runs_ret.
Qed.

Lemma runs_load_device b (o : option DeviceMetadata.t) (Q : outcome string (option DeviceMetadata.t) -> B -> Prop) :
  contents b !! DEVICE_ID_KEY = (fun d => as_bytes (DeviceMetadata.device_id d)) <$> o ->
  contents b !! SENIORITY_TIMESTAMP_KEY = (fun d => as_bytes (show (DeviceMetadata.seniority_timestamp d))) <$> o ->
  (forall d, o = Some d -> device_ok d) -> Q (Ok o) b ->
  runs (IdentityStore.load_device_metadata IdentityStore.Persistent) b Q.
Proof.
  intros Hd Ht Hok HQ. unfold IdentityStore.load_device_metadata, IdentityStore.load_device_id, IdentityStore.load_seniority_timestamp.
  apply runs_bind, (runs_load_string _ _ (DeviceMetadata.device_id <$> o)).
  { rewrite Hd. by destruct o. }
  { intros s Hs. destruct o as [d|]; [|done]. cbn in Hs. injection Hs as <-. by destruct (Hok d eq_refl) as (? & _). }
  apply runs_bind, runs_bind, (runs_load_string _ _ ((fun d => show (DeviceMetadata.seniority_timestamp d)) <$> o)).
  { rewrite Ht. by destruct o. }
  { intros s Hs. destruct o as [d|]; [|done]. cbn in Hs. injection Hs as <-. apply show_utf8. }
  destruct o as [[i ts]|]; cbn; [|by apply runs_ret]. destruct (Hok _ eq_refl) as (_ & Hv & Hts). cbn in Hv, Hts.
  rewrite parse_show by (unfold fits in Hts; lia). apply runs_ret. cbn. rewrite Hv. by apply runs_bind, runs_lift, runs_ret.
Qed.

(** The keys of the store are different. *)
Lemma kept_keys m k c : kept m c -> kept (set_keys (Some k) m) (<[IDENTITY_KEY := IdentityKeys.to_bytes k]> c).
Proof.
  intros (H1 & H2 & H3 & H4). unfold kept. cbn. rewrite lookup_insert_eq, !lookup_insert_ne by done. done.
Qed.

Lemma kept_name m n c : kept m c -> kept (set_name (Some n) m) (<[NICKNAME_KEY := as_bytes n]> c).
Proof.
  intros (H1 & H2 & H3 & H4). unfold kept. cbn. rewrite lookup_insert_eq, !lookup_insert_ne by done. done.
Qed.

Lemma kept_device m d c : kept m c ->
  kept (set_device (Some d) m) (<[SENIORITY_TIMESTAMP_KEY := as_bytes (show (DeviceMetadata.seniority_timestamp d))]>
    (<[DEVICE_ID_KEY := as_bytes (DeviceMetadata.device_id d)]> c)).
Proof.
  intros (H1 & H2 & H3 & H4). unfold kept. cbn. rewrite lookup_insert_eq, !lookup_insert_ne by done.
  by rewrite lookup_insert_eq.
Qed.

(** The invariant but for the device of a manager with keys. *)
Definition nearly (m : t) (b : B) : Prop :=
  store m = IdentityStore.Persistent /\ kept m (contents b) /\
  (forall k, keys m = Some k -> len (IdentityKeys.signing_key k) = 32) /\
  (forall n, nickname m = Some n -> utf8_valid (as_bytes n) = true) /\
  (forall d, device_metadata m = Some d -> device_ok d).

Lemma in_sync_nearly m b : in_sync m b -> nearly m b.
Proof. intros (Hs & (Hk & Hn & Hd) & Hc). split_and!; try done. intros k Hkk. by destruct (Hk k Hkk). Qed.

Lemma runs_ensure_device os m b : fresh_ok os -> nearly m b ->
  runs (ensure_device_metadata os) (m, b) (fun r s =>
    r = Ok tt /\ s.1 = (match keys m with Some _ => with_device os m | None => m end) /\ in_sync s.1 s.2).
Proof.
  intros [Hr Hf] (Hs & Hc & Hk & Hn & Hd). unfold ensure_device_metadata. apply runs_bind, runs_gets. cbn [fst].
  destruct (keys m) as [k|] eqn:Ek.
  2: { rewrite bool_decide_false by (by intros []). cbn. split_and!; [done..|]. split; [done|]. split; [|done].
       split_and!; [|done|done]. cbn. intros k Hkk. congruence. }
  rewrite (bool_decide_true (is_Some _)) by done. cbn [andb].
  destruct (device_metadata m) as [d|] eqn:Ed.
  - rewrite bool_decide_false by done. cbn. unfold with_device. rewrite Ed. cbn.
    assert (Hm : m = set_device (Some d) m) by (unfold set_device; destruct m; cbn in *; congruence). rewrite <-Hm.
    split; [done|]. split; [done|]. split; [done|]. split; [|done]. split_and!; [|done|cbn; rewrite Ed; done].
    cbn. intros k' Hk'. rewrite Ed. split; [apply Hk; congruence|done].
  - rewrite bool_decide_true by done.
    apply runs_bind, runs_on_store. rewrite Hs. unfold IdentityStore.load_or_create_device_metadata.
    apply runs_bind, (runs_load_device _ None); [by rewrite (proj1 (proj2 (proj2 Hc))), Ed|by rewrite (proj2 (proj2 (proj2 Hc))), Ed|done|].
    apply runs_bind. unfold IdentityStore.save_device_metadata.
    apply runs_bind, runs_put. intros b1 H1. apply runs_bind, runs_put. intros b2 H2. apply runs_flush. intros b3 H3.
    apply runs_ret, runs_update. unfold with_device. rewrite Ed. cbn [default]. split_and!; [done..|].
    split_and!; [done| |].
    + split_and!; cbn; [|done|]; [|by intros d [= <-]]. intros k' Hk'. split; [apply Hk; congruence|done].
    + cbn [snd fst]. rewrite H3, H2, H1. by apply kept_device.
Qed.

Lemma runs_hydrate os m m' b : fresh_ok os -> in_sync m b -> store m' = IdentityStore.Persistent ->
  (keys m' = None \/ keys m' = keys m) -> (nickname m' = None \/ nickname m' = nickname m) ->
  runs (hydrate_from_store os) (m', b) (fun r s => r = Ok tt /\ s.1 = m /\ in_sync s.1 s.2).
Proof.
  intros Hos Hsync Hs' Hk' Hn'. pose proof Hsync as (Hs & (Hk & Hn & Hd) & Hc & Hcn & Hcd & Hct). unfold hydrate_from_store.
  apply runs_bind, runs_on_store. rewrite Hs'. unfold IdentityStore.load_nickname. apply (runs_load_string _ _ (nickname m)); [done..|].
  apply runs_bind. set (m1 := mk IdentityStore.Persistent (keys m') (nickname m) (device_metadata m')).
  assert (H1 : forall Q : outcome string unit -> t * B -> Prop, Q (Ok tt) (m1, b) ->
    runs (match nickname m with Some n => update (set_name (Some n)) | None => mret tt end) (m', b) Q).
  { intros Q HQ. replace m1 with (match nickname m with Some n => set_name (Some n) m' | None => m' end) in HQ.
    - destruct (nickname m); [by apply runs_update|by apply runs_ret].
    - unfold m1. destruct m' as [st k n d]. cbn in *. subst st. destruct (nickname m) as [x|]; cbn; [done|].
      by destruct Hn' as [-> | ->]. }
  apply H1. apply runs_bind, runs_on_store. cbn [store m1]. apply (runs_load_keys m); [done|].
  apply runs_bind. set (m2 := mk IdentityStore.Persistent (keys m) (nickname m) (device_metadata m')).
  assert (H2 : forall Q : outcome string unit -> t * B -> Prop, Q (Ok tt) (m2, b) ->
    runs (match keys m with Some k => update (set_keys (Some k)) | None => mret tt end) (m1, b) Q).
  { intros Q HQ. destruct (keys m) as [k|] eqn:Ek; [by apply runs_update|]. apply runs_ret. unfold m1.
    by destruct Hk' as [-> | ->]. }
  apply H2. apply runs_bind, runs_on_store. cbn [store m2]. apply (runs_load_device _ (device_metadata m)); [done..|].
  apply runs_bind, runs_update. replace (set_device (device_metadata m) m2) with m by (unfold set_device, m2; destruct m; cbn in *; by subst).
  eapply runs_conseq; [apply runs_ensure_device; [done|by apply in_sync_nearly]|]. cbn.
  intros r [m3 b3] (-> & -> & Hin). split_and!; [done| |done]. cbn in *. destruct (keys m) as [k|] eqn:Ek; [|done].
  destruct (Hk k eq_refl) as [_ [d Ed]]. unfold with_device, set_device. rewrite Ed. destruct m; cbn in *; congruence.
Qed.

(** Saving keys in a manager whose store is in step. *)
Lemma runs_save_keys os k m b : fresh_ok os -> in_sync m b -> len (IdentityKeys.signing_key k) = 32 ->
  runs (_ ← on_store (fun st => IdentityStore.save_keys st k); _ ← update (set_keys (Some k)); ensure_device_metadata os) (m, b)
    (fun r s => r = Ok tt /\ s.1 = with_device os (set_keys (Some k) m) /\ in_sync s.1 s.2).
Proof.
  intros Hos (Hs & (Hk & Hn & Hd) & Hc) Hl. apply runs_bind, runs_on_store. rewrite Hs. unfold IdentityStore.save_keys.
  apply runs_bind, runs_put. intros b1 H1. apply runs_flush. intros b2 H2. apply runs_bind, runs_update.
  apply (runs_ensure_device os (set_keys (Some k) m) b2 Hos). split_and!; [done| | |done|done].
  - rewrite H2, H1. by apply kept_keys.
  - cbn. by intros ? [= <-].
Qed.

Lemma identity_step c m b : call_ok c -> in_sync m b ->
  exists b', step c (m, b) = (((spec c m).1, b'), (spec c m).2) /\ in_sync (spec c m).1 b'.
Proof.
  intros Hok Hin. assert (H : runs (step c) (m, b) (fun r s => r = (spec c m).2 /\ s.1 = (spec c m).1 /\ in_sync s.1 s.2)).
  2: { unfold runs in H. destruct (step c (m, b)) as [[m' b'] r]. cbn in H. destruct H as (-> & -> & H). by exists b'. }
  destruct c as [os|name|os bytes|os]; cbn [step spec fst snd].
  - unfold initialize. apply runs_bind. eapply runs_conseq; [apply (runs_hydrate os m m); eauto; apply Hin|].
    intros r [m1 b1] (-> & Hm1 & Hin1). cbn [fst snd] in *. subst m1. apply runs_bind, runs_gets. cbn [fst].
    destruct (keys m) as [k|] eqn:Ek.
    + apply runs_bind, runs_ret. eapply runs_conseq; [apply runs_ensure_device; [done|by apply in_sync_nearly]|]. cbn beta.
      intros r [m2 b2] (-> & Hm2 & Hin2). cbn [fst snd] in *. rewrite Ek in Hm2. split_and!; [done| |done]. rewrite Hm2.
      cbn [default]. f_equal. unfold set_keys. destruct m; cbn in *; congruence.
    + cbn [default]. change (fun (r : outcome string unit) (s : t * B) => r = Ok tt /\ _) with
        (fun (r : outcome string unit) (s : t * B) => r = Ok tt /\
           s.1 = with_device os (set_keys (Some (IdentityKeys.generate (random_key os))) m) /\ in_sync s.1 s.2).
      eapply runs_conseq; [|intros r s H; exact H].
      pose proof (runs_save_keys os (IdentityKeys.generate (random_key os)) m b1 Hok Hin1 (proj1 Hok)) as Hr.
      unfold runs, mbind, M_bind in *. repeat case_match; simplify_eq; done.
  - destruct Hin as (Hs & (Hk & Hn & Hd) & Hc). unfold set_nickname. apply runs_bind, runs_on_store. rewrite Hs.
    unfold IdentityStore.save_nickname. apply runs_bind, runs_put. intros b1 H1. apply runs_flush. intros b2 H2.
    apply runs_update. cbn [fst snd]. split_and!; [done..|]. split_and!; [done| |rewrite H2, H1; by apply kept_name].
    split_and!; [done| |done]. cbn. intros n Hn'. injection Hn' as <-. exact Hok.
  - unfold import_key_bytes, IdentityKeys.from_bytes. destruct (Z.eqb_spec (len bytes) 32) as [Hl|Hl].
    + apply runs_bind, runs_lift. by apply runs_save_keys.
    + by apply runs_bind, runs_lift.
  - unfold runs, with_backend. cbn [snd].
    pose proof (runs_hydrate os m (mk IdentityStore.Persistent None None None) b Hok Hin eq_refl (or_introl eq_refl) (or_introl eq_refl)) as Hh.
    unfold runs in Hh. destruct (hydrate_from_store os _) as [[m1 b1] r]. cbn in Hh. destruct Hh as (-> & -> & Hin1). done.
Qed.

(** Calls in a row, and what the specification makes of them. *)
Fixpoint run (cs : list call) (s : t * B) : (t * B) * list (outcome string unit) :=
  match cs with
  | [] => (s, [])
  | c :: cs => let '(s, r) := step c s in let '(s, rs) := run cs s in (s, r :: rs)
  end.

Fixpoint spec_run (cs : list call) (m : t) : t * list (outcome string unit) :=
  match cs with
  | [] => (m, [])
  | c :: cs => let '(m, r) := spec c m in let '(m, rs) := spec_run cs m in (m, r :: rs)
  end.

Lemma identity_run_spec cs m b : Forall call_ok cs -> in_sync m b ->
  exists b', run cs (m, b) = (((spec_run cs m).1, b'), (spec_run cs m).2) /\ in_sync (spec_run cs m).1 b'.
Proof.
  intros Hcs. revert m b. induction Hcs as [|c cs Hc _ IH]; intros m b Hin; [by exists b|].
  destruct (identity_step c m b Hc Hin) as (b1 & H1 & Hin1). cbn [run spec_run]. rewrite H1.
  destruct (spec c m) as [m1 r1]. cbn [fst snd] in *. destruct (IH m1 b1 Hin1) as (b2 & H2 & Hin2). rewrite H2.
  destruct (spec_run cs m1) as [m2 rs]. by exists b2.
Qed.

Lemma spec_run_app cs ds m : (spec_run (cs ++ ds) m).1 = (spec_run ds (spec_run cs m).1).1.
Proof.
  revert m. induction cs as [|c cs IH]; intros m; cbn; [done|]. destruct (spec c m) as [m1 r]. specialize (IH m1).
  destruct (spec_run (cs ++ ds) m1) as [m2 rs], (spec_run cs m1) as [m3 rs']. exact IH.
Qed.

Definition imports (c : call) : bool := match c with ImportKeyBytes _ _ => true | _ => false end.

(** Without an import the keys, once there, never change, nor does the device. *)
Lemma identity_stable cs m k d : Forall (fun c => imports c = false) cs -> keys m = Some k -> device_metadata m = Some d ->
  keys (spec_run cs m).1 = Some k /\ device_metadata (spec_run cs m).1 = Some d.
Proof.
  intros Hcs. revert m. induction Hcs as [|c cs Hc _ IH]; intros m Hk Hd; [done|]. cbn [spec_run].
  destruct (spec c m) as [m1 r] eqn:Hm. specialize (IH m1). destruct (spec_run cs m1) as [m2 rs]. apply IH.
  - destruct c; cbn in Hm; try done; injection Hm as <- <-; cbn; by rewrite ?Hk.
  - destruct c; cbn in Hm; try done; injection Hm as <- <-; cbn; by rewrite ?Hd.
Qed.

(** A backend in which no identity was ever stored. *)
Lemma fresh_in_sync b : contents b !! IDENTITY_KEY = None -> contents b !! NICKNAME_KEY = None ->
  contents b !! DEVICE_ID_KEY = None -> contents b !! SENIORITY_TIMESTAMP_KEY = None ->
  in_sync (mk IdentityStore.Persistent None None None) b.
Proof. intros. split_and!; try done; cbn; congruence. Qed.

(** C32. Identity persistence.  Start on a backend that holds no identity and
    make any calls: initialize, set a nickname, import keys, restart.  Manager
    and results are what the specification says, where a restart changes
    nothing: keys, nickname and device are found again; and from the first
    [initialize] on, as long as no keys are imported, the identity and the
    device are the same after every call, restarts and repeated
    [initialize] included. *)
Theorem identity_survives_restarts (b : B) (cs : list call) : Forall call_ok cs ->
  contents b !! IDENTITY_KEY = None -> contents b !! NICKNAME_KEY = None ->
  contents b !! DEVICE_ID_KEY = None -> contents b !! SENIORITY_TIMESTAMP_KEY = None ->
  let m0 := mk IdentityStore.Persistent None None None in
  exists b', run cs (m0, b) = (((spec_run cs m0).1, b'), (spec_run cs m0).2) /\
    (forall os, fresh_ok os -> exists b'', with_backend os b' = (b'', Ok (spec_run cs m0).1)) /\
    forall before os after, cs = before ++ Initialize os :: after -> Forall (fun c => imports c = false) after ->
      keys (spec_run cs m0).1 = keys (spec_run (before ++ [Initialize os]) m0).1 /\
      device_metadata (spec_run cs m0).1 = device_metadata (spec_run (before ++ [Initialize os]) m0).1 /\
      is_Some (keys (spec_run cs m0).1) /\ is_Some (device_metadata (spec_run cs m0).1).
Proof.
  intros Hcs H1 H2 H3 H4 m0. destruct (identity_run_spec cs m0 b Hcs (fresh_in_sync b H1 H2 H3 H4)) as (b' & Hrun & Hin).
  exists b'. split_and!; [done| |].
  - intros os Hos. destruct (identity_step (Restart os) _ b' Hos Hin) as (b'' & Hs & _). cbn [step spec fst snd] in Hs.
    exists b''. destruct (with_backend os b') as [b1 [m1|e|]]; by simplify_eq.
  - intros before os after -> Hafter. rewrite (cons_middle (Initialize os)), app_assoc, spec_run_app.
    set (m1 := (spec_run (before ++ [Initialize os]) m0).1).
    assert (Hm1 : exists k d, keys m1 = Some k /\ device_metadata m1 = Some d).
    { unfold m1. rewrite spec_run_app. cbn. eauto. }
    destruct Hm1 as (k & d & Hk & Hd). destruct (identity_stable after m1 k d Hafter Hk Hd) as [-> ->]. rewrite Hk, Hd. eauto.
Qed.
End Refinement.

(** A manager without persistent storage takes a new device id at every [initialize]. *)
Lemma memory_device_changes {B : Type} `{HB : StorageBackend B} {KC : KeyCrates} {BL : Blake3} {UC : UuidCrate} (os1 os2 : fresh) (b : B) :
  let '(m1, b1) := (initialize os1 (new, b)).1 in
  let '(m2, _) := (initialize os2 (m1, b1)).1 in
  keys m2 = keys m1 /\ keys m1 = Some (IdentityKeys.mk (random_key os1)) /\
  device_id m1 = Some (random_uuid os1) /\ device_id m2 = Some (random_uuid os2).
Proof. by vm_compute. Qed.
End IdentityCalls.

(** ** Safety numbers *)

Lemma bytes_cmp_eq a b : bytes_cmp a b = Eq -> a = b.
Proof.
  revert b. induction a as [|x a IH]; intros [|y b]; cbn; try done. unfold lex. destruct (Z.compare_spec x y); try done.
  intros H'. f_equal; auto.
Qed.

Lemma bytes_cmp_antisym a b : bytes_cmp b a = CompOpp (bytes_cmp a b).
Proof.
  revert b. induction a as [|x a IH]; intros [|y b]; cbn; try done. rewrite Z.compare_antisym, IH. unfold lex.
  by destruct (x ?= y).
Qed.

Section SafetyNumbers.
Context {KC : KeyCrates} {KCS : KeyCratesSpec KC} {BL : Blake3} {BLS : Blake3Spec BL}.

Lemma safety_groups_ok hash groups digits : len hash = 32 -> exists s, safety_groups hash groups digits = Ok s.
Proof.
  intros Hl. revert digits. induction groups as [|g groups IH]; intros digits; cbn [safety_groups]; [by eexists|].
  pose proof (Nat.mod_upper_bound (g * 2) 24 ltac:(lia)) as Hg. unfold be_u16_at. unfold len in Hl.
  destruct (lookup_lt_is_Some_2 hash (Nat.modulo (g * 2) 24)) as [x Hx]; [lia|].
  destruct (lookup_lt_is_Some_2 hash (S (Nat.modulo (g * 2) 24))) as [y Hy]; [lia|].
  rewrite Hx. cbn [mbind option_bind]. rewrite Hy. apply IH.
Qed.

(** Both sides of a conversation show the same safety number, whoever computes
    it, and for the keys of two identities there is one. *)
Theorem safety_number_agrees (k1 k2 : IdentityKeys.t) :
  bytes (IdentityKeys.public_key k1) -> bytes (IdentityKeys.public_key k2) ->
  exists n, safety_number (IdentityKeys.public_key_hex k1) (IdentityKeys.public_key_hex k2) = Ok n /\
            safety_number (IdentityKeys.public_key_hex k2) (IdentityKeys.public_key_hex k1) = Ok n.
Proof using KCS BLS.
  intros H1 H2. unfold safety_number, IdentityKeys.public_key_hex. rewrite !hex_roundtrip by done. cbn [map_err].
  unfold IdentityKeys.public_key in *. rewrite !verifying_key_32, !Z.eqb_refl. cbn [negb orb].
  rewrite (bytes_cmp_antisym (verifying_key (IdentityKeys.signing_key k1))).
  destruct (bytes_cmp (verifying_key (IdentityKeys.signing_key k1)) (verifying_key (IdentityKeys.signing_key k2))) eqn:He; cbn [CompOpp].
  1: apply bytes_cmp_eq in He; rewrite He.
  all: edestruct safety_groups_ok as [n ->]; [apply blake3_hash_32|eauto].
Qed.
End SafetyNumbers.

(** ** Witnesses *)

Module IdentitySamples.
Import EncryptSamples IdentityCalls IdentityManager.

#[local] Instance sample_iter : MapIter Bytes Bytes := map_iter_default.
#[local] Existing Instances MemoryStorage.storage_backend MemoryStorage.storage_backend_spec.
#[local] Instance blake3 : Blake3 := sample_blake3.
#[local] Instance sample_uuid : UuidCrate := fun s => if (String.length s =? 4)%nat then Ok 4 else Err "bad uuid"%string.

Definition os1 : fresh := mk_fresh (repeat_byte 7 32) "dev1" 1700000000.
Definition os2 : fresh := mk_fresh (repeat_byte 9 32) "dev2" 1700000500.

Lemma os_ok : fresh_ok os1 /\ fresh_ok os2.
Proof. unfold fresh_ok, device_ok. split; split_and!; try reflexivity; by_eval. Qed.

Definition sample_calls : list call := [SetNickname "Ada"; Initialize os1; Restart os2; Initialize os2].

Lemma identity_survives_restarts_witness :
  exists b b'' : MemoryStorage.t, with_backend os2 b = (b'', Ok
    (mk IdentityStore.Persistent (Some (IdentityKeys.mk (repeat_byte 7 32))) (Some "Ada"%string)
      (Some (DeviceMetadata.mk "dev1" 1700000000)))).
Proof.
  destruct (identity_survives_restarts (HBR := memory_storage_reliable) MemoryStorage.new sample_calls) as (b' & _ & H & _).
  - destruct os_ok. repeat constructor; cbn; done.
  - reflexivity.
  - reflexivity.
  - reflexivity.
  - reflexivity.
  - destruct (H os2 (proj2 os_ok)) as (b'' & Hb). exists b', b''. exact Hb.
Defined.
End IdentitySamples.
