(* ===== verification/Core.v ===== *)
(** * The application core (core/src/iron_core.rs): identity and message flow

    The facade that holds the components and drives them: consent and identity,
    starting and stopping, preparing and receiving messages, blocking, and the
    look-up of identities.  Its state is the record [IronCore.t]; contacts,
    history, block list and identity share the backend [db].  What the
    operating system supplies to a call (random bytes, UUIDs, readings of the
    clock) is the argument [os].  The routing engine and the onion layer are
    used through the classes [Router] and [OnionService]. *)

From S2P Require Import Prelude Drift Float64 Backend State Text Records EnvelopeWire MeshStore Cover Relay Encrypt Outbox Inbox.
From S2P Require Import NegativeCache LocalCell GlobalRoutes Neighborhood RoutingEngine Discovery OptimizedRouting Ratchet Onion.
From S2P Require Import AuditLog Blocked History Contacts Message Identity.

(** [self.make_routing_decision(..)]: the first hop for a message. *)
Class Router (R : Type) : Type := {
  router_new : Z -> Bytes -> Bytes -> R;
  router_route : Z -> Bytes -> Bytes -> Z -> R -> outcome IronCoreError (R * NextHop.t)
}.

(** What the message flow relies on: from its creation on the router answers
    every question. *)
Class RouterSpec (R : Type) {RO : Router R} : Type := {
  router_inv : R -> Prop;
  router_new_inv : forall instant id hint, router_inv (router_new instant id hint);
  router_route_ok : forall instant hint message_id priority e, router_inv e ->
    exists e' hop, router_route instant hint message_id priority e = Ok (e', hop) /\ router_inv e'
}.

(** [serde_json::to_string(&relays)] and then [self.prepare_onion_message(..)]. *)
Class OnionService : Type := onion_wrap : (nat -> Secret) -> Bytes -> list string -> outcome IronCoreError Bytes.

Inductive ConsentState : Type := NotGranted | Granted.

#[export] Instance ConsentState_eq_dec : EqDecision ConsentState.
Proof. solve_decision. Defined.

Module PreparedMessage.
Record t : Type := mk { message_id : string; envelope_data : Bytes }.
End PreparedMessage.

(** The calls of the delegate that the message flow makes. *)
Inductive Notification : Type :=
| OnMessageReceived (sender_id sender_public_key_hex message_id : string) (sender_timestamp : Z) (data : Bytes)
| OnPeerDiscovered (peer_id : string)
| OnPeerDisconnected (peer_id : string).

(** What the operating system supplies to a call: the clock in milliseconds
    since the epoch, [None] before it, at its successive readings. *)
Record Os : Type := mk_os {
  os_identity : IdentityManager.fresh;
  os_uuid : nat -> string;
  os_clock : nat -> option Z;
  os_instant : Z;
  os_ephemeral : Bytes;
  os_nonce : Bytes;
  os_onion : nat -> Secret
}.

Definition clock_secs (os : Os) (i : nat) : option Z := (fun ms => ms / 1000) <$> os_clock os i.
Definition now_secs (os : Os) (i : nat) : Z := default 0 (clock_secs os i).
Definition now_millis (os : Os) (i : nat) : Z := wrap 64 (default 0 (os_clock os i)).

Module IronCore.

Section Code.
Context {B : Type} `{HB : StorageBackend B} {R : Type} {RO : Router R} {OS : OnionService} {RM : Type}.
Context {KC : KeyCrates} {EC : EnvelopeCrates} {UC : UuidCrate} `{HL : Libm}.
Context `{HM : Bincode Message.t} `{HE : Bincode LegacyEnvelope.t} `{HQ : Bincode QueuedMessage.t}
  `{HR : Bincode ReceivedMessage.t} `{HSI : Bincode (gset Bytes)}.
Context `{HJB : SerdeJson BlockedIdentity.t} `{HJD : SerdeJson (list string)} `{HJC : SerdeJson Contact.t}
  `{HJM : SerdeJson MessageRecord.t} `{JE : SerdeJson AuditEvent.t}.
Context {MI : MapIter MessageId StoredEnvelope.t} {MQ : MapIter string (list QueuedMessage.t)}
  {MR : MapIter string (list ReceivedMessage.t)} {SI : SetIter Bytes}.

Record t : Type := mk {
  identity : IdentityManager.t;
  outbox : Outbox.t B;
  inbox : Inbox.t B;
  audit_log : AuditLog.t;
  delegate : option (list Notification);
  consent : ConsentState;
  drift_active : bool;
  drift_store : MeshStore.t;
  drift_engine : option (RelayEngine.t RM);
  running : bool;
  routing_engine : option R;
  bootstrap_seeds : option (list string);
  onion_routing_enabled : bool;
  db : B
}.

Definition set_identity x s := mk x (outbox s) (inbox s) (audit_log s) (delegate s) (consent s) (drift_active s) (drift_store s)
  (drift_engine s) (running s) (routing_engine s) (bootstrap_seeds s) (onion_routing_enabled s) (db s).
Definition set_outbox x s := mk (identity s) x (inbox s) (audit_log s) (delegate s) (consent s) (drift_active s) (drift_store s)
  (drift_engine s) (running s) (routing_engine s) (bootstrap_seeds s) (onion_routing_enabled s) (db s).
Definition set_inbox x s := mk (identity s) (outbox s) x (audit_log s) (delegate s) (consent s) (drift_active s) (drift_store s)
  (drift_engine s) (running s) (routing_engine s) (bootstrap_seeds s) (onion_routing_enabled s) (db s).
Definition set_audit x s := mk (identity s) (outbox s) (inbox s) x (delegate s) (consent s) (drift_active s) (drift_store s)
  (drift_engine s) (running s) (routing_engine s) (bootstrap_seeds s) (onion_routing_enabled s) (db s).
Definition set_delegate x s := mk (identity s) (outbox s) (inbox s) (audit_log s) x (consent s) (drift_active s) (drift_store s)
  (drift_engine s) (running s) (routing_engine s) (bootstrap_seeds s) (onion_routing_enabled s) (db s).
Definition set_consent x s := mk (identity s) (outbox s) (inbox s) (audit_log s) (delegate s) x (drift_active s) (drift_store s)
  (drift_engine s) (running s) (routing_engine s) (bootstrap_seeds s) (onion_routing_enabled s) (db s).
Definition set_drift_active x s := mk (identity s) (outbox s) (inbox s) (audit_log s) (delegate s) (consent s) x (drift_store s)
  (drift_engine s) (running s) (routing_engine s) (bootstrap_seeds s) (onion_routing_enabled s) (db s).
Definition set_drift_store x s := mk (identity s) (outbox s) (inbox s) (audit_log s) (delegate s) (consent s) (drift_active s) x
  (drift_engine s) (running s) (routing_engine s) (bootstrap_seeds s) (onion_routing_enabled s) (db s).
Definition set_drift_engine x s := mk (identity s) (outbox s) (inbox s) (audit_log s) (delegate s) (consent s) (drift_active s)
  (drift_store s) x (running s) (routing_engine s) (bootstrap_seeds s) (onion_routing_enabled s) (db s).
Definition set_running x s := mk (identity s) (outbox s) (inbox s) (audit_log s) (delegate s) (consent s) (drift_active s)
  (drift_store s) (drift_engine s) x (routing_engine s) (bootstrap_seeds s) (onion_routing_enabled s) (db s).
Definition set_routing x s := mk (identity s) (outbox s) (inbox s) (audit_log s) (delegate s) (consent s) (drift_active s)
  (drift_store s) (drift_engine s) (running s) x (bootstrap_seeds s) (onion_routing_enabled s) (db s).
Definition set_seeds x s := mk (identity s) (outbox s) (inbox s) (audit_log s) (delegate s) (consent s) (drift_active s)
  (drift_store s) (drift_engine s) (running s) (routing_engine s) x (onion_routing_enabled s) (db s).
Definition set_db x s := mk (identity s) (outbox s) (inbox s) (audit_log s) (delegate s) (consent s) (drift_active s)
  (drift_store s) (drift_engine s) (running s) (routing_engine s) (bootstrap_seeds s) (onion_routing_enabled s) x.

Abbreviation run := (M t IronCoreError).

(** A call on the backend, and one on the identity manager. *)
Definition on_db {E A} (m : M B E A) : M t E A := fun s =>
  let '(b, r) := m (db s) in (set_db b s, r).

Definition on_identity {A} (m : M (IdentityManager.t * B) string A) : M t string A := fun s =>
  let '((i, b), r) := m (identity s, db s) in (set_db b (set_identity i s), r).

(** [self.audit_log.write().append(AuditEvent::new(..))]; [i] is the number of
    the UUID and of the clock reading.  [AuditEvent::new] panics for a clock
    before the epoch. *)
Definition audit (os : Os) (i : nat) (event : AuditEventType.t) (peer details : option string) : run unit := fun s =>
  match clock_secs os i with
  | None => (s, Panic)
  | Some now =>
      match AuditLog.append (os_uuid os i) now event (IdentityManager.identity_id (identity s)) peer details (audit_log s) with
      | Ok (log, _) => (set_audit log s, Ok tt)
      | _ => (s, Panic)
      end
  end.

Definition notify (n : Notification) : run unit :=
  modify (fun s => match delegate s with Some l => set_delegate (Some (l ++ [n])) s | None => s end).

(** ** Life cycle *)

Definition drift_activate : run unit := modify (fun s =>
  set_drift_engine (RelayEngine.set_network_state Active <$> drift_engine s) (set_drift_active true s)).

Definition drift_deactivate : run unit := modify (fun s =>
  set_drift_engine (RelayEngine.set_network_state Dormant <$> drift_engine s) (set_drift_active false s)).

Definition drift_network_state (s : t) : string := if drift_active s then "Active" else "Dormant".

Definition start : run unit :=
  already ← gets running;
  if already : bool then fail AlreadyRunning else
  _ ← modify (set_running true);
  drift_activate.

Definition stop : run unit :=
  _ ← drift_deactivate;
  modify (set_running false).

Definition grant_consent : run unit := modify (set_consent Granted).

(** [slice[0..4].try_into().unwrap_or([0; 4])]. *)
Definition hint4 (hash : Bytes) : Bytes := take 4 hash.

Definition initialize_identity (os : Os) : run unit :=
  c ← gets consent;
  if negb (bool_decide (c = Granted)) then fail ConsentRequired else
  _ ← map_error (fun _ => CryptoError) (on_identity (IdentityManager.initialize (os_identity os)));
  _ ← audit os 0 AuditEventType.IdentityCreated None None;
  i ← gets identity;
  match IdentityManager.keys i with
  | Some keys =>
      let pk_bytes := IdentityKeys.public_key keys in
      _ ← modify (set_drift_engine (Some (RelayEngine.new (now_secs os 1) pk_bytes RelayConfig.default)));
      let hint := hint4 (blake3_hash pk_bytes) in
      _ ← modify (fun s => match routing_engine s with
                           | None => set_routing (Some (router_new (os_instant os) pk_bytes hint)) s
                           | Some _ => s
                           end);
      modify (set_seeds (Some []))
  | None => mret tt
  end.

Definition set_nickname (os : Os) (nickname : string) : run unit :=
  _ ← map_error (fun _ => Internal) (on_identity (IdentityManager.set_nickname nickname));
  audit os 0 AuditEventType.ConsentGranted None (Some ("nickname=" +:+ nickname)).

Definition verify_signature (data signature : Bytes) (public_key_hex : string) : outcome IronCoreError bool :=
  let! pk_bytes := map_err (fun _ => InvalidInput) (Encrypt.hex_decode public_key_hex) in
  map_err (fun _ => CryptoError) (IdentityKeys.verify data signature pk_bytes).

(** ** Sending *)

(** [ok_or(IronCoreError::NotInitialized)]. *)
Definition own_keys : run IdentityKeys.t :=
  i ← gets identity;
  match IdentityManager.keys i with Some k => mret k | None => fail NotInitialized end.

Definition swarm_get_best_relays (count : nat) (s : t) : list string :=
  match bootstrap_seeds s with
  | Some seeds => take count seeds
  | None => []
  end.

(** The part of [prepare_message_internal] on onion routing. *)
Definition wrap_in_onion (os : Os) (envelope_data : Bytes) (s : t) : Bytes :=
  if onion_routing_enabled s then
    let relays := swarm_get_best_relays 3 s in
    if bool_decide (relays = []) then envelope_data else
    unwrap_or envelope_data (onion_wrap (os_onion os) envelope_data relays)
  else envelope_data.

Definition make_routing_decision (os : Os) (recipient_hint message_id : Bytes) (priority : Z) : run (option NextHop.t) := fun s =>
  match routing_engine s with
  | Some e =>
      match router_route (os_instant os) recipient_hint message_id priority e with
      | Ok (e, hop) => (set_routing (Some e) s, Ok (Some hop))
      | Err err => (s, Err err)
      | Panic => (s, Panic)
      end
  | None => (s, Ok None)
  end.

Definition enqueue (msg : QueuedMessage.t) : run unit := fun s =>
  match Outbox.enqueue msg (outbox s) with
  | (o, Panic) => (set_outbox o s, Panic)
  | (o, _) => (set_outbox o s, Ok tt)
  end.

Definition hand_off (os : Os) (e : StoredEnvelope.t) : run unit := fun s =>
  (set_drift_store (MeshStore.insert (now_secs os 4) e (drift_store s)).2 s, Ok tt).

Definition stored_of (os : Os) (envelope_data : Bytes) (e : DriftEnvelope.t) : StoredEnvelope.t :=
  StoredEnvelope.mk envelope_data (DriftEnvelope.message_id e) (DriftEnvelope.recipient_hint e) (DriftEnvelope.created_at e)
    (DriftEnvelope.ttl_expiry e) (DriftEnvelope.hop_count e) (DriftEnvelope.priority e) (now_secs os 3).

(** The message to send. *)
Definition outgoing (os : Os) (i : IdentityManager.t) (recipient_id content : string) (msg_type : MessageType) : Message.t :=
  Message.mk (os_uuid os 1) (default ""%string (IdentityManager.identity_id i)) recipient_id msg_type (as_bytes content) (now_secs os 0).

(** Encode, encrypt, sign and serialize. *)
Definition seal (os : Os) (keys : IdentityKeys.t) (recipient_pk : Bytes) (message : Message.t)
    : outcome IronCoreError (DriftEnvelope.t * Bytes) :=
  let! message_bytes := map_err (fun _ => Internal) (Codec.encode_message message) in
  let! envelope := map_err (fun _ => CryptoError)
    (encrypt_message (os_ephemeral os) (os_nonce os) (IdentityKeys.signing_key keys) recipient_pk message_bytes) in
  let! drift_env := map_err (fun _ => Internal)
    (DriftEnvelope.from_legacy_envelope (clock_secs os 1) envelope (Message.id message) recipient_pk (IdentityKeys.signing_key keys)) in
  let! envelope_data := map_err (fun _ => Internal) (DriftEnvelope.to_bytes drift_env) in
  Ok (drift_env, envelope_data).

Definition decode_recipient (recipient_id : string) : outcome IronCoreError Bytes :=
  let! recipient_bytes := map_err (fun _ => InvalidInput) (Encrypt.hex_decode recipient_id) in
  if len recipient_bytes =? 32 then Ok recipient_bytes else Err InvalidInput.

Definition prepare_message_internal (os : Os) (recipient_id content : string) (msg_type : MessageType) (ttl : option TtlConfig.t)
    : run PreparedMessage.t :=
  keys ← own_keys;
  recipient_pk ← lift (decode_recipient recipient_id);
  i ← gets identity;
  let message := outgoing os i recipient_id content msg_type in
  let message_id := Message.id message in
  '(drift_env, envelope_data) ← lift (seal os keys recipient_pk message);
  envelope_data ← gets (wrap_in_onion os envelope_data);
  let hint := hint4 (blake3_hash (as_bytes recipient_id)) in
  let msg_id_bytes := match uuid_parse message_id with inl u => u | inr _ => repeat_byte 0 16 end in
  decision ← make_routing_decision os hint msg_id_bytes 128;
  _ ← (match decision with
       | Some NextHop.StoreAndCarry => hand_off os (stored_of os envelope_data drift_env)
       | _ => enqueue (QueuedMessage.mk message_id recipient_id envelope_data (now_millis os 4) 0)
       end);
  _ ← audit os 2 AuditEventType.MessageSent (Some recipient_id) None;
  mret (PreparedMessage.mk message_id envelope_data).

Definition prepare_message (os : Os) (recipient_public_key_hex text : string) (msg_type : MessageType) (ttl : option TtlConfig.t)
    : run PreparedMessage.t := prepare_message_internal os recipient_public_key_hex text msg_type ttl.

Definition mark_message_sent (message_id : string) : run bool := fun s =>
  let '(o, outbox_removed) := Outbox.remove message_id (outbox s) in
  let s := set_outbox o s in
  let '(d, drift_removed) :=
    match uuid_parse message_id with
    | inl parsed_id => let '(r, d) := MeshStore.remove parsed_id (drift_store s) in (d, r)
    | inr _ => (drift_store s, false)
    end in
  (set_drift_store d s, Ok (outbox_removed || drift_removed)).

(** [lossy] stands for [String::from_utf8_lossy]. *)
Definition send_message_status (lossy : Bytes -> string) (os : Os) (peer_id : string) (data : Bytes) : run (option IronCoreError) := fun s =>
  match prepare_message os peer_id (lossy data) TextMessage None s with
  | (s, Ok msg) => let '(s, _) := mark_message_sent (PreparedMessage.message_id msg) s in (s, Ok None)
  | (s, Err e) => (s, Ok (Some e))
  | (s, Panic) => (s, Panic)
  end.

Definition flush_outbox_for_peer (peer_id : string) : run (list QueuedMessage.t) := fun s =>
  let '(o, l) := Outbox.drain_for_peer peer_id (outbox s) in (set_outbox o s, Ok l).

Definition outbox_count (s : t) : Z := wrap 32 (Outbox.total_count (outbox s)).

Definition inbox_count (s : t) : Z := wrap 32 (Inbox.total_count (inbox s)).

(** ** Receiving *)

(** [.unwrap_or(false)], and [.ok().flatten()]. *)
Definition or_false (m : M B IronCoreError bool) : run bool := r ← on_db (attempt m); mret (default false r).

Definition known_device (peer_id : string) : run (option string) :=
  r ← on_db (attempt (ContactManager.get peer_id));
  mret (match r with Some (Some c) => Contact.last_known_device_id c | _ => None end).

Definition inbox_receive (m : ReceivedMessage.t) : run unit := fun s =>
  if Inbox.is_duplicate (ReceivedMessage.message_id m) (inbox s) then (s, Ok tt) else
  match Inbox.receive m (inbox s) with
  | Some (i, _) => (set_inbox i s, Ok tt)
  | None => (s, Panic)
  end.

(** Decode, decrypt and decode. *)
Definition open_envelope (keys : option IdentityKeys.t) (envelope_data : Bytes) : outcome IronCoreError (LegacyEnvelope.t * Message.t) :=
  let! envelope := map_err (fun _ => CryptoError) (Codec.decode_envelope envelope_data) in
  let! keys := match keys with Some k => Ok k | None => Err NotInitialized end in
  let! plaintext := map_err (fun _ => CryptoError) (decrypt_message (IdentityKeys.signing_key keys) envelope) in
  let! message := map_err (fun _ => Internal) (Codec.decode_message plaintext) in
  Ok (envelope, message).

Definition history_record (message : Message.t) (hidden : bool) : MessageRecord.t :=
  MessageRecord.mk (Message.id message) Received (Message.sender_id message)
    (if utf8_valid (Message.payload message) then of_bytes (Message.payload message) else ""%string)
    (Message.timestamp message) (Message.timestamp message) true hidden.

Definition receive_message (os : Os) (envelope_data : Bytes) : run Message.t :=
  i ← gets identity;
  '(envelope, message) ← lift (open_envelope (IdentityManager.keys i) envelope_data);
  let sender_id := Message.sender_id message in
  is_blocked_and_deleted ← or_false (BlockedManager.is_blocked_and_deleted sender_id);
  if is_blocked_and_deleted : bool then fail Blocked else
  sender_device_id ← known_device sender_id;
  is_blocked ← or_false (BlockedManager.is_blocked sender_id sender_device_id);
  _ ← inbox_receive (ReceivedMessage.mk (Message.id message) sender_id (Message.payload message) (now_millis os 0)
        (Some (Encrypt.hex_encode (LegacyEnvelope.sender_public_key envelope))));
  _ ← on_db (attempt (HistoryManager.add (history_record message is_blocked)));
  _ ← audit os 1 AuditEventType.MessageReceived (Some sender_id) None;
  _ ← notify (OnMessageReceived sender_id sender_id (Message.id message) (Message.timestamp message) (Message.payload message));
  mret message.

Definition drain_received_messages : run (list ReceivedMessage.t) := fun s =>
  let '(i, l) := Inbox.drain_received_messages (inbox s) in (set_inbox i s, Ok l).

Definition peek_received_messages (s : t) : list ReceivedMessage.t := Inbox.all_messages (inbox s).

(** ** Blocking *)

Definition is_peer_blocked (peer_id : string) (device_id : option string) : run bool :=
  on_db (BlockedManager.is_blocked peer_id device_id).

Definition register_blocked_device (os : Os) (peer_id device_id : string) : run unit :=
  _ ← on_db (BlockedManager.register_device_id (now_secs os 0) peer_id device_id); mret tt.

(** [let _ = self.blocked_manager.write().register_device_id(..)]. *)
Definition try_register (os : Os) (peer_id : string) (device_id : option string) : run unit :=
  match device_id with
  | Some did => _ ← on_db (attempt (BlockedManager.register_device_id (now_secs os 0) peer_id did)); mret tt
  | None => mret tt
  end.

Definition block_peer (os : Os) (peer_id : string) (device_id reason : option string) : run unit :=
  known ← known_device peer_id;
  _ ← try_register os peer_id known;
  _ ← try_register os peer_id device_id;
  let blocked := BlockedIdentity.new (now_secs os 1) peer_id in
  let blocked := match device_id with Some did => BlockedIdentity.with_device_id did blocked | None => blocked end in
  let blocked := match reason with Some r => BlockedIdentity.with_reason r blocked | None => blocked end in
  on_db (BlockedManager.block blocked).

Definition unblock_peer (peer_id : string) (device_id : option string) : run unit :=
  _ ← on_db (BlockedManager.unblock peer_id device_id);
  _ ← on_db (attempt (HistoryManager.unhide_messages_for_peer peer_id));
  mret tt.

Definition block_and_delete_peer (os : Os) (peer_id : string) (reason : option string) : run unit :=
  known ← known_device peer_id;
  _ ← try_register os peer_id known;
  _ ← on_db (BlockedManager.block_and_delete (now_secs os 1) peer_id reason);
  _ ← on_db (attempt (HistoryManager.remove_conversation peer_id));
  _ ← flush_outbox_for_peer peer_id;
  mret tt.

Definition clear_history : run unit := on_db HistoryManager.clear.

Definition notify_peer_discovered (peer_id : string) : run unit :=
  blocked ← or_false (BlockedManager.is_blocked peer_id None);
  if blocked : bool then mret tt else notify (OnPeerDiscovered peer_id).

Definition notify_peer_disconnected (peer_id : string) : run unit := notify (OnPeerDisconnected peer_id).
End Code.
End IronCore.

(** ** The components behind the interfaces *)

Section Instances.
Context `{LN : LibmLn, POW : LibmPow, HASH : DefaultHasher, HEX : HexCrate, B3 : Blake3}.
Context {ML : MapIter PeerId PeerInfo.t} {MG : MapIter PeerId GatewayInfo.t}
  {MS : MapIter (list RecipientHint) NeighborhoodSummary.t} {MN : MapIter string NegativeCacheEntry.t}
  {MP : MapIter RecipientHint (list DeliveryPath.t)} {MR : MapIter RecipientHint PrefetchedRoute.t}.

(** The optimized routing engine; only the first hop of its decision is used. *)
#[global] Instance engine_router : Router OptimizedRoutingEngine.t := {
  router_new := OptimizedRoutingEngine.new;
  router_route instant hint message_id priority e :=
    let! '(e, d) := OptimizedRoutingEngine.route_message_optimized instant hint message_id priority e in
    Ok (e, RoutingDecision.primary d)
}.

(** The documented accuracy of [ln] makes the filter of the negative cache non-empty. *)
#[global] Instance engine_router_spec (Hsize : 0 < BloomFilter.size BloomFilter.for_peer_cache) : RouterSpec OptimizedRoutingEngine.t.
Proof.
  refine {| router_inv := OptimizedHistory.steady |}.
  - intros instant id hint. by apply OptimizedHistory.new_steady.
  - intros instant hint message_id priority e He. cbn [router_route engine_router].
    destruct (OptimizedHistory.steady_route (E := IronCoreError) instant hint message_id priority e He) as (e' & -> & He'). cbn. eauto.
Defined.
End Instances.

Section OnionInstance.
Context `{CR : RatchetCrates} `{HCL : Bincode OnionLayer.t} `{HCE : Bincode OnionEnvelope.t}.
(** [hex::decode], and the text of a list of strings with its reader. *)
Context (decode : string -> option Bytes) (to_json : list string -> outcome string string) (from_json : string -> option (list string)).

Definition onion_service : OnionService := fun eph envelope_data relays =>
  match to_json relays with
  | Ok relays_json => OnionFacade.prepare_onion_message decode from_json eph envelope_data relays_json
  | Err _ => Err Internal
  | Panic => Panic
  end.

(** Relays that are addresses, as [swarm_get_best_relays] returns them, and not
    keys in hexadecimal never give an onion: the envelope leaves as it is. *)
Lemma onion_service_addresses (eph : nat -> Secret) envelope_data relays json a :
  to_json relays = Ok json -> from_json json = Some relays -> head relays = Some a -> decode a = None ->
  onion_service eph envelope_data relays = Err InvalidInput.
Proof.
  intros Hj Hf Hh Ha. unfold onion_service. rewrite Hj. unfold OnionFacade.prepare_onion_message. rewrite Hf.
  destruct relays as [|x l]; [done|]. injection Hh as ->. cbn [OnionFacade.decode_keys].
  unfold OnionFacade.decode_key. rewrite Ha. unfold len. by rewrite (proj2 (Z.eqb_neq _ _)) by (cbn; lia).
Qed.
End OnionInstance.
