(* ===== verification/CoreProps.v ===== *)
(** * Sending, receiving and blocking (core/src/iron_core.rs)

    Two instances of the application: what one prepares for the key of the
    other, the other receives; and what a block changes.  The state of an
    instance is related to the abstract local data (block list, contacts,
    history) and to the abstract inbox. *)

From S2P Require Import Prelude Drift Float64 Backend State Text Records EnvelopeWire MeshStore Cover Relay Encrypt EncryptProps Outbox OutboxProps Inbox InboxProps.
From S2P Require Import NegativeCache LocalCell GlobalRoutes Neighborhood RoutingEngine Discovery OptimizedRouting Ratchet Onion.
From S2P Require Import AuditLog Blocked BlockedProps History HistoryProps Contacts ContactsProps LocalData Message Identity Core.

(** Documented behaviour of the crates that matters on the wire: keys and
    ciphertexts are bytes, a tag of 16 bytes is added, LZ4 blocks with their
    size in front stay within the bound of the crate, and hexadecimal text has
    no colon. *)
Class WireCrates (KC : KeyCrates) (EC : EnvelopeCrates) : Prop := {
  verifying_key_bytes : forall k, bytes (verifying_key k);
  x25519_public_bytes : forall s, bytes (x25519_public s);
  aead_bytes : forall k n ad m c, bytes m -> aead_encrypt k n ad m = Ok c -> bytes c;
  aead_tag : AeadTag key_ratchet;
  lz4_bound : forall d, len (lz4_compress d) <= 20 + len d * 110 / 100;
  hex_no_colon : forall b, bytes b -> simple (Encrypt.hex_encode b)
}.

(** The output of bincode is bytes. *)
Class BincodeBytes (A : Type) `{Bincode A} : Prop :=
  bincode_bytes : forall (a : A) d, bincode_serialize a = Ok d -> bytes d.

Module CoreFacts.
Import IronCore.
#[local] Existing Instance HistoryCalls.of_peer_dec.

Section Envelopes.
Context {KC : KeyCrates} {KCS : KeyCratesSpec KC} {EC : EnvelopeCrates} {ECS : EnvelopeCratesSpec EC} {WC : WireCrates KC EC}.
Context `{HM : Bincode Message.t} {HMS : BincodeSpec Message.t} {HMB : BincodeBytes Message.t} `{HE : Bincode LegacyEnvelope.t}.

(** The clock is never before the epoch. *)
Definition after_epoch (os : Os) : Prop := forall i, is_Some (os_clock os i).

(** The readings a message depends on, and its size. *)
Record sendable (os : Os) (m : Message.t) : Prop := {
  send_clock : exists ms, os_clock os 1 = Some ms /\ 0 <= ms / 1000 < 2 ^ 32 - 604800;
  send_nonce : byte_array 24 (os_nonce os);
  send_uuid : exists u, uuid_parse (Message.id m) = inl u;
  send_payload : len (Message.payload m) <= MAX_PAYLOAD_SIZE;
  send_size : forall d, bincode_serialize m = Ok d -> len d <= 50000
}.

Lemma seal_open os kA kB m : sendable os m ->
  exists e data, seal os kA (IdentityKeys.public_key kB) m = Ok (e, data) /\
    exists env, open_envelope (Some kB) data = Ok (env, m) /\
      LegacyEnvelope.sender_public_key env = IdentityKeys.public_key kA.
Proof using KCS ECS WC HMS HMB.
  intros [(ms & Hms & Hsecs) [Hnl Hnb] [u Hu] Hp Hsz]. unfold seal.
  destruct (bincode_serialize_total m) as [d Hd]. specialize (Hsz d Hd). pose proof (bincode_bytes m d Hd) as Hdb.
  assert (Hmsg : Codec.encode_message m = Ok d).
  { unfold Codec.encode_message, validate_payload_size. rewrite Z.gtb_ltb, (proj2 (Z.ltb_ge _ _)) by done. rewrite Hd.
    rewrite Z.gtb_ltb, (proj2 (Z.ltb_ge _ _)) by (unfold MAX_MESSAGE_SIZE; lia). done. }
  rewrite Hmsg. cbn [map_err]. unfold IdentityKeys.public_key.
  destruct (encrypt_message_ok (os_ephemeral os) (os_nonce os) (IdentityKeys.signing_key kA) (IdentityKeys.signing_key kB) d)
    as (ct & Henc & Hct).
  rewrite Henc. cbn [map_err]. set (env := LegacyEnvelope.mk _ _ _ _ _ _) in *.
  pose proof (aead_bytes _ _ _ _ _ Hdb Hct) as Hctb. pose proof (aead_tag _ _ _ _ _ Hct) as Hctl.
  unfold clock_secs. rewrite Hms. cbn [fmap option_fmap option_map].
  destruct (legacy_envelope_conversion (ms / 1000) env (Message.id m) (verifying_key (IdentityKeys.signing_key kB))
    (IdentityKeys.signing_key kA) u) as (e & He & Hwf & Hv & Hleg & _); try done.
  { split; [apply verifying_key_32|apply verifying_key_bytes]. }
  { split; [apply x25519_public_32|apply x25519_public_bytes]. }
  rewrite He. cbn [map_err].
  assert (Hfit : len (EnvelopeFacts.wire_ciphertext e) <= DriftEnvelope.MAX_CIPHERTEXT).
  { assert (Hc : DriftEnvelope.ciphertext e = ct) by (apply (f_equal LegacyEnvelope.ciphertext) in Hleg; exact Hleg).
    unfold EnvelopeFacts.wire_ciphertext, compress. rewrite Hc. pose proof (lz4_bound ct) as Hb.
    assert (len ct * 110 / 100 <= 55020) by (apply Z.div_le_upper_bound; lia).
    unfold DriftEnvelope.MAX_CIPHERTEXT. destruct (DriftEnvelope.compressed e); lia. }
  destruct (parse_serialized e Hwf Hv Hfit) as (data & Hdata & _). rewrite Hdata. cbn [map_err].
  exists e, data. split; [done|]. exists env. split; [|done]. unfold open_envelope.
  destruct (Codec.decode_drift e data Hwf Hv Hdata) as [Hdec _]. rewrite Hleg in Hdec.
  assert (Hdec' : Codec.decode_envelope data = Ok env) by exact Hdec. rewrite Hdec'. cbn [map_err].
  assert (Hplain : decrypt_message (IdentityKeys.signing_key kB) env = Ok d).
  { unfold decrypt_message, env. cbn.
    rewrite !array_from_slice_ok, x25519_public_32, Hnl, verifying_key_32 by (apply x25519_public_32 || done). cbn.
    rewrite dh_agree. by rewrite (aead_open _ _ _ _ _ Hct). }
  rewrite Hplain. cbn [map_err]. by rewrite (Codec.message_roundtrip m d Hmsg).
Qed.
End Envelopes.

(** ** The abstract application *)

(** The block of a peer that deletes its messages, the device its contact
    names, and whether its messages are hidden. *)
Definition deleted (d : LocalData.t) (p : string) : bool :=
  match BlockList.blocks (LocalData.blocks d) !! (p, None) with Some b => BlockedIdentity.is_deleted b | None => false end.

Definition device_of (d : LocalData.t) (p : string) : option string := c ← LocalData.contacts d !! p; Contact.last_known_device_id c.

Definition hidden_from (d : LocalData.t) (p : string) : bool := BlockList.is_blocked p (device_of d p) (LocalData.blocks d).

(** The history with a message of a peer. *)
Definition recorded (d : LocalData.t) (m : Message.t) : LocalData.t :=
  LocalData.mk (LocalData.blocks d) (LocalData.contacts d)
    (<[Message.id m := history_record m (hidden_from d (Message.sender_id m))]> (LocalData.history d)).

Section App.
Context {B : Type} `{HB : StorageBackend B} {HBS : StorageBackendSpec B} {HBR : Reliable B}.
Context {R : Type} {RO : Router R} {OS : OnionService} {RM : Type}.
Context {KC : KeyCrates} {EC : EnvelopeCrates} {UC : UuidCrate} `{HL : Libm}.
Context `{HM : Bincode Message.t} `{HE : Bincode LegacyEnvelope.t} `{HQM : Bincode QueuedMessage.t}
  `{HR : Bincode ReceivedMessage.t} `{HSI : Bincode (gset Bytes)}.
Context `{HJB : SerdeJson BlockedIdentity.t} {HJBS : SerdeJsonSpec BlockedIdentity.t}.
Context `{HJD : SerdeJson (list string)} {HJDS : SerdeJsonSpec (list string)}.
Context `{HJC : SerdeJson Contact.t} {HJCS : SerdeJsonSpec Contact.t}.
Context `{HJM : SerdeJson MessageRecord.t} {HJMS : SerdeJsonSpec MessageRecord.t}.
Context `{JE : SerdeJson AuditEvent.t} {JES : SerdeJsonSpec AuditEvent.t}.
Context {MI : MapIter MessageId StoredEnvelope.t} {MQ : MapIter string (list QueuedMessage.t)}
  {MR : MapIter string (list ReceivedMessage.t)} {SI : SetIter Bytes}.
Abbreviation core := (IronCore.t (B := B) (R := R) (RM := RM)).
Implicit Types (s : core) (d : LocalData.t) (r : InboxHistory.ref) (m : Message.t).

Definition app_rel s d r : Prop :=
  LocalData.related d (contents (db s)) /\
  exists seen order ms total, inbox s = Inbox.Memory seen order ms total /\ InboxHistory.mem_rel seen order ms total r.

(** *** Rules *)

Lemma set_db_same s : set_db (db s) s = s.
Proof. by destruct s. Qed.

Lemma runs_on_db {E A} (f : M B E A) s Q : runs f (db s) (fun x b => Q x (set_db b s)) -> runs (on_db f) s Q.
Proof. unfold runs, on_db. by destruct (f (db s)). Qed.

Lemma runs_gets_core {A} (f : core -> A) s (Q : outcome IronCoreError A -> core -> Prop) : Q (Ok (f s)) s -> runs (gets f) s Q.
Proof. done. Qed.

Lemma runs_or_false (f : M B IronCoreError bool) s (Q : outcome IronCoreError bool -> core -> Prop) x :
  runs f (db s) (fun y b => y = Ok x /\ b = db s) -> Q (Ok x) s -> runs (or_false f) s Q.
Proof.
  intros Hm HQ. apply runs_bind, runs_on_db, runs_attempt. eapply runs_conseq; [exact Hm|]. intros y b [-> ->].
  rewrite set_db_same. by apply runs_ret.
Qed.

Lemma runs_audit os i event peer details s (Q : outcome IronCoreError unit -> core -> Prop) :
  after_epoch os -> (forall log, Q (Ok tt) (set_audit log s)) -> runs (audit os i event peer details) s Q.
Proof.
  intros Hos HQ. destruct (Hos i) as [ms Hms]. unfold runs, audit, clock_secs, AuditLog.append. rewrite Hms. cbn [fmap option_fmap option_map]. rewrite AuditChain.chain_hash_Ok. apply HQ.
Qed.

Lemma deleted_run s d r p (Q : outcome IronCoreError bool -> core -> Prop) : app_rel s d r -> simple p ->
  Q (Ok (deleted d p)) s -> runs (or_false (BlockedManager.is_blocked_and_deleted p)) s Q.
Proof.
  intros [[Hb _] _] Hp HQ. apply (runs_or_false _ _ _ (deleted d p)); [|done].
  apply runs_bind. eapply BlockHistory.get_block; [by apply BlockHistory.now_at_start|done|]. by apply runs_ret.
Qed.

Lemma blocked_run s d r p dev (Q : outcome IronCoreError bool -> core -> Prop) : app_rel s d r -> simple p ->
  Q (Ok (BlockList.is_blocked p dev (LocalData.blocks d))) s -> runs (or_false (BlockedManager.is_blocked p dev)) s Q.
Proof.
  intros [[Hb _] _] Hp HQ. apply (runs_or_false _ _ _ (BlockList.is_blocked p dev (LocalData.blocks d))); [|done].
  eapply BlockHistory.is_blocked_run; [by apply BlockHistory.now_at_start|done|done].
Qed.

Lemma device_run s d r p (Q : outcome IronCoreError (option string) -> core -> Prop) : app_rel s d r ->
  Q (Ok (device_of d p)) s -> runs (known_device p) s Q.
Proof.
  intros [(_ & [Hc _] & _) _] HQ. apply runs_bind, runs_on_db, runs_attempt.
  apply (ContactCalls.get_contact (LocalData.contacts d)); [done|]. rewrite set_db_same. apply runs_ret.
  unfold device_of in HQ. by destruct (LocalData.contacts d !! p).
Qed.

Lemma inbox_run s d r (m : ReceivedMessage.t) (Q : outcome IronCoreError unit -> core -> Prop) : app_rel s d r ->
  (forall i, app_rel (set_inbox i s) d (InboxHistory.spec_step (InboxHistory.Receive m) r).1 -> Q (Ok tt) (set_inbox i s)) ->
  runs (inbox_receive m) s Q.
Proof.
  intros [Hd (seen & order & ms & total & Hi & Hr)] HQ. unfold runs, inbox_receive. rewrite Hi.
  destruct (InboxHistory.inbox_step_memory (InboxHistory.Receive m) _ _ _ _ _ Hr) as (seen' & order' & ms' & total' & a & Hst & Hr' & _).
  cbn [InboxHistory.step] in Hst.
  destruct (Inbox.is_duplicate (ReceivedMessage.message_id m) _) eqn:Hdup.
  - cbn [Inbox.receive Inbox.is_duplicate] in Hst, Hdup. rewrite Hdup in Hst. cbn in Hst. injection Hst as <- <- <- <- _. cbn [fst snd].
    assert (Hs : set_inbox (inbox s) s = s) by (by destruct s). rewrite <-Hs. apply HQ. split; [by rewrite Hs|].
    eexists _, _, _, _. split; [exact Hi|exact Hr'].
  - destruct (Inbox.receive m _) as [[i b]|]; [|done]. cbn in Hst. injection Hst as -> _. cbn [fst snd]. apply HQ.
    split; [done|]. eexists _, _, _, _. split; [done|exact Hr'].
Qed.

Lemma history_run s d r rec (Q : outcome IronCoreError (option unit) -> core -> Prop) : app_rel s d r ->
  (forall b, app_rel (set_db b s) (LocalData.mk (LocalData.blocks d) (LocalData.contacts d)
      (<[MessageRecord.id rec := rec]> (LocalData.history d))) r -> Q (Ok (Some tt)) (set_db b s)) ->
  runs (on_db (attempt (HistoryManager.add rec))) s Q.
Proof.
  intros [(Hb & Hc & [Ht Hk]) Hi] HQ. apply runs_on_db, runs_attempt. apply (HistoryCalls.put_msg (LocalData.history d)); [done|].
  intros b Ht' Hto. apply HQ. split; [|exact Hi]. cbn [db set_db].
  split_and!; cbn [LocalData.blocks LocalData.contacts LocalData.history].
  - eapply LocalData.blocks_elsewhere; [|exact Hb]. apply (LocalData.touches_more HistoryCalls.areas); [set_solver|done].
  - eapply LocalData.contacts_elsewhere; [|exact Hc]. apply (LocalData.touches_more HistoryCalls.areas); [set_solver|done].
  - split; [done|]. intros k v [[<- <-]|[_ Hv]]%lookup_insert_Some; [done|]. by apply Hk.
Qed.

(** Only the inbox, the backend, the audit log and the delegate changed. *)
Definition same_core s s' : Prop :=
  identity s' = identity s /\ outbox s' = outbox s /\ drift_store s' = drift_store s /\ routing_engine s' = routing_engine s /\
  consent s' = consent s /\ running s' = running s.

Definition arrival (os : Os) (env : LegacyEnvelope.t) m : ReceivedMessage.t :=
  ReceivedMessage.mk (Message.id m) (Message.sender_id m) (Message.payload m) (now_millis os 0)
    (Some (Encrypt.hex_encode (LegacyEnvelope.sender_public_key env))).

Lemma receive_run os data s d r env m : app_rel s d r -> (deleted d (Message.sender_id m) = false -> after_epoch os) ->
  open_envelope (IdentityManager.keys (identity s)) data = Ok (env, m) -> simple (Message.sender_id m) ->
  runs (receive_message os data) s (fun res s' =>
    if deleted d (Message.sender_id m) then res = Err Blocked /\ s' = s
    else res = Ok m /\ same_core s s' /\
      app_rel s' (recorded d m) (InboxHistory.spec_step (InboxHistory.Receive (arrival os env m)) r).1).
Proof.
  intros Hr Hos Hopen Hp. unfold receive_message. apply runs_bind, runs_gets_core, runs_bind, runs_lift. rewrite Hopen. cbn beta iota.
  apply runs_bind. apply (deleted_run s d r); [done|done|].
  destruct (deleted d (Message.sender_id m)); [by apply runs_fail|]. specialize (Hos eq_refl).
  apply runs_bind. apply (device_run s d r); [done|]. apply runs_bind. apply (blocked_run s d r); [done|done|].
  fold (hidden_from d (Message.sender_id m)). apply runs_bind. apply (inbox_run s d r); [done|]. intros i Hr1.
  apply runs_bind. eapply history_run; [exact Hr1|]. intros b Hr2. apply runs_bind, runs_audit; [done|]. intros log.
  apply runs_bind. unfold notify, modify. unfold runs at 1. cbn [fst snd]. apply runs_ret.
  split; [done|]. destruct (delegate (set_audit log (set_db b (set_inbox i s)))) as [l|]; (split; [done|exact Hr2]).
Qed.

(** *** Sending *)

Context {KCS : KeyCratesSpec KC} {ECS : EnvelopeCratesSpec EC} {WC : WireCrates KC EC} {HMS : BincodeSpec Message.t} {HMB : BincodeBytes Message.t}.

(** No onion layer is added: the option is off, no relay is known, or the
    relays known do not give an onion (see [onion_service_addresses]). *)
Definition plain_route os s : Prop := onion_routing_enabled s = false \/ swarm_get_best_relays 3 s = [] \/
  forall data, exists err, onion_wrap (os_onion os) data (swarm_get_best_relays 3 s) = Err err.

Lemma plain_route_wrap os s data : plain_route os s -> wrap_in_onion os data s = data.
Proof.
  unfold wrap_in_onion. intros [-> | [Hn|Hf]]; [done| |]; (destruct (onion_routing_enabled s); [|done]).
  - by rewrite Hn, bool_decide_true by done.
  - destruct (bool_decide _); [done|]. by destruct (Hf data) as [err ->].
Qed.

(** The routing engine, once there is one, is in a state it can be in. *)
Context {ROS : RouterSpec R}.

Definition router_ok s : Prop := forall e, routing_engine s = Some e -> router_inv e.

Lemma routing_decision os hint id priority s : router_ok s ->
  exists hop e', make_routing_decision os hint id priority s = (set_routing e' s, Ok hop) /\ router_ok (set_routing e' s) /\
    (is_Some hop <-> is_Some (routing_engine s)).
Proof.
  unfold make_routing_decision, router_ok. intros Hs. destruct (routing_engine s) as [e|] eqn:He.
  - destruct (router_route_ok (os_instant os) hint id priority e (Hs e eq_refl)) as (e' & hop & -> & He').
    exists (Some hop), (Some e'). split_and!; [done|by intros ? [= <-]|]. split; eauto.
  - exists None, None. split_and!; [|done|by split; intros []]. rewrite <-He. by destruct s.
Qed.

(** It is so from the initialization of the identity on. *)
Lemma initialize_router_ok os s s' x : router_ok s -> initialize_identity os s = (s', x) -> router_ok s'.
Proof.
  unfold initialize_identity, mbind, M_bind, gets, modify, fail, map_error, on_identity, audit. intros Hs H.
  destruct (negb _); [by inv H|]. destruct (IdentityManager.initialize _ _) as [[i b] [[]| |]]; cbn in H; [|by inv H..].
  destruct (clock_secs os 0); [|by inv H]. destruct (AuditLog.append _ _ _ _ _ _ _) as [[log ev]| |]; [|by inv H..]. cbn in H.
  destruct (IdentityManager.keys i); cbn in H; [|by inv H].
  destruct (routing_engine s) as [e0|] eqn:He; inv H; intros e Hr; cbn in Hr.
  - apply Hs. by rewrite <-Hr, He.
  - injection Hr as <-. apply router_new_inv.
Qed.

(** Where the message waits. *)
Definition queued os s (recipient_id : string) (hop : option NextHop.t) (e : DriftEnvelope.t) (data : Bytes) s' : Prop :=
  match hop with
  | Some NextHop.StoreAndCarry =>
      outbox s' = outbox s /\ drift_store s' = (MeshStore.insert (now_secs os 4) (stored_of os data e) (drift_store s)).2
  | _ =>
      drift_store s' = drift_store s /\
      outbox s' = (Outbox.enqueue (QueuedMessage.mk (os_uuid os 1) recipient_id data (now_millis os 4) 0) (outbox s)).1
  end.

(** Only the queues changed. *)
Definition same_but_queues s s' : Prop :=
  routing_engine s' = routing_engine s /\ identity s' = identity s /\ inbox s' = inbox s /\ db s' = db s.

Lemma enqueue_memory qm queues total : exists x, (Outbox.enqueue (B := B) qm (Outbox.Memory queues total)).2 = x /\ x <> Panic.
Proof. eexists. split; [done|]. cbn [Outbox.enqueue]. destruct (_ >=? _); [done|]. by destruct (_ >=? _). Qed.

(** Queueing in memory, and handing over to the drift store. *)
Lemma queue_run os s s1 recipient_id hop e data (Q : outcome IronCoreError unit -> core -> Prop) :
  (exists queues total, outbox s = Outbox.Memory queues total) -> outbox s1 = outbox s -> drift_store s1 = drift_store s ->
  (forall s2, queued os s recipient_id hop e data s2 -> same_but_queues s1 s2 -> Q (Ok tt) s2) ->
  runs (match hop with
        | Some NextHop.StoreAndCarry => hand_off os (stored_of os data e)
        | _ => enqueue (QueuedMessage.mk (os_uuid os 1) recipient_id data (now_millis os 4) 0)
        end) s1 Q.
Proof.
  intros (queues & total & Ho) Ho1 Hd1 HQ.
  assert (Henq : forall qm, (forall s2, drift_store s2 = drift_store s -> outbox s2 = (Outbox.enqueue qm (outbox s)).1 ->
      same_but_queues s1 s2 -> Q (Ok tt) s2) -> runs (enqueue qm) s1 Q).
  { intros qm HQ'. unfold runs, enqueue. pose proof (enqueue_memory qm queues total) as (x & Hx & Hnp).
    rewrite <-Ho in Hx. rewrite Ho1. destruct (Outbox.enqueue qm (outbox s)) as [o y] eqn:Hen. cbn in Hx. subst y.
    destruct x; [| |done]; cbn [fst snd]; by apply HQ'. }
  destruct hop as [[]|]; try (apply Henq; intros s2 H1 H2 H3; by apply HQ).
  unfold runs, hand_off. cbn [fst snd]. apply HQ; [|done]. cbn [queued outbox drift_store set_drift_store]. by rewrite Ho1, Hd1.
Qed.

Lemma prepare_run os s kA kB content ty ttl : IdentityManager.keys (identity s) = Some kA ->
  (exists queues total, outbox s = Outbox.Memory queues total) -> plain_route os s -> router_ok s -> after_epoch os ->
  let recipient_id := IdentityKeys.public_key_hex kB in
  let m := outgoing os (identity s) recipient_id content ty in
  sendable os m ->
  exists e data hop, seal os kA (IdentityKeys.public_key kB) m = Ok (e, data) /\
    runs (prepare_message os recipient_id content ty ttl) s (fun res s' =>
      res = Ok (PreparedMessage.mk (os_uuid os 1) data) /\ queued os s recipient_id hop e data s' /\
      (is_Some hop <-> is_Some (routing_engine s)) /\ router_ok s' /\
      identity s' = identity s /\ inbox s' = inbox s /\ db s' = db s).
Proof using KCS ECS WC HMS HMB JES HE.
  intros Hk Ho Hplain Hrouter Hos recipient_id m Hsend.
  destruct (seal_open os kA kB m Hsend) as (e & data & Hseal & _).
  destruct (routing_decision os (hint4 (blake3_hash (as_bytes recipient_id)))
    (match uuid_parse (Message.id m) with inl u => u | inr _ => repeat_byte 0 16 end) 128 s Hrouter)
    as (hop & e' & Hdecision & Hrouter' & Hhop).
  exists e, data, hop. split; [done|]. unfold prepare_message, prepare_message_internal, own_keys.
  apply runs_bind, runs_bind, runs_gets_core. rewrite Hk. apply runs_ret, runs_bind, runs_lift.
  assert (Hdec : decode_recipient recipient_id = Ok (IdentityKeys.public_key kB)).
  { unfold decode_recipient, recipient_id, IdentityKeys.public_key_hex, IdentityKeys.public_key.
    rewrite hex_roundtrip by apply verifying_key_bytes. cbn [map_err]. by rewrite verifying_key_32. }
  rewrite Hdec. apply runs_bind, runs_gets_core, runs_bind, runs_lift. fold m. rewrite Hseal.
  apply runs_bind, runs_gets_core. rewrite plain_route_wrap by done. apply runs_bind. unfold runs at 1. rewrite Hdecision. cbn [fst snd].
  apply runs_bind. eapply (queue_run os s); [done..|]. intros s2 Hqd (Hr2 & Hi & Hin & Hdb).
  apply runs_bind, runs_audit; [done|]. intros log. apply runs_ret. split_and!; try done.
  intros x Hx. apply (Hrouter' x). change (routing_engine s2 = Some x) in Hx. by rewrite <-Hr2.
Qed.


(** The sender a message names is not compared with the key that encrypted it:
    whoever can seal for [kB] sends under any identity id. *)
Lemma sender_id_unauthenticated os osB kC kB sB m d r : after_epoch osB -> IdentityManager.keys (identity sB) = Some kB -> sendable os m ->
  app_rel sB d r -> simple (Message.sender_id m) -> deleted d (Message.sender_id m) = false ->
  exists e data sB', seal os kC (IdentityKeys.public_key kB) m = Ok (e, data) /\ receive_message osB data sB = (sB', Ok m).
Proof using HBR HJBS HJDS HJCS HJMS JES KCS ECS WC HMS HMB MR.
  intros Hos Hk Hsend Happ Hp Hd. destruct (seal_open os kC kB m Hsend) as (e & data & Hseal & env & Hopen & _).
  rewrite <-Hk in Hopen. destruct (runs_eq _ _ _ (receive_run osB data sB d r env m Happ (fun _ => Hos) Hopen Hp)) as (s' & res & Hr & Hres).
  rewrite Hd in Hres. destruct Hres as [-> _]. by exists e, data, s'.
Qed.

(** *** Blocking *)

Context `{CC : ContactCrates}.

(** A call whose result another one wraps. *)
Lemma runs_rebind {S E A C} (g : A -> C) (f : M S E A) (x : S) (Q : outcome E A -> S -> Prop) :
  runs (y ← f; mret (g y)) x (fun z x' => forall y, z = map_ok g y -> Q y x') -> runs f x Q.
Proof. unfold runs, mbind, M_bind. destruct (f x) as [x' [a|e|]]; cbn; intros H; by apply H. Qed.

(** A call of the local data, on the state of the application. *)
Lemma local_call c s d r (Q : outcome IronCoreError LocalData.answer -> B -> Prop) : app_rel s d r -> LocalData.call_ok c ->
  (forall x d' b, LocalData.spec c d d' x -> app_rel (set_db b s) d' r -> Q x b) -> runs (LocalData.step c) (db s) Q.
Proof using HBR HJBS HJDS HJCS HJMS CC.
  intros [Hd Hi] Hc HQ. eapply runs_conseq; [by apply LocalData.local_step_refines|]. intros x b (d' & Hs & Hd' & _).
  by apply (HQ x d').
Qed.

Definition with_blocks (l : BlockList.t) d : LocalData.t := LocalData.mk l (LocalData.contacts d) (LocalData.history d).
Definition with_history h d : LocalData.t := LocalData.mk (LocalData.blocks d) (LocalData.contacts d) h.

Lemma block_call v s d r (Q : outcome IronCoreError unit -> B -> Prop) : app_rel s d r -> simple (BlockedIdentity.peer_id v) ->
  (forall b, app_rel (set_db b s) (with_blocks (BlockList.block v (LocalData.blocks d)) d) r -> Q (Ok tt) b) ->
  runs (BlockedManager.block v) (db s) Q.
Proof using HBR HJBS HJDS HJCS HJMS CC.
  intros Hr Hv HQ. apply (runs_rebind (fun _ => BlockHistory.AUnit)), (runs_rebind LocalData.FromBlocks).
  eapply (local_call (LocalData.OnBlocks (BlockHistory.Block v))); [exact Hr|exact Hv|].
  intros z d' b [Hd' (a & -> & Ha)] Hr' y1 H1 y2 ->. subst d'. destruct y2 as [[]| |]; [|done..]. by apply HQ.
Qed.

Lemma delete_call now p reason s d r (Q : outcome IronCoreError unit -> B -> Prop) : app_rel s d r -> simple p ->
  (forall b, app_rel (set_db b s) (with_blocks (BlockList.block (BlockList.deleted_block now p reason) (LocalData.blocks d)) d) r -> Q (Ok tt) b) ->
  runs (BlockedManager.block_and_delete now p reason) (db s) Q.
Proof using HBR HJBS HJDS HJCS HJMS CC.
  intros Hr Hv HQ. apply (runs_rebind (fun _ => BlockHistory.AUnit)), (runs_rebind LocalData.FromBlocks).
  eapply (local_call (LocalData.OnBlocks (BlockHistory.BlockAndDelete now p reason))); [exact Hr|exact Hv|].
  intros z d' b [Hd' (a & -> & Ha)] Hr' y1 H1 y2 ->. subst d'. destruct y2 as [[]| |]; [|done..]. by apply HQ.
Qed.

Lemma unblock_call p dev s d r (Q : outcome IronCoreError unit -> B -> Prop) : app_rel s d r -> simple p ->
  (forall b, app_rel (set_db b s) (with_blocks (BlockList.unblock p dev (LocalData.blocks d)) d) r -> Q (Ok tt) b) ->
  runs (BlockedManager.unblock p dev) (db s) Q.
Proof using HBR HJBS HJDS HJCS HJMS CC.
  intros Hr Hv HQ. apply (runs_rebind (fun _ => BlockHistory.AUnit)), (runs_rebind LocalData.FromBlocks).
  eapply (local_call (LocalData.OnBlocks (BlockHistory.Unblock p dev))); [exact Hr|exact Hv|].
  intros z d' b [Hd' (a & -> & Ha)] Hr' y1 H1 y2 ->. subst d'. destruct y2 as [[]| |]; [|done..]. by apply HQ.
Qed.

Definition registered (p : string) (dev : option string) (l : BlockList.t) : BlockList.t :=
  match dev with Some x => (BlockList.register p x l).1 | None => l end.

Lemma try_register_run os p dev s d r (Q : outcome IronCoreError unit -> core -> Prop) : app_rel s d r -> simple p ->
  (forall b, app_rel (set_db b s) (with_blocks (registered p dev (LocalData.blocks d)) d) r -> Q (Ok tt) (set_db b s)) ->
  runs (try_register os p dev) s Q.
Proof using HBR HJBS HJDS HJCS HJMS CC.
  intros Hr Hp HQ. destruct dev as [x|]; cbn [try_register registered] in *.
  2: { apply runs_ret. rewrite <-(set_db_same s). apply HQ. rewrite set_db_same. by destruct d. }
  apply runs_bind, runs_on_db, runs_attempt. apply (runs_rebind BlockHistory.ABool), (runs_rebind LocalData.FromBlocks).
  eapply (local_call (LocalData.OnBlocks (BlockHistory.Register (now_secs os 0) p x))); [exact Hr|exact Hp|].
  intros z d' b [Hd' (a & -> & Ha)] Hr' y1 H1 y2 ->. subst d'. cbn [BlockHistory.spec] in Hr'.
  destruct y2 as [y| |]; [|done..]. apply runs_ret, HQ. by destruct (BlockList.register p x (LocalData.blocks d)).
Qed.

Lemma remove_conversation_run p s d r (Q : outcome IronCoreError (option unit) -> core -> Prop) : app_rel s d r ->
  (forall b, app_rel (set_db b s) (with_history (filter (fun kv => ~ HistoryCalls.of_peer p kv.2) (LocalData.history d)) d) r ->
    Q (Ok (Some tt)) (set_db b s)) ->
  runs (on_db (attempt (HistoryManager.remove_conversation p))) s Q.
Proof using HBR HJBS HJDS HJCS HJMS CC.
  intros Hr HQ. apply runs_on_db, runs_attempt. apply (runs_rebind (fun _ => HistoryCalls.AUnit)), (runs_rebind LocalData.FromHistory).
  eapply (local_call (LocalData.OnHistory (HistoryCalls.RemoveConversation p))); [exact Hr|done|].
  intros z d' b (h' & a & -> & [-> ->] & ->) Hr' y1 H1 y2 ->. destruct y2 as [[]| |]; [|done..]. by apply HQ.
Qed.

Definition unhidden (p : string) (h : gmap string MessageRecord.t) : gmap string MessageRecord.t :=
  (fun x => if bool_decide (HistoryCalls.of_peer p x) then MessageRecord.set_hidden false x else x) <$> h.

Lemma unhide_run p s d r (Q : outcome IronCoreError (option Z) -> core -> Prop) : app_rel s d r ->
  (forall n b, app_rel (set_db b s) (with_history (unhidden p (LocalData.history d)) d) r -> Q (Ok (Some n)) (set_db b s)) ->
  runs (on_db (attempt (HistoryManager.unhide_messages_for_peer p))) s Q.
Proof using HBR HJBS HJDS HJCS HJMS CC.
  intros Hr HQ. apply runs_on_db, runs_attempt. apply (runs_rebind HistoryCalls.ACount), (runs_rebind LocalData.FromHistory).
  eapply (local_call (LocalData.OnHistory (HistoryCalls.SetHidden p false))); [exact Hr|done|].
  intros z d' b (h' & a & -> & [-> ->] & ->) Hr' y1 H1 y2 ->. destruct y2 as [n| |]; [|done..]. by apply HQ.
Qed.

(** The effect of the three calls on the local data. *)
Definition delete_effect os p reason d : LocalData.t :=
  with_history (filter (fun kv => ~ HistoryCalls.of_peer p kv.2) (LocalData.history d))
    (with_blocks (BlockList.block (BlockList.deleted_block (now_secs os 1) p reason)
      (registered p (device_of d p) (LocalData.blocks d))) d).

Definition new_block os p (dev reason : option string) : BlockedIdentity.t :=
  let b := BlockedIdentity.new (now_secs os 1) p in
  let b := match dev with Some x => BlockedIdentity.with_device_id x b | None => b end in
  match reason with Some x => BlockedIdentity.with_reason x b | None => b end.

Definition block_effect os p dev reason d : LocalData.t :=
  with_blocks (BlockList.block (new_block os p dev reason)
    (registered p dev (registered p (device_of d p) (LocalData.blocks d)))) d.

Definition unblock_effect p dev d : LocalData.t :=
  with_history (unhidden p (LocalData.history d)) (with_blocks (BlockList.unblock p dev (LocalData.blocks d)) d).

Lemma delete_peer_run os p reason s d r : app_rel s d r -> simple p ->
  runs (block_and_delete_peer os p reason) s (fun res s' => res = Ok tt /\ app_rel s' (delete_effect os p reason d) r /\
    identity s' = identity s /\ outbox s' = (Outbox.drain_for_peer p (outbox s)).1).
Proof using HBR HJBS HJDS HJCS HJMS CC.
  intros Hr Hp. unfold block_and_delete_peer. apply runs_bind. apply (device_run s d r); [done|].
  apply runs_bind. apply (try_register_run os p _ s d r); [done|done|]. intros b1 Hr1.
  apply runs_bind, runs_on_db. eapply delete_call; [exact Hr1|done|]. intros b2 Hr2.
  apply runs_bind. eapply remove_conversation_run; [exact Hr2|]. intros b3 Hr3.
  apply runs_bind. unfold flush_outbox_for_peer. unfold runs at 1. cbn [outbox set_db].
  destruct (Outbox.drain_for_peer p (outbox s)) as [o l] eqn:Ho. cbn [fst snd]. apply runs_ret. done.
Qed.

Lemma block_peer_run os p dev reason s d r : app_rel s d r -> simple p ->
  runs (block_peer os p dev reason) s (fun res s' => res = Ok tt /\ app_rel s' (block_effect os p dev reason d) r /\
    identity s' = identity s).
Proof using HBR HJBS HJDS HJCS HJMS CC.
  intros Hr Hp. unfold block_peer. apply runs_bind. apply (device_run s d r); [done|].
  apply runs_bind. apply (try_register_run os p _ s d r); [done|done|]. intros b1 Hr1.
  apply runs_bind. eapply try_register_run; [exact Hr1|done|]. intros b2 Hr2.
  apply runs_on_db. eapply block_call; [exact Hr2|by destruct dev, reason|]. intros b3 Hr3. done.
Qed.

Lemma unblock_peer_run p dev s d r : app_rel s d r -> simple p ->
  runs (unblock_peer p dev) s (fun res s' => res = Ok tt /\ app_rel s' (unblock_effect p dev d) r /\ identity s' = identity s).
Proof using HBR HJBS HJDS HJCS HJMS CC.
  intros Hr Hp. unfold unblock_peer. apply runs_bind, runs_on_db. eapply unblock_call; [exact Hr|done|]. intros b1 Hr1.
  apply runs_bind. eapply unhide_run; [exact Hr1|]. intros n b2 Hr2. apply runs_ret. done.
Qed.

(** What a message of [p] meets when the local data are [d]. *)
Lemma deleted_after os p reason d : deleted (delete_effect os p reason d) p = true.
Proof.
  unfold deleted, delete_effect. cbn. unfold BlockList.block. cbn. rewrite BlockList.block_devices_lookup.
  by rewrite lookup_insert_eq.
Qed.

Lemma hidden_after os p reason d : hidden_from (block_effect os p None reason d) p = true /\ deleted (block_effect os p None reason d) p = false.
Proof.
  unfold hidden_from, deleted, block_effect, BlockList.is_blocked. cbn [LocalData.blocks with_blocks].
  set (l := registered p None _). assert (Hl : BlockList.blocks (BlockList.block (new_block os p None reason) l) !! (p, None) =
    Some (new_block os p None reason)).
  { unfold BlockList.block. assert (Hb : BlockedIdentity.peer_id (new_block os p None reason) = p /\
      BlockedIdentity.device_id (new_block os p None reason) = None) by (unfold new_block; by destruct reason).
    destruct Hb as [-> ->]. cbn [BlockList.blocks]. rewrite BlockList.block_devices_lookup. by rewrite lookup_insert_eq. }
  rewrite Hl. split; [rewrite orb_true_iff; right; by rewrite bool_decide_true|]. unfold new_block. by destruct reason.
Qed.

Lemma unblocked_after p d : BlockList.is_blocked p None (LocalData.blocks (unblock_effect p None d)) = false.
Proof.
  unfold unblock_effect, BlockList.is_blocked. cbn. rewrite BlockList.unblock_devices_lookup, lookup_delete_eq.
  rewrite bool_decide_false; [done|]. by intros [].
Qed.

End App.
End CoreFacts.

(** The relay engine that [initialize_identity] makes is dormant, whether the
    core was started before or not. *)
Lemma engine_dormant_after_initialize {B : Type} `{HB : StorageBackend B} {R : Type} {RO : Router R} {RM : Type}
    {KC : KeyCrates} {EC : EnvelopeCrates} {UC : UuidCrate} `{JE : SerdeJson AuditEvent.t} os (s s' : IronCore.t (B := B) (R := R) (RM := RM)) e :
  IronCore.initialize_identity os s = (s', Ok tt) -> IronCore.drift_engine s' = Some e -> IronCore.drift_engine s = None ->
  RelayEngine.network_state e = Dormant.
Proof.
  unfold IronCore.initialize_identity, mbind, M_bind, gets, modify, fail, map_error, IronCore.on_identity, IronCore.audit.
  intros H He Hn. destruct (negb _); [done|]. destruct (IdentityManager.initialize _ _) as [[i b] [[]| |]]; [|done..].
  cbn in H. destruct (clock_secs os 0); [|done]. destruct (AuditLog.append _ _ _ _ _ _ _) as [[log ev]| |]; [|done..]. cbn in H.
  destruct (IdentityManager.keys i) as [k|]; cbn in H.
  - destruct (IronCore.routing_engine s); injection H as <-; cbn in He; by injection He as <-.
  - injection H as <-. cbn in He. congruence.
Qed.

(** ** Witnesses *)

Module CoreSamples.
Import IronCore CoreFacts.

#[local] Existing Instances OnionSamples.crates OnionSamples.crates_spec OnionSamples.crates_tag EnvelopeWire.sample_crates EnvelopeWire.sample_crates_spec.

#[local] Instance keys : KeyCrates := {
  key_ratchet := OnionSamples.crates;
  sha512 k := k ++ repeat_byte 0 32;
  verifying_key k := x25519_public (take 32 (k ++ repeat_byte 0 32));
  decompress_to_montgomery p := Some p;
  ed_sign k m := le_bytes 64 (from_le_bytes m);
  verifying_key_from_bytes _ := Ok tt;
  ed_verify pk m g := if decide (g = le_bytes 64 (from_le_bytes m)) then Ok tt else Err "bad signature"%string;
  Encrypt.hex_encode b := of_bytes (to_hex b);
  Encrypt.hex_decode s := match from_hex (as_bytes s) with Some b => Ok b | None => Err "invalid character"%string end;
  hex_decode_to_slice s buf :=
    match from_hex (as_bytes s) with Some b => if decide (len b = len buf) then b else buf | None => buf end
}.

#[local] Instance keys_spec : KeyCratesSpec keys.
Proof.
  split; cbv [key_ratchet sha512 verifying_key decompress_to_montgomery ed_sign verifying_key_from_bytes ed_verify
              Encrypt.hex_encode Encrypt.hex_decode hex_decode_to_slice keys].
  - exact OnionSamples.crates_spec.
  - intros k. apply x25519_public_32.
  - done.
  - done.
  - intros k m. apply len_le_bytes.
  - intros k m. by rewrite decide_True.
  - intros b Hb. by rewrite EncryptSamples.as_bytes_hex, from_to_hex.
  - intros s b buf Hs Hl. destruct (from_hex (as_bytes s)) as [b'|]; [|done]. inv Hs. by rewrite decide_True.
  - intros s k m g. split_and!; [by destruct (from_hex _)|done|by case_decide].
  - intros s buf Hl. destruct (from_hex (as_bytes s)) as [b|] eqn:Hs; [|done]. case_decide as Hb; [|done].
    apply from_hex_length in Hs. rewrite length_as_bytes in Hs. unfold len in *. lia.
Qed.

Lemma to_hex_no_colon b : bytes b -> colon ∉ to_hex b.
Proof.
  induction 1 as [|x b Hx _ IH]; [apply not_elem_of_nil|]. unfold fits in Hx. cbn. unfold colon.
  assert (Hd : forall n, 0 <= n < 16 -> 58 <> hex_digit n).
  { intros n Hn. unfold hex_digit. destruct (Z.ltb_spec n 10); lia. }
  assert (0 <= x / 16 < 16) by (split; [apply Z.div_pos; lia|apply Z.div_lt_upper_bound; lia]).
  pose proof (Z.mod_pos_bound x 16). rewrite !not_elem_of_cons. split_and!; [apply Hd; lia|apply Hd; lia|done].
Qed.

#[local] Instance wire : WireCrates keys EnvelopeWire.sample_crates.
Proof.
  split.
  - intros k. apply bytes_le_bytes.
  - intros s. apply bytes_le_bytes.
  - intros k n ad m c Hm Hc. cbv [aead_encrypt OnionSamples.crates key_ratchet keys] in Hc.
    assert (c = le_bytes 16 (from_le_bytes (k ++ n ++ ad)) ++ m) as -> by congruence. apply bytes_app. split; [apply bytes_le_bytes|done].
  - exact OnionSamples.crates_tag.
  - intros d. cbv [lz4_compress EnvelopeWire.sample_crates]. pose proof (len_nonneg d).
    assert (len d <= len d * 110 / 100) by (apply Z.div_le_lower_bound; lia). lia.
  - intros b Hb. unfold simple. cbv [Encrypt.hex_encode keys]. rewrite EncryptSamples.as_bytes_hex by done. by apply to_hex_no_colon.
Qed.

#[local] Instance sample_iter {K V} `{Countable K} : MapIter K V := map_iter_default.
#[local] Instance sample_set_iter : SetIter Bytes := set_iter_default.
#[local] Existing Instances MemoryStorage.storage_backend MemoryStorage.storage_backend_spec memory_storage_reliable.
#[local] Existing Instances sample_bincode sample_bincode_spec hex_json hex_json_spec.
#[local] Existing Instances EncryptSamples.envelope_eq_dec EncryptSamples.envelope_countable.
#[local] Existing Instances QueuedMessage.t_countable ReceivedMessage.t_countable.
#[local] Instance sample_exp : Libm := sample_libm.
#[local] Instance message_bytes : BincodeBytes Message.t.
Proof. intros a d Hd. cbn in Hd. injection Hd as <-. apply bytes_le_bytes. Qed.
#[local] Instance sample_uuid : UuidCrate := fun _ => Ok 4.
#[local] Instance sample_logarithm : LibmLn := NegativeHistory.sample_ln.
#[local] Instance sample_power : LibmPow := OptimizedHistory.sample_pow.
#[local] Instance sample_hash : DefaultHasher := NegativeHistory.sample_hasher.
#[local] Instance sample_hex_text : HexCrate := OptimizedHistory.sample_hex.
#[local] Instance sample_router_spec : RouterSpec OptimizedRoutingEngine.t.
Proof. apply engine_router_spec. by vm_compute. Defined.
#[local] Instance sample_onion : OnionService := fun _ _ _ => Err Internal.
#[local] Instance sample_contact_crates : ContactCrates :=
  {| uuid_parses s := true; hex_decode_str s := from_hex (as_bytes s); bs58_decode _ := None;
     verifying_key_ok _ := true; contact_hex := fun b => of_bytes (to_hex b); unicode_lower := to_lowercase |}.

Definition alice : IdentityKeys.t := IdentityKeys.mk (repeat_byte 3 32).
Definition bob : IdentityKeys.t := IdentityKeys.mk (repeat_byte 5 32).

Definition core_of (k : IdentityKeys.t) : IronCore.t (B := MemoryStorage.t) (R := OptimizedRoutingEngine.t) (RM := unit) :=
  mk (IdentityManager.mk IdentityStore.Memory (Some k) None None) Outbox.new Inbox.new AuditLog.new None Granted false MeshStore.new
    None true (Some (router_new 0 (IdentityKeys.public_key k) (hint4 (blake3_hash (IdentityKeys.public_key k))))) (Some [])
    true MemoryStorage.new.

Definition os : Os :=
  mk_os (IdentityManager.mk_fresh (repeat_byte 1 32) "dev" 0) (fun _ => "m-1"%string) (fun _ => Some 1700000000000) 0
    (repeat_byte 7 32) (repeat_byte 9 24) (fun _ => repeat_byte 8 32).

Definition hi : Message.t := outgoing os (identity (core_of alice)) (IdentityKeys.public_key_hex bob) "hi" TextMessage.

Lemma hi_sendable : sendable os hi.
Proof.
  split.
  - exists 1700000000000. split; [done|]. split; [by vm_compute|]. by vm_compute.
  - by_eval.
  - exists (le_bytes 16 7). by vm_compute.
  - by vm_compute.
  - intros d Hd. vm_compute in Hd. injection Hd as <-. by vm_compute.
Qed.

Lemma fresh_related k : app_rel (core_of k) LocalData.empty (InboxHistory.mk_ref [] []).
Proof.
  split.
  - apply LocalData.related_empty. intros key p _ _. exact (lookup_empty (M := gmap Bytes) (A := Bytes) key).
  - eexists ∅, [], ∅, 0. split; [done|]. split; try done. apply NoDup_nil_2.
Qed.

Lemma os_after_epoch : after_epoch os.
Proof. intros i. exists 1700000000000. done. Qed.

Lemma core_router_ok k : router_ok (core_of k).
Proof. intros e [= <-]. exact (router_new_inv 0 (IdentityKeys.public_key k) (hint4 (blake3_hash (IdentityKeys.public_key k)))). Qed.


End CoreSamples.
