(* ===== verification/AbuseReputation.v ===== *)
(** * Peer reputation (core/src/transport/reputation.rs)

    Abuse signals counted per peer, the score computed from the counts, decay
    towards neutral, eviction at capacity, and the copy in a storage backend.
    Times are arguments: [instant] in nanoseconds for [Instant], [epoch] in
    seconds for the wall clock.  Scores are IEEE double-precision numbers. *)

From S2P Require Import Prelude Float64 FloatBounds Backend.

Module ReputationScore.
Definition MIN : f64 := F64.of_Z 0.
Definition MAX : f64 := F64.of_Z 100.
Definition NEUTRAL : f64 := F64.of_Z 50.

Definition new (score : f64) : f64 := F64.clamp score MIN MAX.
Definition neutral : f64 := NEUTRAL.

(** [a >= b] of [f64]. *)
Definition is_trusted (self : f64) : bool := F64.leb (F64.of_Z 70) self.
Definition is_suspicious (self : f64) : bool := F64.ltb self (F64.of_Z 30) && F64.leb (F64.of_Z 10) self.
Definition is_abusive (self : f64) : bool := F64.ltb self (F64.of_Z 10).
End ReputationScore.

Inductive AbuseSignal : Type :=
| RateLimited | OversizedMessage | InvalidFormat | DuplicateMessage | InvalidDestination
| SuccessfulRelay | FailedRelay | SuccessfulDelivery | ConnectionTimeout.

#[export] Instance AbuseSignal_eq_dec : EqDecision AbuseSignal.
Proof. solve_decision. Defined.

Module PeerAbuseStats.

Record t : Type := mk {
  peer_id : string;
  rate_limit_hits : Z;
  oversized_messages : Z;
  invalid_format_count : Z;
  duplicate_count : Z;
  invalid_destination_count : Z;
  successful_relays : Z;
  failed_relays : Z;
  successful_deliveries : Z;
  connection_timeouts : Z;
  last_signal_epoch_secs : option Z;
  last_signal_at : option Z;
  reputation_score : f64
}.

Definition new (instant : Z) (peer_id : string) : t :=
  mk peer_id 0 0 0 0 0 0 0 0 0 None (Some instant) ReputationScore.neutral.

Definition set_score (x : f64) (s : t) : t :=
  mk (peer_id s) (rate_limit_hits s) (oversized_messages s) (invalid_format_count s) (duplicate_count s)
    (invalid_destination_count s) (successful_relays s) (failed_relays s) (successful_deliveries s) (connection_timeouts s)
    (last_signal_epoch_secs s) (last_signal_at s) x.

Definition set_signal_time (epoch : option Z) (instant : option Z) (s : t) : t :=
  mk (peer_id s) (rate_limit_hits s) (oversized_messages s) (invalid_format_count s) (duplicate_count s)
    (invalid_destination_count s) (successful_relays s) (failed_relays s) (successful_deliveries s) (connection_timeouts s)
    epoch instant (reputation_score s).

Definition bump (n : Z) : Z := wrap 32 (n + 1).

Definition count_signal (signal : AbuseSignal) (s : t) : t :=
  let on x n := if bool_decide (signal = x) then bump n else n in
  mk (peer_id s) (on RateLimited (rate_limit_hits s)) (on OversizedMessage (oversized_messages s))
    (on InvalidFormat (invalid_format_count s)) (on DuplicateMessage (duplicate_count s))
    (on InvalidDestination (invalid_destination_count s)) (on SuccessfulRelay (successful_relays s))
    (on FailedRelay (failed_relays s)) (on SuccessfulDelivery (successful_deliveries s))
    (on ConnectionTimeout (connection_timeouts s)) (last_signal_epoch_secs s) (last_signal_at s) (reputation_score s).

(** [count as f64 * weight]. *)
Definition weigh (n : Z) (weight : f64) : f64 := F64.mul (F64.of_Z n) weight.

Definition total (s : t) : f64 :=
  let positive := F64.add (weigh (successful_relays s) (F64.of_Z 2)) (weigh (successful_deliveries s) (F64.of_Z 3)) in
  let negative :=
    F64.add (F64.add (F64.add (F64.add (F64.add (F64.add
      (weigh (rate_limit_hits s) (F64.of_Z 5)) (weigh (oversized_messages s) (F64.of_Z 3)))
      (weigh (invalid_format_count s) (F64.of_Z 4))) (weigh (duplicate_count s) (F64.of_Z 2)))
      (weigh (invalid_destination_count s) (F64.of_Z 3))) (weigh (failed_relays s) (F64.lit 3 2)))
      (weigh (connection_timeouts s) (F64.of_Z 1)) in
  F64.sub positive negative.

Definition calculate_score (s : t) : f64 :=
  let total := total s in
  let score := F64.add ReputationScore.NEUTRAL
    (F64.mul (F64.div total (F64.add (F64.of_Z 1) (F64.abs total))) (F64.of_Z 50)) in
  ReputationScore.new score.

Definition record_signal (instant epoch : Z) (signal : AbuseSignal) (s : t) : t :=
  let s := count_signal signal s in
  let s := set_signal_time (Some epoch) (Some instant) s in
  set_score (calculate_score s) s.

Definition rate_limit_multiplier (s : t) : f64 :=
  if ReputationScore.is_trusted (reputation_score s) then F64.lit 3 2
  else if ReputationScore.is_abusive (reputation_score s) then F64.lit 1 10
  else if ReputationScore.is_suspicious (reputation_score s) then F64.lit 1 2
  else F64.of_Z 1.

(** The turn of [apply_decay] for one peer; [None] when nothing is due. *)
Definition decayed_count (count_decay : f64) (n : Z) : Z := F64.to_uint 32 (F64.mul (F64.of_Z n) count_decay).

Definition decay (now_epoch decay_secs : Z) (s : t) : option t :=
  last_epoch ← last_signal_epoch_secs s;
  let elapsed_secs := saturating_sub now_epoch last_epoch in
  if elapsed_secs >? decay_secs then
    let decay_ratio := F64.min (F64.div (F64.of_Z (elapsed_secs - decay_secs)) (F64.of_Z decay_secs)) (F64.of_Z 1) in
    let current := reputation_score s in
    let new_value := F64.add current
      (F64.mul (F64.mul (F64.sub ReputationScore.NEUTRAL current) decay_ratio) (F64.lit 1 2)) in
    let count_decay := F64.sub (F64.of_Z 1) (F64.mul decay_ratio (F64.lit 3 10)) in
    let d := decayed_count count_decay in
    Some (mk (peer_id s) (d (rate_limit_hits s)) (d (oversized_messages s)) (d (invalid_format_count s)) (d (duplicate_count s))
            (d (invalid_destination_count s)) (successful_relays s) (d (failed_relays s)) (successful_deliveries s)
            (d (connection_timeouts s)) (last_signal_epoch_secs s) (last_signal_at s) (ReputationScore.new new_value))
  else None.
End PeerAbuseStats.

Definition REPUTATION_PREFIX : Bytes := as_bytes "reputation:".

Module AbuseReputationManager.
Import PeerAbuseStats.

Record t : Type := mk_manager {
  peers : gmap string PeerAbuseStats.t;
  max_tracked_peers : Z;
  persistent : bool;
  decay_ttl : Z
}.

Definition set_peers (m : gmap string PeerAbuseStats.t) (self : t) : t :=
  mk_manager m (max_tracked_peers self) (persistent self) (decay_ttl self).

Definition SEVEN_DAYS : Z := 7 * 24 * 3600.

Definition new (max_tracked_peers : Z) : t := mk_manager ∅ max_tracked_peers false SEVEN_DAYS.

(** [v as u32], the key peers are evicted by. *)
Definition rank (kv : string * PeerAbuseStats.t) : Z := F64.to_uint 32 (reputation_score kv.2).
Definition by_rank (a b : string * PeerAbuseStats.t) : comparison := Z.compare (rank a) (rank b).

Section Code.
Context {B : Type} `{HB : StorageBackend B} `{HJ : SerdeJson PeerAbuseStats.t} {MI : MapIter string PeerAbuseStats.t}.

(** [#\[serde(skip)\]] on the instant. *)
Definition saved (s : PeerAbuseStats.t) : PeerAbuseStats.t := set_signal_time (last_signal_epoch_secs s) None s.

Definition storage_key (peer_id : string) : Bytes := REPUTATION_PREFIX ++ as_bytes peer_id.

Definition persist_peer (self : t) (peer_id : string) (stats : PeerAbuseStats.t) (b : B) : B :=
  if persistent self then
    match json_to_string (saved stats) with
    | Ok value => unwrap_or b (put (storage_key peer_id) value b)
    | _ => b
    end
  else b.

Definition remove_peer_from_storage (self : t) (peer_id : string) (b : B) : B :=
  if persistent self then unwrap_or b (remove (storage_key peer_id) b) else b.

Definition load_entry (instant : Z) (m : gmap string PeerAbuseStats.t) (kv : Bytes * Bytes) : gmap string PeerAbuseStats.t :=
  match json_from_str kv.2 with
  | Ok stats =>
      let stats := set_signal_time (last_signal_epoch_secs stats) ((fun _ => instant) <$> last_signal_epoch_secs stats) stats in
      <[peer_id stats := stats]> m
  | _ => m
  end.

Definition load_from_storage (instant : Z) (self : t) (b : B) : t :=
  if persistent self then
    match scan_prefix REPUTATION_PREFIX b with
    | Ok entries =>
        let m := fold_left (load_entry instant) entries (peers self) in
        let m :=
          if Z.of_nat (size m) >? max_tracked_peers self then
            let remove_count := Z.of_nat (size m) - max_tracked_peers self in
            fold_left (fun m kv => delete kv.1 m) (take (Z.to_nat remove_count) (sort_by by_rank (map_iter m))) m
          else m in
        set_peers m self
    | _ => self
    end
  else self.

Definition with_backend (instant max_tracked_peers : Z) (b : B) : t :=
  load_from_storage instant (mk_manager ∅ max_tracked_peers true SEVEN_DAYS) b.

Definition apply_decay (now_epoch : Z) (self : t) (b : B) : t * B :=
  let step kv := match decay now_epoch (decay_ttl self) kv.2 with Some s => Some (kv.1, s) | None => None end in
  let to_persist := omap step (map_iter (peers self)) in
  let m := fold_left (fun m kv => <[kv.1 := kv.2]> m) to_persist (peers self) in
  let self := set_peers m self in
  (self, fold_left (fun b k => match m !! k with Some s => persist_peer self k s b | None => b end) to_persist.*1 b).

Definition flush_to_storage (self : t) (b : B) : B :=
  if negb (persistent self) then b else
  let b := fold_left (fun b kv => persist_peer self kv.1 kv.2 b) (map_iter (peers self)) b in
  flush_ignored b.

Definition evict_lowest (peer_id : string) (self : t) (b : B) : t * B :=
  if negb (bool_decide (is_Some (peers self !! peer_id))) && (Z.of_nat (size (peers self)) >=? max_tracked_peers self) then
    match min_by by_rank (map_iter (peers self)) with
    | Some (lowest_key, _) =>
        (set_peers (delete lowest_key (peers self)) self, remove_peer_from_storage self lowest_key b)
    | None => (self, b)
    end
  else (self, b).

Definition record_signal (instant epoch : Z) (peer_id : string) (signal : AbuseSignal) (self : t) (b : B) : t * B * f64 :=
  let '(self, b) := evict_lowest peer_id self b in
  let stats := default (PeerAbuseStats.new instant peer_id) (peers self !! peer_id) in
  let stats := PeerAbuseStats.record_signal instant epoch signal stats in
  let self := set_peers (<[peer_id := stats]> (peers self)) self in
  (self, persist_peer self peer_id stats b, reputation_score stats).

Definition get_score (peer_id : string) (self : t) : f64 :=
  match peers self !! peer_id with Some s => reputation_score s | None => ReputationScore.neutral end.

Definition rate_limit_multiplier (peer_id : string) (self : t) : f64 :=
  match peers self !! peer_id with Some s => PeerAbuseStats.rate_limit_multiplier s | None => F64.of_Z 1 end.

Definition all_reputations (self : t) : list (string * f64) :=
  map (fun kv => (kv.1, reputation_score kv.2)) (map_iter (peers self)).

Definition fresh_enough (instant max_age : Z) (s : PeerAbuseStats.t) : bool :=
  match last_signal_at s with Some t => saturating_sub instant t <? max_age | None => false end.

Definition prune_stale (instant max_age : Z) (self : t) (b : B) : t * B * Z :=
  let stale := filter (fun kv : string * PeerAbuseStats.t => fresh_enough instant max_age kv.2 = false) (map_iter (peers self)) in
  let m := filter (fun kv : string * PeerAbuseStats.t => fresh_enough instant max_age kv.2 = true) (peers self) in
  (set_peers m self, fold_left (fun b k => remove_peer_from_storage self k b) stale.*1 b,
   Z.of_nat (size (peers self)) - Z.of_nat (size m)).

Definition manager_len (self : t) : Z := Z.of_nat (size (peers self)).
End Code.
End AbuseReputationManager.
