(* ===== verification/AbuseControl.v ===== *)
(** * Spam detection and automatic blocking (core/src/abuse)

    spam_detection.rs: message counts per peer and the share of blocked
    contacts give a confidence that a peer sends spam; reputation.rs joins it
    with the score of AbuseReputation.v and is what the relay engine asks;
    auto_block.rs blocks the tracked peers that fall below its thresholds.  The
    contact and block managers of the detector are those of the shared backend;
    times are arguments, as in AbuseReputation.v. *)

From S2P Require Import Prelude Float64 Backend State Records Relay AbuseReputation Blocked Contacts.

(** A call on the backend of a component that keeps [S] beside it. *)
Definition beside {S B E A} (m : M B E A) : M (S * B) E A := fun '(s, b) => let '(b, r) := m b in ((s, b), r).

Inductive SpamSignal : Type := CommunityBlocked | ContentPattern | Flooding | MassDistribution | ColdContactSpam.

#[export] Instance SpamSignal_eq_dec : EqDecision SpamSignal.
Proof. solve_decision. Defined.

Module SpamDetectionConfig.

Record t : Type := mk {
  min_contacts_for_detection : Z;
  small_network_spam_threshold : f64;
  large_network_spam_threshold : f64;
  min_spam_threshold : f64;
  max_normal_message_len : Z;
  mass_distribution_repeat_threshold : Z;
  flooding_window_secs : Z;
  flooding_max_in_window : Z;
  cold_contact_threshold : f64
}.

Definition default_config : t := mk 3 (F64.lit 3 4) (F64.lit 1 10) (F64.lit 1 10) 4096 5 60 30 (F64.lit 8 10).
End SpamDetectionConfig.

Module SpamDetectionResult.

Record t : Type := mk {
  is_spam : bool;
  confidence : f64;
  total_contacts : Z;
  blocked_by_count : Z;
  block_percentage : f64;
  contributing_signals : list SpamSignal
}.
End SpamDetectionResult.

Module PeerMessageTrack.

Record t : Type := mk {
  content_fingerprints : gmap Z Z;
  recent_message_times : list Z;
  cold_contact_sends : Z;
  total_sends : Z;
  signal_accumulator : f64
}.

Definition new : t := mk ∅ [] 0 0 (F64.of_Z 0).
End PeerMessageTrack.

Module SpamDetectionEngine.
Import SpamDetectionConfig PeerMessageTrack.

(** [contact_manager] and [blocked_manager] tell whether the engine was given
    the managers. *)
Record t : Type := mk_engine {
  config : SpamDetectionConfig.t;
  contact_manager : bool;
  blocked_manager : bool;
  peer_tracks : gmap string PeerMessageTrack.t;
  max_tracked_peers : Z
}.

Definition new (config : SpamDetectionConfig.t) : t := mk_engine config true true ∅ 4096.
Definition new_heuristics_only (config : SpamDetectionConfig.t) : t := mk_engine config false false ∅ 4096.

Definition set_tracks (m : gmap string PeerMessageTrack.t) (self : t) : t :=
  mk_engine (config self) (contact_manager self) (blocked_manager self) m (max_tracked_peers self).

Definition FNV_OFFSET : Z := 0xcbf29ce484222325.
Definition FNV_PRIME : Z := 0x100000001b3.

Definition content_fingerprint (data : Bytes) : Z :=
  fold_left (fun hash byte => wrap 64 (Z.lxor hash byte * FNV_PRIME)) data FNV_OFFSET.

Definition NANOS : Z := 1000000000.

(** [now.duration_since(t) < window]. *)
Definition in_window (self : t) (instant time : Z) : bool :=
  saturating_sub instant time <? flooding_window_secs (config self) * NANOS.

Definition effective_threshold (self : t) (total_contacts : Z) : f64 :=
  let spam_threshold :=
    if total_contacts <? 10 then small_network_spam_threshold (config self) else large_network_spam_threshold (config self) in
  F64.max spam_threshold (min_spam_threshold (config self)).

Section Code.
Context {B : Type} `{HB : StorageBackend B} `{HJC : SerdeJson Contact.t}.
Context `{HJB : SerdeJson BlockedIdentity.t} `{HJD : SerdeJson (list string)} `{HCC : ContactCrates}.
Context {MI : MapIter string PeerMessageTrack.t} {MF : MapIter Z Z}.

Definition count_blocked (contacts : list Contact.t) (blocked_set : gset string) : M B IronCoreError Z :=
  for_loop (fun contact n =>
    if bool_decide (Contact.peer_id contact ∈ blocked_set) then mret (n + 1) else
    r ← attempt (E := IronCoreError) (BlockedManager.is_blocked (Contact.peer_id contact) None);
    mret (match r with Some true => n + 1 | _ => n end)) contacts 0.

(** The first half of [detect_spam]: the signals, the contacts, how many of
    them are blocked, and their share. *)
Definition detect_community (self : t) : M B IronCoreError (list SpamSignal * Z * Z * f64) :=
  if contact_manager self && blocked_manager self then
    contacts ← attempt ContactManager.list_contacts;
    let contacts := default [] contacts in
    let total_contacts := len contacts in
    if total_contacts >=? min_contacts_for_detection (config self) then
      blocked_set ← attempt BlockedManager.blocked_only_peer_ids;
      blocked_by_count ← count_blocked contacts (default ∅ blocked_set);
      let block_percentage :=
        if total_contacts =? 0 then F64.of_Z 0 else F64.div (F64.of_Z blocked_by_count) (F64.of_Z total_contacts) in
      let signals := if F64.leb (effective_threshold self total_contacts) block_percentage then [CommunityBlocked] else [] in
      mret (signals, total_contacts, blocked_by_count, block_percentage)
    else mret ([], total_contacts, 0, F64.of_Z 0)
  else mret ([], 0, 0, F64.of_Z 0).

(** The signals from the track of the peer. *)
Definition detect_heuristics (instant : Z) (peer_id : string) (self : t) : list SpamSignal :=
  match peer_tracks self !! peer_id with
  | None => []
  | Some track =>
      let recent_count := len (filter (fun time => in_window self instant time = true) (recent_message_times track)) in
      let max_repeats := foldr Z.max 0 (map_iter (content_fingerprints track)).*2 in
      let cold_ratio := F64.div (F64.of_Z (cold_contact_sends track)) (F64.of_Z (total_sends track)) in
      (if recent_count >=? flooding_max_in_window (config self) then [Flooding] else []) ++
      (if max_repeats >=? mass_distribution_repeat_threshold (config self) then [MassDistribution] else []) ++
      (if (total_sends track >? 0) && F64.leb (cold_contact_threshold (config self)) cold_ratio && (total_sends track >=? 5)
       then [ColdContactSpam] else [])
  end.

Definition community_confidence (self : t) (total_contacts : Z) (block_percentage : f64) : f64 :=
  if F64.ltb (F64.of_Z 0) block_percentage then
    let threshold := effective_threshold self total_contacts in
    if F64.leb threshold block_percentage then F64.min (F64.div block_percentage threshold) (F64.of_Z 1) else F64.of_Z 0
  else F64.of_Z 0.

Definition detect_spam (instant : Z) (peer_id : string) (self : t) : M B IronCoreError SpamDetectionResult.t :=
  community ← detect_community self;
  let '(signals, total_contacts, blocked_by_count, block_percentage) := community in
  let contributing_signals := signals ++ detect_heuristics instant peer_id self in
  let is_spam := negb (bool_decide (contributing_signals = [])) in
  let heuristic_confidence :=
    F64.mul (F64.of_Z (len (filter (fun s => s <> CommunityBlocked) contributing_signals))) (F64.lit 3 10) in
  let confidence :=
    F64.min (F64.add (community_confidence self total_contacts block_percentage) heuristic_confidence) (F64.of_Z 1) in
  mret (SpamDetectionResult.mk is_spam confidence total_contacts blocked_by_count block_percentage contributing_signals).

Definition spam_score (instant : Z) (peer_id : string) (self : t) : M B IronCoreError f64 :=
  result ← detect_spam instant peer_id self;
  mret (if SpamDetectionResult.is_spam result then SpamDetectionResult.confidence result else F64.of_Z 0).

(** Room for a new peer: some tracked peer goes, whichever comes first. *)
Definition make_room (peer_id : string) (self : t) : gmap string PeerMessageTrack.t :=
  let tracks := peer_tracks self in
  if negb (bool_decide (is_Some (tracks !! peer_id))) && (Z.of_nat (size tracks) >=? max_tracked_peers self) then
    match map_iter tracks with
    | (evict_key, _) :: _ => delete evict_key tracks
    | [] => tracks
    end
  else tracks.

Definition signal_weight (signal : SpamSignal) : f64 :=
  match signal with
  | CommunityBlocked => F64.lit 4 10
  | ContentPattern => F64.lit 3 10
  | Flooding => F64.lit 2 10
  | MassDistribution => F64.lit 25 100
  | ColdContactSpam => F64.lit 15 100
  end.

Definition record_spam_signal (peer_id : string) (signal : SpamSignal) (self : t) : t :=
  let tracks := make_room peer_id self in
  let track := default PeerMessageTrack.new (tracks !! peer_id) in
  let track := PeerMessageTrack.mk (content_fingerprints track) (recent_message_times track) (cold_contact_sends track)
    (total_sends track) (F64.add (signal_accumulator track) (signal_weight signal)) in
  set_tracks (<[peer_id := track]> tracks) self.

(** More than 256 fingerprints: the 128 most frequent stay. *)
Definition trim_fingerprints (fps : gmap Z Z) : gmap Z Z :=
  if Z.of_nat (size fps) >? 256 then
    list_to_map (take 128 (rev (sort_by (fun a b => Z.compare a.2 b.2) (map_iter fps))))
  else fps.

Definition record_outbound_message (instant : Z) (peer_id : string) (envelope_data : Bytes) (is_to_contact : bool) (self : t) : t :=
  let tracks := make_room peer_id self in
  let track := default PeerMessageTrack.new (tracks !! peer_id) in
  let fp := content_fingerprint envelope_data in
  let fps := <[fp := default 0 (content_fingerprints track !! fp) + 1]> (content_fingerprints track) in
  let fps := trim_fingerprints fps in
  let times := filter (fun time => in_window self instant time = true) (recent_message_times track ++ [instant]) in
  let track := PeerMessageTrack.mk fps times
    (if is_to_contact then cold_contact_sends track else cold_contact_sends track + 1) (total_sends track + 1) (signal_accumulator track) in
  set_tracks (<[peer_id := track]> tracks) self.

Definition is_content_suspicious (envelope_data : Bytes) (self : t) : bool :=
  len envelope_data >? max_normal_message_len (config self).

Definition prune_stale_peers (max_entries : Z) (self : t) : t * Z :=
  let tracks := peer_tracks self in
  let before := Z.of_nat (size tracks) in
  let tracks :=
    if before >? max_entries then
      fold_left (fun m k => delete k m) (take (Z.to_nat (before - max_entries)) (map_iter tracks).*1) tracks
    else tracks in
  (set_tracks tracks self, before - Z.of_nat (size tracks)).
End Code.
End SpamDetectionEngine.

Module EnhancedReputationScore.

Record t : Type := mk {
  base_score : f64;
  spam_confidence : f64;
  is_community_flagged : bool
}.

Definition of_scores (base_score spam_score : f64) : t := mk base_score spam_score (F64.ltb (F64.lit 1 2) spam_score).

Definition overall_score (self : t) : f64 :=
  F64.mul (base_score self) (F64.sub (F64.of_Z 1) (F64.mul (spam_confidence self) (F64.lit 8 10))).

Definition is_suspicious (self : t) : bool := ReputationScore.is_suspicious (base_score self) || is_community_flagged self.

Definition is_abusive (self : t) : bool :=
  ReputationScore.is_abusive (base_score self) || F64.ltb (F64.lit 8 10) (spam_confidence self).
End EnhancedReputationScore.

Module EnhancedAbuseReputationManager.

Record t : Type := mk {
  base_manager : AbuseReputationManager.t;
  spam_detector : SpamDetectionEngine.t
}.

Definition new (max_tracked_peers : Z) (spam_detector : SpamDetectionEngine.t) : t :=
  mk (AbuseReputationManager.new max_tracked_peers) spam_detector.

Section Code.
Context {B : Type} `{HB : StorageBackend B} `{HJS : SerdeJson PeerAbuseStats.t} `{HJC : SerdeJson Contact.t}.
Context `{HJB : SerdeJson BlockedIdentity.t} `{HJD : SerdeJson (list string)} `{HCC : ContactCrates}.
Context {MP : MapIter string PeerAbuseStats.t} {MI : MapIter string PeerMessageTrack.t} {MF : MapIter Z Z}.

Abbreviation result := (M (t * B) IronCoreError).

Definition with_backend (instant max_tracked_peers : Z) (spam_detector : SpamDetectionEngine.t) (b : B) : t :=
  mk (AbuseReputationManager.with_backend instant max_tracked_peers b) spam_detector.

Definition on_base {A} (f : AbuseReputationManager.t -> B -> AbuseReputationManager.t * B * A) : result A := fun '(self, b) =>
  let '(base, b, a) := f (base_manager self) b in ((mk base (spam_detector self), b), Ok a).

Definition apply_decay (epoch : Z) : result unit :=
  on_base (fun base b => (AbuseReputationManager.apply_decay epoch base b, tt)).

Definition flush_to_storage : result unit :=
  on_base (fun base b => (base, AbuseReputationManager.flush_to_storage base b, tt)).

Definition base_signal (instant epoch : Z) (peer_id : string) (signal : AbuseSignal) : result f64 :=
  on_base (AbuseReputationManager.record_signal instant epoch peer_id signal).

Definition record_signal (instant epoch : Z) (peer_id : string) (signal : AbuseSignal) : result f64 :=
  score ← base_signal instant epoch peer_id signal;
  (match signal with
   | DuplicateMessage | InvalidFormat =>
       self ← gets fst;
       spam_result ← beside (SpamDetectionEngine.detect_spam instant peer_id (spam_detector self));
       if SpamDetectionResult.is_spam spam_result
       then base_signal instant epoch peer_id InvalidFormat;; mret tt
       else mret tt
   | _ => mret tt
   end);;
  mret score.

Definition on_detector (f : SpamDetectionEngine.t -> SpamDetectionEngine.t) : result unit :=
  modify (fun '(self, b) => (mk (base_manager self) (f (spam_detector self)), b)).

Definition base_signal_of (signal : SpamSignal) : option AbuseSignal :=
  match signal with
  | CommunityBlocked => None
  | ContentPattern => Some InvalidFormat
  | Flooding => Some RateLimited
  | MassDistribution => Some DuplicateMessage
  | ColdContactSpam => Some InvalidDestination
  end.

Definition record_spam_signal (instant epoch : Z) (peer_id : string) (signal : SpamSignal) : result unit :=
  on_detector (SpamDetectionEngine.record_spam_signal peer_id signal);;
  match base_signal_of signal with
  | None => mret tt
  | Some base => base_signal instant epoch peer_id base;; mret tt
  end.

Definition record_outbound_message (instant : Z) (peer_id : string) (envelope_data : Bytes) (is_to_contact : bool) : result unit :=
  on_detector (SpamDetectionEngine.record_outbound_message instant peer_id envelope_data is_to_contact).

Definition get_enhanced_score (instant : Z) (peer_id : string) (self : t) : M B IronCoreError EnhancedReputationScore.t :=
  let base_score := AbuseReputationManager.get_score peer_id (base_manager self) in
  spam_score ← SpamDetectionEngine.spam_score instant peer_id (spam_detector self);
  mret (EnhancedReputationScore.of_scores base_score spam_score).

Definition get_score (peer_id : string) (self : t) : f64 := AbuseReputationManager.get_score peer_id (base_manager self).

Definition rate_limit_multiplier (peer_id : string) (self : t) : f64 :=
  AbuseReputationManager.rate_limit_multiplier peer_id (base_manager self).

Definition all_enhanced_scores (instant : Z) (self : t) : M B IronCoreError (list (string * EnhancedReputationScore.t)) :=
  for_loop (fun '(peer_id, base_score) acc =>
    spam_score ← SpamDetectionEngine.spam_score instant peer_id (spam_detector self);
    mret (acc ++ [(peer_id, EnhancedReputationScore.of_scores base_score spam_score)]))
    (AbuseReputationManager.all_reputations (base_manager self)) [].
End Code.

(** What the relay engine asks (Relay.v), at a time and over a backend. *)
Section RelayView.
Context {B : Type} `{HB : StorageBackend B} `{HJC : SerdeJson Contact.t}.
Context `{HJB : SerdeJson BlockedIdentity.t} `{HJD : SerdeJson (list string)} `{HCC : ContactCrates}.
Context {MF : MapIter Z Z}.

Record view : Type := mk_view { manager : t; backend : B; instant : Z }.

Definition confidence_of (v : view) (peer_id : string) : f64 :=
  match (SpamDetectionEngine.spam_score (instant v) peer_id (spam_detector (manager v)) (backend v)).2 with
  | Ok c => c
  | _ => F64.of_Z 0
  end.

#[export] Instance relay_view : ReputationManager view := {
  base_is_abusive v peer := ReputationScore.is_abusive (get_score peer (manager v));
  spam_confidence := confidence_of
}.
End RelayView.
End EnhancedAbuseReputationManager.

Module AutoBlockConfig.

Record t : Type := mk {
  reputation_threshold : f64;
  spam_confidence_threshold : f64;
  enabled : bool;
  exempt_peer_ids : list string;
  max_audit_entries : Z
}.

Definition default_config : t := mk (F64.of_Z 10) (F64.lit 8 10) true [] 1024.

Definition set_exempt (l : list string) (self : t) : t :=
  mk (reputation_threshold self) (spam_confidence_threshold self) (enabled self) l (max_audit_entries self).
End AutoBlockConfig.

Inductive AutoBlockReason : Type := LowReputation | HighSpamConfidence | CombinedAbuse.

Module AutoBlockAuditEntry.

Record t : Type := mk {
  peer_id : string;
  reason : AutoBlockReason;
  reputation_score : f64;
  spam_confidence : f64;
  timestamp_secs : Z;
  was_automatic : bool
}.
End AutoBlockAuditEntry.

Module AutoBlockResult.

Record t : Type := mk {
  should_block : bool;
  reason : option AutoBlockReason;
  reputation_score : f64;
  spam_confidence : f64
}.
End AutoBlockResult.

Module AutoBlockEngine.
Import AutoBlockConfig.

Record t : Type := mk_engine {
  config : AutoBlockConfig.t;
  reputation_manager : EnhancedAbuseReputationManager.t;
  audit_log : list AutoBlockAuditEntry.t
}.

Definition new (config : AutoBlockConfig.t) (reputation_manager : EnhancedAbuseReputationManager.t) : t :=
  mk_engine config reputation_manager [].

Definition set_config (c : AutoBlockConfig.t) (self : t) : t := mk_engine c (reputation_manager self) (audit_log self).

(** The decision on a score, after the exemptions. *)
Definition decide_block (config : AutoBlockConfig.t) (enhanced : EnhancedReputationScore.t) : AutoBlockResult.t :=
  let overall := EnhancedReputationScore.overall_score enhanced in
  let spam_conf := EnhancedReputationScore.spam_confidence enhanced in
  let low_rep := F64.ltb overall (reputation_threshold config) in
  let high_spam := F64.leb (spam_confidence_threshold config) spam_conf in
  let '(should_block, reason) :=
    if low_rep && high_spam then (true, Some CombinedAbuse)
    else if low_rep then (true, Some LowReputation)
    else if high_spam then (true, Some HighSpamConfidence)
    else (false, None) in
  AutoBlockResult.mk should_block reason overall spam_conf.

Definition is_exempt (peer_id : string) (self : t) : bool := bool_decide (peer_id ∈ exempt_peer_ids (config self)).

Section Code.
Context {B : Type} `{HB : StorageBackend B} `{HJC : SerdeJson Contact.t}.
Context `{HJB : SerdeJson BlockedIdentity.t} `{HJD : SerdeJson (list string)} `{HCC : ContactCrates}.
Context {MP : MapIter string PeerAbuseStats.t} {MF : MapIter Z Z}.

Abbreviation result := (M (t * B) IronCoreError).

Definition evaluate (instant : Z) (peer_id : string) (self : t) : M B IronCoreError AutoBlockResult.t :=
  if negb (enabled (config self)) then mret (AutoBlockResult.mk false None (F64.of_Z 0) (F64.of_Z 0)) else
  enhanced ← EnhancedAbuseReputationManager.get_enhanced_score instant peer_id (reputation_manager self);
  if is_exempt peer_id self
  then mret (AutoBlockResult.mk false None (EnhancedReputationScore.overall_score enhanced) (F64.of_Z 0))
  else mret (decide_block (config self) enhanced).

(** [push], then [drain] of what is beyond the bound. *)
Definition push_audit (entry : AutoBlockAuditEntry.t) (self : t) : t :=
  let audit := audit_log self ++ [entry] in
  let max := max_audit_entries (config self) in
  mk_engine (config self) (reputation_manager self)
    (if len audit >? max then drop (Z.to_nat (len audit - max)) audit else audit).

Definition evaluate_and_block (instant epoch : Z) (peer_id : string) : result bool :=
  self ← gets fst;
  result ← beside (evaluate instant peer_id self);
  if negb (AutoBlockResult.should_block result) then mret false else
  let reason := default CombinedAbuse (AutoBlockResult.reason result) in
  beside (BlockedManager.block (BlockedIdentity.new epoch peer_id));;
  let entry := AutoBlockAuditEntry.mk peer_id reason (AutoBlockResult.reputation_score result)
    (AutoBlockResult.spam_confidence result) epoch true in
  modify (fun '(self, b) => (push_audit entry self, b));;
  mret true.

Definition exempt_peer (peer_id : string) (self : t) : t :=
  set_config (set_exempt (exempt_peer_ids (config self) ++ [peer_id]) (config self)) self.

Definition unexempt_peer (peer_id : string) (self : t) : t :=
  set_config (set_exempt (filter (fun p => p <> peer_id) (exempt_peer_ids (config self))) (config self)) self.

Definition update_config (config : AutoBlockConfig.t) (self : t) : t := set_config config self.

Definition evaluate_all_tracked (instant epoch : Z) : result Z :=
  self ← gets fst;
  reputations ← beside (EnhancedAbuseReputationManager.all_enhanced_scores instant (reputation_manager self));
  for_loop (fun '(peer_id, _) blocked_count =>
    blocked ← evaluate_and_block instant epoch peer_id;
    mret (if blocked : bool then blocked_count + 1 else blocked_count)) reputations 0.
End Code.
End AutoBlockEngine.
