(* ===== verification/AbuseProps.v ===== *)
(** * Reputation scores and automatic blocks

    Scores stay percentages and counts stay [u32] under every sequence of
    signals, decays and prunings; the sweep of the auto-blocker blocks the
    tracked peers that meet its criteria, and no others. *)

From S2P Require Import Prelude Float64 FloatBounds Backend State Text Records Relay AbuseReputation Blocked BlockedProps Contacts AbuseControl.
Import Mag.

(** ** Scores *)

Definition score_ok (x : f64) : Prop := F64.between ReputationScore.MIN ReputationScore.MAX x /\ mag 7 x /\ p53 x.

Definition counts (s : PeerAbuseStats.t) : list Z :=
  map (fun field => field s)
    [PeerAbuseStats.rate_limit_hits; PeerAbuseStats.oversized_messages; PeerAbuseStats.invalid_format_count;
     PeerAbuseStats.duplicate_count; PeerAbuseStats.invalid_destination_count; PeerAbuseStats.successful_relays;
     PeerAbuseStats.failed_relays; PeerAbuseStats.successful_deliveries; PeerAbuseStats.connection_timeouts].

Definition stats_ok (k : string) (s : PeerAbuseStats.t) : Prop :=
  PeerAbuseStats.peer_id s = k /\ Forall (fits 32) (counts s) /\ score_ok (PeerAbuseStats.reputation_score s) /\
  (forall e, PeerAbuseStats.last_signal_epoch_secs s = Some e -> fits 64 e).

Lemma neutral_ok : score_ok ReputationScore.NEUTRAL.
Proof. split; [split_and!; by vm_compute|]. split; [vm_compute; split; [split; discriminate|done]|by vm_compute]. Qed.

Lemma new_score_ok K x : 7 <= K -> mag K x -> p53 x -> score_ok (ReputationScore.new x).
Proof. intros. destruct (clamp_percent K x) as [? ?]; [done..|]. split_and!; [done|done|]. by apply clamp_p53. Qed.

Lemma weigh_mag n w : fits 32 n -> mag 3 w -> mag 37 (PeerAbuseStats.weigh n w).
Proof.
  intros Hn Hw. change 37 with (33 + 3 + 1). apply mul_mag; [unfold emin; lia| |done].
  change 33 with (32 + 1). apply of_Z_mag; [lia|]. unfold fits in Hn. lia.
Qed.

(** Goals [mag K c] and [p53 c] for a constant [c]. *)
Ltac mag_const := vm_compute; first [done|split; [split; discriminate|done]|split; discriminate].

Lemma total_mag s : Forall (fits 32) (counts s) -> mag 51 (PeerAbuseStats.total s).
Proof.
  intros Hs. unfold counts in Hs. repeat (apply Forall_cons in Hs as [? Hs]).
  assert (Hup : forall K x, 37 <= K -> mag 37 x -> mag K x) by (intros K x; apply mag_mono).
  unfold PeerAbuseStats.total. change 51 with (49 + 2). apply sub_mag; [unfold emin; lia| |].
  - apply (mag_mono 39); [lia|]. change 39 with (37 + 2). apply add_mag; [unfold emin; lia|..]; (apply weigh_mag; [done|mag_const]).
  - change 49 with (37 + 2 + 2 + 2 + 2 + 2 + 2).
    do 6 (apply add_mag; [unfold emin; lia| |apply Hup; [lia|apply weigh_mag; [done|mag_const]]]).
    apply weigh_mag; [done|mag_const].
Qed.

Lemma calculate_score_ok s : Forall (fits 32) (counts s) -> score_ok (PeerAbuseStats.calculate_score s).
Proof.
  intros Hs. pose proof (total_mag s Hs) as Ht. unfold PeerAbuseStats.calculate_score. apply (new_score_ok 61); [lia| |].
  - change 61 with (59 + 2). apply add_mag; [unfold emin; lia|mag_const|]. change 59 with (52 + 6 + 1).
    apply mul_mag; [unfold emin; lia| |mag_const]. change 52 with (51 + 1). apply div_mag; [unfold emin; lia|done|].
    apply (add_one_at_least 51); [lia|done].
  - apply add_p53; [mag_const|]. apply mul_p53.
Qed.

Lemma bump_fits n : fits 32 (PeerAbuseStats.bump n).
Proof. by apply fits_wrap. Qed.

Lemma count_signal_fits signal s : Forall (fits 32) (counts s) -> Forall (fits 32) (counts (PeerAbuseStats.count_signal signal s)).
Proof.
  unfold counts, PeerAbuseStats.count_signal. cbn. rewrite !Forall_cons. intros Hs.
  destruct_and! Hs. split_and!; try done; case_bool_decide; auto using bump_fits.
Qed.

Lemma record_signal_ok instant epoch signal k s : fits 64 epoch -> stats_ok k s ->
  stats_ok k (PeerAbuseStats.record_signal instant epoch signal s).
Proof.
  intros He (Hk & Hc & _ & _). unfold PeerAbuseStats.record_signal.
  pose proof (count_signal_fits signal s Hc) as Hc'. split_and!; [done|done| |by intros e [= <-]].
  apply calculate_score_ok. exact Hc'.
Qed.

Lemma new_stats_ok instant k : stats_ok k (PeerAbuseStats.new instant k).
Proof. split_and!; [done|by repeat constructor|apply neutral_ok|done]. Qed.

Lemma to_uint_fits w a : 0 <= w -> fits w (F64.to_uint w a).
Proof.
  intros Hw. assert (Hp : 0 < 2 ^ w) by (apply Z.pow_pos_nonneg; lia). unfold fits, F64.to_uint.
  destruct a as [|[]| |[] m e]; try lia. case_match; [nia|].
  assert (0 <= Z.pos m / 2 ^ (- e)) by (apply Z.div_pos; [lia|]; apply Z.pow_pos_nonneg; lia). lia.
Qed.

Lemma decay_ok now k s s' : fits 64 now -> stats_ok k s ->
  PeerAbuseStats.decay now AbuseReputationManager.SEVEN_DAYS s = Some s' -> stats_ok k s'.
Proof.
  intros Hn (Hk & Hc & (Hb & Hm & Hp) & He). unfold PeerAbuseStats.decay. intros Hd. apply bind_Some in Hd as (last & Hl & Hd).
  specialize (He last Hl). destruct (_ >? _) eqn:Hgt; [|done]. apply Some_inj in Hd as <-.
  unfold stats_ok, counts in *. cbn in *. rewrite !Forall_cons in *.
  destruct_and! Hc. split_and!; try done; try (by apply to_uint_fits); try (by intros e ?; simplify_eq).
  assert (Hr : mag 66 (F64.min (F64.div (F64.of_Z (saturating_sub now last - AbuseReputationManager.SEVEN_DAYS))
    (F64.of_Z AbuseReputationManager.SEVEN_DAYS)) (F64.of_Z 1))).
  { apply min_mag; [|mag_const]. change 66 with (65 + 1). apply div_mag; [unfold emin; lia| |].
    - change 65 with (64 + 1). apply of_Z_mag; [lia|]. unfold fits, saturating_sub, AbuseReputationManager.SEVEN_DAYS in *. lia.
    - vm_compute. split; [done|intros _; discriminate]. }
  apply (new_score_ok 80); [lia| |].
  - change 80 with (78 + 2). apply add_mag; [unfold emin; lia|apply (mag_mono 7); [lia|done]|].
    change 78 with (76 + 1 + 1). apply mul_mag; [unfold emin; lia| |mag_const].
    change 76 with (9 + 66 + 1). apply mul_mag; [unfold emin; lia| |done]. change 9 with (7 + 2).
    apply sub_mag; [unfold emin; lia|mag_const|done].
  - apply add_p53; [done|apply mul_p53].
Qed.

(** ** The manager *)

Module ReputationHistory.
Import AbuseReputationManager.

Inductive op : Type :=
| Signal (instant epoch : Z) (peer_id : string) (signal : AbuseSignal)
| Decay (epoch : Z)
| Prune (instant max_age : Z).

(** The clock gives [u64] seconds. *)
Definition op_ok (o : op) : Prop :=
  match o with Signal _ e _ _ | Decay e => fits 64 e | Prune _ _ => True end.

Section Code.
Context {B : Type} `{HB : StorageBackend B} `{HJ : SerdeJson PeerAbuseStats.t} {MI : MapIter string PeerAbuseStats.t}.

Definition step (x : AbuseReputationManager.t * B) (o : op) : AbuseReputationManager.t * B :=
  match o with
  | Signal instant epoch p s => (record_signal instant epoch p s x.1 x.2).1
  | Decay epoch => apply_decay epoch x.1 x.2
  | Prune instant max_age => (prune_stale instant max_age x.1 x.2).1
  end.

Definition run (ops : list op) (x : AbuseReputationManager.t * B) : AbuseReputationManager.t * B := fold_left step ops x.

Definition inv (m : AbuseReputationManager.t) : Prop :=
  decay_ttl m = SEVEN_DAYS /\ 1 <= max_tracked_peers m /\ Z.of_nat (size (peers m)) <= max_tracked_peers m /\
  map_Forall stats_ok (peers m).

Lemma evict_ok k m b : inv m -> let r := (evict_lowest k m b).1 in
  inv r /\ max_tracked_peers r = max_tracked_peers m /\
  (is_Some (peers r !! k) \/ Z.of_nat (size (peers r)) < max_tracked_peers m).
Proof using All.
  intros Hi. pose proof Hi as (Ht & Hmax & Hs & Hf). unfold evict_lowest. case_bool_decide as Hk; cbn; [auto|].
  destruct (_ >=? _) eqn:Hge; cbn; [|split_and!; [done|done|right; lia]].
  destruct (min_by by_rank (map_iter (peers m))) as [[low s]|] eqn:Hmin; cbn.
  - apply min_by_elem in Hmin. rewrite map_iter_perm in Hmin. apply elem_of_map_to_list in Hmin.
    pose proof (map_size_delete_Some low (peers m) (mk_is_Some _ _ Hmin)) as Hsz.
    assert (size (peers m) <> 0%nat) by (intros H0%map_size_empty_inv; rewrite H0, lookup_empty in Hmin; done).
    split_and!; [|done|right; cbn; rewrite Hsz; lia]. unfold inv. cbn. rewrite Hsz. split_and!; [done|done|lia|].
    by apply map_Forall_delete.
  - apply min_by_None in Hmin. pose proof (map_iter_perm (peers m)) as Hp. rewrite Hmin in Hp. apply Permutation_nil_l in Hp.
    assert (He : peers m = ∅) by (by apply map_to_list_empty_iff). rewrite He, map_size_empty in Hge. exfalso. apply Z.geb_le in Hge. lia.
Qed.

Lemma signal_ok instant epoch k signal m b : fits 64 epoch -> inv m -> let r := record_signal instant epoch k signal m b in
  inv r.1.1 /\ max_tracked_peers r.1.1 = max_tracked_peers m /\ score_ok r.2.
Proof using All.
  intros He Hi. unfold record_signal. pose proof (evict_ok k m b Hi) as (H1 & H2 & H3).
  destruct (evict_lowest k m b) as [m1 b1]. cbn [fst] in *. destruct H1 as (Ht & Hmax & Hs & Hf).
  set (st := default (PeerAbuseStats.new instant k) (peers m1 !! k)).
  assert (Hst : stats_ok k st).
  { unfold st. destruct (peers m1 !! k) as [s|] eqn:Hk; [by apply (Hf k s)|apply new_stats_ok]. }
  pose proof (record_signal_ok instant epoch signal k st He Hst) as Hst'.
  cbn [fst snd]. split_and!; [|done|by apply Hst']. unfold inv. cbn. split_and!; [done|done| |by apply map_Forall_insert_2].
  destruct H3 as [[s Hk]|Hlt]; [erewrite map_size_insert_Some by done; lia|].
  destruct (peers m1 !! k) as [s|] eqn:Hk; [erewrite map_size_insert_Some by done|rewrite map_size_insert_None by done]; lia.
Qed.

(** Overwriting entries of a map keeps its keys. *)
Lemma overwrite_ok (P : string -> PeerAbuseStats.t -> Prop) (l : list (string * PeerAbuseStats.t)) (m : gmap string PeerAbuseStats.t) :
  (forall kv, kv ∈ l -> is_Some (m !! kv.1) /\ P kv.1 kv.2) -> map_Forall P m ->
  let r := fold_left (fun m kv => <[kv.1 := kv.2]> m) l m in size r = size m /\ map_Forall P r.
Proof.
  revert m. induction l as [|[k s] l IH]; intros m Hl Hm; cbn; [done|].
  destruct (Hl (k, s)) as [[s0 Hk] Hp]; [left|]. cbn in Hk, Hp.
  destruct (IH (<[k := s]> m)) as [I1 I2].
  - intros kv Hkv. destruct (Hl kv) as [H1 H2]; [by right|]. split; [|done]. rewrite lookup_insert_is_Some'. by right.
  - by apply map_Forall_insert_2.
  - split; [|done]. rewrite I1. by erewrite map_size_insert_Some.
Qed.

Lemma decay_step_ok epoch m b : fits 64 epoch -> inv m -> let r := (apply_decay epoch m b).1 in
  inv r /\ max_tracked_peers r = max_tracked_peers m.
Proof using All.
  intros He (Ht & Hmax & Hs & Hf). unfold apply_decay. cbn [fst snd]. split; [|done]. unfold inv. cbn.
  destruct (overwrite_ok stats_ok (omap (fun kv => match PeerAbuseStats.decay epoch (decay_ttl m) kv.2 with
    Some s => Some (kv.1, s) | None => None end) (map_iter (peers m))) (peers m)) as [E1 E2]; [|done|].
  - intros [k s] Hks. apply list_elem_of_omap in Hks as ([k' s0] & Hin & Hd). rewrite map_iter_perm in Hin.
    apply elem_of_map_to_list in Hin. cbn in Hd. destruct (PeerAbuseStats.decay _ _ s0) as [s1|] eqn:Hd1; [|done].
    injection Hd as <- <-. cbn. split; [by eexists|]. rewrite Ht in Hd1. by eapply decay_ok, Hd1; [|apply Hf].
  - rewrite E1. done.
Qed.

Lemma prune_step_ok instant max_age m b : inv m -> let r := (prune_stale instant max_age m b).1.1 in
  inv r /\ max_tracked_peers r = max_tracked_peers m.
Proof using All.
  intros (Ht & Hmax & Hs & Hf). unfold prune_stale. cbn [fst snd]. split; [|done]. unfold inv. cbn.
  split_and!; [done|done| |].
  - etrans; [|exact Hs]. apply inj_le, map_subseteq_size, map_filter_subseteq.
  - intros k s Hk. apply map_lookup_filter_Some in Hk as [Hk _]. by apply Hf.
Qed.

Lemma step_ok o x : op_ok o -> inv x.1 -> inv (step x o).1 /\ max_tracked_peers (step x o).1 = max_tracked_peers x.1.
Proof using All.
  intros Ho Hx. destruct o as [i e p s|e|i a]; cbn [step op_ok] in *.
  - by pose proof (signal_ok i e p s x.1 x.2 Ho Hx) as (? & ? & _).
  - by apply decay_step_ok.
  - by apply prune_step_ok.
Qed.

Lemma run_ok ops x : Forall op_ok ops -> inv x.1 -> inv (run ops x).1 /\ max_tracked_peers (run ops x).1 = max_tracked_peers x.1.
Proof using All.
  intros Hops. revert x. induction Hops as [|o ops Ho _ IH]; intros x Hx; [done|].
  destruct (step_ok o x Ho Hx) as [H1 H2]. destruct (IH (step x o) H1) as [I1 I2]. by rewrite <-H2.
Qed.

Lemma inv_new max : 1 <= max -> inv (new max).
Proof using Type. intros. split_and!; [done|done|cbn [peers new]; rewrite map_size_empty; cbn; lia|apply map_Forall_empty]. Qed.

(** C35. Whatever signals, decays and prunings a fresh reputation manager of capacity at least one sees, it tracks at most that many peers,
    each under its own id, with counts that fit their [u32] fields and a score that is a number between 0 and 100; a
    score returned to a caller is one too, unknown peers are neutral, and the rate-limit multiplier of every peer is one
    of the four the code names. *)
Theorem reputation_bounded ops max b : 1 <= max -> Forall op_ok ops ->
  let m := (run ops (new max, b)).1 in
  Z.of_nat (size (peers m)) <= max /\
  (forall p s, peers m !! p = Some s ->
     PeerAbuseStats.peer_id s = p /\ Forall (fits 32) (counts s) /\
     F64.between (F64.of_Z 0) (F64.of_Z 100) (PeerAbuseStats.reputation_score s)) /\
  (forall p, F64.between (F64.of_Z 0) (F64.of_Z 100) (get_score p m) /\
     (peers m !! p = None -> get_score p m = F64.of_Z 50) /\
     rate_limit_multiplier p m ∈ [F64.lit 1 10; F64.lit 1 2; F64.of_Z 1; F64.lit 3 2]).
Proof using All.
  intros Hmax Hops m. destruct (run_ok ops (new max, b) Hops (inv_new max Hmax)) as [(_ & _ & Hs & Hf) Hm].
  fold m in Hs, Hf, Hm. cbn in Hm. rewrite Hm in Hs. split_and!; [done| |].
  - intros p s Hp. destruct (Hf p s Hp) as (H1 & H2 & [H3 _] & _). done.
  - intros p. unfold get_score, rate_limit_multiplier. destruct (peers m !! p) as [s|] eqn:Hp.
    + destruct (Hf p s Hp) as (_ & _ & [H3 _] & _). split_and!; [done|done|].
      unfold PeerAbuseStats.rate_limit_multiplier. repeat case_match; set_solver.
    + split_and!; [apply neutral_ok|done|set_solver].
Qed.
End Code.
End ReputationHistory.

(** ** The sweep of the auto-blocker *)

Module AutoBlockFacts.
Import AutoBlockEngine.

(** The engine has no contacts to look at, as the application builds it. *)
Definition heuristics_only (e : SpamDetectionEngine.t) : Prop :=
  SpamDetectionEngine.contact_manager e && SpamDetectionEngine.blocked_manager e = false.

Section Sweep.
Context {B : Type} `{HB : StorageBackend B} {HBS : StorageBackendSpec B} {HBR : Reliable B}.
Context `{HJB : SerdeJson BlockedIdentity.t} {HJBS : SerdeJsonSpec BlockedIdentity.t}.
Context `{HJD : SerdeJson (list string)} {HJDS : SerdeJsonSpec (list string)}.
Context `{HJC : SerdeJson Contact.t} `{HCC : ContactCrates}.
Context {MP : MapIter string PeerAbuseStats.t} {MF : MapIter Z Z}.
Implicit Types (self : AutoBlockEngine.t) (b : B).

(** The spam score without community data: three tenths for each signal. *)
Definition signal_score (instant : Z) (p : string) (e : SpamDetectionEngine.t) : f64 :=
  let signals := SpamDetectionEngine.detect_heuristics instant p e in
  if bool_decide (signals = []) then F64.of_Z 0
  else F64.min (F64.add (F64.of_Z 0)
    (F64.mul (F64.of_Z (len (filter (fun s => s <> CommunityBlocked) signals))) (F64.lit 3 10))) (F64.of_Z 1).

Definition peer_score (instant : Z) (p : string) self : EnhancedReputationScore.t :=
  EnhancedReputationScore.of_scores (AbuseReputationManager.get_score p (EnhancedAbuseReputationManager.base_manager (reputation_manager self)))
    (signal_score instant p (EnhancedAbuseReputationManager.spam_detector (reputation_manager self))).

(** Enabled, not exempt, and the score is low or the spam confidence high. *)
Definition condemned (instant : Z) self (p : string) : bool :=
  AutoBlockConfig.enabled (config self) && negb (is_exempt p self) &&
  (F64.ltb (EnhancedReputationScore.overall_score (peer_score instant p self)) (AutoBlockConfig.reputation_threshold (config self)) ||
   F64.leb (AutoBlockConfig.spam_confidence_threshold (config self)) (EnhancedReputationScore.spam_confidence (peer_score instant p self))).

(** The entry of a condemned peer: the reason and both scores of the decision. *)
Definition entry_of (instant epoch : Z) self (p : string) : AutoBlockAuditEntry.t :=
  let score := peer_score instant p self in
  let low := F64.ltb (EnhancedReputationScore.overall_score score) (AutoBlockConfig.reputation_threshold (config self)) in
  let high := F64.leb (AutoBlockConfig.spam_confidence_threshold (config self)) (EnhancedReputationScore.spam_confidence score) in
  AutoBlockAuditEntry.mk p (if low && high then CombinedAbuse else if low then LowReputation else HighSpamConfidence)
    (EnhancedReputationScore.overall_score score) (EnhancedReputationScore.spam_confidence score) epoch true.

Definition tracked self : list string :=
  (map_iter (AbuseReputationManager.peers (EnhancedAbuseReputationManager.base_manager (reputation_manager self)))).*1.

Lemma spam_score_pure instant p e b : heuristics_only e ->
  SpamDetectionEngine.spam_score instant p e b = (b, Ok (signal_score instant p e)).
Proof using Type.
  intros He. unfold SpamDetectionEngine.spam_score, SpamDetectionEngine.detect_spam, SpamDetectionEngine.detect_community.
  unfold heuristics_only in He. rewrite He. unfold mbind, M_bind, mret, M_ret.
  cbn [SpamDetectionResult.is_spam SpamDetectionResult.confidence app]. unfold signal_score. by destruct (bool_decide _).
Qed.

Lemma score_pure instant p self b : heuristics_only (EnhancedAbuseReputationManager.spam_detector (reputation_manager self)) ->
  EnhancedAbuseReputationManager.get_enhanced_score instant p (reputation_manager self) b = (b, Ok (peer_score instant p self)).
Proof using Type.
  intros He. unfold EnhancedAbuseReputationManager.get_enhanced_score, mbind, M_bind. by rewrite spam_score_pure.
Qed.

Lemma evaluate_pure instant p self b : heuristics_only (EnhancedAbuseReputationManager.spam_detector (reputation_manager self)) ->
  exists r, evaluate instant p self b = (b, Ok r) /\ AutoBlockResult.should_block r = condemned instant self p /\
    (condemned instant self p = true -> forall epoch,
       AutoBlockAuditEntry.mk p (default CombinedAbuse (AutoBlockResult.reason r)) (AutoBlockResult.reputation_score r)
         (AutoBlockResult.spam_confidence r) epoch true = entry_of instant epoch self p).
Proof using Type.
  intros He. unfold evaluate, condemned. destruct (AutoBlockConfig.enabled (config self)); cbn [negb andb]; [|by eexists].
  unfold mbind, M_bind. rewrite score_pure by done. destruct (is_exempt p self); cbn [negb andb]; [by eexists|].
  eexists. split; [done|]. unfold decide_block, entry_of.
  by destruct (F64.ltb _ _), (F64.leb _ _).
Qed.

Lemma all_scores_pure instant self b : heuristics_only (EnhancedAbuseReputationManager.spam_detector (reputation_manager self)) ->
  exists l, EnhancedAbuseReputationManager.all_enhanced_scores instant (reputation_manager self) b = (b, Ok l) /\ l.*1 = tracked self.
Proof using Type.
  intros He. unfold EnhancedAbuseReputationManager.all_enhanced_scores, tracked, AbuseReputationManager.all_reputations.
  set (m := map_iter _). set (f := fun '(p, s) acc => _).
  assert (Hloop : forall l acc, exists r, for_loop f (map (fun kv => (kv.1, PeerAbuseStats.reputation_score kv.2)) l) acc b = (b, Ok r) /\ r.*1 = acc.*1 ++ l.*1).
  { induction l as [|[p s] l IH]; intros acc; cbn [map for_loop].
    - exists acc. by rewrite app_nil_r.
    - unfold mbind, M_bind, f at 1, mbind, M_bind. rewrite spam_score_pure by done. cbn.
      destruct (IH (acc ++ [(p, EnhancedReputationScore.of_scores (PeerAbuseStats.reputation_score s)
        (signal_score instant p (EnhancedAbuseReputationManager.spam_detector (reputation_manager self))))])) as (r & Hr & Hf).
      exists r. split; [exact Hr|]. rewrite Hf, fmap_app, <-app_assoc. done. }
  destruct (Hloop m []) as (r & Hr & Hf). eauto.
Qed.

(** *** Blocks of a list of peers *)

Definition block_all (epoch : Z) (ps : list string) (s : BlockList.t) : BlockList.t :=
  fold_left (fun s p => BlockList.block (BlockedIdentity.new epoch p) s) ps s.

Lemma block_all_devices epoch ps s : BlockList.devices (block_all epoch ps s) = BlockList.devices s.
Proof. revert s. induction ps as [|p ps IH]; intros s; [done|]. etrans; [apply IH|done]. Qed.

Lemma block_all_lookup epoch ps s p :
  BlockList.blocks (block_all epoch ps s) !! (p, None) =
    (if bool_decide (p ∈ ps) then Some (BlockedIdentity.new epoch p) else BlockList.blocks s !! (p, None)) /\
  (p ∉ ps -> forall d, BlockList.blocks (block_all epoch ps s) !! (p, d) = BlockList.blocks s !! (p, d)).
Proof.
  revert s. induction ps as [|q ps IH]; intros s; cbn [block_all fold_left].
  - rewrite bool_decide_false by set_solver. done.
  - destruct (IH (BlockList.block (BlockedIdentity.new epoch q) s)) as [I1 I2]. unfold block_all in *. split.
    + rewrite I1. cbn. rewrite BlockList.block_devices_lookup. destruct (decide (p = q)) as [->|Hne].
      * rewrite lookup_insert_eq. rewrite (bool_decide_true (q ∈ q :: ps)) by set_solver. by case_bool_decide.
      * rewrite lookup_insert_ne by congruence. repeat case_bool_decide; try done; set_solver.
    + intros Hp d. rewrite not_elem_of_cons in Hp. rewrite I2 by naive_solver. cbn. rewrite BlockList.block_devices_lookup. cbn.
      destruct d as [d|]; [rewrite bool_decide_false by naive_solver|]; rewrite lookup_insert_ne by (intros [=]; naive_solver); done.
Qed.

(** *** The loop *)

(** What audited blocks leave of the engine: the entries are added to the log,
    and only when the bound is reached the oldest are gone. *)
Definition audited (self self' : AutoBlockEngine.t) (es : list AutoBlockAuditEntry.t) : Prop :=
  config self' = config self /\ reputation_manager self' = reputation_manager self /\
  exists gone, audit_log self ++ es = gone ++ audit_log self' /\
    (gone = [] \/ len (audit_log self') = AutoBlockConfig.max_audit_entries (config self)) /\
    (es = [] \/ len (audit_log self') <= AutoBlockConfig.max_audit_entries (config self)).

Lemma audited_refl self : audited self self [].
Proof. split_and!; [done..|]. exists []. rewrite app_nil_r. auto. Qed.

Lemma audited_push self self' es entry : 0 <= AutoBlockConfig.max_audit_entries (config self) -> audited self self' es ->
  audited self (push_audit entry self') (es ++ [entry]).
Proof.
  intros Hmax (H1 & H2 & gone & Hg & Hfull & _). unfold push_audit. split_and!; [done|done|]. cbn. rewrite H1.
  pose proof (len_nonneg (audit_log self')) as Hn. rewrite app_assoc, Hg. case_match eqn:Hc.
  - set (n := Z.to_nat _). exists (gone ++ take n (audit_log self' ++ [entry])).
    assert (Hl : len (drop n (audit_log self' ++ [entry])) = AutoBlockConfig.max_audit_entries (config self)).
    { bool_to_prop. unfold len in *. rewrite length_drop. lia. }
    split_and!; [by rewrite <-!app_assoc, take_drop|auto|right; lia].
  - bool_to_prop. exists gone. rewrite <-app_assoc. split_and!; [done| |right; lia].
    destruct Hfull as [->|Hfull]; [by left|]. rewrite len_app in Hc. unfold len at 2 in Hc. cbn in Hc. lia.
Qed.

Lemma condemned_audited instant self self' ps p : audited self self' ps -> condemned instant self' p = condemned instant self p.
Proof. intros (H1 & H2 & _). unfold condemned, peer_score, is_exempt. by rewrite H1, H2. Qed.

Lemma entry_audited instant epoch self self' es p : audited self self' es -> entry_of instant epoch self p = entry_of instant epoch self' p.
Proof. intros (H1 & H2 & _). unfold entry_of, peer_score. by rewrite H1, H2. Qed.

Lemma runs_beside {S E A} (m : M B E A) (s : S) b (Q : outcome E A -> S * B -> Prop) :
  runs m b (fun r b' => Q r (s, b')) -> runs (beside m) (s, b) Q.
Proof. unfold runs, beside. by destruct (m b). Qed.

Lemma block_step instant epoch p self s c0 b (Q : outcome IronCoreError bool -> AutoBlockEngine.t * B -> Prop) :
  heuristics_only (EnhancedAbuseReputationManager.spam_detector (reputation_manager self)) -> simple p ->
  BlockHistory.now_at s c0 b ->
  (condemned instant self p = false -> Q (Ok false) (self, b)) ->
  (condemned instant self p = true -> forall b',
     BlockHistory.now_at (BlockList.block (BlockedIdentity.new epoch p) s) c0 b' -> Q (Ok true) (push_audit (entry_of instant epoch self p) self, b')) ->
  runs (evaluate_and_block instant epoch p) (self, b) Q.
Proof using All.
  intros Hh Hp Hs Hno Hyes. unfold evaluate_and_block. apply runs_bind. cbn. apply runs_bind.
  destruct (evaluate_pure instant p self b Hh) as (r & Hr & Hc & He). unfold runs at 1, beside. rewrite Hr. cbn.
  rewrite Hc. destruct (condemned instant self p); cbn [negb]; [|by apply Hno]. specialize (He eq_refl epoch).
  apply runs_bind, runs_beside. eapply BlockHistory.block_run; [exact Hs|done|]. intros b' Hb'.
  apply runs_bind. unfold runs at 1, modify. cbn. rewrite He. apply runs_ret. by apply Hyes.
Qed.

Lemma sweep_run instant epoch self s b : heuristics_only (EnhancedAbuseReputationManager.spam_detector (reputation_manager self)) ->
  0 <= AutoBlockConfig.max_audit_entries (config self) -> Forall simple (tracked self) -> BlockHistory.related s (contents b) ->
  let chosen := filter (fun p => condemned instant self p = true) (tracked self) in
  runs (evaluate_all_tracked instant epoch) (self, b) (fun r x => r = Ok (len chosen) /\ audited self x.1 (map (entry_of instant epoch self) chosen) /\
    BlockHistory.now_at (block_all epoch chosen s) (contents b) x.2).
Proof using All.
  intros Hh Hmax Hsimple Hrel chosen. unfold evaluate_all_tracked. apply runs_bind. cbn. apply runs_bind.
  destruct (all_scores_pure instant self b Hh) as (l & Hl & Ht). unfold runs at 1, beside. rewrite Hl. cbn.
  set (pick := (fun l : list string => filter (fun p => condemned instant self p = true) l)).
  apply (runs_for_loop _ (fun done _ n x => n = len (pick done.*1) /\ audited self x.1 (map (entry_of instant epoch self) (pick done.*1)) /\
    BlockHistory.now_at (block_all epoch (pick done.*1) s) (contents b) x.2)).
  - split_and!; [done|apply audited_refl|by apply BlockHistory.now_at_start].
  - intros done [p sc] rest n [self1 b1] Hd (-> & Ha & Hn). cbn [fst snd] in Ha, Hn. apply runs_bind.
    assert (Hp : simple p). { rewrite Forall_forall in Hsimple. apply Hsimple. rewrite <-Ht, Hd, fmap_app. set_solver. }
    pose proof (condemned_audited instant self self1 _ p Ha) as Hcond. pose proof Ha as (Hc & Hm & _).
    rewrite !fmap_app. cbn [fmap list_fmap fst]. unfold pick in *. rewrite !filter_app.
    eapply (block_step instant epoch p self1); [by rewrite Hm|done|exact Hn|rewrite Hcond; intros Hq..].
    + apply runs_ret. rewrite (filter_cons_False _ p) by congruence. rewrite filter_nil, app_nil_r. eauto.
    + intros b' Hb'. apply runs_ret. rewrite (filter_cons_True _ p) by done. rewrite filter_nil.
      eexists. split; [done|]. split_and!; [unfold len; rewrite length_app; cbn; lia| |].
      * rewrite map_app. cbn [map fst]. rewrite (entry_audited instant epoch self self1 _ p Ha). by apply audited_push.
      * cbn [snd]. unfold block_all in *. by rewrite fold_left_app.
  - intros n [self1 b1] (-> & Ha & Hn). cbn [fst snd] in *. rewrite Ht in *. split_and!; done.
Qed.

(** C36. A sweep of the auto-blocker over a working store, for an engine whose spam
    detector has no contact and block managers ([heuristics_only]), as the
    application builds it at all three places of iron_core.rs (with them a block
    made by the sweep would count in the scores of the peers after it), and tracked
    peer ids without a colon: it blocks every tracked peer that is condemned
    (enabled, not exempt, its overall score below the threshold or its spam
    confidence at the threshold), returns how many they are, changes the block of
    no other peer or device and no device registry, and touches nothing but the
    block list.  The audit log gets exactly one entry for each, with its overall
    score, its spam confidence and the reason that goes with them, and loses the
    oldest entries beyond its bound; configuration and reputations stay as they
    are. *)
Theorem auto_block_sweep instant epoch self s b :
  heuristics_only (EnhancedAbuseReputationManager.spam_detector (reputation_manager self)) ->
  0 <= AutoBlockConfig.max_audit_entries (config self) -> Forall simple (tracked self) -> BlockHistory.related s (contents b) ->
  let chosen := filter (fun p => condemned instant self p = true) (tracked self) in
  exists self' b' s', evaluate_all_tracked instant epoch (self, b) = ((self', b'), Ok (len chosen)) /\
    BlockHistory.related s' (contents b') /\ touches BlockHistory.areas (contents b) (contents b') /\
    (forall p, p ∈ chosen -> BlockList.blocks s' !! (p, None) = Some (BlockedIdentity.new epoch p)) /\
    (forall p d, p ∉ chosen -> BlockList.blocks s' !! (p, d) = BlockList.blocks s !! (p, d)) /\
    BlockList.devices s' = BlockList.devices s /\ audited self self' (map (entry_of instant epoch self) chosen).
Proof using All.
  intros Hh Hmax Hsimple Hrel chosen.
  pose proof (sweep_run instant epoch self s b Hh Hmax Hsimple Hrel) as Hrun. cbv zeta in Hrun. fold chosen in Hrun.
  destruct (runs_eq _ _ _ Hrun) as ([self' b'] & r & He & -> & Ha & Hrel' & Ht).
  exists self', b', (block_all epoch chosen s). split_and!; [done|done|done| | |apply block_all_devices|done].
  - intros p Hp. destruct (block_all_lookup epoch chosen s p) as [-> _]. by rewrite bool_decide_true.
  - intros p d Hp. by apply block_all_lookup.
Qed.
End Sweep.
End AutoBlockFacts.

(** ** Witnesses *)

Module AbuseSamples.
#[local] Existing Instances MemoryStorage.storage_backend MemoryStorage.storage_backend_spec memory_storage_reliable.
#[local] Existing Instances hex_json hex_json_spec.
#[local] Instance sample_iter {K V} `{Countable K} : MapIter K V := map_iter_default.
#[local] Instance sample_stats_json : SerdeJson PeerAbuseStats.t := {| json_to_string _ := Err EmptyString; json_from_str _ := Err EmptyString |}.
#[local] Instance sample_contact_crates : ContactCrates :=
  {| uuid_parses s := true; hex_decode_str s := from_hex (as_bytes s); bs58_decode _ := None;
     verifying_key_ok _ := true; contact_hex := fun b => of_bytes (to_hex b); unicode_lower := to_lowercase |}.

Definition some_ops : list ReputationHistory.op :=
  [ReputationHistory.Signal 0 100 "alice" SuccessfulDelivery; ReputationHistory.Signal 0 100 "mallory" RateLimited;
   ReputationHistory.Decay 2000000; ReputationHistory.Signal 5 2000000 "bob" SuccessfulRelay; ReputationHistory.Prune 5 3].

(** Room for two: the peer with the lowest score goes when a third appears. *)
Lemma reputation_bounded_witness :
  Z.of_nat (size (AbuseReputationManager.peers (ReputationHistory.run some_ops (AbuseReputationManager.new 2, MemoryStorage.new)).1)) <= 2 /\
  AbuseReputationManager.get_score "mallory" (ReputationHistory.run (take 4 some_ops) (AbuseReputationManager.new 2, MemoryStorage.new)).1 = F64.of_Z 50.
Proof.
  assert (Hops : Forall ReputationHistory.op_ok some_ops) by (unfold some_ops; repeat constructor; cbn; unfold fits; lia).
  pose proof (ReputationHistory.reputation_bounded some_ops 2 MemoryStorage.new ltac:(lia) Hops) as [Hsize _].
  split; [exact Hsize|vm_compute; reflexivity].
Defined.

(** One exceeded rate limit is enough to be abusive, one delivery to be trusted. *)
Lemma first_signals :
  ReputationScore.is_abusive (PeerAbuseStats.reputation_score (PeerAbuseStats.record_signal 0 0 RateLimited (PeerAbuseStats.new 0 "p"))) = true /\
  ReputationScore.is_trusted (PeerAbuseStats.reputation_score (PeerAbuseStats.record_signal 0 0 SuccessfulDelivery (PeerAbuseStats.new 0 "p"))) = true.
Proof. split; vm_compute; reflexivity. Qed.

Definition sample_reputations : AbuseReputationManager.t := (ReputationHistory.run (take 2 some_ops) (AbuseReputationManager.new 1000, MemoryStorage.new)).1.

(** The engine as the application builds it, with two peers known. *)
Definition sample_engine : AutoBlockEngine.t :=
  AutoBlockEngine.new AutoBlockConfig.default_config
    (EnhancedAbuseReputationManager.mk sample_reputations (SpamDetectionEngine.new_heuristics_only SpamDetectionConfig.default_config)).

Lemma auto_block_sweep_witness : exists self' b',
  AutoBlockEngine.evaluate_all_tracked 9 200 (sample_engine, MemoryStorage.new) = ((self', b'), Ok 1) /\
  BlockedManager.is_blocked "mallory" None b' = (b', Ok true) /\ BlockedManager.is_blocked "alice" None b' = (b', Ok false).
Proof.
  destruct (AutoBlockFacts.auto_block_sweep 9 200 sample_engine BlockList.empty MemoryStorage.new) as (self' & b' & s' & He & _);
    [reflexivity|by vm_compute|by_eval|split; apply table_empty; intros k Hk; exact (lookup_empty (M := gmap Bytes) (A := Bytes) k)|].
  exists self', b'. split; [rewrite He; do 2 f_equal; vm_compute; reflexivity|].
  assert (Hb' : b' = (AutoBlockEngine.evaluate_all_tracked 9 200 (sample_engine, MemoryStorage.new)).1.2) by (by rewrite He).
  rewrite Hb'. split; vm_compute; reflexivity.
Defined.
End AbuseSamples.
