(* ===== verification/TransportHealth.v ===== *)
(** * Connection statistics and observed addresses (core/src/transport/health.rs, observation.rs)

    Counters and the health of each connection, the totals of all of them, and
    the own addresses as other peers report them.  Peer ids, addresses and
    callbacks are those of the network library: types of the sections.  The
    clock is an argument, in milliseconds or seconds as the code takes it. *)

From S2P Require Import Prelude Float64.

Inductive ConnectionState : Type := Connecting | Connected | Disconnecting | Disconnected | Failed.

#[export] Instance ConnectionState_eq_dec : EqDecision ConnectionState.
Proof. solve_decision. Defined.

#[export] Instance ConnectionState_countable : Countable ConnectionState.
Proof.
  refine (inj_countable' (fun s => match s with Connecting => 0 | Connected => 1 | Disconnecting => 2 | Disconnected => 3 | Failed => 4 end)
    (fun n => match n with 0 => Connecting | 1 => Connected | 2 => Disconnecting | 3 => Disconnected | _ => Failed end) _).
  by intros [].
Defined.

(** [x += n] on an unsigned integer of [w] bits. *)
Definition plus_wrapping (w x n : Z) : Z := wrap w (x + n).

Module ConnectionStats.
Section Code.
Context {PeerId Multiaddr : Type} `{EqDecision Multiaddr}.

Record t : Type := mk {
  peer_id : PeerId;
  state : ConnectionState;
  duration_ms : Z;
  messages_sent : Z;
  message_failures : Z;
  bytes_sent : Z;
  bytes_received : Z;
  avg_latency_ms : Z;
  last_activity : Z;
  connection_attempts : Z;
  successful_connections : Z;
  connection_failures : Z;
  current_address : option Multiaddr;
  known_addresses : list Multiaddr
}.

Definition new (now : Z) (peer_id : PeerId) : t := mk peer_id Disconnected 0 0 0 0 0 0 now 0 0 0 None [].

Definition update_state (now : Z) (s : ConnectionState) (self : t) : t :=
  mk (peer_id self) s (duration_ms self) (messages_sent self) (message_failures self) (bytes_sent self) (bytes_received self)
    (avg_latency_ms self) now (connection_attempts self) (successful_connections self) (connection_failures self)
    (current_address self) (known_addresses self).

Definition record_message_success (now bytes latency_ms : Z) (self : t) : t :=
  let sent := plus_wrapping 64 (messages_sent self) 1 in
  let avg := if sent >? 1 then wrap 64 (avg_latency_ms self + latency_ms) / 2 else latency_ms in
  mk (peer_id self) (state self) (duration_ms self) sent (message_failures self) (plus_wrapping 64 (bytes_sent self) bytes)
    (bytes_received self) avg now (connection_attempts self) (successful_connections self) (connection_failures self)
    (current_address self) (known_addresses self).

Definition record_message_failure (now : Z) (self : t) : t :=
  mk (peer_id self) (state self) (duration_ms self) (messages_sent self) (plus_wrapping 64 (message_failures self) 1)
    (bytes_sent self) (bytes_received self) (avg_latency_ms self) now (connection_attempts self) (successful_connections self)
    (connection_failures self) (current_address self) (known_addresses self).

Definition record_bytes_received (now bytes : Z) (self : t) : t :=
  mk (peer_id self) (state self) (duration_ms self) (messages_sent self) (message_failures self) (bytes_sent self)
    (plus_wrapping 64 (bytes_received self) bytes) (avg_latency_ms self) now (connection_attempts self)
    (successful_connections self) (connection_failures self) (current_address self) (known_addresses self).

Definition set_connections (now attempts successes failures : Z) (self : t) : t :=
  mk (peer_id self) (state self) (duration_ms self) (messages_sent self) (message_failures self) (bytes_sent self)
    (bytes_received self) (avg_latency_ms self) now attempts successes failures (current_address self) (known_addresses self).

Definition record_connection_attempt (now : Z) (self : t) : t :=
  set_connections now (plus_wrapping 32 (connection_attempts self) 1) (successful_connections self) (connection_failures self) self.

Definition record_successful_connection (now : Z) (self : t) : t :=
  set_connections now (connection_attempts self) (plus_wrapping 32 (successful_connections self) 1) (connection_failures self) self.

Definition record_connection_failure (now : Z) (self : t) : t :=
  set_connections now (connection_attempts self) (successful_connections self) (plus_wrapping 32 (connection_failures self) 1) self.

Definition update_current_address (now : Z) (address : Multiaddr) (self : t) : t :=
  mk (peer_id self) (state self) (duration_ms self) (messages_sent self) (message_failures self) (bytes_sent self)
    (bytes_received self) (avg_latency_ms self) now (connection_attempts self) (successful_connections self)
    (connection_failures self) (Some address)
    (if bool_decide (address ∈ known_addresses self) then known_addresses self else known_addresses self ++ [address]).

(** [now_ms - last_activity] on [u64]. *)
Definition age_ms (now : Z) (self : t) : Z := wrap 64 (now - last_activity self).

Definition ratio (a b : Z) : f64 := F64.div (F64.of_Z a) (F64.of_Z b).

Definition is_healthy (now : Z) (self : t) : bool :=
  bool_decide (state self = Connected) && (age_ms now self <? 30000) && (successful_connections self >? 0) &&
  ((connection_attempts self =? 0) ||
   F64.ltb (F64.lit 7 10) (ratio (successful_connections self) (connection_attempts self))).

Definition quality_score (now : Z) (self : t) : f64 :=
  let age_ms := age_ms now self in
  let age_factor :=
    if age_ms <? 10000 then F64.of_Z 1 else if age_ms <? 30000 then F64.lit 8 10
    else if age_ms <? 60000 then F64.lit 1 2 else F64.lit 2 10 in
  let success_rate :=
    if connection_attempts self >? 0 then ratio (successful_connections self) (connection_attempts self) else F64.of_Z 1 in
  let messages := wrap 64 (messages_sent self + message_failures self) in
  let message_success_rate := if messages >? 0 then ratio (messages_sent self) messages else F64.of_Z 1 in
  F64.clamp (F64.add (F64.add (F64.mul success_rate (F64.lit 4 10)) (F64.mul message_success_rate (F64.lit 4 10)))
    (F64.mul age_factor (F64.lit 2 10))) (F64.of_Z 0) (F64.of_Z 1).
End Code.
Arguments t : clear implicits.
End ConnectionStats.

Module GlobalTransportMetrics.

Record t : Type := mk {
  total_connection_attempts : Z;
  total_successful_connections : Z;
  total_connection_failures : Z;
  total_messages_sent : Z;
  total_message_failures : Z;
  total_bytes_sent : Z;
  total_bytes_received : Z;
  current_active_connections : Z;
  peak_active_connections : Z;
  connection_state_counts : gmap ConnectionState Z;
  start_timestamp : Z
}.

Definition new (now : Z) : t := mk 0 0 0 0 0 0 0 0 0 ∅ now.

Definition set_connections (attempts successes failures : Z) (self : t) : t :=
  mk attempts successes failures (total_messages_sent self) (total_message_failures self) (total_bytes_sent self)
    (total_bytes_received self) (current_active_connections self) (peak_active_connections self)
    (connection_state_counts self) (start_timestamp self).

Definition set_messages (sent failures bytes_sent bytes_received : Z) (self : t) : t :=
  mk (total_connection_attempts self) (total_successful_connections self) (total_connection_failures self) sent failures
    bytes_sent bytes_received (current_active_connections self) (peak_active_connections self)
    (connection_state_counts self) (start_timestamp self).

Definition set_active (active peak : Z) (self : t) : t :=
  mk (total_connection_attempts self) (total_successful_connections self) (total_connection_failures self)
    (total_messages_sent self) (total_message_failures self) (total_bytes_sent self) (total_bytes_received self)
    active peak (connection_state_counts self) (start_timestamp self).

(** One more active connection, and the peak. *)
Definition raise_active (self : t) : t :=
  let active := plus_wrapping 32 (current_active_connections self) 1 in
  set_active active (if active >? peak_active_connections self then active else peak_active_connections self) self.

Definition set_counts (m : gmap ConnectionState Z) (self : t) : t :=
  mk (total_connection_attempts self) (total_successful_connections self) (total_connection_failures self)
    (total_messages_sent self) (total_message_failures self) (total_bytes_sent self) (total_bytes_received self)
    (current_active_connections self) (peak_active_connections self) m (start_timestamp self).

Definition record_connection_attempt (self : t) : t :=
  set_connections (plus_wrapping 64 (total_connection_attempts self) 1) (total_successful_connections self)
    (total_connection_failures self) self.

Definition record_successful_connection (self : t) : t :=
  let self := set_connections (total_connection_attempts self) (plus_wrapping 64 (total_successful_connections self) 1)
    (total_connection_failures self) self in
  raise_active self.

Definition record_connection_failure (self : t) : t :=
  set_connections (total_connection_attempts self) (total_successful_connections self)
    (plus_wrapping 64 (total_connection_failures self) 1) self.

Definition record_message_success (bytes : Z) (self : t) : t :=
  set_messages (plus_wrapping 64 (total_messages_sent self) 1) (total_message_failures self)
    (plus_wrapping 64 (total_bytes_sent self) bytes) (total_bytes_received self) self.

Definition record_message_failure (self : t) : t :=
  set_messages (total_messages_sent self) (plus_wrapping 64 (total_message_failures self) 1) (total_bytes_sent self)
    (total_bytes_received self) self.

Definition record_bytes_received (bytes : Z) (self : t) : t :=
  set_messages (total_messages_sent self) (total_message_failures self) (total_bytes_sent self)
    (plus_wrapping 64 (total_bytes_received self) bytes) self.

Definition record_connection_state_change (state : ConnectionState) (self : t) : t :=
  let self :=
    match state with
    | Connected => raise_active self
    | Disconnected | Failed =>
        if current_active_connections self >? 0 then set_active (current_active_connections self - 1) (peak_active_connections self) self else self
    | _ => self
    end in
  set_counts (<[state := plus_wrapping 32 (default 0 (connection_state_counts self !! state)) 1]> (connection_state_counts self)) self.

Definition uptime_seconds (now : Z) (self : t) : Z := wrap 64 (now - start_timestamp self) / 1000.

Definition health_score (now : Z) (self : t) : f64 :=
  let uptime_secs := uptime_seconds now self in
  if uptime_secs =? 0 then F64.of_Z 1 else
  let connection_success_rate :=
    if total_connection_attempts self >? 0
    then ConnectionStats.ratio (total_successful_connections self) (total_connection_attempts self) else F64.of_Z 1 in
  let messages := wrap 64 (total_messages_sent self + total_message_failures self) in
  let message_success_rate := if messages >? 0 then ConnectionStats.ratio (total_messages_sent self) messages else F64.of_Z 1 in
  let connection_stability :=
    if total_successful_connections self >? 0 then
      let avg_duration :=
        if current_active_connections self >? 0 then uptime_secs / current_active_connections self else 0 in
      F64.min (F64.div (F64.of_Z avg_duration) (F64.of_Z 60)) (F64.of_Z 1)
    else F64.of_Z 1 in
  F64.clamp (F64.add (F64.add (F64.mul connection_success_rate (F64.lit 3 10)) (F64.mul message_success_rate (F64.lit 4 10)))
    (F64.mul connection_stability (F64.lit 3 10))) (F64.of_Z 0) (F64.of_Z 1).
End GlobalTransportMetrics.

(** The callbacks of a state change are a list of names; an update returns what
    it tells each of them. *)
Module TransportHealthMonitor.
Section Code.
Context {PeerId Multiaddr Callback : Type} `{Countable PeerId} `{EqDecision Multiaddr} {MI : MapIter PeerId (ConnectionStats.t PeerId Multiaddr)}.
Abbreviation stats := (ConnectionStats.t PeerId Multiaddr).

Record t : Type := mk_monitor {
  connection_stats : gmap PeerId stats;
  global_metrics : GlobalTransportMetrics.t;
  state_change_callbacks : list Callback
}.

Definition new (now : Z) : t := mk_monitor ∅ (GlobalTransportMetrics.new now) [].

(** [if let Some(entry) = stats.get_mut(..)], and with [or_insert_with]. *)
Definition on_known (p : PeerId) (f : stats -> stats) (g : GlobalTransportMetrics.t -> GlobalTransportMetrics.t) (self : t) : t :=
  mk_monitor (alter f p (connection_stats self)) (g (global_metrics self)) (state_change_callbacks self).

Definition on_entry (now : Z) (p : PeerId) (f : stats -> stats) (g : GlobalTransportMetrics.t -> GlobalTransportMetrics.t) (self : t) : t :=
  mk_monitor (<[p := f (default (ConnectionStats.new now p) (connection_stats self !! p))]> (connection_stats self))
    (g (global_metrics self)) (state_change_callbacks self).

Definition update_connection_state (now : Z) (p : PeerId) (state : ConnectionState) (self : t) : t * list (Callback * PeerId * ConnectionState) :=
  (on_entry now p (ConnectionStats.update_state now state) (GlobalTransportMetrics.record_connection_state_change state) self,
   map (fun callback => (callback, p, state)) (state_change_callbacks self)).

Definition record_message_success (now : Z) (p : PeerId) (bytes latency_ms : Z) : t -> t :=
  on_known p (ConnectionStats.record_message_success now bytes latency_ms) (GlobalTransportMetrics.record_message_success bytes).

Definition record_message_failure (now : Z) (p : PeerId) : t -> t :=
  on_known p (ConnectionStats.record_message_failure now) GlobalTransportMetrics.record_message_failure.

Definition record_bytes_received (now : Z) (p : PeerId) (bytes : Z) : t -> t :=
  on_known p (ConnectionStats.record_bytes_received now bytes) (GlobalTransportMetrics.record_bytes_received bytes).

Definition record_connection_attempt (now : Z) (p : PeerId) : t -> t :=
  on_entry now p (ConnectionStats.record_connection_attempt now) GlobalTransportMetrics.record_connection_attempt.

Definition record_successful_connection (now : Z) (p : PeerId) : t -> t :=
  on_known p (ConnectionStats.record_successful_connection now) GlobalTransportMetrics.record_successful_connection.

Definition record_connection_failure (now : Z) (p : PeerId) : t -> t :=
  on_known p (ConnectionStats.record_connection_failure now) GlobalTransportMetrics.record_connection_failure.

Definition update_current_address (now : Z) (p : PeerId) (address : Multiaddr) : t -> t :=
  on_known p (ConnectionStats.update_current_address now address) id.

Definition get_connection_stats (p : PeerId) (self : t) : option stats := connection_stats self !! p.

Definition get_healthy_connections (now : Z) (self : t) : list PeerId :=
  (filter (fun kv : PeerId * stats => ConnectionStats.is_healthy now kv.2 = true) (map_iter (connection_stats self))).*1.

Definition get_unhealthy_connections (now : Z) (self : t) : list PeerId :=
  (filter (fun kv : PeerId * stats => ConnectionStats.is_healthy now kv.2 = false) (map_iter (connection_stats self))).*1.

Definition register_state_change_callback (callback : Callback) (self : t) : t :=
  mk_monitor (connection_stats self) (global_metrics self) (state_change_callbacks self ++ [callback]).

Definition cleanup_stale_connections (now max_age_secs : Z) (self : t) : t :=
  let cutoff_ms := wrap 64 (now - wrap 64 (max_age_secs * 1000)) in
  mk_monitor (filter (fun kv : PeerId * stats => cutoff_ms <= ConnectionStats.last_activity kv.2) (connection_stats self))
    (global_metrics self) (state_change_callbacks self).
End Code.
Arguments t : clear implicits.
Arguments t _ _ _ {_ _}.
End TransportHealthMonitor.

Module AddressObservation.
Record t {PeerId SocketAddr : Type} : Type := mk {
  observer : PeerId;
  address : SocketAddr;
  timestamp : Z;
  confirmation_count : Z
}.
Arguments t : clear implicits.
Arguments mk {_ _}.
End AddressObservation.

Module AddressObserver.
Section Code.
Context {PeerId SocketAddr : Type} `{Countable PeerId} `{Countable SocketAddr}.
Context {MO : MapIter PeerId (AddressObservation.t PeerId SocketAddr)} {MC : MapIter SocketAddr Z}.
Abbreviation observation := (AddressObservation.t PeerId SocketAddr).
Import AddressObservation.

Record t : Type := mk_observer {
  observations : gmap PeerId observation;
  cached_external_addresses : list SocketAddr
}.

Definition new : t := mk_observer ∅ [].

Definition address_counts (m : gmap PeerId observation) : gmap SocketAddr Z :=
  fold_left (fun counts obs => <[address obs := plus_wrapping 32 (default 0 (counts !! address obs)) (confirmation_count obs)]> counts)
    (map_iter m).*2 ∅.

(** [sort_by_key(Reverse(count))]. *)
Definition most_observed (a b : SocketAddr * Z) : comparison := Z.compare b.2 a.2.

Definition recalculate_consensus (m : gmap PeerId observation) : t :=
  mk_observer m (sort_by most_observed (map_iter (address_counts m))).*1.

Definition observe (now : Z) (peer : PeerId) (addr : SocketAddr) (known : option observation) : observation :=
  match known with
  | Some obs =>
      if bool_decide (address obs = addr) then mk (observer obs) (address obs) now (plus_wrapping 32 (confirmation_count obs) 1)
      else mk (observer obs) addr now 1
  | None => mk peer addr now 1
  end.

Definition record_observation (now : Z) (peer : PeerId) (addr : SocketAddr) (self : t) : t :=
  recalculate_consensus (<[peer := observe now peer addr (observations self !! peer)]> (observations self)).

Definition external_addresses (self : t) : list SocketAddr := cached_external_addresses self.

Definition primary_external_address (self : t) : option SocketAddr := head (cached_external_addresses self).

Definition all_observations (self : t) : list observation := (map_iter (observations self)).*2.

Definition expire_old_observations (now max_age_secs : Z) (self : t) : t :=
  recalculate_consensus
    (filter (fun kv : PeerId * observation => wrap 64 (now - timestamp kv.2) < max_age_secs) (observations self)).
End Code.
Arguments t : clear implicits.
Arguments t _ _ {_ _}.
End AddressObserver.
