(* ===== verification/TransportManager.v ===== *)
(** * The transport manager (core/src/transport/manager.rs, abstraction.rs)

    Which peers are reachable over which transports, the choice of a transport
    for a peer, the outgoing queue, and the reconnection of lost peers with
    exponential backoff.  The health monitor and the address observer are those
    of TransportHealth.v; the recall module of core/src/dspy returns no paths.
    The clock is an argument: nanoseconds since the epoch. *)

From S2P Require Import Prelude Backend State Records Text Circuit Inbox TransportHealth.

Inductive TransportType : Type := BLE | WiFiAware | WiFiDirect | Internet | Local.

#[export] Instance TransportType_eq_dec : EqDecision TransportType.
Proof. solve_decision. Defined.

#[export] Instance TransportType_countable : Countable TransportType.
Proof.
  refine (inj_countable' (fun s => match s with BLE => 0 | WiFiAware => 1 | WiFiDirect => 2 | Internet => 3 | Local => 4 end)
    (fun n => match n with 0 => BLE | 1 => WiFiAware | 2 => WiFiDirect | 3 => Internet | _ => Local end) _).
  by intros [].
Defined.

Module TransportCapabilities.

Record t : Type := mk {
  max_payload_size : Z;
  supports_streaming : bool;
  is_bidirectional : bool;
  estimated_bandwidth_bps : Z;
  estimated_latency_ms : Z
}.

Definition for_transport (transport : TransportType) : t :=
  match transport with
  | BLE => mk 512 false true 2000000 50
  | WiFiAware => mk 2048 true true 80000000 10
  | WiFiDirect => mk 4096 true true 250000000 5
  | Internet => mk 8192 true true 100000000 100
  | Local => mk 65536 true true 10000000000 1
  end.
End TransportCapabilities.

Inductive TransportEvent : Type :=
| PeerDiscovered (peer_id : Bytes) (transport : TransportType) (addr : Bytes)
| PeerDisconnected (peer_id : Bytes) (transport : TransportType)
| DataReceived (peer_id : Bytes) (transport : TransportType) (data : Bytes)
| TransportErrorEvent (transport : TransportType) (error : string)
| ConnectionEstablished (peer_id : Bytes) (transport : TransportType).

(** The one error the manager returns; its text names the peer. *)
Inductive TransportError : Type := PeerNotFound (peer_id : Bytes).

Module TransportState.

Record t : Type := mk {
  running : bool;
  connected_peers : gset Bytes;
  capabilities : TransportCapabilities.t
}.

Definition new (capabilities : TransportCapabilities.t) : t := mk false ∅ capabilities.
End TransportState.

Module PendingSend.

Record t : Type := mk {
  peer_id : Bytes;
  data : Bytes;
  priority : Z;
  preferred_transport : option TransportType;
  created_at : Z
}.
End PendingSend.

Module OutgoingQueue.
Definition t : Type := list PendingSend.t.

Definition new : t := [].

(** [sort_by_key(Reverse(priority))], a stable sort. *)
Definition by_priority : PendingSend.t -> PendingSend.t -> comparison := newest PendingSend.priority.

Definition enqueue (item : PendingSend.t) (self : t) : t := sort_by by_priority (self ++ [item]).

Definition dequeue (self : t) : option PendingSend.t * t :=
  match self with
  | [] => (None, [])
  | x :: rest => (Some x, rest)
  end.

Definition clear (self : t) : t := [].
End OutgoingQueue.

Definition NANOS_PER_MS : Z := 1000000.
Definition RECONNECT_BASE_INTERVAL : Z := 1000 * NANOS_PER_MS.
Definition RECONNECT_MAX_INTERVAL : Z := 60000 * NANOS_PER_MS.
Definition RECONNECT_BACKOFF_MULTIPLIER : Z := 2.
Definition RECONNECT_MAX_FAILURES : Z := 10.
Definition RECONNECT_MAX_CONCURRENT : Z := 3.
Definition RECONNECT_STAGGER_INTERVAL : Z := 200 * NANOS_PER_MS.

Module ReconnectionState.

Record t : Type := mk {
  peer_id : Bytes;
  last_transports : gset TransportType;
  last_addr : Bytes;
  failures : Z;
  next_attempt_at : Z;
  disconnected_at : Z
}.

Definition new (now : Z) (peer_id : Bytes) (transports : gset TransportType) (addr : Bytes) : t :=
  mk peer_id transports addr 0 (now + RECONNECT_BASE_INTERVAL) now.

Definition set_next (at_time : Z) (self : t) : t :=
  mk (peer_id self) (last_transports self) (last_addr self) (failures self) at_time (disconnected_at self).

Definition backoff_interval (self : t) : Z :=
  let base := RECONNECT_BASE_INTERVAL / NANOS_PER_MS in
  let power := RECONNECT_BACKOFF_MULTIPLIER ^ failures self in
  let multiplier := if power <? 2 ^ 32 then power else 2 ^ 32 - 1 in
  let interval_ms := Z.min (base * multiplier) (2 ^ 64 - 1) in
  Z.min (interval_ms * NANOS_PER_MS) RECONNECT_MAX_INTERVAL.

Definition record_failure (now : Z) (self : t) : t :=
  let self := mk (peer_id self) (last_transports self) (last_addr self) (wrap 32 (failures self + 1)) (next_attempt_at self)
    (disconnected_at self) in
  set_next (now + backoff_interval self) self.

Definition is_exhausted (self : t) : bool := failures self >=? RECONNECT_MAX_FAILURES.

Definition is_ready (now : Z) (self : t) : bool := now >=? next_attempt_at self.
End ReconnectionState.

(** [SendResult::Queued]. *)
Inductive SendResult : Type := Queued (transport : TransportType).

(** [MultiHopRecall]: its steps; [recall] finds nothing. *)
Module MultiHopRecall.
Record t : Type := mk { name : string; max_hops : Z; steps : list string }.

Definition new (name : string) (max_hops : Z) : t := mk name max_hops [].
Definition add_step (step : string) (self : t) : t := mk (name self) (max_hops self) (steps self ++ [step]).
Definition recall (self : t) (query : string) : list string := [].
Definition validate_input (self : t) (input : string) : bool := negb (bool_decide (input = EmptyString)).
End MultiHopRecall.

Module TransportManager.
Section Code.
Context {PeerId Multiaddr Callback SocketAddr : Type} `{Countable PeerId} `{EqDecision Multiaddr} `{Countable SocketAddr}.
Context {MS : MapIter PeerId (ConnectionStats.t PeerId Multiaddr)}.
Context {MO : MapIter PeerId (AddressObservation.t PeerId SocketAddr)} {MC : MapIter SocketAddr Z}.
Context {MQ : MapIter Bytes ReconnectionState.t} {MP : MapIter Bytes (gset TransportType)} {ML : MapIter Bytes Z} {ST : SetIter TransportType}.

Abbreviation Health := (TransportHealthMonitor.t PeerId Multiaddr Callback).
Abbreviation Observer := (AddressObserver.t PeerId SocketAddr).

Record t : Type := mk {
  transports : gmap TransportType TransportState.t;
  peer_transports : gmap Bytes (gset TransportType);
  outgoing : OutgoingQueue.t;
  peer_last_seen : gmap Bytes Z;
  target_peers : gmap Bytes Bytes;
  reconnection_queue : gmap Bytes ReconnectionState.t;
  health_monitor : option Health;
  address_observer : Observer;
  multi_hop_recall : option MultiHopRecall.t
}.

Definition new_with_multihop (recall : option MultiHopRecall.t) : t :=
  mk ∅ ∅ OutgoingQueue.new ∅ ∅ ∅ None AddressObserver.new recall.

Definition new : t := new_with_multihop None.

Definition set_transports (x : gmap TransportType TransportState.t) (self : t) : t :=
  mk x (peer_transports self) (outgoing self) (peer_last_seen self) (target_peers self) (reconnection_queue self)
    (health_monitor self) (address_observer self) (multi_hop_recall self).
Definition set_peer_transports (x : gmap Bytes (gset TransportType)) (self : t) : t :=
  mk (transports self) x (outgoing self) (peer_last_seen self) (target_peers self) (reconnection_queue self)
    (health_monitor self) (address_observer self) (multi_hop_recall self).
Definition set_outgoing (x : OutgoingQueue.t) (self : t) : t :=
  mk (transports self) (peer_transports self) x (peer_last_seen self) (target_peers self) (reconnection_queue self)
    (health_monitor self) (address_observer self) (multi_hop_recall self).
Definition set_last_seen (x : gmap Bytes Z) (self : t) : t :=
  mk (transports self) (peer_transports self) (outgoing self) x (target_peers self) (reconnection_queue self)
    (health_monitor self) (address_observer self) (multi_hop_recall self).
Definition set_targets (x : gmap Bytes Bytes) (self : t) : t :=
  mk (transports self) (peer_transports self) (outgoing self) (peer_last_seen self) x (reconnection_queue self)
    (health_monitor self) (address_observer self) (multi_hop_recall self).
Definition set_queue (x : gmap Bytes ReconnectionState.t) (self : t) : t :=
  mk (transports self) (peer_transports self) (outgoing self) (peer_last_seen self) (target_peers self) x
    (health_monitor self) (address_observer self) (multi_hop_recall self).
Definition set_services (h : option Health) (o : Observer) (r : option MultiHopRecall.t) (self : t) : t :=
  mk (transports self) (peer_transports self) (outgoing self) (peer_last_seen self) (target_peers self) (reconnection_queue self) h o r.

Definition set_health_monitor (monitor : Health) (self : t) : t :=
  set_services (Some monitor) (address_observer self) (multi_hop_recall self) self.

Definition register_transport (transport : TransportType) (capabilities : TransportCapabilities.t) (self : t) : t :=
  set_transports (<[transport := TransportState.new capabilities]> (transports self)) self.

(** A peer lost on its last transport: queued if it is a target and not queued. *)
Definition queue_lost (now : Z) (peer_id : Bytes) (transport : TransportType) (self : t) : t :=
  match target_peers self !! peer_id with
  | Some addr =>
      match reconnection_queue self !! peer_id with
      | None => set_queue (<[peer_id := ReconnectionState.new now peer_id {[transport]} addr]> (reconnection_queue self)) self
      | Some _ => self
      end
  | None => self
  end.

Definition handle_event (now : Z) (event : TransportEvent) (self : t) : t :=
  match event with
  | PeerDiscovered peer_id transport _ =>
      let known := default ∅ (peer_transports self !! peer_id) in
      let self := set_peer_transports (<[peer_id := {[transport]} ∪ known]> (peer_transports self)) self in
      set_last_seen (<[peer_id := now]> (peer_last_seen self)) self
  | PeerDisconnected peer_id transport =>
      match peer_transports self !! peer_id with
      | Some known =>
          let known := known ∖ {[transport]} in
          if bool_decide (known = ∅) then
            queue_lost now peer_id transport (set_peer_transports (delete peer_id (peer_transports self)) self)
          else set_peer_transports (<[peer_id := known]> (peer_transports self)) self
      | None => self
      end
  | DataReceived peer_id _ _ => set_last_seen (<[peer_id := now]> (peer_last_seen self)) self
  | ConnectionEstablished peer_id transport =>
      match transports self !! transport with
      | Some st =>
          let st := TransportState.mk (TransportState.running st) ({[peer_id]} ∪ TransportState.connected_peers st)
            (TransportState.capabilities st) in
          set_transports (<[transport := st]> (transports self)) self
      | None => self
      end
  | TransportErrorEvent _ _ => self
  end.

(** The score of a transport: additions and the subtraction on [u64]. *)
Definition transport_score (peer_id : Bytes) (state : option TransportState.t) : Z :=
  match state with
  | None => 0
  | Some st =>
      let caps := TransportState.capabilities st in
      let score := if bool_decide (peer_id ∈ TransportState.connected_peers st) then 1000 else 0 in
      let score := if TransportCapabilities.supports_streaming caps then score + 500 else score in
      let bandwidth_score := Z.min 100 (TransportCapabilities.estimated_bandwidth_bps caps / 1000000) in
      let score := score + bandwidth_score * 5 in
      let latency_score := Z.max 0 (wrap 64 (100 - TransportCapabilities.estimated_latency_ms caps)) in
      wrap 64 (score + latency_score)
  end.

Definition best_transport_for_peer (peer_id : Bytes) (self : t) : outcome TransportError TransportType :=
  match peer_transports self !! peer_id with
  | None => Err (PeerNotFound peer_id)
  | Some available =>
      if bool_decide (available = ∅) then Err (PeerNotFound peer_id) else
      let score transport := transport_score peer_id (transports self !! transport) in
      match max_by (fun a b => Z.compare (score a) (score b)) (set_iter available) with
      | Some best => Ok best
      | None => Err (PeerNotFound peer_id)
      end
  end.

Definition send_to_peer (now : Z) (peer_id data : Bytes) (priority : Z) (self : t) : t * outcome TransportError SendResult :=
  match best_transport_for_peer peer_id self with
  | Ok best =>
      (set_outgoing (OutgoingQueue.enqueue (PendingSend.mk peer_id data priority (Some best) now) (outgoing self)) self, Ok (Queued best))
  | Err e => (self, Err e)
  | Panic => (self, Panic)
  end.

Definition connected_peers (self : t) : list Bytes := (map_iter (peer_transports self)).*1.

Definition peers_on_transport (transport : TransportType) (self : t) : gset Bytes :=
  match transports self !! transport with Some st => TransportState.connected_peers st | None => ∅ end.

Definition is_peer_connected (peer_id : Bytes) (self : t) : bool :=
  match peer_transports self !! peer_id with Some s => negb (bool_decide (s = ∅)) | None => false end.

Definition transports_for_peer (peer_id : Bytes) (self : t) : gset TransportType := default ∅ (peer_transports self !! peer_id).

Definition pending_sends (self : t) : list PendingSend.t := outgoing self.

Definition add_target_peer (peer_id addr : Bytes) (self : t) : t := set_targets (<[peer_id := addr]> (target_peers self)) self.

Definition remove_target_peer (peer_id : Bytes) (self : t) : t :=
  set_queue (delete peer_id (reconnection_queue self)) (set_targets (delete peer_id (target_peers self)) self).

Definition due (now : Z) (s : ReconnectionState.t) : bool :=
  ReconnectionState.is_ready now s && negb (ReconnectionState.is_exhausted s).

Definition lost_at (q : gmap Bytes ReconnectionState.t) (id : Bytes) : Z :=
  match q !! id with Some s => ReconnectionState.disconnected_at s | None => 0 end.

(** [next_attempt_at = now + STAGGER * (i + 1)] for the i-th of those left out. *)
Fixpoint stagger (now i : Z) (ids : list Bytes) (q : gmap Bytes ReconnectionState.t) : gmap Bytes ReconnectionState.t :=
  match ids with
  | [] => q
  | id :: ids => stagger now (i + 1) ids (alter (ReconnectionState.set_next (now + RECONNECT_STAGGER_INTERVAL * (i + 1))) id q)
  end.

Definition peers_needing_reconnect (now : Z) (self : t) : t * list ReconnectionState.t :=
  let q := reconnection_queue self in
  let ready := (filter (fun kv : Bytes * ReconnectionState.t => due now kv.2 = true) (map_iter q)).*1 in
  if len ready >? RECONNECT_MAX_CONCURRENT then
    let ready := sort_by (fun a b => Z.compare (lost_at q a) (lost_at q b)) ready in
    let n := Z.to_nat RECONNECT_MAX_CONCURRENT in
    let q := stagger now 0 (drop n ready) q in
    (set_queue q self, omap (fun id => q !! id) (take n ready))
  else (self, omap (fun id => q !! id) ready).

Definition record_reconnect_success (peer_id : Bytes) (self : t) : t :=
  set_queue (delete peer_id (reconnection_queue self)) self.

Definition record_reconnect_failure (now : Z) (peer_id : Bytes) (self : t) : t :=
  set_queue (alter (ReconnectionState.record_failure now) peer_id (reconnection_queue self)) self.

Definition reconnection_queue_len (self : t) : Z := Z.of_nat (size (reconnection_queue self)).

(** The age of [seen_at] in seconds; [None] when it lies in the future. *)
Definition seen_secs (now seen_at : Z) : option Z := if seen_at <=? now then Some ((now - seen_at) / 1000000000) else None.

Definition not_seen (now seen_at : Z) : bool := match seen_secs now seen_at with Some e => e >? 300 | None => false end.
Definition still_seen (now seen_at : Z) : bool := match seen_secs now seen_at with Some e => negb (e >? 300) | None => false end.

Definition tick (now : Z) (self : t) : t :=
  let gone := (filter (fun kv : Bytes * Z => not_seen now kv.2 = true) (map_iter (peer_last_seen self))).*1 in
  let self := set_peer_transports (fold_left (fun m k => delete k m) gone (peer_transports self)) self in
  let self := set_last_seen (filter (fun kv : Bytes * Z => still_seen now kv.2 = true) (peer_last_seen self)) self in
  let self := set_queue (filter (fun kv : Bytes * ReconnectionState.t => ReconnectionState.is_exhausted kv.2 = false) (reconnection_queue self)) self in
  set_services (TransportHealthMonitor.cleanup_stale_connections (now / NANOS_PER_MS) 3600 <$> health_monitor self) (address_observer self) (multi_hop_recall self) self.

Definition expire_address_observations (now max_age_secs : Z) (self : t) : t :=
  set_services (health_monitor self) (AddressObserver.expire_old_observations (now / 1000000000) max_age_secs (address_observer self)) (multi_hop_recall self) self.

(** The questions passed on to the monitor and the observer. *)
Definition get_healthy_connections (now : Z) (self : t) : list PeerId :=
  match health_monitor self with Some m => TransportHealthMonitor.get_healthy_connections (now / NANOS_PER_MS) m | None => [] end.

Definition get_unhealthy_connections (now : Z) (self : t) : list PeerId :=
  match health_monitor self with Some m => TransportHealthMonitor.get_unhealthy_connections (now / NANOS_PER_MS) m | None => [] end.

Definition get_global_metrics (now : Z) (self : t) : GlobalTransportMetrics.t :=
  match health_monitor self with
  | Some m => TransportHealthMonitor.global_metrics m
  | None => GlobalTransportMetrics.new (now / NANOS_PER_MS)
  end.

(** The observer and the time of each observation; the addresses are left empty. *)
Definition get_all_observed_connections (self : t) : list (PeerId * Z) :=
  map (fun obs => (AddressObservation.observer obs, AddressObservation.timestamp obs)) (AddressObserver.all_observations (address_observer self)).

Definition cleanup_health_stale_connections (now max_age_secs : Z) (self : t) : t :=
  set_services (TransportHealthMonitor.cleanup_stale_connections (now / NANOS_PER_MS) max_age_secs <$> health_monitor self) (address_observer self) (multi_hop_recall self) self.

Definition transport_named (name : string) : option TransportType :=
  let name := to_lowercase name in
  if bool_decide (name = "ble"%string) then Some BLE
  else if bool_decide (name = "wifi_aware"%string) || bool_decide (name = "wifiaware"%string) then Some WiFiAware
  else if bool_decide (name = "wifi_direct"%string) || bool_decide (name = "wifidirect"%string) then Some WiFiDirect
  else if bool_decide (name = "internet"%string) || bool_decide (name = "tcp"%string) || bool_decide (name = "quic"%string) then Some Internet
  else if bool_decide (name = "local"%string) then Some Local
  else None.

Definition disable_transport (transport_type : string) (self : t) : t :=
  match transport_named transport_type with
  | None => self
  | Some transport => set_transports (alter (fun st => TransportState.mk false ∅ (TransportState.capabilities st)) transport (transports self)) self
  end.

Definition set_multi_hop_recall (recall : MultiHopRecall.t) (self : t) : t :=
  set_services (health_monitor self) (address_observer self) (Some recall) self.

Definition add_multi_hop_step (step : string) (self : t) : t :=
  set_services (health_monitor self) (address_observer self) (MultiHopRecall.add_step step <$> multi_hop_recall self) self.

Definition path_transport (path : string) : option TransportType :=
  if str_contains path "ble" then Some BLE
  else if str_contains path "wifi" then Some WiFiDirect
  else if str_contains path "internet" then Some Internet
  else None.

Definition run_multi_hop_path_selection (query : string) (self : t) : list TransportType :=
  match multi_hop_recall self with
  | Some recall =>
      if MultiHopRecall.validate_input recall query then omap path_transport (MultiHopRecall.recall recall query) else []
  | None =>
      let is_running transport := match transports self !! transport with Some s => TransportState.running s | None => false end in
      filter (fun transport => is_running transport = true)
        [BLE; WiFiAware; WiFiDirect; Internet; Local]
  end.
End Code.
Arguments t : clear implicits.
Arguments t _ _ _ _ {_ _}.
End TransportManager.
