(* ===== verification/TransportProps.v ===== *)
(** * Reconnection reaches every peer

    Invariants of the transport manager over any history, and the liveness of
    its reconnections: when every attempt is answered, a waiting peer gets its
    turn within a bounded number of rounds, however many peers wait. *)

From S2P Require Import Prelude Backend State Records Text Circuit Inbox TransportHealth TransportManager.
Import ReconnectionState.

(** ** The reconnection queue *)

Module Reconnection.
Import TransportManager.

Abbreviation queue := (gmap Bytes ReconnectionState.t).

(** Entries are filed under their own peer. *)
Definition queue_ok (q : queue) : Prop := map_Forall (fun k s => peer_id s = k /\ 0 <= failures s) q.

(** Attempts a peer has left. *)
Definition left_of (s : ReconnectionState.t) : Z := Z.max 0 (RECONNECT_MAX_FAILURES - failures s).
Definition total_left (q : queue) : Z := foldr (fun s n => left_of s + n) 0 (map_to_list q).*2.

Lemma foldr_left_perm l l' : l ≡ₚ l' -> foldr (fun s n => left_of s + n) 0 l = foldr (fun s n => left_of s + n) 0 l'.
Proof. induction 1; cbn; lia. Qed.

Lemma total_delete q k s : q !! k = Some s -> total_left q = left_of s + total_left (delete k q).
Proof.
  intros Hk. unfold total_left. erewrite (foldr_left_perm (map_to_list q).*2); [|rewrite <-(map_to_list_delete q k s Hk); done]. done.
Qed.

Lemma total_left_insert q k s s' : q !! k = Some s -> total_left (<[k := s']> q) = total_left q - left_of s + left_of s'.
Proof.
  intros Hk. rewrite (total_delete (<[k := s']> q) k s') by (by rewrite lookup_insert_eq).
  rewrite (total_delete q k s Hk). rewrite delete_insert_eq. lia.
Qed.

Lemma alter_known (f : ReconnectionState.t -> ReconnectionState.t) (q : queue) k s : q !! k = Some s -> alter f k q = <[k := f s]> q.
Proof. intros Hk. apply map_eq. intros j. rewrite lookup_alter, lookup_insert. repeat case_decide; by simplify_map_eq. Qed.

Lemma total_left_nonneg q : 0 <= total_left q.
Proof. unfold total_left. induction (map_to_list q).*2 as [|s l IH]; cbn; unfold left_of in *; lia. Qed.

Lemma total_bound q : queue_ok q -> total_left q <= RECONNECT_MAX_FAILURES * Z.of_nat (size q).
Proof.
  intros Hq. rewrite <-length_map_to_list. unfold total_left.
  assert (Hf : Forall (fun s => 0 <= failures s) (map_to_list q).*2).
  { apply Forall_fmap, Forall_forall. intros [k s] Hks. apply elem_of_map_to_list in Hks. by apply (Hq k s). }
  rewrite <-(length_fmap snd (map_to_list q)). induction Hf as [|s l Hs _ IH]; cbn; [lia|].
  unfold left_of, RECONNECT_MAX_FAILURES in *. lia.
Qed.

(** ** Staggering *)

Lemma left_set_next t s : left_of (set_next t s) = left_of s.
Proof. done. Qed.

Lemma stagger_other now i ids q k : k ∉ ids -> stagger now i ids q !! k = q !! k.
Proof.
  revert i q. induction ids as [|id ids IH]; intros i q Hk; cbn; [done|]. rewrite not_elem_of_cons in Hk.
  rewrite IH by naive_solver. by rewrite lookup_alter_ne by naive_solver.
Qed.

Lemma stagger_in now i ids q k s : NoDup ids -> k ∈ ids -> q !! k = Some s -> 0 <= i ->
  exists t, stagger now i ids q !! k = Some (set_next t s) /\ t <= now + RECONNECT_STAGGER_INTERVAL * (i + len ids).
Proof.
  revert i q. induction ids as [|id ids IH]; intros i q Hnd Hk Hs Hi; [by apply elem_of_nil in Hk|]. cbn.
  apply NoDup_cons in Hnd as [Hid Hnd]. unfold len in *. cbn [length]. apply elem_of_cons in Hk as [->|Hk].
  - rewrite stagger_other by done. rewrite lookup_alter_eq, Hs. eexists. split; [done|]. unfold RECONNECT_STAGGER_INTERVAL, NANOS_PER_MS. lia.
  - destruct (IH (i + 1) (alter (set_next (now + RECONNECT_STAGGER_INTERVAL * (i + 1))) id q)) as (t & Ht & Hle);
      [done|done|rewrite lookup_alter_ne by set_solver; done|lia|].
    exists t. split; [done|]. unfold RECONNECT_STAGGER_INTERVAL, NANOS_PER_MS in *. lia.
Qed.

Lemma stagger_total now i ids q : total_left (stagger now i ids q) = total_left q.
Proof.
  revert i q. induction ids as [|id ids IH]; intros i q; cbn; [done|]. rewrite IH. destruct (q !! id) as [s|] eqn:Hs.
  - rewrite (alter_known _ q id s Hs), (total_left_insert q id s) by done. rewrite left_set_next. lia.
  - by rewrite alter_id by (intros; simplify_eq).
Qed.

Lemma stagger_size now i ids q : size (stagger now i ids q) = size q.
Proof.
  revert i q. induction ids as [|id ids IH]; intros i q; cbn; [done|]. rewrite IH. destruct (q !! id) as [s|] eqn:Hs.
  - rewrite (alter_known _ q id s Hs). by erewrite map_size_insert_Some.
  - by rewrite alter_id by (intros; simplify_eq).
Qed.

Lemma stagger_ok now i ids q : queue_ok q -> queue_ok (stagger now i ids q).
Proof.
  revert i q. induction ids as [|id ids IH]; intros i q Hq; cbn; [done|]. apply IH.
  destruct (q !! id) as [s|] eqn:Hs; [|by rewrite alter_id by (intros; simplify_eq)].
  rewrite (alter_known _ q id s Hs). apply map_Forall_insert_2; [|done]. by apply (Hq id s).
Qed.

(** ** A batch *)

Section Rounds.
Context {PeerId Multiaddr Callback SocketAddr : Type} `{Countable PeerId}.
Context {MQ : MapIter Bytes ReconnectionState.t}.
Abbreviation manager := (TransportManager.t PeerId Multiaddr Callback SocketAddr).

Definition ready (now : Z) (q : queue) : list Bytes :=
  (filter (fun kv : Bytes * ReconnectionState.t => due now kv.2 = true) (map_iter q)).*1.

Lemma ready_elem now q k : k ∈ ready now q <-> exists s, q !! k = Some s /\ due now s = true.
Proof.
  unfold ready. rewrite list_elem_of_fmap. split.
  - intros ([k' s] & -> & Hin). apply list_elem_of_filter in Hin as [Hd Hin]. rewrite map_iter_perm in Hin.
    apply elem_of_map_to_list in Hin. eauto.
  - intros (s & Hs & Hd). exists (k, s). split; [done|]. apply list_elem_of_filter. split; [done|]. rewrite map_iter_perm.
    by apply elem_of_map_to_list.
Qed.

Lemma ready_NoDup now q : NoDup (ready now q).
Proof.
  unfold ready. eapply (sublist_NoDup _ (map_iter q).*1).
  - rewrite map_iter_perm. apply NoDup_fst_map_to_list.
  - apply fmap_sublist, sublist_filter.
Qed.

Lemma ready_size now q : (length (ready now q) <= size q)%nat.
Proof.
  unfold ready. rewrite length_fmap, <-length_map_to_list, <-(map_iter_perm q). apply length_filter.
Qed.

(** The states of known peers, in order. *)
Lemma states_of q ids : queue_ok q -> (forall k, k ∈ ids -> is_Some (q !! k)) -> map peer_id (omap (fun k => q !! k) ids) = ids.
Proof.
  intros Hq. induction ids as [|k ids IH]; intros Hin; cbn; [done|]. destruct (Hin k) as [s Hs]; [left|]. rewrite Hs. cbn.
  f_equal; [by apply (Hq k s)|]. apply IH. intros j Hj. apply Hin. by right.
Qed.

(** What a call hands out, and what it leaves in the queue. *)
Definition handed_out (now : Z) (q : queue) (ids : list Bytes) (q' : queue) : Prop :=
  NoDup ids /\ (forall k, k ∈ ids -> exists s, q !! k = Some s /\ due now s = true /\ q' !! k = Some s) /\
  (ready now q <> [] -> ids <> []) /\ len ids <= RECONNECT_MAX_CONCURRENT /\
  total_left q' = total_left q /\ size q' = size q /\ queue_ok q' /\
  (forall k s, k ∉ ids -> q !! k = Some s ->
     exists t, q' !! k = Some (set_next t s) /\ (t = next_attempt_at s \/ t <= now + RECONNECT_STAGGER_INTERVAL * Z.of_nat (size q))).

Lemma set_next_same s : set_next (next_attempt_at s) s = s.
Proof. by destruct s. Qed.

Lemma batch_spec now (m m' : manager) batch : queue_ok (reconnection_queue m) -> peers_needing_reconnect now m = (m', batch) ->
  handed_out now (reconnection_queue m) (map peer_id batch) (reconnection_queue m').
Proof.
  intros Hq. unfold peers_needing_reconnect. set (q := reconnection_queue m) in *. fold (ready now q).
  pose proof (ready_NoDup now q) as Hnd. pose proof (ready_size now q) as Hsz.
  assert (Hin : forall k, k ∈ ready now q -> is_Some (q !! k)) by (intros k (s & Hs & _)%ready_elem; eauto).
  destruct (Z.gtb_spec (len (ready now q)) RECONNECT_MAX_CONCURRENT) as [Hgt|Hle]; intros [= <- <-].
  - set (l := sort_by _ (ready now q)) in *. set (n := Z.to_nat RECONNECT_MAX_CONCURRENT) in *. cbn [reconnection_queue set_queue].
    assert (Hl : l ≡ₚ ready now q) by apply sort_by_perm.
    assert (Hndl : NoDup (take n l ++ drop n l)) by (rewrite take_drop, Hl; done). apply NoDup_app in Hndl as (Hn1 & Hdis & Hn2).
    set (q' := stagger now 0 (drop n l) q). assert (Hq' : queue_ok q') by (by apply stagger_ok).
    assert (Hsame : forall k, k ∈ take n l -> q' !! k = q !! k) by (intros k Hk; apply stagger_other; auto).
    assert (Htake : forall k, k ∈ take n l -> k ∈ ready now q) by (intros k Hk; rewrite <-Hl, <-(take_drop n l); apply elem_of_app; by left).
    rewrite states_of; [|done|intros k Hk; rewrite Hsame by done; auto].
    assert (Hlen : length l = length (ready now q)) by (by rewrite Hl). unfold len in *.
    split_and!; [done| | | |apply stagger_total|apply stagger_size|done|].
    + intros k Hk. destruct (proj1 (ready_elem now q k) (Htake k Hk)) as (s & Hs & Hd). exists s. by rewrite Hsame.
    + intros _ Hnil. apply (f_equal length) in Hnil. rewrite length_take in Hnil. unfold n, RECONNECT_MAX_CONCURRENT in *. cbn in *. lia.
    + unfold len. rewrite length_take. unfold n, RECONNECT_MAX_CONCURRENT. lia.
    + intros k s Hk Hs. destruct (decide (k ∈ drop n l)) as [Hd|Hd].
      * destruct (stagger_in now 0 (drop n l) q k s Hn2 Hd Hs ltac:(lia)) as (t & Ht & Hle). exists t. split; [done|]. right.
        etrans; [exact Hle|]. unfold len. rewrite length_drop. unfold RECONNECT_STAGGER_INTERVAL, NANOS_PER_MS. lia.
      * exists (next_attempt_at s). unfold q'. rewrite stagger_other by done. rewrite set_next_same. auto.
  - cbn [reconnection_queue]. fold q. rewrite states_of by done. split_and!; try done.
    + intros k (s & Hs & Hd)%ready_elem. eauto.
    + intros k s _ Hs. exists (next_attempt_at s). rewrite set_next_same. auto.
Qed.

(** ** Rounds: a call, and an answer for every peer it hands out *)

Definition answer (now : Z) (connects : Bytes -> bool) (m : manager) (k : Bytes) : manager :=
  if connects k then record_reconnect_success k m else record_reconnect_failure now k m.

Definition round (now : Z) (connects : Bytes -> bool) (m : manager) : manager * list Bytes :=
  let '(m, batch) := peers_needing_reconnect now m in
  (fold_left (answer now connects) (map peer_id batch) m, map peer_id batch).

Fixpoint rounds (schedule : list (Z * (Bytes -> bool))) (m : manager) : list (list Bytes) :=
  match schedule with
  | [] => []
  | (now, connects) :: schedule => let '(m, ids) := round now connects m in ids :: rounds schedule m
  end.

Lemma answer_spec now connects k m s : queue_ok (reconnection_queue m) -> reconnection_queue m !! k = Some s -> failures s < RECONNECT_MAX_FAILURES ->
  let m' := answer now connects m k in
  queue_ok (reconnection_queue m') /\ (size (reconnection_queue m') <= size (reconnection_queue m))%nat /\
  total_left (reconnection_queue m') < total_left (reconnection_queue m) /\
  (forall j, j <> k -> reconnection_queue m' !! j = reconnection_queue m !! j).
Proof.
  intros Hq Hs Hf. pose proof (Hq k s Hs) as [Hk Hn]. unfold answer. destruct (connects k); cbn [reconnection_queue set_queue record_reconnect_success record_reconnect_failure].
  - split_and!; [by apply map_Forall_delete| | |].
    + rewrite map_size_delete_Some by eauto. lia.
    + rewrite (total_delete _ k s Hs). unfold left_of. lia.
    + intros j Hj. by rewrite lookup_delete_ne.
  - rewrite (alter_known _ _ k s Hs). unfold RECONNECT_MAX_FAILURES in *.
    assert (Hw : failures (record_failure now s) = failures s + 1) by (cbn; rewrite wrap_small by (unfold fits; lia); done).
    split_and!.
    + apply map_Forall_insert_2; [|done]. split; [done|lia].
    + by erewrite map_size_insert_Some.
    + rewrite (total_left_insert _ k s) by done. unfold left_of, RECONNECT_MAX_FAILURES. lia.
    + intros j Hj. by rewrite lookup_insert_ne.
Qed.

Lemma answers_spec now connects ids m : NoDup ids -> queue_ok (reconnection_queue m) ->
  (forall k, k ∈ ids -> exists s, reconnection_queue m !! k = Some s /\ failures s < RECONNECT_MAX_FAILURES) ->
  let m' := fold_left (answer now connects) ids m in
  queue_ok (reconnection_queue m') /\ (size (reconnection_queue m') <= size (reconnection_queue m))%nat /\
  total_left (reconnection_queue m') <= total_left (reconnection_queue m) - len ids /\
  (forall j, j ∉ ids -> reconnection_queue m' !! j = reconnection_queue m !! j).
Proof.
  revert m. induction ids as [|k ids IH]; intros m Hnd Hq Hin; cbn [fold_left].
  - unfold len. cbn. split_and!; [done|done|lia|done].
  - apply NoDup_cons in Hnd as [Hk Hnd]. destruct (Hin k) as (s & Hs & Hf); [left|].
    destruct (answer_spec now connects k m s Hq Hs Hf) as (A1 & A2 & A3 & A4).
    destruct (IH (answer now connects m k)) as (B1 & B2 & B3 & B4); [done|done| |].
    { intros j Hj. rewrite A4 by set_solver. apply Hin. by right. }
    unfold len in *. cbn [length]. split_and!; [done|lia|lia|].
    intros j Hj. rewrite not_elem_of_cons in Hj. rewrite B4 by naive_solver. apply A4. naive_solver.
Qed.

(** A round in which a due peer does not get its turn uses up an attempt of another,
    and the peer is due again after the staggering. *)
Lemma round_spec now connects m p s m' ids : queue_ok (reconnection_queue m) -> reconnection_queue m !! p = Some s -> due now s = true ->
  round now connects m = (m', ids) -> p ∉ ids ->
  queue_ok (reconnection_queue m') /\ (size (reconnection_queue m') <= size (reconnection_queue m))%nat /\
  total_left (reconnection_queue m') < total_left (reconnection_queue m) /\
  exists t, reconnection_queue m' !! p = Some (set_next t s) /\
    t <= now + RECONNECT_STAGGER_INTERVAL * Z.of_nat (size (reconnection_queue m)).
Proof.
  intros Hq Hs Hd Hr Hp. unfold round in Hr. destruct (peers_needing_reconnect now m) as [m1 batch] eqn:Hb. injection Hr as <- <-.
  destruct (batch_spec now m m1 batch Hq Hb) as (A1 & A2 & A3 & _ & A4 & A5 & A6 & A7).
  destruct (answers_spec now connects (map peer_id batch) m1 A1 A6) as (B1 & B2 & B3 & B4).
  { intros k Hk. destruct (A2 k Hk) as (sk & _ & Hdk & Hk1). exists sk. split; [done|].
    unfold due, is_exhausted in Hdk. apply andb_true_iff in Hdk as [_ Hdk]. apply negb_true_iff in Hdk. lia. }
  assert (Hne : map peer_id batch <> []).
  { apply A3. intros He. apply (not_elem_of_nil p). rewrite <-He. apply ready_elem. eauto. }
  assert (Hlen : 0 < len (map peer_id batch)) by (unfold len; destruct (map peer_id batch); [done|cbn; lia]).
  split_and!; [done|lia|lia|]. destruct (A7 p s Hp Hs) as (t & Ht & Hle). exists t. rewrite B4 by done. split; [done|].
  destruct Hle as [->|Hle]; [|done]. unfold due, is_ready in Hd. apply andb_true_iff in Hd as [Hd _].
  unfold RECONNECT_STAGGER_INTERVAL, NANOS_PER_MS. lia.
Qed.

(** Rounds at least one staggering of [n] peers apart. *)
Fixpoint spaced (n : nat) (start : Z) (schedule : list (Z * (Bytes -> bool))) : Prop :=
  match schedule with
  | [] => True
  | (now, _) :: schedule => start <= now /\ spaced n (now + RECONNECT_STAGGER_INTERVAL * Z.of_nat n) schedule
  end.

Lemma turn_comes n schedule : forall m p s start, queue_ok (reconnection_queue m) -> (size (reconnection_queue m) <= n)%nat ->
  reconnection_queue m !! p = Some s -> is_exhausted s = false -> next_attempt_at s <= start -> spaced n start schedule ->
  total_left (reconnection_queue m) <= len schedule -> exists ids, ids ∈ rounds schedule m /\ p ∈ ids.
Proof.
  induction schedule as [|[now connects] schedule IH]; intros m p s start Hq Hn Hs He Hnext Hsp Htot.
  - unfold len in Htot. cbn in Htot. rewrite (total_delete _ p s Hs) in Htot. pose proof (total_left_nonneg (delete p (reconnection_queue m))).
    unfold is_exhausted, left_of in *. lia.
  - cbn [rounds]. destruct (round now connects m) as [m' ids] eqn:Hr. destruct Hsp as [Hstart Hsp].
    destruct (decide (p ∈ ids)) as [Hp|Hp]; [exists ids; split; [left|done]|].
    assert (Hd : due now s = true).
    { unfold due. rewrite He. cbn [negb]. rewrite andb_true_r. unfold is_ready. apply Z.geb_le. lia. }
    destruct (round_spec now connects m p s m' ids Hq Hs Hd Hr Hp) as (A1 & A2 & A3 & t & A4 & A5).
    destruct (IH m' p (set_next t s) (now + RECONNECT_STAGGER_INTERVAL * Z.of_nat n)) as (ids' & I1 & I2); try done.
    + lia.
    + cbn. unfold RECONNECT_STAGGER_INTERVAL, NANOS_PER_MS in *. lia.
    + unfold len in *. cbn [length] in Htot. lia.
    + exists ids'. split; [by right|done].
Qed.
End Rounds.
End Reconnection.

(** ** The manager *)

Module TransportHistory.
Import TransportManager Reconnection.

Inductive op : Type :=
| Register (transport : TransportType) (capabilities : TransportCapabilities.t)
| Event (now : Z) (event : TransportEvent)
| Send (now : Z) (peer_id data : Bytes) (priority : Z)
| AddTarget (peer_id addr : Bytes)
| RemoveTarget (peer_id : Bytes)
| NextBatch (now : Z)
| Success (peer_id : Bytes)
| Failure (now : Z) (peer_id : Bytes)
| Tick (now : Z)
| ExpireAddresses (now max_age_secs : Z)
| CleanupHealth (now max_age_secs : Z)
| Disable (transport_type : string)
| AddStep (step : string).

Section History.
Context {PeerId Multiaddr Callback SocketAddr : Type} `{Countable PeerId} `{Countable SocketAddr}.
Context {MO : MapIter PeerId (AddressObservation.t PeerId SocketAddr)} {MC : MapIter SocketAddr Z}.
Context {MQ : MapIter Bytes ReconnectionState.t} {ML : MapIter Bytes Z} {ST : SetIter TransportType}.
Abbreviation manager := (TransportManager.t PeerId Multiaddr Callback SocketAddr).
Implicit Types (m : manager).

Definition step m (o : op) : manager :=
  match o with
  | Register tr caps => register_transport tr caps m
  | Event now e => handle_event now e m
  | Send now p d prio => (send_to_peer now p d prio m).1
  | AddTarget p addr => add_target_peer p addr m
  | RemoveTarget p => remove_target_peer p m
  | NextBatch now => (peers_needing_reconnect now m).1
  | Success p => record_reconnect_success p m
  | Failure now p => record_reconnect_failure now p m
  | Tick now => tick now m
  | ExpireAddresses now age => expire_address_observations now age m
  | CleanupHealth now age => cleanup_health_stale_connections now age m
  | Disable name => disable_transport name m
  | AddStep s => add_multi_hop_step s m
  end.

Definition run (ops : list op) m : manager := fold_left step ops m.

Definition inv m : Prop :=
  queue_ok (reconnection_queue m) /\
  (forall k, is_Some (reconnection_queue m !! k) -> is_Some (target_peers m !! k)) /\
  (forall k tr, peer_transports m !! k = Some tr -> tr <> ∅) /\
  StronglySorted (cmp_le OutgoingQueue.by_priority) (outgoing m).

Lemma manager_inv_new : inv TransportManager.new.
Proof.
  unfold inv, TransportManager.new, new_with_multihop. cbn [reconnection_queue target_peers peer_transports outgoing].
  split_and!; [apply map_Forall_empty|intros k [s Hs]|intros k tr Hs|constructor]; by apply lookup_empty_Some in Hs.
Qed.

(** An operation that leaves queue, targets, peers and outgoing data alone. *)
Lemma inv_same m m' : reconnection_queue m' = reconnection_queue m -> target_peers m' = target_peers m ->
  peer_transports m' = peer_transports m -> outgoing m' = outgoing m -> inv m -> inv m'.
Proof. unfold inv. by intros -> -> -> ->. Qed.

(** Shrinking the queue keeps it. *)
Lemma inv_queue m q : inv m -> queue_ok q -> (forall k, is_Some (q !! k) -> is_Some (target_peers m !! k)) -> inv (set_queue q m).
Proof. intros (_ & _ & A & B) Hq Ht. by split_and!. Qed.

Lemma inv_event now e m : inv m -> inv (handle_event now e m).
Proof.
  intros Hm. pose proof Hm as (Hq & Ht & Hp & Ho). destruct e as [p tr a|p tr|p tr d|tr e|p tr]; cbn [handle_event].
  - split_and!; try done. cbn. intros k s Hs. apply lookup_insert_Some in Hs as [[<- <-]|[_ Hs]]; [set_solver|by apply (Hp k)].
  - destruct (peer_transports m !! p) as [known|] eqn:Hk; [|done]. case_bool_decide as He.
    + assert (Hd : inv (set_peer_transports (delete p (peer_transports m)) m)).
      { split_and!; try done. cbn. intros k s Hs. apply lookup_delete_Some in Hs as [_ Hs]. by apply (Hp k). }
      unfold queue_lost. cbn. destruct (target_peers m !! p) as [addr|] eqn:Ha; [|done].
      destruct (reconnection_queue m !! p); [done|]. apply inv_queue; [done| |].
      * apply map_Forall_insert_2; [done|]. exact Hq.
      * intros k [s Hs]. apply lookup_insert_Some in Hs as [[<- _]|[_ Hs]]; cbn; [by eexists|apply Ht; by eexists].
    + split_and!; try done. cbn. intros k s Hs. apply lookup_insert_Some in Hs as [[_ <-]|[_ Hs]]; [done|by apply (Hp k)].
  - done.
  - done.
  - destruct (transports m !! tr); [by apply (inv_same m)|done].
Qed.

Lemma inv_send now p d prio m : inv m -> inv (send_to_peer now p d prio m).1.
Proof.
  intros (Hq & Ht & Hp & Ho). unfold send_to_peer. destruct (best_transport_for_peer p m); [|by split_and!..].
  split_and!; try done. cbn. apply (sort_by_ordered OutgoingQueue.by_priority).
Qed.

(** Peers that are queued before or after a call are the same. *)
Lemma batch_keys now m k : queue_ok (reconnection_queue m) -> is_Some (reconnection_queue (peers_needing_reconnect now m).1 !! k) -> is_Some (reconnection_queue m !! k).
Proof.
  intros Hq [s Hs]. unfold peers_needing_reconnect in Hs. destruct (_ >? _) in Hs; [|by eexists]. cbn in Hs.
  set (l := drop _ _) in Hs. clearbody l. revert Hs. generalize 0. generalize (reconnection_queue m) as q. clear.
  induction l as [|id l IH]; intros q i Hs; cbn in Hs; [by eexists|]. destruct (IH _ _ Hs) as [s' Hs'].
  rewrite lookup_alter in Hs'. case_decide; [|by eexists]. subst. destruct (q !! k); [by eexists|done].
Qed.

Lemma inv_batch now m : inv m -> inv (peers_needing_reconnect now m).1.
Proof.
  intros Hm. pose proof Hm as (Hq & Ht & Hp & Ho). destruct (peers_needing_reconnect now m) as [m' batch] eqn:Hb.
  pose proof (batch_spec now m m' batch Hq Hb) as (_ & _ & _ & _ & _ & _ & Hq' & _).
  pose proof (fun k => batch_keys now m k Hq) as Hkeys. rewrite Hb in Hkeys. cbn [fst] in *.
  assert (Hshape : m' = set_queue (reconnection_queue m') m).
  { unfold peers_needing_reconnect in Hb. destruct (_ >? _) in Hb; injection Hb as <- _; [done|]. by destruct m. }
  rewrite Hshape. apply inv_queue; [done|done|]. intros k Hk. apply Ht. by apply Hkeys.
Qed.

Lemma delete_all_lookup (l : list Bytes) (mp : gmap Bytes (gset TransportType)) k s :
  fold_left (fun mp k => delete k mp) l mp !! k = Some s -> mp !! k = Some s.
Proof.
  revert mp. induction l as [|j l IH]; intros mp Hs; cbn in Hs; [done|]. by apply IH, lookup_delete_Some in Hs as [_ Hs].
Qed.

Lemma manager_inv_step m o : inv m -> inv (step m o).
Proof.
  intros Hm. pose proof Hm as (Hq & Ht & Hp & Ho).
  destruct o as [tr c|now e|now p d prio|p a|p|now|p|now p|now|now a|now a|name|st]; cbn [step];
    try (by apply (inv_same m)); try (by apply inv_event); try (by apply inv_send); try (by apply inv_batch).
  - split_and!; try done. cbn. intros k Hk. rewrite lookup_insert_is_Some'. right. by apply Ht.
  - split_and!; try done; cbn.
    + by apply map_Forall_delete.
    + intros k [s Hs]. apply lookup_delete_Some in Hs as [Hne Hs]. rewrite lookup_delete_ne by done. apply Ht. by eexists.
  - apply inv_queue; [done|by apply map_Forall_delete|]. intros k [s Hs]. apply lookup_delete_Some in Hs as [_ Hs]. apply Ht. by eexists.
  - apply inv_queue; [done| |].
    + intros k s Hs. rewrite lookup_alter in Hs. case_decide as Hk; [|by apply (Hq k s)]. subst k.
      destruct (reconnection_queue m !! p) as [s0|] eqn:Hs0; [|done]. cbn in Hs. injection Hs as <-. destruct (Hq p s0 Hs0) as [A B].
      split; [done|]. cbn. unfold wrap. apply Z.mod_pos_bound. lia.
    + intros k Hk. apply Ht. rewrite lookup_alter in Hk. case_decide; [|done]. subst. by rewrite fmap_is_Some in Hk.
  - split_and!; try done; cbn.
    + intros k s Hs. apply map_lookup_filter_Some in Hs as [Hs _]. by apply (Hq k s).
    + intros k [s Hs]. apply map_lookup_filter_Some in Hs as [Hs _]. apply Ht. by eexists.
    + intros k s Hs. apply delete_all_lookup in Hs. by apply (Hp k).
  - unfold disable_transport. destruct (transport_named name); by apply (inv_same m).
Qed.

Lemma manager_inv_run ops m : inv m -> inv (run ops m).
Proof. revert m. induction ops as [|o ops IH]; intros m Hm; cbn; [done|]. by apply IH, manager_inv_step. Qed.

(** *** The choice of a transport *)

Lemma max_by_greatest {A} (score : A -> Z) l x : max_by (fun a b => Z.compare (score a) (score b)) l = Some x -> forall y, y ∈ l -> score y <= score x.
Proof.
  destruct l as [|z l]; [done|]. cbn. intros [= <-].
  assert (Hf : forall l z, score z <= score (foldl (fun x y => match Z.compare (score x) (score y) with Gt => x | _ => y end) z l) /\
    forall y, y ∈ l -> score y <= score (foldl (fun x y => match Z.compare (score x) (score y) with Gt => x | _ => y end) z l)).
  { clear. induction l as [|y l IH]; intros z; cbn; [split; [lia|by intros y ?%elem_of_nil]|].
    destruct (IH (match Z.compare (score z) (score y) with Gt => z | _ => y end)) as [I1 I2].
    destruct (Z.compare_spec (score z) (score y)); (split; [lia|]); intros x Hx; apply elem_of_cons in Hx as [->|Hx]; auto; lia. }
  intros y Hy. destruct (Hf l z) as [H1 H2]. apply elem_of_cons in Hy as [->|Hy]; auto.
Qed.

Definition score_of m (p : Bytes) (tr : TransportType) : Z := transport_score p (transports m !! tr).

Lemma best_transport_spec m p : (forall k tr, peer_transports m !! k = Some tr -> tr <> ∅) ->
  match best_transport_for_peer p m with
  | Ok best => best ∈ transports_for_peer p m /\ forall tr, tr ∈ transports_for_peer p m -> score_of m p tr <= score_of m p best
  | Err e => e = PeerNotFound p /\ is_peer_connected p m = false
  | Panic => False
  end.
Proof.
  intros Hp. unfold best_transport_for_peer, transports_for_peer, is_peer_connected.
  destruct (peer_transports m !! p) as [av|] eqn:Hav; [|done]. rewrite bool_decide_false by (by apply (Hp p)).
  pose proof (set_iter_perm av) as Hit. destruct (max_by _ (set_iter av)) as [best|] eqn:Hb.
  - cbn [default]. unfold id. split.
    + apply elem_of_elements. rewrite <-Hit. by eapply max_by_elem.
    + intros tr Htr. apply (max_by_greatest (fun tr => transport_score p (transports m !! tr)) _ _ Hb). rewrite Hit. by apply elem_of_elements.
  - apply max_by_None in Hb. rewrite Hb in Hit. apply Permutation_nil_l in Hit. symmetry in Hit. apply elements_empty_inv in Hit.
    exfalso. apply (Hp p av Hav). by apply leibniz_equiv.
Qed.

(** Whatever events, sends, reconnection calls and maintenance a transport manager has seen: every peer waiting for
    reconnection is a target peer, filed under its own id; a peer is listed only with transports; the outgoing queue
    is sorted by priority; and the transport for a peer exists exactly for a connected peer, is one of its transports,
    and has the highest score among them. *)
Theorem transport_invariant ops : let m := run ops TransportManager.new in
  (forall k s, reconnection_queue m !! k = Some s -> peer_id s = k /\ is_Some (target_peers m !! k)) /\
  (forall k tr, peer_transports m !! k = Some tr -> tr <> ∅) /\
  StronglySorted (cmp_le OutgoingQueue.by_priority) (outgoing m) /\
  (forall p, match best_transport_for_peer p m with
             | Ok best => is_peer_connected p m = true /\ best ∈ transports_for_peer p m /\
                 (forall tr, tr ∈ transports_for_peer p m -> score_of m p tr <= score_of m p best)
             | Err e => e = PeerNotFound p /\ is_peer_connected p m = false
             | Panic => False
             end).
Proof using All.
  intros m. destruct (manager_inv_run ops TransportManager.new manager_inv_new) as (Hq & Ht & Hp & Ho). fold m in Hq, Ht, Hp, Ho. split_and!; [|done|done|].
  - intros k s Hs. split; [by apply (Hq k s)|]. apply Ht. by eexists.
  - intros p. pose proof (best_transport_spec m p Hp) as Hb. destruct (best_transport_for_peer p m) as [best| |]; [|done|done].
    split; [|done]. destruct Hb as [Hb _]. unfold is_peer_connected, transports_for_peer in *.
    destruct (peer_transports m !! p) as [tr|] eqn:Hk; [by rewrite bool_decide_false by (by apply (Hp p))|by apply not_elem_of_empty in Hb].
Qed.

(** *** Reconnection *)

Lemma rounds_bounded schedule m : queue_ok (reconnection_queue m) -> Forall (fun ids => len ids <= RECONNECT_MAX_CONCURRENT) (rounds schedule m).
Proof.
  revert m. induction schedule as [|[now connects] schedule IH]; intros m Hq; cbn [rounds]; [constructor|]. unfold round.
  destruct (peers_needing_reconnect now m) as [m1 batch] eqn:Hb.
  destruct (batch_spec now m m1 batch Hq Hb) as (A1 & A2 & _ & A4 & _ & _ & A6 & _). constructor; [done|]. apply IH.
  apply (answers_spec now connects); [done|done|]. intros k Hk. destruct (A2 k Hk) as (s & _ & Hd & Hs). exists s. split; [done|].
  unfold due, is_exhausted in Hd. apply andb_true_iff in Hd as [_ Hd]. apply negb_true_iff in Hd. lia.
Qed.

(** C2. In any reachable manager, a peer that waits for reconnection and has
    attempts left gets its turn under these conditions on the reconnection loop:
    it asks for peers in at least ten times as many rounds as there are waiting
    peers; the first round is not before the end of the peer's backoff; successive
    rounds are at least 200 ms times the number of waiting peers apart; every peer
    of a batch is reported as connected or failed, in any way; and nothing else
    happens to the manager between the rounds.  Then one of the batches names the
    peer; and no batch names more than three. *)
Theorem reconnect_liveness ops p s start schedule : let m := run ops TransportManager.new in
  reconnection_queue m !! p = Some s -> is_exhausted s = false -> next_attempt_at s <= start ->
  spaced (size (reconnection_queue m)) start schedule ->
  RECONNECT_MAX_FAILURES * Z.of_nat (size (reconnection_queue m)) <= len schedule ->
  (exists ids, ids ∈ rounds schedule m /\ p ∈ ids) /\ Forall (fun ids => len ids <= RECONNECT_MAX_CONCURRENT) (rounds schedule m).
Proof using All.
  intros m Hs He Hn Hsp Hlen. destruct (manager_inv_run ops TransportManager.new manager_inv_new) as (Hq & _). fold m in Hq.
  split; [|by apply rounds_bounded]. apply (turn_comes (size (reconnection_queue m)) schedule m p s start); try done.
  etrans; [by apply total_bound|done].
Qed.

(** The wait after a failed attempt is between one second and one minute. *)
Lemma backoff_bounds st : 0 <= failures st -> RECONNECT_BASE_INTERVAL <= backoff_interval st <= RECONNECT_MAX_INTERVAL.
Proof.
  intros Hf. unfold backoff_interval, RECONNECT_BASE_INTERVAL, RECONNECT_MAX_INTERVAL, RECONNECT_BACKOFF_MULTIPLIER, NANOS_PER_MS.
  change (1000 * 1000000 / 1000000) with 1000. cbv zeta.
  assert (0 < 2 ^ failures st) by (apply Z.pow_pos_nonneg; lia). case_match; lia.
Qed.
End History.
End TransportHistory.

(** ** Witnesses *)

Module TransportSamples.
Import TransportManager TransportHistory.
#[local] Instance sample_iter {K V} `{Countable K} : MapIter K V := map_iter_default.
#[local] Instance sample_set_iter : SetIter TransportType := set_iter_default.

Definition peer (n : Z) : Bytes := repeat_byte n 32.

(** Four peers found on Bluetooth and lost again. *)
Definition lose (n : Z) : list op :=
  [AddTarget (peer n) []; Event n (PeerDiscovered (peer n) BLE []); Event n (PeerDisconnected (peer n) BLE)].
Definition four_lost : list op := lose 1 ++ lose 2 ++ lose 3 ++ lose 4.

Abbreviation manager := (TransportManager.t Z Z Z Z).
Abbreviation lost_manager := (run (PeerId := Z) (Multiaddr := Z) (Callback := Z) (SocketAddr := Z) four_lost TransportManager.new).

(** Nobody answers, every second. *)
Definition sample_schedule : list (Z * (Bytes -> bool)) :=
  map (fun i => (Z.of_nat i * (1000 * NANOS_PER_MS), fun _ => false)) (seq 2 40).

Definition fourth : ReconnectionState.t := ReconnectionState.new 4 (peer 4) {[BLE]} [].

Lemma fourth_waits : reconnection_queue lost_manager !! peer 4 = Some fourth.
Proof. vm_compute. reflexivity. Qed.

Lemma fourth_ready : next_attempt_at fourth <= 2000 * NANOS_PER_MS.
Proof. vm_compute. discriminate. Qed.

Lemma sample_spaced : Reconnection.spaced (size (reconnection_queue lost_manager)) (2000 * NANOS_PER_MS) sample_schedule.
Proof. vm_compute. repeat (split; [discriminate|]). done. Qed.

Lemma sample_long : RECONNECT_MAX_FAILURES * Z.of_nat (size (reconnection_queue lost_manager)) <= len sample_schedule.
Proof. vm_compute. discriminate. Qed.

Lemma reconnect_liveness_witness :
  (exists ids, ids ∈ Reconnection.rounds sample_schedule lost_manager /\ peer 4 ∈ ids) /\
  nth_error (Reconnection.rounds sample_schedule lost_manager) 0 = Some [peer 1; peer 2; peer 3].
Proof.
  split; [|vm_compute; reflexivity].
  exact (proj1 (reconnect_liveness four_lost (peer 4) fourth (2000 * NANOS_PER_MS) sample_schedule fourth_waits
    (eq_refl (is_exhausted fourth)) fourth_ready sample_spaced sample_long)).
Defined.

(** A latency above 100 ms makes the subtraction wrap around: a transport whose bonus does not make up for it is
    preferred to a connected fast one. *)
Definition slow_internet : manager :=
  run [Register WiFiDirect (TransportCapabilities.for_transport WiFiDirect); Register Internet (TransportCapabilities.mk 8192 false true 1000000 700);
       Event 0 (PeerDiscovered (peer 1) WiFiDirect []); Event 0 (PeerDiscovered (peer 1) Internet []);
       Event 0 (ConnectionEstablished (peer 1) WiFiDirect)] TransportManager.new.

Lemma slow_transport_preferred : best_transport_for_peer (peer 1) slow_internet = Ok Internet.
Proof. vm_compute. reflexivity. Qed.

(** A target peer that is silent for more than five minutes is forgotten and not queued, also not when it is reported as lost. *)
Definition silent_target : manager :=
  run [AddTarget (peer 1) []; Event 0 (PeerDiscovered (peer 1) BLE []); Tick (302 * 1000000000);
       Event (303 * 1000000000) (PeerDisconnected (peer 1) BLE)] TransportManager.new.

Lemma silent_target_not_queued : reconnection_queue silent_target !! peer 1 = None /\ is_peer_connected (peer 1) silent_target = false.
Proof. split; vm_compute; reflexivity. Qed.

(** A disconnected peer stays in the set of connected peers of its transport. *)
Definition disconnected_peer : manager :=
  run [Register BLE (TransportCapabilities.for_transport BLE); Event 0 (PeerDiscovered (peer 1) BLE []);
       Event 0 (ConnectionEstablished (peer 1) BLE); Event 1 (PeerDisconnected (peer 1) BLE)] TransportManager.new.

Lemma disconnected_still_listed : peer 1 ∈ peers_on_transport BLE disconnected_peer /\ is_peer_connected (peer 1) disconnected_peer = false.
Proof. split; [by_eval|vm_compute; reflexivity]. Qed.
End TransportSamples.
