(* ===== verification/MeshRouting.v ===== *)
(** * Multi-path delivery (core/src/transport/mesh_routing.rs)

    The delivery attempts of messages, the routes to try for a target (direct
    first, then relays by recency, success and a tie-break on the peer id), the
    reputation of relays, the cursor over the routes and the retry delays.
    Peer ids and their printed form are those of the network library.  The
    clock is an argument, in seconds; [f64::powi] is a parameter. *)

From stdpp Require Import sorting.
From S2P Require Import Prelude Float64 Backend MeshStore MeshStoreProps RelayCustody.

(** ** [f64::total_cmp]: by sign, then exponent, then mantissa; a NaN is last *)

Module TotalCmp.

Definition rank (a : f64) : Z :=
  match a with
  | S754_infinity true => -3 | S754_finite true _ _ => -2 | S754_zero true => -1
  | S754_zero false => 0 | S754_finite false _ _ => 1 | S754_infinity false => 2 | S754_nan => 3
  end.

Definition exponent (a : f64) : Z := match a with S754_finite s _ e => if s then - e else e | _ => 0 end.
Definition mantissa (a : f64) : Z := match a with S754_finite s m _ => if s then - Z.pos m else Z.pos m | _ => 0 end.

Definition total_cmp (a b : f64) : comparison :=
  lex (Z.compare (rank a) (rank b)) (lex (Z.compare (exponent a) (exponent b)) (Z.compare (mantissa a) (mantissa b))).

#[export] Instance total_cmp_order : CmpOrder total_cmp.
Proof. unfold total_cmp. repeat apply lex_order; apply (key_order _ Z.compare). Qed.
End TotalCmp.
Import TotalCmp.

Inductive RouteReason : Type :=
| DIRECT_FIRST | RELAY_RECENCY_SUCCESS | RELAY_SUCCESS_SCORE | RELAY_TIEBREAK_LAST_SUCCESS | RELAY_TIEBREAK_PEER_ID.

Module RouteCursorAdvance.
Record t : Type := mk { next_index : Z; wrapped_pass : bool }.
End RouteCursorAdvance.

Definition advance_route_cursor (current_index candidate_count : Z) : RouteCursorAdvance.t :=
  if candidate_count =? 0 then RouteCursorAdvance.mk 0 false else
  let next_index := Z.min (current_index + 1) (2 ^ 64 - 1) in
  if next_index >=? candidate_count then RouteCursorAdvance.mk 0 true else RouteCursorAdvance.mk next_index false.

Module RelayStats.
Record t : Type := mk {
  messages_relayed : Z;
  bytes_relayed : Z;
  successful_deliveries : Z;
  failed_deliveries : Z;
  avg_latency_ms : Z;
  last_used : Z
}.

Definition default_stats : t := mk 0 0 0 0 0 0.
End RelayStats.

Module RetryStrategy.
Record t : Type := mk {
  max_attempts : option Z;
  initial_delay : Z;
  max_delay : Z;
  backoff_multiplier : f64;
  use_exponential_backoff : bool
}.

(** Delays in milliseconds. *)
Definition default_strategy : t := mk None 100 30000 (F64.lit 3 2) true.

Definition calculate_delay (powi : f64 -> Z -> f64) (attempt : Z) (self : t) : Z :=
  if negb (use_exponential_backoff self) then initial_delay self else
  let delay_ms := F64.mul (F64.of_Z (initial_delay self)) (powi (backoff_multiplier self) (wrap_i32 attempt)) in
  Z.min (F64.to_uint 64 delay_ms) (max_delay self).

Definition should_retry (attempt : Z) (self : t) : bool :=
  match max_attempts self with Some max => attempt <? max | None => true end.
End RetryStrategy.

Section Code.
Context {PeerId : Type} `{Countable PeerId} (peer_to_string : PeerId -> string).

Record RelayReputation : Type := mk_reputation {
  rep_peer : PeerId;
  stats : RelayStats.t;
  score : f64;
  is_reliable : bool
}.

Definition calculate_score (now : Z) (self : RelayReputation) : RelayReputation :=
  let s := stats self in
  if RelayStats.messages_relayed s =? 0 then mk_reputation (rep_peer self) s (F64.of_Z 50) true else
  let success_rate := F64.div (F64.of_Z (RelayStats.successful_deliveries s)) (F64.of_Z (RelayStats.messages_relayed s)) in
  let success_score := F64.mul success_rate (F64.of_Z 70) in
  let latency := RelayStats.avg_latency_ms s in
  let latency_score :=
    if latency <? 100 then F64.of_Z 20 else if latency <? 500 then F64.of_Z 15 else if latency <? 1000 then F64.of_Z 10 else F64.of_Z 5 in
  let age_secs := saturating_sub now (RelayStats.last_used s) in
  let recency_score :=
    if age_secs <? 60 then F64.of_Z 10 else if age_secs <? 300 then F64.of_Z 7 else if age_secs <? 3600 then F64.of_Z 5 else F64.of_Z 2 in
  let score := F64.add (F64.add success_score latency_score) recency_score in
  mk_reputation (rep_peer self) s score (F64.leb (F64.of_Z 50) score).

Definition neutral_reputation (p : PeerId) : RelayReputation := mk_reputation p RelayStats.default_stats (F64.of_Z 50) true.

(** [ReputationTracker]: the reputation of each peer. *)
Abbreviation ReputationTracker := (gmap PeerId RelayReputation).

Definition record_relay_attempt (now : Z) (p : PeerId) (success : bool) (latency_ms bytes : Z) (self : ReputationTracker) : ReputationTracker :=
  let rep := default (neutral_reputation p) (self !! p) in
  let s := stats rep in
  let s := RelayStats.mk (wrap 64 (RelayStats.messages_relayed s + 1)) (wrap 64 (RelayStats.bytes_relayed s + bytes))
    (if success then wrap 64 (RelayStats.successful_deliveries s + 1) else RelayStats.successful_deliveries s)
    (if success then RelayStats.failed_deliveries s else wrap 64 (RelayStats.failed_deliveries s + 1))
    (wrap 64 (RelayStats.avg_latency_ms s + latency_ms) / 2) now in
  <[p := calculate_score now (mk_reputation (rep_peer rep) s (score rep) (is_reliable rep))]> self.

Definition by_reputation (a b : RelayReputation) : comparison :=
  lex (total_cmp (score b) (score a)) (str_cmp (peer_to_string (rep_peer a)) (peer_to_string (rep_peer b))).

Definition best_relays_of {MI : MapIter PeerId RelayReputation} (count : Z) (self : ReputationTracker) : list PeerId :=
  map rep_peer (take (Z.to_nat count) (filter (fun r => is_reliable r = true) (sort_by by_reputation (map_iter self).*2))).

Definition tracker_add_relay (p : PeerId) (self : ReputationTracker) : ReputationTracker :=
  match self !! p with Some _ => self | None => <[p := neutral_reputation p]> self end.

Record DeliveryAttempt : Type := mk_attempt {
  message_id : string;
  target_peer : PeerId;
  attempt : Z;
  paths_tried : list (list PeerId);
  last_attempt : Z;
  strategy : RetryStrategy.t
}.

Definition attempt_new (now : Z) (message_id : string) (target_peer : PeerId) : DeliveryAttempt :=
  mk_attempt message_id target_peer 0 [] now RetryStrategy.default_strategy.

Definition next_retry_delay (powi : f64 -> Z -> f64) (self : DeliveryAttempt) : Z :=
  RetryStrategy.calculate_delay powi (attempt self) (strategy self).

Definition attempt_should_retry (self : DeliveryAttempt) : bool := RetryStrategy.should_retry (attempt self) (strategy self).

Definition attempt_record_failure (now : Z) (path : list PeerId) (self : DeliveryAttempt) : DeliveryAttempt :=
  mk_attempt (message_id self) (target_peer self) (wrap 32 (attempt self + 1)) (paths_tried self ++ [path]) now (strategy self).

Record RankedRoute : Type := mk_route {
  path : list PeerId;
  reason_code : RouteReason;
  recipient_recency : Z;
  relay_success_score : f64;
  latest_success_order : Z
}.

(** [MultiPathDelivery]. *)
Record MultiPathDelivery : Type := mk_delivery {
  attempts : gmap string DeliveryAttempt;
  reputation : ReputationTracker;
  recipient_recency_by_route : gmap (PeerId * PeerId) Z;
  latest_success_by_route : gmap (PeerId * PeerId) Z;
  success_sequence : Z
}.

Definition delivery_new : MultiPathDelivery := mk_delivery ∅ ∅ ∅ ∅ 0.

Definition set_attempts (x : gmap string DeliveryAttempt) (self : MultiPathDelivery) : MultiPathDelivery :=
  mk_delivery x (reputation self) (recipient_recency_by_route self) (latest_success_by_route self) (success_sequence self).
Definition set_reputation (x : ReputationTracker) (self : MultiPathDelivery) : MultiPathDelivery :=
  mk_delivery (attempts self) x (recipient_recency_by_route self) (latest_success_by_route self) (success_sequence self).
Definition set_recency (x : gmap (PeerId * PeerId) Z) (self : MultiPathDelivery) : MultiPathDelivery :=
  mk_delivery (attempts self) (reputation self) x (latest_success_by_route self) (success_sequence self).
Definition set_latest (x : gmap (PeerId * PeerId) Z) (n : Z) (self : MultiPathDelivery) : MultiPathDelivery :=
  mk_delivery (attempts self) (reputation self) (recipient_recency_by_route self) x n.

Definition start_delivery (now : Z) (id : string) (target : PeerId) (self : MultiPathDelivery) : MultiPathDelivery :=
  set_attempts (<[id := attempt_new now id target]> (attempts self)) self.

Definition add_relay (p : PeerId) (self : MultiPathDelivery) : MultiPathDelivery := set_reputation (tracker_add_relay p (reputation self)) self.

Definition record_recipient_seen_via_relay (relay recipient : PeerId) (seen_at : Z) (self : MultiPathDelivery) : MultiPathDelivery :=
  let key := (relay, recipient) in
  set_recency (<[key := Z.max (default 0 (recipient_recency_by_route self !! key)) seen_at]> (recipient_recency_by_route self)) self.

Definition record_recipient_seen_now (now : Z) (relay recipient : PeerId) (self : MultiPathDelivery) : MultiPathDelivery :=
  record_recipient_seen_via_relay relay recipient now self.

(** A relay with what it is ranked by. *)
Record RelayCandidate : Type := mk_candidate {
  relay_peer : PeerId;
  relay_key : string;
  cand_recency : Z;
  cand_score : f64;
  cand_latest : Z
}.

Definition candidate_of (target : PeerId) (self : MultiPathDelivery) (rep : RelayReputation) : RelayCandidate :=
  mk_candidate (rep_peer rep) (peer_to_string (rep_peer rep))
    (default 0 (recipient_recency_by_route self !! (rep_peer rep, target))) (score rep)
    (default 0 (latest_success_by_route self !! (rep_peer rep, target))).

Definition by_policy (a b : RelayCandidate) : comparison :=
  lex (Z.compare (cand_recency b) (cand_recency a))
    (lex (total_cmp (cand_score b) (cand_score a))
       (lex (Z.compare (cand_latest b) (cand_latest a)) (str_cmp (relay_key a) (relay_key b)))).

Definition reason_of (c : RelayCandidate) : RouteReason :=
  if cand_recency c >? 0 then RELAY_RECENCY_SUCCESS
  else if cand_latest c >? 0 then RELAY_TIEBREAK_LAST_SUCCESS
  else if F64.ltb (F64.of_Z 0) (cand_score c) then RELAY_SUCCESS_SCORE
  else RELAY_TIEBREAK_PEER_ID.

Definition relay_route (target : PeerId) (c : RelayCandidate) : RankedRoute :=
  mk_route [relay_peer c; target] (reason_of c) (cand_recency c) (cand_score c) (cand_latest c).

Definition direct_route (target : PeerId) : RankedRoute := mk_route [target] DIRECT_FIRST 0 (F64.of_Z 0) 0.

Definition candidates {MI : MapIter PeerId RelayReputation} (target : PeerId) (self : MultiPathDelivery) : list RelayCandidate :=
  map (candidate_of target self)
    (filter (fun rep => is_reliable rep = true /\ rep_peer rep <> target) (map_iter (reputation self)).*2).

Definition ranked_routes {MI : MapIter PeerId RelayReputation} (target : PeerId) (count : Z) (self : MultiPathDelivery) : list RankedRoute :=
  if count =? 0 then [] else
  direct_route target :: map (relay_route target) (take (Z.to_nat (saturating_sub count 1)) (sort_by by_policy (candidates target self))).

Definition get_best_paths {MI : MapIter PeerId RelayReputation} (target : PeerId) (count : Z) (self : MultiPathDelivery) : list (list PeerId) :=
  map path (ranked_routes target count self).

(** [&path[..path.len() - 1]] of a path of more than one peer. *)
Definition relays_of (path : list PeerId) : list PeerId := removelast path.

Definition record_success (now : Z) (id : string) (path : list PeerId) (latency_ms : Z) (self : MultiPathDelivery) : MultiPathDelivery :=
  let self := set_attempts (delete id (attempts self)) self in
  match last path with
  | Some target =>
      if len path >? 1 then
        let order := Z.min (success_sequence self + 1) (2 ^ 64 - 1) in
        let self := set_latest (latest_success_by_route self) order self in
        fold_left (fun self relay =>
          let self := set_reputation (record_relay_attempt now relay true latency_ms 1024 (reputation self)) self in
          set_latest (<[(relay, target) := order]> (latest_success_by_route self)) order self) (relays_of path) self
      else self
  | None => self
  end.

Definition record_failure (now : Z) (id : string) (path : list PeerId) (self : MultiPathDelivery) : MultiPathDelivery :=
  match attempts self !! id with
  | Some a =>
      let self := set_attempts (<[id := attempt_record_failure now path a]> (attempts self)) self in
      if len path >? 1 then
        set_reputation (fold_left (fun rep relay => record_relay_attempt now relay false 10000 0 rep) (relays_of path) (reputation self)) self
      else self
  | None => self
  end.

Definition converge_delivery (id : string) (self : MultiPathDelivery) : MultiPathDelivery * bool :=
  (set_attempts (delete id (attempts self)) self, bool_decide (is_Some (attempts self !! id))).

Definition delivery_attempt (id : string) (self : MultiPathDelivery) : option DeliveryAttempt := attempts self !! id.

Definition pending_attempts {MA : MapIter string DeliveryAttempt} (self : MultiPathDelivery) : list DeliveryAttempt := (map_iter (attempts self)).*2.

Definition best_relays {MI : MapIter PeerId RelayReputation} (count : Z) (self : MultiPathDelivery) : list PeerId := best_relays_of count (reputation self).

(** [BootstrapCapability]. *)
Record BootstrapCapability : Type := mk_bootstrap { known_peers : list PeerId; last_update : Z }.

Definition bootstrap_new : BootstrapCapability := mk_bootstrap [] 0.

Definition add_peer (now : Z) (p : PeerId) (self : BootstrapCapability) : BootstrapCapability :=
  if bool_decide (p ∈ known_peers self) then self else mk_bootstrap (known_peers self ++ [p]) now.

Definition can_bootstrap_others (self : BootstrapCapability) : bool := negb (bool_decide (known_peers self = [])).
End Code.

(** ** Properties *)

(** Reversed order on a key. *)
Lemma rev_key_order {A B} (f : A -> B) (cmp : B -> B -> comparison) `{!CmpOrder cmp} : CmpOrder (fun x y => cmp (f y) (f x)).
Proof.
  split; [intros x y; apply cmp_opp|]. intros x y z. unfold cmp_le. rewrite (cmp_opp (cmp := cmp) (f y) (f x)), (cmp_opp (cmp := cmp) (f z) (f y)), (cmp_opp (cmp := cmp) (f z) (f x)).
  intros Hxy Hyz Hxz. pose proof (cmp_le_trans (cmp := cmp) (f z) (f y) (f x)) as T. unfold cmp_le in T.
  rewrite (cmp_opp (cmp := cmp) (f z) (f y)), (cmp_opp (cmp := cmp) (f y) (f x)), (cmp_opp (cmp := cmp) (f z) (f x)) in T.
  by apply T.
Qed.

Module RouteHistory.

Section History.
Context {PeerId : Type} `{Countable PeerId} (peer_to_string : PeerId -> string).
Abbreviation delivery := (MultiPathDelivery (PeerId := PeerId)).

Inductive op : Type :=
| Start (now : Z) (id : string) (target : PeerId)
| AddRelay (p : PeerId)
| SeenVia (relay recipient : PeerId) (seen_at : Z)
| Success (now : Z) (id : string) (path : list PeerId) (latency_ms : Z)
| Failure (now : Z) (id : string) (path : list PeerId)
| Converge (id : string).

Definition step (d : delivery) (o : op) : delivery :=
  match o with
  | Start now id target => start_delivery now id target d
  | AddRelay p => add_relay p d
  | SeenVia r t at_time => record_recipient_seen_via_relay r t at_time d
  | Success now id path latency => record_success now id path latency d
  | Failure now id path => record_failure now id path d
  | Converge id => (converge_delivery id d).1
  end.

Definition run (ops : list op) (d : delivery) : delivery := fold_left step ops d.

(** Reputations and attempts are filed under their own keys; attempts keep the default strategy. *)
Definition filed (r : gmap PeerId (RelayReputation (PeerId := PeerId))) : Prop := map_Forall (fun p rep => rep_peer rep = p) r.
Definition attempts_ok (m : gmap string (DeliveryAttempt (PeerId := PeerId))) : Prop :=
  map_Forall (fun id a => message_id a = id /\ strategy a = RetryStrategy.default_strategy) m.
Definition inv (d : delivery) : Prop := filed (reputation d) /\ attempts_ok (attempts d).

Lemma filed_attempt now p ok latency bytes r : filed r -> filed (record_relay_attempt now p ok latency bytes r).
Proof.
  intros Hr. apply map_Forall_insert_2; [|done]. unfold calculate_score. destruct (_ =? 0); cbn;
    destruct (r !! p) as [rep|] eqn:Hp; cbn; try done; by apply (Hr p rep).
Qed.

Lemma filed_attempts now ok latency bytes l r : filed r ->
  filed (fold_left (fun r p => record_relay_attempt now p ok latency bytes r) l r).
Proof. revert r. induction l as [|p l IH]; intros r Hr; cbn; [done|]. by apply IH, filed_attempt. Qed.

Lemma inv_success_loop now target latency order l d : inv d ->
  inv (fold_left (fun self relay =>
    let self := set_reputation (record_relay_attempt now relay true latency 1024 (reputation self)) self in
    set_latest (<[(relay, target) := order]> (latest_success_by_route self)) order self) l d).
Proof.
  revert d. induction l as [|p l IH]; intros d [Hr Ha]; cbn [fold_left]; [done|]. apply IH. split; [|done]. by apply filed_attempt.
Qed.

Lemma delivery_inv_step d o : inv d -> inv (step d o).
Proof.
  intros [Hr Ha]. destruct o as [now id target|p|r t at_time|now id path latency|now id path|id]; cbn [step].
  - split; [done|]. by apply map_Forall_insert_2.
  - split; [|done]. cbn. unfold tracker_add_relay. destruct (reputation d !! p); [done|]. by apply map_Forall_insert_2.
  - done.
  - unfold record_success. assert (Hd : inv (set_attempts (delete id (attempts d)) d)) by (split; [done|by apply map_Forall_delete]).
    destruct (last path) as [target|]; [|done]. destruct (_ >? _); [|done]. apply inv_success_loop. exact Hd.
  - unfold record_failure. destruct (attempts d !! id) as [a|] eqn:Hid; [|done].
    assert (Hd : attempts_ok (<[id := attempt_record_failure now path a]> (attempts d))) by (apply map_Forall_insert_2; [by apply (Ha id a)|done]).
    destruct (_ >? _); [|by split]. split; [|done]. cbn. by apply filed_attempts.
  - split; [done|]. by apply map_Forall_delete.
Qed.

Lemma delivery_inv_run ops d : inv d -> inv (run ops d).
Proof. revert d. induction ops as [|o ops IH]; intros d Hd; cbn; [done|]. by apply IH, delivery_inv_step. Qed.

Lemma delivery_inv_new : inv delivery_new.
Proof. split; apply map_Forall_empty. Qed.
End History.
Arguments op : clear implicits.

(** *** The order of the candidates *)

Section Order.
Context {PeerId : Type} `{Countable PeerId} (peer_to_string : PeerId -> string) `{HI : !Inj (=) (=) peer_to_string}.
Abbreviation delivery := (MultiPathDelivery (PeerId := PeerId)).

#[local] Instance by_policy_order : CmpOrder (by_policy (PeerId := PeerId)).
Proof.
  unfold by_policy, str_cmp. apply lex_order; [apply (rev_key_order cand_recency Z.compare)|].
  apply lex_order; [apply (rev_key_order cand_score total_cmp)|].
  apply lex_order; [apply (rev_key_order cand_latest Z.compare)|]. apply (key_order (fun c => as_bytes (relay_key c)) MeshStore.id_cmp).
Qed.

Lemma str_cmp_eq a b : str_cmp a b = Eq -> a = b.
Proof.
  unfold str_cmp. intros He. apply as_bytes_inj. by apply id_cmp_spec.
Qed.

(** Candidates that compare equal have the same printed peer. *)
Lemma by_policy_eq (a b : RelayCandidate (PeerId := PeerId)) : by_policy a b = Eq -> relay_key a = relay_key b.
Proof.
  unfold by_policy, lex. destruct (Z.compare _ _); try done. destruct (total_cmp _ _); try done.
  destruct (Z.compare _ _); try done. apply str_cmp_eq.
Qed.

(** The candidates, whatever the order of the hash map. *)
Lemma candidates_elem {MI : MapIter PeerId RelayReputation} target (d : delivery) c : filed (reputation d) ->
  c ∈ candidates peer_to_string target d <->
  exists rep, reputation d !! rep_peer rep = Some rep /\ is_reliable rep = true /\ rep_peer rep <> target /\
    c = candidate_of peer_to_string target d rep.
Proof.
  intros Hf. unfold candidates. rewrite list_elem_of_fmap. split.
  - intros (rep & -> & Hin). apply list_elem_of_filter in Hin as [[H1 H2] Hin]. exists rep. split_and!; try done.
    apply list_elem_of_fmap in Hin as ([k rep'] & -> & Hin). rewrite map_iter_perm in Hin. apply elem_of_map_to_list in Hin.
    cbn in *. by rewrite (Hf k rep' Hin).
  - intros (rep & Hk & H1 & H2 & ->). exists rep. split; [done|]. apply list_elem_of_filter. split; [done|].
    apply list_elem_of_fmap. exists (rep_peer rep, rep). split; [done|]. rewrite map_iter_perm. by apply elem_of_map_to_list.
Qed.

Lemma candidates_perm {MI MI' : MapIter PeerId RelayReputation} target (d : delivery) :
  candidates (MI := MI) peer_to_string target d ≡ₚ candidates (MI := MI') peer_to_string target d.
Proof. unfold candidates. rewrite (map_iter_perm (MapIter := MI)), (map_iter_perm (MapIter := MI')). done. Qed.

(** Two candidates of one peer are the same. *)
Lemma candidates_key {MI MI' : MapIter PeerId RelayReputation} target (d : delivery) a b : filed (reputation d) ->
  a ∈ candidates (MI := MI) peer_to_string target d -> b ∈ candidates (MI := MI') peer_to_string target d -> relay_key a = relay_key b -> a = b.
Proof using HI.
  intros Hf Ha Hb Hk. apply candidates_elem in Ha as (ra & Hra & _ & _ & ->); [|done].
  apply candidates_elem in Hb as (rb & Hrb & _ & _ & ->); [|done]. cbn in Hk. apply HI in Hk. rewrite Hk in Hra. by simplify_eq.
Qed.

Lemma sorted_candidates {MI MI' : MapIter PeerId RelayReputation} target (d : delivery) : filed (reputation d) ->
  sort_by by_policy (candidates (MI := MI) peer_to_string target d) = sort_by by_policy (candidates (MI := MI') peer_to_string target d).
Proof using HI.
  intros Hf. apply (StronglySorted_unique_strong (cmp_le by_policy)); [|apply sort_by_ordered, _..|].
  - intros a b Ha Hb H1 H2. rewrite sort_by_perm in Ha, Hb. apply (candidates_key (MI := MI) (MI' := MI') target d a b Hf Ha Hb).
    apply by_policy_eq. unfold cmp_le in *. rewrite (cmp_opp (cmp := by_policy)) in H2. by destruct (by_policy a b).
  - rewrite !sort_by_perm. apply candidates_perm.
Qed.

Lemma sorted_take_drop {A} (R : A -> A -> Prop) n l : StronglySorted R l -> StronglySorted R (take n l) /\ forall a b, a ∈ take n l -> b ∈ drop n l -> R a b.
Proof.
  intros Hs. revert n. induction Hs as [|x l Hs IH Hx]; intros n; [rewrite take_nil, drop_nil; split; [constructor|intros a b Ha; by apply elem_of_nil in Ha]|].
  destruct n as [|n]; cbn; [split; [constructor|intros a b Ha; by apply elem_of_nil in Ha]|]. destruct (IH n) as [I1 I2]. split.
  - constructor; [done|]. rewrite Forall_forall in *. intros y Hy. apply Hx. rewrite <-(take_drop n l). apply elem_of_app. by left.
  - intros a b Ha Hb. apply elem_of_cons in Ha as [->|Ha]; [|auto]. rewrite Forall_forall in Hx. apply Hx. rewrite <-(take_drop n l). apply elem_of_app. by right.
Qed.

(** After any history of deliveries, the routes to a peer are the same whatever the order of the hash map: the direct
    path first, then one path through each of the best relays, at most as many as asked for; the relays are reliable
    and not the target, in the order of recency, score, latest success and printed id, and each that is left out ranks
    behind all that are taken.  Every pending message may be retried without end, after at most thirty seconds. *)
Theorem ranked_routes_policy {MI MI' : MapIter PeerId RelayReputation} ops target count : 0 < count ->
  let d := run ops delivery_new in
  ranked_routes (MI := MI) peer_to_string target count d = ranked_routes (MI := MI') peer_to_string target count d /\
  (exists taken left_out, ranked_routes (MI := MI) peer_to_string target count d = direct_route target :: map (relay_route target) taken /\
     candidates (MI := MI) peer_to_string target d ≡ₚ taken ++ left_out /\ StronglySorted (cmp_le by_policy) taken /\
     (forall a b, a ∈ taken -> b ∈ left_out -> by_policy a b = Lt) /\ len taken <= count - 1 /\ (left_out <> [] -> len taken = count - 1) /\
     forall c, c ∈ taken -> exists rep, reputation d !! relay_peer c = Some rep /\ is_reliable rep = true /\ relay_peer c <> target) /\
  (forall id a powi, attempts d !! id = Some a -> attempt_should_retry a = true /\ next_retry_delay powi a <= 30000).
Proof using HI.
  intros Hc d. destruct (delivery_inv_run ops (delivery_new (PeerId := PeerId)) delivery_inv_new) as [Hf Ha]. fold d in Hf, Ha.
  unfold ranked_routes. rewrite (proj2 (Z.eqb_neq count 0)) by lia. 
  split; [by rewrite (sorted_candidates (MI := MI) (MI' := MI'))|]. clear MI'. set (l := sort_by by_policy (candidates peer_to_string target d)).
  set (n := Z.to_nat (saturating_sub count 1)). assert (Hn : Z.of_nat n = count - 1) by (unfold n, saturating_sub; lia).
  assert (Hl : l ≡ₚ candidates peer_to_string target d) by apply sort_by_perm.
  pose proof (sorted_take_drop _ n l (sort_by_ordered by_policy (candidates peer_to_string target d))) as [S1 S2].
  assert (Hnd : NoDup (take n l ++ drop n l)).
  { rewrite take_drop, Hl. unfold candidates. apply NoDup_fmap_2_strong.
    - intros x y Hx Hy He. apply list_elem_of_filter in Hx as [_ Hx], Hy as [_ Hy].
      apply list_elem_of_fmap in Hx as ([kx rx] & -> & Hx), Hy as ([ky ry] & -> & Hy). rewrite map_iter_perm in Hx, Hy.
      apply elem_of_map_to_list in Hx, Hy. cbn in He. injection He as He _. cbn in *. rewrite (Hf kx rx Hx), (Hf ky ry Hy) in He. subst. by simplify_eq.
    - apply NoDup_filter. rewrite map_iter_perm. apply NoDup_fmap_2_strong; [|apply NoDup_map_to_list].
      intros [kx rx] [ky ry] Hx Hy He. apply elem_of_map_to_list in Hx, Hy. cbn in He. subst. by rewrite <-(Hf kx ry Hx), <-(Hf ky ry Hy). }
  split.
  - exists (take n l), (drop n l). split_and!; [done|by rewrite take_drop|done| | | |].
    + intros a b Hta Htb. specialize (S2 a b Hta Htb). unfold cmp_le in S2. destruct (by_policy a b) eqn:Hab; [exfalso|done|done].
      apply by_policy_eq in Hab. apply NoDup_app in Hnd as (_ & Hdis & _). apply (Hdis a Hta).
      assert (Hin : forall x, x ∈ take n l \/ x ∈ drop n l -> x ∈ candidates peer_to_string target d) by (intros x Hx; rewrite <-Hl, <-(take_drop n l); by apply elem_of_app).
      by rewrite (candidates_key target d a b Hf (Hin a (or_introl Hta)) (Hin b (or_intror Htb)) Hab).
    + unfold len. rewrite length_take. lia.
    + intros Hne. unfold len. rewrite length_take. destruct (Nat.le_gt_cases (length l) n) as [Hle|Hgt]; [|lia].
      by rewrite drop_ge in Hne by done.
    + intros c Hcin. assert (Hin : c ∈ candidates peer_to_string target d) by (rewrite <-Hl, <-(take_drop n l); apply elem_of_app; by left).
      apply candidates_elem in Hin as (rep & Hr & H1 & H2 & ->); [|done]. by exists rep.
  - intros id a powi Hid. destruct (Ha id a Hid) as [_ Hs]. unfold attempt_should_retry, next_retry_delay. rewrite Hs. split; [done|].
    apply Z.le_min_r.
Qed.
End Order.

(** *** The cursor *)

(** A pass over [n] routes tries each once, in order, and says so at its end. *)
Lemma cursor_pass n i : 0 <= i < n -> n <= 2 ^ 64 - 1 ->
  advance_route_cursor i n = if i + 1 =? n then RouteCursorAdvance.mk 0 true else RouteCursorAdvance.mk (i + 1) false.
Proof.
  intros Hi Hn. unfold advance_route_cursor. rewrite (proj2 (Z.eqb_neq n 0)) by lia. rewrite Z.min_l by lia.
  destruct (Z.eqb_spec (i + 1) n) as [He|He]; destruct (Z.geb_spec (i + 1) n); try lia; done.
Qed.
End RouteHistory.

(** ** Witness *)

Module RouteSamples.
Import RouteHistory.

Definition show_peer (p : bool) : string := if p then "a" else "b".
#[local] Instance show_peer_inj : Inj (=) (=) show_peer.
Proof. by intros [] []. Qed.
#[local] Instance sample_iter : MapIter bool (RelayReputation (PeerId := bool)) := map_iter_default.

Definition sample_ops : list (op bool) := [Start 5 "m1" true; AddRelay true; AddRelay false; Failure 6 "m1" [true]].

Lemma ranked_routes_policy_witness :
  ranked_routes (MI := sample_iter) show_peer true 3 (run sample_ops delivery_new) =
  ranked_routes (MI := map_iter_reverse) show_peer true 3 (run sample_ops delivery_new) /\
  get_best_paths show_peer true 3 (run sample_ops delivery_new) = [[true]; [false; true]].
Proof.
  split; [|vm_compute; reflexivity].
  exact (proj1 (ranked_routes_policy (MI := sample_iter) (MI' := map_iter_reverse) show_peer sample_ops true 3 eq_refl)).
Defined.
End RouteSamples.
