(* ===== verification/Escalation.v ===== *)
(** * Transport escalation (core/src/transport/escalation.rs)

    The transport of each peer: chosen by a policy, raised to a better one, or
    lowered.  The scores are IEEE doubles, the clock is an argument. *)

From S2P Require Import Prelude Float64 FloatBounds Backend TransportManager.

Inductive EscalationPolicy : Type := PreferHighBandwidth | PreferLowLatency | PreferLowPower | Balanced.

Inductive EscalationError : Type := NoTransportsAvailable | NotPossible | EscalationFailed (reason : string).

(** What the application core offers for nearby peers. *)
Inductive ProximityTransport : Type := Ble | WifiAware | WifiDirect.

Module EscalationState.
Record t : Type := mk {
  current_transport : TransportType;
  available_transports : list TransportType;
  last_escalation_attempt : option Z
}.
End EscalationState.

Module EscalationEngine.
Import EscalationState.

Record t : Type := mk_engine {
  states : gmap Bytes EscalationState.t;
  policy : EscalationPolicy;
  capabilities : gmap TransportType TransportCapabilities.t
}.

Definition new (policy : EscalationPolicy) : t := mk_engine ∅ policy ∅.

Definition set_states (s : gmap Bytes EscalationState.t) (self : t) : t := mk_engine s (policy self) (capabilities self).

Definition set_capabilities (transport : TransportType) (caps : TransportCapabilities.t) (self : t) : t :=
  mk_engine (states self) (policy self) (<[transport := caps]> (capabilities self)).

Definition gbps (cap : TransportCapabilities.t) : f64 :=
  F64.div (F64.of_Z (TransportCapabilities.estimated_bandwidth_bps cap)) (F64.of_Z 1000000000).
Definition swiftness (cap : TransportCapabilities.t) : f64 :=
  F64.sub (F64.of_Z 1000) (F64.of_Z (TransportCapabilities.estimated_latency_ms cap)).

Definition escalation_score (transport : TransportType) (policy : EscalationPolicy) (caps : gmap TransportType TransportCapabilities.t) : f64 :=
  let cap := default (TransportCapabilities.for_transport transport) (caps !! transport) in
  match policy with
  | PreferHighBandwidth => gbps cap
  | PreferLowLatency => swiftness cap
  | PreferLowPower =>
      match transport with
      | BLE => F64.of_Z 400 | WiFiAware => F64.of_Z 300 | WiFiDirect => F64.of_Z 200 | Internet => F64.of_Z 100 | Local => F64.of_Z 0
      end
  | Balanced =>
      let bandwidth_score := F64.mul (gbps cap) (F64.lit 4 10) in
      let latency_score := F64.mul (swiftness cap) (F64.lit 3 10) in
      let streaming_score := F64.mul (if TransportCapabilities.supports_streaming cap then F64.of_Z 100 else F64.of_Z 0) (F64.lit 3 10) in
      F64.add (F64.add bandwidth_score latency_score) streaming_score
  end.

Definition score (self : t) (tr : TransportType) : f64 := escalation_score tr (policy self) (capabilities self).

Definition by_score (self : t) (a b : TransportType) : comparison := F64.cmp (score self a) (score self b).

Definition select_best_transport (available : list TransportType) (self : t) : TransportType :=
  default Local (max_by (by_score self) available).

Definition others (available : list TransportType) (current : TransportType) : list TransportType := filter (fun x => x <> current) available.

Definition find_better_transport (available : list TransportType) (current : TransportType) (self : t) : option TransportType :=
  best ← max_by (by_score self) (others available current);
  if F64.ltb (score self current) (score self best) then Some best else None.

Definition find_worse_transport (available : list TransportType) (current : TransportType) (self : t) : option TransportType :=
  best ← max_by (by_score self) (others available current);
  if F64.ltb (score self best) (score self current) then Some best else None.

Definition init_peer (peer_id : Bytes) (available : list TransportType) (self : t) : t * outcome EscalationError unit :=
  match available with
  | [] => (self, Err NoTransportsAvailable)
  | _ => (set_states (<[peer_id := EscalationState.mk (select_best_transport available self) available None]> (states self)) self, Ok tt)
  end.

Definition should_escalate (peer_id : Bytes) (self : t) : bool :=
  match states self !! peer_id with
  | Some st => bool_decide (is_Some (find_better_transport (available_transports st) (current_transport st) self))
  | None => false
  end.

Definition escalate (now : Z) (peer_id : Bytes) (self : t) : t * outcome EscalationError TransportType :=
  match states self !! peer_id with
  | None => (self, Err NotPossible)
  | Some st =>
      match find_better_transport (available_transports st) (current_transport st) self with
      | None => (self, Err NotPossible)
      | Some target =>
          (set_states (<[peer_id := EscalationState.mk target (available_transports st) (Some now)]> (states self)) self, Ok target)
      end
  end.

Definition deescalate (peer_id : Bytes) (self : t) : t * outcome EscalationError (option TransportType) :=
  match states self !! peer_id with
  | None => (self, Err NotPossible)
  | Some st =>
      match find_worse_transport (available_transports st) (current_transport st) self with
      | Some fallback =>
          (set_states (<[peer_id := EscalationState.mk fallback (available_transports st) (last_escalation_attempt st)]> (states self)) self,
           Ok (Some fallback))
      | None => (self, Ok None)
      end
  end.

Definition current_transport_of (peer_id : Bytes) (self : t) : option TransportType := current_transport <$> states self !! peer_id.

Definition update_available_transports (peer_id : Bytes) (transports : list TransportType) (self : t) : t * outcome EscalationError unit :=
  match states self !! peer_id with
  | Some st =>
      (set_states (<[peer_id := EscalationState.mk (current_transport st) transports (last_escalation_attempt st)]> (states self)) self, Ok tt)
  | None => (self, Err NotPossible)
  end.

Definition recommended_transport (peer_id : Bytes) (self : t) : option ProximityTransport :=
  st ← states self !! peer_id;
  Some (match select_best_transport (available_transports st) self with
        | BLE => Ble | WiFiAware => WifiAware | WiFiDirect => WifiDirect | _ => Ble
        end).

Definition cleanup_peer (peer_id : Bytes) (self : t) : t := set_states (delete peer_id (states self)) self.

Definition all_states {MI : MapIter Bytes EscalationState.t} (self : t) : list (Bytes * EscalationState.t) := map_iter (states self).
End EscalationEngine.

(** ** One escalation reaches the best transport *)

Module EscalationFacts.
Import EscalationState EscalationEngine.

(** Capabilities with [u64] and [u32] numbers. *)
Definition caps_ok (cap : TransportCapabilities.t) : Prop :=
  fits 64 (TransportCapabilities.estimated_bandwidth_bps cap) /\ fits 32 (TransportCapabilities.estimated_latency_ms cap).

Import Mag.

Lemma gbps_mag cap : caps_ok cap -> mag 66 (gbps cap).
Proof.
  intros [Hb _]. change 66 with (65 + 1). apply div_mag; [unfold emin; lia| |].
  - change 65 with (64 + 1). apply of_Z_mag; [lia|]. unfold fits in Hb. lia.
  - vm_compute. split; [done|intros _; discriminate].
Qed.

Lemma swiftness_mag cap : caps_ok cap -> mag 35 (swiftness cap).
Proof.
  intros [_ Hl]. change 35 with (33 + 2). apply sub_mag; [unfold emin; lia| |].
  - apply (mag_mono 10); [lia|]. vm_compute. split; [split; discriminate|done].
  - change 33 with (32 + 1). apply of_Z_mag; [lia|]. unfold fits in Hl. lia.
Qed.

Lemma score_number tr p caps : map_Forall (fun _ => caps_ok) caps -> F64.is_nan (escalation_score tr p caps) = false.
Proof.
  intros Hc. unfold escalation_score. set (cap := default _ _).
  assert (Hcap : caps_ok cap).
  { unfold cap. destruct (caps !! tr) as [c|] eqn:Hk; [by apply (Hc tr c)|]. by destruct tr; vm_compute. }
  clearbody cap. apply F64.finite_not_nan. destruct p.
  - by apply (mag_finite 66), gbps_mag.
  - by apply (mag_finite 35), swiftness_mag.
  - by destruct tr; vm_compute.
  - apply (mag_finite 74). change 74 with (72 + 2). apply add_mag; [unfold emin; lia| |].
    + change 72 with (70 + 2). apply add_mag; [unfold emin; lia| |].
      * apply (mag_mono (66 + 2 + 1)); [lia|]. apply mul_mag; [unfold emin; lia|by apply gbps_mag|vm_compute; split; [split; discriminate|done]].
      * apply (mag_mono (35 + 2 + 1)); [lia|]. apply mul_mag; [unfold emin; lia|by apply swiftness_mag|vm_compute; split; [split; discriminate|done]].
    + apply (mag_mono 8); [lia|]. destruct (TransportCapabilities.supports_streaming cap); vm_compute; [split; [split; discriminate|done]|done].
Qed.

(** The greatest of a list of numbers. *)
Lemma max_by_number {A} (f : A -> f64) l x : (forall y, F64.is_nan (f y) = false) ->
  max_by (fun a b => F64.cmp (f a) (f b)) l = Some x -> forall y, y ∈ l -> F64.le (f y) (f x).
Proof.
  intros Hn. destruct l as [|z l]; [done|]. cbn. intros [= <-].
  assert (Hrefl : forall z, F64.le (f z) (f z)).
  { intros u Hgt. pose proof (F64.cmp_antisym (f u) (f u) (Hn u) (Hn u)) as Hs. rewrite Hgt in Hs. done. }
  assert (Htr : forall a b c, F64.le (f a) (f b) -> F64.le (f b) (f c) -> F64.le (f a) (f c)) by (intros; by eapply F64.le_trans).
  assert (Hf : forall l z, let r := foldl (fun x y => match F64.cmp (f x) (f y) with Gt => x | _ => y end) z l in
    F64.le (f z) (f r) /\ forall y, y ∈ l -> F64.le (f y) (f r)).
  { clear l z. induction l as [|y l IH]; intros z; cbn; [split; [apply Hrefl|by intros ? ?%elem_of_nil]|].
    destruct (IH (match F64.cmp (f z) (f y) with Gt => z | _ => y end)) as [I1 I2].
    assert (Hstep : F64.le (f z) (f (match F64.cmp (f z) (f y) with Gt => z | _ => y end)) /\ F64.le (f y) (f (match F64.cmp (f z) (f y) with Gt => z | _ => y end))).
    { pose proof (F64.cmp_antisym (f y) (f z) (Hn y) (Hn z)) as Hyz.
      destruct (F64.cmp (f z) (f y)) eqn:Hc; split; try apply Hrefl; unfold F64.le; [by rewrite Hc..|by rewrite Hyz]. }
    split; [eapply Htr; [apply Hstep|done]|]. intros x Hx. apply elem_of_cons in Hx as [->|Hx]; [eapply Htr; [apply Hstep|done]|auto]. }
  intros y Hy. destruct (Hf l z) as [H1 H2]. apply elem_of_cons in Hy as [->|Hy]; auto.
Qed.

Definition engine_ok (self : t) : Prop := map_Forall (fun _ => caps_ok) (capabilities self).

Lemma number self tr : engine_ok self -> F64.is_nan (score self tr) = false.
Proof. intros H. by apply score_number. Qed.

(** No transport is better than one with the greatest score. *)
Lemma no_better self available current : engine_ok self -> (forall y, y ∈ available -> F64.le (score self y) (score self current)) ->
  find_better_transport available current self = None.
Proof.
  intros Hok Hbest. unfold find_better_transport. destruct (max_by (by_score self) (others available current)) as [best|] eqn:Hb; [|done].
  apply max_by_elem, list_elem_of_filter in Hb as [_ Hin]. specialize (Hbest best Hin). cbn.
  rewrite F64.ltb_cmp by (by apply number). unfold F64.le in Hbest.
  rewrite F64.cmp_antisym by (by apply number). by destruct (F64.cmp (score self best) (score self current)).
Qed.

Lemma better_spec self available current best : engine_ok self -> find_better_transport available current self = Some best ->
  best ∈ available /\ F64.ltb (score self current) (score self best) = true /\
  (forall y, y ∈ available -> F64.le (score self y) (score self best)).
Proof.
  intros Hok Hf. unfold find_better_transport in Hf. apply bind_Some in Hf as (b & Hb & Hlt).
  destruct (F64.ltb (score self current) (score self b)) eqn:Hl; [|done]. injection Hlt as <-.
  pose proof (max_by_number (score self) _ _ (fun y => number self y Hok) Hb) as Hmax.
  apply max_by_elem, list_elem_of_filter in Hb as [_ Hin]. split_and!; [done|done|]. intros y Hy.
  destruct (decide (y = current)) as [->|Hne].
  - rewrite F64.ltb_cmp in Hl by (by apply number). unfold F64.le. by destruct (F64.cmp (score self current) (score self b)).
  - apply Hmax. by apply list_elem_of_filter.
Qed.

(** An escalation goes to an available transport with the greatest score of the policy, strictly better than the one
    before; a second one is then impossible until the transports or the capabilities change.  It is possible exactly
    when should_escalate says so, and refused with NotPossible, without any change, otherwise. *)
Theorem escalation_reaches_best now p self : engine_ok self ->
  match escalate now p self with
  | (self', Ok target) =>
      should_escalate p self = true /\ should_escalate p self' = false /\ (forall now', escalate now' p self' = (self', Err NotPossible)) /\
      exists st, states self !! p = Some st /\ target ∈ available_transports st /\ current_transport_of p self' = Some target /\
        F64.ltb (score self (current_transport st)) (score self target) = true /\
        (forall y, y ∈ available_transports st -> F64.le (score self y) (score self target)) /\
        (forall q, q <> p -> states self' !! q = states self !! q)
  | (self', Err e) => e = NotPossible /\ self' = self /\ should_escalate p self = false
  | (_, Panic) => False
  end.
Proof.
  intros Hok. unfold escalate at 1. destruct (states self !! p) as [st|] eqn:Hst; [|unfold should_escalate; by rewrite Hst].
  destruct (find_better_transport (available_transports st) (current_transport st) self) as [target|] eqn:Hf;
    [|unfold should_escalate; by rewrite Hst, Hf].
  destruct (better_spec self _ _ _ Hok Hf) as (H1 & H2 & H3).
  set (self' := set_states _ self).
  assert (Hst' : states self' !! p = Some (EscalationState.mk target (available_transports st) (Some now))) by apply lookup_insert_eq.
  assert (Hnone : find_better_transport (available_transports st) target self' = None) by (by apply (no_better self')).
  split_and!.
  - unfold should_escalate. by rewrite Hst, Hf.
  - unfold should_escalate. rewrite Hst'. cbn [available_transports current_transport]. by rewrite Hnone.
  - intros now'. unfold escalate. rewrite Hst'. cbn [available_transports current_transport]. by rewrite Hnone.
  - exists st. unfold current_transport_of. rewrite Hst'. split_and!; try done. intros q Hq. by apply lookup_insert_ne.
Qed.

Definition sample : t := (init_peer [1] [BLE; WiFiDirect; Internet] (new PreferLowPower)).1.
Definition sample_lowered : t := (update_available_transports [1] [WiFiDirect; Internet; WiFiAware] (cleanup_peer [2] sample)).1.
Definition middle : t := mk_engine {[ [1] := EscalationState.mk WiFiDirect [BLE; WiFiDirect; Internet] None ]} PreferLowPower ∅.

Lemma escalation_reaches_best_witness :
  (escalate 5 [1] middle).2 = Ok BLE /\ should_escalate [1] (escalate 5 [1] middle).1 = false.
Proof.
  pose proof (escalation_reaches_best 5 [1] middle (map_Forall_empty _)) as H.
  destruct (escalate 5 [1] middle) as [self' [target|e|]] eqn:He; [|by vm_compute in He..].
  destruct H as (_ & Hs & _). split; [|exact Hs]. assert (Ht : Ok target = (escalate 5 [1] middle).2) by (by rewrite He).
  cbn [snd]. rewrite Ht. vm_compute. reflexivity.
Defined.

(** With a better and a worse transport at hand there is no way down: only the best of the others is looked at. *)
Lemma deescalate_stuck : deescalate [1] middle = (middle, Ok None).
Proof. vm_compute. reflexivity. Qed.

(** A transport that is no longer available stays the current one. *)
Lemma current_not_available : current_transport_of [1] sample_lowered = Some BLE.
Proof. vm_compute. reflexivity. Qed.
End EscalationFacts.
