(* ===== verification/RelayHealth.v ===== *)
(** * Relay discovery (core/src/transport/relay_health.rs)

    The metrics of known relays, their priority list with its cache, and the
    attempts at fallback relays.  Peer ids and addresses are types of the
    network library.  The clock is an argument, in nanoseconds; the code takes
    milliseconds of it for its timestamps. *)

From S2P Require Import Prelude Float64.

Definition MS : Z := 1000000.

Section Code.
Context {PeerId Multiaddr : Type} `{Countable PeerId} `{Countable Multiaddr}.

Record RelayMetrics : Type := mk_metrics {
  peer_id : PeerId;
  addresses : list Multiaddr;
  is_headless : bool;
  uptime_ratio : f64;
  avg_latency_ms : Z;
  bandwidth_estimate : Z;
  recent_connections : Z;
  recent_failures : Z;
  last_seen : Z;
  region : option string;
  stability_score : f64
}.

Definition priority_score (self : RelayMetrics) : f64 :=
  let base_score := F64.add (F64.add (F64.mul (uptime_ratio self) (F64.lit 4 10))
    (F64.mul (F64.sub (F64.of_Z 1) (F64.min (F64.div (F64.of_Z (avg_latency_ms self)) (F64.of_Z 1000)) (F64.of_Z 1))) (F64.lit 3 10)))
    (F64.mul (stability_score self) (F64.lit 3 10)) in
  let headless_bonus := if is_headless self then F64.lit 1 10 else F64.of_Z 0 in
  let failure_penalty := F64.min (F64.div (F64.of_Z (recent_failures self)) (F64.of_Z 100)) (F64.lit 2 10) in
  F64.clamp (F64.sub (F64.add base_score headless_bonus) failure_penalty) (F64.of_Z 0) (F64.of_Z 1).

Definition is_healthy (now : Z) (self : RelayMetrics) : bool :=
  let age_hours := wrap 64 (now / MS - last_seen self) / (1000 * 60 * 60) in
  F64.leb (F64.lit 8 10) (uptime_ratio self) && F64.leb (F64.lit 7 10) (stability_score self) && (age_hours <? 24) &&
  (recent_failures self <? recent_connections self).

(** [RelayDiscovery]; [cache_updated] and [cache_ttl] in nanoseconds. *)
Record RelayDiscovery : Type := mk_discovery {
  relay_metrics : gmap PeerId RelayMetrics;
  priority_cache : list PeerId;
  cache_updated : Z;
  cache_ttl : Z;
  fallback_relays : list Multiaddr
}.

Definition discovery_new (fallback_relays : list Multiaddr) : RelayDiscovery := mk_discovery ∅ [] 0 (300 * 1000 * MS) fallback_relays.

Definition set_metrics (m : gmap PeerId RelayMetrics) (self : RelayDiscovery) : RelayDiscovery :=
  mk_discovery m (priority_cache self) (cache_updated self) (cache_ttl self) (fallback_relays self).

Definition invalidate_cache (self : RelayDiscovery) : RelayDiscovery :=
  mk_discovery (relay_metrics self) (priority_cache self) 0 (cache_ttl self) (fallback_relays self).

Definition update_relay_metrics (metrics : RelayMetrics) (self : RelayDiscovery) : RelayDiscovery :=
  invalidate_cache (set_metrics (<[peer_id metrics := metrics]> (relay_metrics self)) self).

Definition metrics_success (now latency_ms : Z) (m : RelayMetrics) : RelayMetrics :=
  mk_metrics (peer_id m) (addresses m) (is_headless m) (uptime_ratio m) (wrap 64 (avg_latency_ms m + latency_ms) / 2) (bandwidth_estimate m)
    (wrap 32 (recent_connections m + 1)) (recent_failures m) (now / MS) (region m)
    (F64.min (F64.add (stability_score m) (F64.lit 1 10)) (F64.of_Z 1)).

Definition metrics_failure (m : RelayMetrics) : RelayMetrics :=
  mk_metrics (peer_id m) (addresses m) (is_headless m) (uptime_ratio m) (avg_latency_ms m) (bandwidth_estimate m)
    (recent_connections m) (wrap 32 (recent_failures m + 1)) (last_seen m) (region m)
    (F64.max (F64.sub (stability_score m) (F64.lit 1 10)) (F64.of_Z 0)).

Definition discovery_record_success (now : Z) (p : PeerId) (latency_ms : Z) (self : RelayDiscovery) : RelayDiscovery :=
  invalidate_cache (set_metrics (alter (metrics_success now latency_ms) p (relay_metrics self)) self).

Definition discovery_record_failure (p : PeerId) (self : RelayDiscovery) : RelayDiscovery :=
  invalidate_cache (set_metrics (alter metrics_failure p (relay_metrics self)) self).

Definition by_priority (a b : PeerId * RelayMetrics) : comparison := F64.cmp (priority_score b.2) (priority_score a.2).

Definition rebuild_cache {MI : MapIter PeerId RelayMetrics} (now : Z) (self : RelayDiscovery) : RelayDiscovery :=
  mk_discovery (relay_metrics self) (sort_by by_priority (map_iter (relay_metrics self))).*1 now (cache_ttl self) (fallback_relays self).

(** [elapsed().unwrap_or_default()]. *)
Definition cache_age (now : Z) (self : RelayDiscovery) : Z := saturating_sub now (cache_updated self).

Definition get_priority_relays {MI : MapIter PeerId RelayMetrics} (now limit : Z) (self : RelayDiscovery) : RelayDiscovery * list RelayMetrics :=
  let self := if cache_age now self >? cache_ttl self then rebuild_cache now self else self in
  (self, take (Z.to_nat limit) (filter (fun m => is_healthy now m = true) (omap (fun p => relay_metrics self !! p) (priority_cache self)))).

Definition get_fallback_relays (self : RelayDiscovery) : list Multiaddr := fallback_relays self.

Definition add_fallback_relay (addr : Multiaddr) (self : RelayDiscovery) : RelayDiscovery :=
  if bool_decide (addr ∈ fallback_relays self) then self
  else mk_discovery (relay_metrics self) (priority_cache self) (cache_updated self) (cache_ttl self) (fallback_relays self ++ [addr]).

Definition relay_count (self : RelayDiscovery) : Z := Z.of_nat (size (relay_metrics self)).

Definition healthy_relay_count {MI : MapIter PeerId RelayMetrics} (now : Z) (self : RelayDiscovery) : Z :=
  len (filter (fun kv : PeerId * RelayMetrics => is_healthy now kv.2 = true) (map_iter (relay_metrics self))).

Definition cleanup_stale_relays (now max_age_hours : Z) (self : RelayDiscovery) : RelayDiscovery :=
  let cutoff_ms := wrap 64 (now / MS - wrap 64 (max_age_hours * 60 * 60 * 1000)) in
  let self := set_metrics (filter (fun kv : PeerId * RelayMetrics => cutoff_ms <= last_seen kv.2) (relay_metrics self)) self in
  if bool_decide (relay_metrics self = ∅) then self else invalidate_cache self.

(** [RelayFallback]. *)
Record RelayFallback : Type := mk_fallback {
  attempted_relays : gmap Multiaddr Z;
  max_retries : Z;
  backoff_base_secs : Z
}.

Definition fallback_new (max_retries : Z) : RelayFallback := mk_fallback ∅ max_retries 5.

Definition attempts_at (addr : Multiaddr) (self : RelayFallback) : Z := default 0 (attempted_relays self !! addr).

Definition should_retry (addr : Multiaddr) (self : RelayFallback) : bool :=
  match attempted_relays self !! addr with Some count => count <? max_retries self | None => true end.

Definition fallback_record_attempt (addr : Multiaddr) (self : RelayFallback) : RelayFallback :=
  mk_fallback (<[addr := wrap 32 (attempts_at addr self + 1)]> (attempted_relays self)) (max_retries self) (backoff_base_secs self).

Definition get_backoff_delay (addr : Multiaddr) (self : RelayFallback) : Z :=
  Z.min (wrap 64 (backoff_base_secs self * wrap 64 (2 ^ attempts_at addr self))) 300.

Definition reset_attempts (self : RelayFallback) : RelayFallback := mk_fallback ∅ (max_retries self) (backoff_base_secs self).
End Code.
Arguments RelayMetrics : clear implicits.
Arguments RelayDiscovery : clear implicits.
Arguments RelayDiscovery _ _ {_ _}.
Arguments RelayFallback : clear implicits.
Arguments RelayFallback _ {_ _}.
