(* ===== verification/Bootstrap.v ===== *)
(** * Bootstrap connectivity (core/src/transport/bootstrap.rs)

    The bootstrap manager: its nodes, the attempts at each address, the circuit
    breakers of CircuitBreaker.v and the relay tables of RelayHealth.v, and the
    loop that connects.  Addresses and peer ids are types of the network
    library; what the network, the scheduler and the clocks do during one pass
    of the loop is a value of [Pass].  A run of the loop takes a list of passes
    and is undecided ([None]) when the list is too short; the theorem
    [bootstrap_returns] says how long a list always is enough.  Durations are
    nanoseconds.  The build for the browser, which has no WebSocket fallback, is
    the case in which no address is a WebSocket address. *)

From S2P Require Import Prelude Float64 FloatBounds CircuitBreaker RelayHealth.

(** [Duration::from_secs_f64]: to the nearest nanosecond, ties to even; it
    panics for a negative number, for NaN and from [2 ^ 64] seconds on. *)
Definition nearest_nanos (m : positive) (e : Z) : Z :=
  if 0 <=? e then Z.pos m * 10 ^ 9 * 2 ^ e else
  let d := 2 ^ (- e) in
  let q := Z.pos m * 10 ^ 9 / d in
  let r := Z.pos m * 10 ^ 9 mod d in
  if 2 * r <? d then q else if d <? 2 * r then q + 1 else if Z.even q then q else q + 1.

Definition from_secs_f64 {E} (a : f64) : outcome E Z :=
  match a with
  | S754_zero _ => Ok 0
  | S754_finite false m e => if nearest_nanos m e <? 2 ^ 64 * ns_per_sec then Ok (nearest_nanos m e) else Panic
  | _ => Panic
  end.

Module BootstrapConfig.
Record t : Type := mk {
  max_concurrent_attempts : Z;
  initial_backoff : Z;
  max_backoff : Z;
  backoff_multiplier : f64;
  max_retries_per_node : Z;
  connect_timeout : Z;
  enable_local_discovery : bool;
  enable_dns_discovery : bool;
  enable_websocket_fallback : bool;
  circuit_breaker_config : CircuitBreakerConfig.t
}.

Definition default_config : t :=
  mk 3 (2 * 10 ^ 9) (300 * 10 ^ 9) (F64.lit 3 2) 5 (10 * 10 ^ 9) true true true CircuitBreakerConfig.default.
End BootstrapConfig.

Inductive BootstrapState : Type := Idle | Connecting | Connected | FallbackDiscovery | FallbackConnected | Failed.

#[export] Instance BootstrapState_eq_dec : EqDecision BootstrapState.
Proof. solve_decision. Defined.

Section Code.
Context {PeerId Multiaddr : Type} `{Countable PeerId} `{Countable Multiaddr}.
(** [Multiaddr::to_string], and whether an address names the protocol ws or wss. *)
Context (to_string : Multiaddr -> string) (is_websocket_address : Multiaddr -> bool).
Context (powi : f64 -> Z -> f64).

Record BootstrapNode : Type := mk_node {
  addr : Multiaddr;
  node_peer : option PeerId;
  attempts : Z;
  last_attempt : option Z;
  last_failure : option string;
  connected : bool
}.

Record BootstrapManager : Type := mk_manager {
  config : BootstrapConfig.t;
  state : BootstrapState;
  nodes : list BootstrapNode;
  relay_discovery : RelayDiscovery PeerId Multiaddr;
  relay_fallback : RelayFallback Multiaddr;
  circuit_breaker : CircuitBreakerManager.t;
  connected_count : Z
}.

Definition set_state (s : BootstrapState) (self : BootstrapManager) : BootstrapManager :=
  mk_manager (config self) s (nodes self) (relay_discovery self) (relay_fallback self) (circuit_breaker self) (connected_count self).
Definition set_nodes (l : list BootstrapNode) (self : BootstrapManager) : BootstrapManager :=
  mk_manager (config self) (state self) l (relay_discovery self) (relay_fallback self) (circuit_breaker self) (connected_count self).
Definition set_discovery (d : RelayDiscovery PeerId Multiaddr) (self : BootstrapManager) : BootstrapManager :=
  mk_manager (config self) (state self) (nodes self) d (relay_fallback self) (circuit_breaker self) (connected_count self).
Definition set_fallback (f : RelayFallback Multiaddr) (self : BootstrapManager) : BootstrapManager :=
  mk_manager (config self) (state self) (nodes self) (relay_discovery self) f (circuit_breaker self) (connected_count self).
Definition set_breaker (b : CircuitBreakerManager.t) (self : BootstrapManager) : BootstrapManager :=
  mk_manager (config self) (state self) (nodes self) (relay_discovery self) (relay_fallback self) b (connected_count self).
Definition set_count (n : Z) (self : BootstrapManager) : BootstrapManager :=
  mk_manager (config self) (state self) (nodes self) (relay_discovery self) (relay_fallback self) (circuit_breaker self) n.

Definition node_new (a : Multiaddr) : BootstrapNode := mk_node a None 0 None None false.

(** [new]; [env_addrs] is what the environment variable lists, and the list
    of built-in nodes is empty. *)
Definition CORE_BOOTSTRAP_NODES : list Multiaddr := [].
Definition new (env_addrs : list Multiaddr) (c : BootstrapConfig.t) : BootstrapManager :=
  let all_addrs := env_addrs ++ CORE_BOOTSTRAP_NODES in
  mk_manager c Idle (map node_new all_addrs) (discovery_new all_addrs) (fallback_new (BootstrapConfig.max_retries_per_node c))
    (CircuitBreakerManager.new (BootstrapConfig.circuit_breaker_config c)) 0.

Definition total_nodes (self : BootstrapManager) : Z := Z.of_nat (length (nodes self)).

Definition add_bootstrap_node (a : Multiaddr) (self : BootstrapManager) : BootstrapManager :=
  if existsb (fun n => bool_decide (addr n = a)) (nodes self) then self
  else let self := set_discovery (add_fallback_relay a (relay_discovery self)) self in
    set_nodes (nodes self ++ [node_new a]) self.

(** [self.nodes.iter_mut().find(|n| n.addr == addr)] with an update of what it finds. *)
Fixpoint update_first (a : Multiaddr) (f : BootstrapNode -> BootstrapNode) (l : list BootstrapNode) : list BootstrapNode :=
  match l with
  | [] => []
  | n :: l => if decide (addr n = a) then f n :: l else n :: update_first a f l
  end.

Definition record_success (a : Multiaddr) (p : PeerId) (self : BootstrapManager) : BootstrapManager :=
  let self := set_nodes (update_first a (fun n => mk_node (addr n) (Some p) (attempts n) (last_attempt n) (last_failure n) true) (nodes self)) self in
  set_fallback (reset_attempts (relay_fallback self)) self.

Definition record_failure (a : Multiaddr) (reason : string) (self : BootstrapManager) : BootstrapManager :=
  set_nodes (update_first a (fun n => mk_node (addr n) (node_peer n) (attempts n) (last_attempt n) (Some reason) (connected n)) (nodes self)) self.

Definition record_attempt (wall : Z) (a : Multiaddr) (self : BootstrapManager) : BootstrapManager :=
  let self := set_nodes (update_first a (fun n =>
    mk_node (addr n) (node_peer n) (wrap 32 (attempts n + 1)) (Some wall) (last_failure n) (connected n)) (nodes self)) self in
  set_fallback (fallback_record_attempt a (relay_fallback self)) self.

Definition backoff_for_node {E} (node : BootstrapNode) (self : BootstrapManager) : outcome E Z :=
  if attempts node =? 0 then Ok 0 else
  let delay_secs := F64.mul (as_secs_f64 (BootstrapConfig.initial_backoff (config self)))
    (powi (BootstrapConfig.backoff_multiplier (config self)) (wrap_i32 (wrap_i32 (attempts node) - 1))) in
  from_secs_f64 (F64.min delay_secs (as_secs_f64 (BootstrapConfig.max_backoff (config self)))).

Definition connectable (self : BootstrapManager) (n : BootstrapNode) : bool :=
  negb (connected n) && should_retry (addr n) (relay_fallback self).

Definition next_connectable_node (self : BootstrapManager) : option BootstrapNode := List.find (connectable self) (nodes self).

(** The four sources of fallback addresses are all empty in the code. *)
Definition discover_dns_bootstrap : list Multiaddr := [].
Definition discover_local_peers : list Multiaddr := [].
Definition discover_websocket_bootstrap : list Multiaddr := [].
Definition discover_hardcoded_backup_relays : list Multiaddr := [].

Definition discover_fallback_nodes (self : BootstrapManager) : list Multiaddr :=
  (if BootstrapConfig.enable_dns_discovery (config self) then discover_dns_bootstrap else []) ++
  (if BootstrapConfig.enable_websocket_fallback (config self) then discover_websocket_bootstrap else []) ++
  (if BootstrapConfig.enable_local_discovery (config self) then discover_local_peers else []) ++
  discover_hardcoded_backup_relays.

(** What happens outside of the loop during one pass: the time until the
    circuit breaker is asked, the time a sleep exceeds its delay, the duration
    of the connection attempts, the wall clock, the random peer id, and the
    errors (if any) of the direct and of the WebSocket connection. *)
Record Pass : Type := mk_pass {
  busy : Z;
  overslept : Z;
  took : Z;
  wall : Z;
  random_peer : PeerId;
  direct_error : option string;
  websocket_error : option string
}.

Definition fail_attempt (clock : Z) (a : Multiaddr) (p : PeerId) (reason last : string) (self : BootstrapManager) : BootstrapManager :=
  let self := record_failure a reason self in
  let self := set_breaker (CircuitBreakerManager.record_failure clock (to_string a) last (circuit_breaker self)) self in
  set_discovery (discovery_record_failure p (relay_discovery self)) self.

Definition succeed_attempt (clock wall : Z) (a : Multiaddr) (p : PeerId) (self : BootstrapManager) : BootstrapManager :=
  let self := record_success a p self in
  let self := set_breaker (CircuitBreakerManager.record_success clock (to_string a) (circuit_breaker self)) self in
  let self := set_discovery (discovery_record_success wall p 0 (relay_discovery self)) self in
  set_state Connected (set_count (wrap 64 (connected_count self + 1)) self).

(** The error of the loop; the other errors of the internet transport do not
    leave it. *)
Inductive BootstrapError : Type := ConnectionFailed (reason : string).

(** One pass of the loop: the clock and the manager after it, and the result
    when the loop returns. *)
Definition pass (e : Pass) (clock : Z) (self : BootstrapManager) : Z * BootstrapManager * option (outcome BootstrapError PeerId) :=
  let clock := clock + busy e in
  match next_connectable_node self with
  | Some node =>
      let a := addr node in
      let '(allowed, cb) := CircuitBreakerManager.allow_request clock (to_string a) (circuit_breaker self) in
      let self := set_breaker cb self in
      if negb allowed then (clock, record_failure a "circuit breaker open" self, None) else
      match backoff_for_node (E := BootstrapError) node self with
      | Err _ | Panic => (clock, self, Some Panic)
      | Ok delay =>
      let clock := if 0 <? delay then clock + delay + overslept e else clock in
      let self := record_attempt (wall e) a self in
      let clock := clock + took e in
      match direct_error e with
      | None => (clock, succeed_attempt clock (wall e) a (random_peer e) self, Some (Ok (random_peer e)))
      | Some err =>
          if is_websocket_address a then
            match websocket_error e with
            | None => (clock, succeed_attempt clock (wall e) a (random_peer e) self, Some (Ok (random_peer e)))
            | Some ws_err =>
                (clock, fail_attempt clock a (random_peer e)
                   ("Direct: " +:+ err +:+ ", WebSocket: " +:+ ws_err) ws_err self, None)
            end
          else (clock, fail_attempt clock a (random_peer e) err err self, None)
      end
      end
  | None =>
      let give_up_now self := (clock, set_state Failed self, Some (Err (ConnectionFailed "All bootstrap nodes failed after retries"))) in
      if bool_decide (state self = FallbackDiscovery) then give_up_now self else
      let self := set_state FallbackDiscovery self in
      let self := fold_left (fun s a => add_bootstrap_node a s) (discover_fallback_nodes self) self in
      if existsb (fun n => (attempts n =? 0) && negb (connected n)) (nodes self) then (clock, self, None) else give_up_now self
  end.

Fixpoint bootstrap_loop (passes : list Pass) (clock : Z) (self : BootstrapManager) : option (Z * BootstrapManager * outcome BootstrapError PeerId) :=
  match passes with
  | [] => None
  | e :: passes =>
      match pass e clock self with
      | (clock, self, Some result) => Some (clock, self, result)
      | (clock, self, None) => bootstrap_loop passes clock self
      end
  end.

Definition bootstrap (passes : list Pass) (clock : Z) (self : BootstrapManager) : option (Z * BootstrapManager * outcome BootstrapError PeerId) :=
  bootstrap_loop passes clock (set_state Connecting self).

Definition reset_circuit_breakers (self : BootstrapManager) : BootstrapManager :=
  set_breaker (CircuitBreakerManager.reset_all (circuit_breaker self)) self.

Definition get_fallback_relay_addresses (self : BootstrapManager) : list Multiaddr := get_fallback_relays (relay_discovery self).

Definition get_healthy_relays {MI : MapIter string CircuitBreakerEntry.t} (self : BootstrapManager) : list string :=
  CircuitBreakerManager.get_healthy_relays (circuit_breaker self).

Definition get_all_relay_stats {MI : MapIter PeerId (RelayMetrics PeerId Multiaddr)} (self : BootstrapManager) : list (PeerId * RelayMetrics PeerId Multiaddr) :=
  map_iter (relay_metrics (relay_discovery self)).
End Code.
Arguments BootstrapNode : clear implicits.
Arguments BootstrapManager : clear implicits.
Arguments BootstrapManager _ _ {_ _ _ _}.
Arguments Pass : clear implicits.

(** ** The backoff *)

(** A configuration whose delays can be computed: the multiplier is not
    negative (nor NaN), and the largest delay is at most [2 ^ 63] seconds. *)
Definition backoff_ok (c : BootstrapConfig.t) : Prop :=
  0 <= BootstrapConfig.initial_backoff c /\ 0 <= BootstrapConfig.max_backoff c /\
  F64.leb (F64.of_Z 0) (BootstrapConfig.backoff_multiplier c) = true /\
  F64.leb (as_secs_f64 (BootstrapConfig.max_backoff c)) (F64.of_Z (2 ^ 63)) = true.

(** Documented of [powi]: the powers of a number that is not negative are not. *)
Definition powi_ok (powi : f64 -> Z -> f64) : Prop := forall x n, F64.leb (F64.of_Z 0) x = true -> Mag.nonneg (powi x n).

Lemma nearest_nanos_range m e : Z.pos m < 2 ^ 53 -> e <= 11 -> 0 <= nearest_nanos m e < 2 ^ 64 * ns_per_sec.
Proof.
  intros Hm He. unfold nearest_nanos, ns_per_sec. destruct (0 <=? e) eqn:Hs; bool_to_prop.
  - assert (1 <= 2 ^ e) by (pose proof (Z.pow_pos_nonneg 2 e); lia).
    assert (2 ^ e <= 2 ^ 11) by (apply Z.pow_le_mono_r; lia). nia.
  - assert (0 < 2 ^ (- e)) by (apply Z.pow_pos_nonneg; lia).
    assert (0 <= Z.pos m * 10 ^ 9 / 2 ^ (- e) <= Z.pos m * 10 ^ 9).
    { split; [apply Z.div_pos; lia|]. apply Z.div_le_upper_bound; [done|]. nia. }
    repeat case_match; lia.
Qed.

Lemma from_secs_ok {E} a : Mag.nonneg a -> Mag.p53 a -> F64.leb a (F64.of_Z (2 ^ 63)) = true ->
  exists d, from_secs_f64 (E := E) a = Ok d /\ 0 <= d.
Proof.
  intros Hn Hp Hle. destruct a as [s|[]| |[] m e]; try done; [by exists 0|]. cbn [Mag.p53] in Hp.
  pose proof (nearest_nanos_range m e Hp (Mag.le_2_63 _ m e Hle eq_refl)) as [H0 H1]. cbn [from_secs_f64].
  rewrite (proj2 (Z.ltb_lt _ _) H1). eauto.
Qed.

Lemma backoff_for_node_ok {PeerId Multiaddr : Type} `{Countable PeerId} `{Countable Multiaddr} {E} powi
    (n : BootstrapNode PeerId Multiaddr) (self : BootstrapManager PeerId Multiaddr) : powi_ok powi -> backoff_ok (config self) ->
  exists d, backoff_for_node (E := E) powi n self = Ok d /\ 0 <= d.
Proof.
  intros Hpow (Hi & Hmax & Hmul & Hle). unfold backoff_for_node. destruct (attempts n =? 0); [by exists 0|].
  destruct (Mag.as_secs_nonneg _ Hi) as [H1 _]. destruct (Mag.as_secs_nonneg _ Hmax) as [H2 H3].
  edestruct (Mag.min_bound) as (? & ? & ?); [|apply Mag.mul_p53|exact H2|exact H3|exact Hle|by apply from_secs_ok].
  apply Mag.mul_nonneg; [done|by apply Hpow].
Qed.

(** Outside of it the delay is not defined: a multiplier of minus two panics
    before the third attempt. *)
Example negative_multiplier_panics :
  backoff_for_node (E := Empty_set) (fun _ _ => F64.of_Z (-2)) (mk_node (PeerId := nat) "a"%string None 2 None None false)
    (new ["a"%string] (BootstrapConfig.mk 3 (2 * 10 ^ 9) (300 * 10 ^ 9) (F64.of_Z (-2)) 5 0 true true true CircuitBreakerConfig.default)) = Panic.
Proof. vm_compute. reflexivity. Qed.

(** ** Termination *)

Module BootstrapFacts.
Import Breaker Circuit CircuitBreakerConfig.

Section Facts.
Context {PeerId Multiaddr : Type} `{Countable PeerId} `{Countable Multiaddr}.
Context (to_string : Multiaddr -> string) (is_websocket_address : Multiaddr -> bool) (powi : f64 -> Z -> f64).
Context (c : CircuitBreakerConfig.t) (Hc : config_ok c) (Hprobes : 1 < max_half_open_probes c) (Hpowi : powi_ok powi).

Abbreviation manager := (BootstrapManager PeerId Multiaddr).
Abbreviation node := (BootstrapNode PeerId Multiaddr).
Abbreviation one_pass := (pass to_string is_websocket_address powi).
Abbreviation loop := (bootstrap_loop to_string is_websocket_address powi).

(** What the loop looks at in the nodes. *)
Definition shape (l : list node) : list (Multiaddr * bool) := map (fun n => (addr n, connected n)) l.

Definition candidate (fb : RelayFallback Multiaddr) (l : list (Multiaddr * bool)) : option (Multiaddr * bool) :=
  List.find (fun x => negb x.2 && should_retry x.1 fb) l.

(** The attempts left at an address, and at all nodes. *)
Definition remaining (fb : RelayFallback Multiaddr) (a : Multiaddr) : nat :=
  Z.to_nat match attempted_relays fb !! a with Some n => max_retries fb - n | None => Z.max 1 (max_retries fb) end.

Definition budget (fb : RelayFallback Multiaddr) (l : list (Multiaddr * bool)) : nat := sum_list (map (fun x => remaining fb x.1) l).

(** The breakers are in states of the automaton, opened in the past. *)
Definition breakers_ok (clock : Z) (cb : CircuitBreakerManager.t) : Prop :=
  forall a, exists b, Sim c cb a b /\ forall s, b = BOpen s -> s <= clock.

Definition attempts_ok (fb : RelayFallback Multiaddr) : Prop :=
  0 <= max_retries fb < 2 ^ 32 - 1 /\ map_Forall (fun _ n => 0 <= n <= Z.max 1 (max_retries fb)) (attempted_relays fb).

Definition ok (clock : Z) (self : manager) : Prop :=
  (breakers_ok clock (circuit_breaker self) /\ backoff_ok (config self)) /\ attempts_ok (relay_fallback self).

Lemma shape_update a f (l : list node) : (forall n, addr (f n) = addr n /\ connected (f n) = connected n) -> shape (update_first a f l) = shape l.
Proof using Type. intros Hf. induction l as [|n l IH]; [done|]. simpl. case_decide; simpl; [destruct (Hf n); congruence|]. by rewrite IH. Qed.

Lemma next_candidate (self : manager) :
  (fun n => (addr n, connected n)) <$> next_connectable_node self = candidate (relay_fallback self) (shape (nodes self)).
Proof using Type.
  unfold next_connectable_node, candidate, connectable. induction (nodes self) as [|n l IH]; [done|]. simpl. by case_match.
Qed.

Lemma next_elem fb l x : candidate fb l = Some x -> x ∈ l /\ x.2 = false /\ should_retry x.1 fb = true.
Proof using Type.
  intros Hx. apply List.find_some in Hx as [Hin Hx]. apply andb_true_iff in Hx as [Hx ?]. apply negb_true_iff in Hx.
  split; [by apply list_elem_of_In|done].
Qed.

(** An attempt uses up one of the attempts left. *)
Lemma remaining_attempt fb a x : attempts_ok fb -> should_retry a fb = true ->
  (remaining (fallback_record_attempt a fb) x <= remaining fb x)%nat /\ (remaining (fallback_record_attempt a fb) a < remaining fb a)%nat.
Proof using Type.
  intros [Hm Hall] Hr. unfold should_retry in Hr. unfold remaining, fallback_record_attempt, attempts_at. simpl.
  rewrite lookup_insert_eq. destruct (attempted_relays fb !! a) as [n|] eqn:Hn.
  - simpl in Hr. pose proof (map_Forall_lookup_1 _ _ _ _ Hall Hn) as Hb. simpl in Hb.
    rewrite wrap_small by (simpl; unfold fits; lia). simpl. split; [|lia].
    destruct (decide (x = a)) as [->|]; [rewrite lookup_insert_eq, Hn; lia|]. by rewrite lookup_insert_ne by done.
  - simpl. rewrite wrap_small by (unfold fits; lia). split; [|lia].
    destruct (decide (x = a)) as [->|]; [rewrite lookup_insert_eq, Hn; lia|]. by rewrite lookup_insert_ne by done.
Qed.

Lemma sum_list_lt {A} (f g : A -> nat) l x : (forall y, f y <= g y)%nat -> x ∈ l -> (f x < g x)%nat ->
  (sum_list (map f l) < sum_list (map g l))%nat.
Proof using Type.
  intros Hle Hin Hlt. assert (Hall : forall l, (sum_list (map f l) <= sum_list (map g l))%nat).
  { clear l Hin. induction l as [|y l IH]; [done|]. simpl. specialize (Hle y). lia. }
  induction l as [|y l IH]; [by apply elem_of_nil in Hin|]. simpl. specialize (Hle y). specialize (Hall l).
  apply elem_of_cons in Hin as [->|Hin]; [lia|]. specialize (IH Hin). lia.
Qed.

Lemma budget_attempt fb l a : attempts_ok fb -> should_retry a fb = true -> a ∈ l.*1 ->
  (budget (fallback_record_attempt a fb) l < budget fb l)%nat.
Proof using Type.
  intros Hok Hr Hin. apply list_elem_of_fmap in Hin as (x & -> & Hin). unfold budget. apply (sum_list_lt _ _ _ x); [|done|].
  - intros y. by apply (remaining_attempt fb x.1 y.1).
  - by apply (remaining_attempt fb x.1 x.1).
Qed.

Lemma attempts_ok_attempt fb a : attempts_ok fb -> should_retry a fb = true -> attempts_ok (fallback_record_attempt a fb).
Proof using Type.
  intros [Hm Hall] Hr. split; [done|]. simpl. apply map_Forall_insert_2; [|done]. unfold attempts_at, should_retry in *.
  destruct (attempted_relays fb !! a) as [n|] eqn:Hn; simpl.
  - pose proof (map_Forall_lookup_1 _ _ _ _ Hall Hn) as Hb. simpl in Hb. rewrite wrap_small by (unfold fits; lia). lia.
  - rewrite wrap_small by (unfold fits; lia). lia.
Qed.

(** The breakers after a question, a failure and a success. *)
Lemma breakers_later t t' cb : t <= t' -> breakers_ok t cb -> breakers_ok t' cb.
Proof using Type. intros Ht Hb a. destruct (Hb a) as (b & Hs & Ho). exists b. split; [done|]. intros s Hs'. specialize (Ho s Hs'). lia. Qed.

Lemma breakers_event t cb x e : breakers_ok t cb -> (forall b s, step c b e = BOpen s -> b = BOpen s \/ s = t) -> breakers_ok t (apply cb (On x e)).
Proof using Hc.
  intros Hb He a. destruct (Hb a) as (b & Hs & Ho). destruct (decide (a = x)) as [->|Hne].
  - exists (step c b e). split; [by apply sim_apply|]. intros s Hs'. destruct (He b s Hs') as [->| ->]; [by apply Ho|lia].
  - exists b. split; [by apply sim_other|done].
Qed.

Lemma breakers_ask t cb x now : breakers_ok t cb -> breakers_ok t (CircuitBreakerManager.allow_request now x cb).2.
Proof using Hc. intros Hb. apply (breakers_event t cb x (Ask now)); [done|]. intros [] s; simpl; repeat case_match; naive_solver. Qed.

Lemma breakers_failure t cb x r : breakers_ok t cb -> breakers_ok t (CircuitBreakerManager.record_failure t x r cb).
Proof using Hc. intros Hb. apply (breakers_event t cb x (Failure t r)); [done|]. intros [] s; simpl; repeat case_match; naive_solver. Qed.

Lemma breakers_success t cb x : breakers_ok t cb -> breakers_ok t (CircuitBreakerManager.record_success t x cb).
Proof using Hc. intros Hb. apply (breakers_event t cb x (Success t)); [done|]. intros [] s; simpl; repeat case_match; naive_solver. Qed.

(** ** One pass *)

(** A pass takes at least [d] nanoseconds. *)
Definition timely (d : Z) (e : Pass PeerId) : Prop := d <= busy e /\ 0 <= overslept e /\ 0 <= took e.

Lemma refused_unchanged now x cb : (CircuitBreakerManager.allow_request now x cb).1 = false -> (CircuitBreakerManager.allow_request now x cb).2 = cb.
Proof using Type. unfold CircuitBreakerManager.allow_request. repeat case_match; done. Qed.

(** How the loop goes on after a pass that does not return. *)
Definition goes_on (t : Z) (self self' : manager) : Prop :=
  let fb := relay_fallback self in
  shape (nodes self') = shape (nodes self) /\
  match candidate fb (shape (nodes self)) with
  | None => state self <> FallbackDiscovery /\ state self' = FallbackDiscovery /\ relay_fallback self' = fb
  | Some x =>
      state self' = state self /\
      ((* blocked *) relay_fallback self' = fb /\ circuit_breaker self' = circuit_breaker self /\
         (CircuitBreakerManager.allow_request t (to_string x.1) (circuit_breaker self)).1 = false \/
       (* failed *) relay_fallback self' = fallback_record_attempt x.1 fb)
  end.

(** What the manager looks like when the loop returns. *)
Definition returned (fb : RelayFallback Multiaddr) (r : outcome BootstrapError PeerId) (self : manager) : Prop :=
  match r with
  | Ok p => state self = Connected /\ exists n, n ∈ nodes self /\ connected n = true /\ node_peer n = Some p
  | Err _ => state self = Failed /\ forall n, n ∈ nodes self -> connected n = false ->
      max_retries fb <= attempts_at (addr n) (relay_fallback self) <= Z.max 1 (max_retries fb)
  | Panic => False
  end.

Lemma candidate_none fb l a : candidate fb l = None -> attempts_ok fb -> (a, false) ∈ l ->
  max_retries fb <= attempts_at a fb <= Z.max 1 (max_retries fb).
Proof using Type.
  intros Hn [_ Hall] Hin. eapply List.find_none in Hn; [|by apply list_elem_of_In]. simpl in Hn. unfold should_retry, attempts_at in *.
  destruct (attempted_relays fb !! a) as [k|] eqn:Hk; [|done]. simpl. pose proof (map_Forall_lookup_1 _ _ _ _ Hall Hk) as Hb. simpl in Hb. lia.
Qed.

Lemma update_first_elem a f (l : list node) n : n ∈ l -> addr n = a -> exists m, m ∈ l /\ f m ∈ update_first a f l.
Proof using Type.
  intros Hin Ha. induction l as [|m l IH]; [by apply elem_of_nil in Hin|]. simpl. case_decide; [exists m; split; constructor|].
  apply elem_of_cons in Hin as [->|Hin]; [done|]. destruct (IH Hin) as (k & ? & ?). exists k. split; by constructor.
Qed.

Lemma update_first_addr a f (l : list node) b : (forall n, addr (f n) = addr n) -> (exists n, n ∈ l /\ addr n = b) ->
  exists n, n ∈ update_first a f l /\ addr n = b.
Proof using Type.
  intros Hf (n & Hin & Hn). induction l as [|m l IH]; [by apply elem_of_nil in Hin|]. simpl.
  apply elem_of_cons in Hin as [<-|Hin]; case_decide.
  - exists (f n). split; [left|]. by rewrite Hf.
  - exists n. split; [left|done].
  - exists n. split; [by right|done].
  - destruct (IH Hin) as (k & ? & ?). exists k. split; [by right|done].
Qed.

Lemma attempt_clock d e clock (delay : Z) : timely d e -> 0 <= delay ->
  clock + busy e <= (if 0 <? delay then clock + busy e + delay + overslept e else clock + busy e) + took e.
Proof using Type. intros (? & ? & ?) ?. case_match; lia. Qed.

(** An attempt, made and recorded. *)
Lemma attempt_failed clock w a p r l (self : manager) : breakers_ok clock (circuit_breaker self) -> backoff_ok (config self) -> attempts_ok (relay_fallback self) ->
  should_retry a (relay_fallback self) = true ->
  let self' := fail_attempt to_string clock a p r l (record_attempt w a self) in
  ok clock self' /\ shape (nodes self') = shape (nodes self) /\ state self' = state self /\
  relay_fallback self' = fallback_record_attempt a (relay_fallback self).
Proof using Hc.
  intros Hb Hbo Ha Hr. simpl. split_and!; [split; [split|]|..]; try done.
  - by apply breakers_failure.
  - by apply attempts_ok_attempt.
  - rewrite !shape_update; done.
Qed.

Lemma attempt_succeeded clock w a p (self : manager) fb : breakers_ok clock (circuit_breaker self) -> backoff_ok (config self) -> attempts_ok (relay_fallback self) ->
  (exists n : node, n ∈ nodes self /\ addr n = a) ->
  let self' := succeed_attempt to_string clock w a p (record_attempt w a self) in
  ok clock self' /\ max_retries (relay_fallback self') = max_retries (relay_fallback self) /\ returned fb (Ok p) self'.
Proof using Hc.
  intros Hb Hbo [Hm _] (n & Hin & Hn). simpl. split_and!; [split; [split|]|..]; try done.
  - by apply breakers_success.
  - match goal with |- context [update_first a ?f (update_first a ?g ?l)] =>
      assert (Hg : exists k : node, k ∈ update_first a g l /\ addr k = a) end.
    { apply update_first_addr; [done|]. by exists n. }
    destruct Hg as (k & Hk & Hka). eapply update_first_elem in Hk as (q & _ & Hq); [|exact Hka]. eexists. split; [exact Hq|done].
Qed.

Lemma pass_spec d e clock (self : manager) : timely d e -> 0 <= d -> ok clock self ->
  let '(clock', self', r) := one_pass e clock self in
  clock + busy e <= clock' /\ ok clock' self' /\ max_retries (relay_fallback self') = max_retries (relay_fallback self) /\
  match r with Some r => returned (relay_fallback self) r self' | None => goes_on (clock + busy e) self self' end.
Proof using Hc Hpowi.
  intros He Hd [[Hb Hbo] Ha]. assert (Hb' : breakers_ok (clock + busy e) (circuit_breaker self)) by (destruct He; eapply breakers_later; [|done]; lia).
  unfold pass, goes_on. pose proof (next_candidate self) as Hnext.
  destruct (next_connectable_node self) as [n|] eqn:Hn; simpl in Hnext; rewrite <- Hnext; simpl.
  - symmetry in Hnext. pose proof (next_elem _ _ _ Hnext) as (Hin & _ & Hr). simpl in Hr.
    pose proof (refused_unchanged (clock + busy e) (to_string (addr n)) (circuit_breaker self)) as Hsame.
    pose proof (breakers_ask _ _ (to_string (addr n)) (clock + busy e) Hb') as Hask.
    destruct (CircuitBreakerManager.allow_request _ _ _) as [allowed cb]. simpl in Hsame, Hask.
    destruct allowed; simpl.
    2:{ rewrite Hsame by done. split_and!; try done; [|by left].
        apply shape_update. done. }
    destruct (backoff_for_node_ok (E := BootstrapError) powi n (set_breaker cb self) Hpowi Hbo) as (delay & -> & Hpos).
    pose proof (attempt_clock d e clock delay He Hpos) as Hclk. set (clock' := _ + took e) in *.
    assert (Hcb : breakers_ok clock' cb) by (eapply breakers_later; done).
    assert (Hatt : attempts_ok (fallback_record_attempt (addr n) (relay_fallback self))) by (by apply attempts_ok_attempt).
    assert (Hreach : exists m : node, m ∈ nodes self /\ addr m = addr n) by (apply List.find_some in Hn as [Hn _]; exists n; split; [by apply list_elem_of_In|done]).
    assert (Hfail : forall r l, let self' := fail_attempt to_string clock' (addr n) (random_peer e) r l (record_attempt (wall e) (addr n) (set_breaker cb self)) in
      ok clock' self' /\ shape (nodes self') = shape (nodes self) /\ state self' = state self /\
      relay_fallback self' = fallback_record_attempt (addr n) (relay_fallback self))
      by (intros r l; by apply (attempt_failed clock' (wall e) (addr n) (random_peer e) r l (set_breaker cb self))).
    destruct (attempt_succeeded clock' (wall e) (addr n) (random_peer e) (set_breaker cb self) (relay_fallback self) Hcb Hbo Ha Hreach) as (Hok & Hmax & Hret).
    destruct (direct_error e) as [err|]; [|done]. destruct (is_websocket_address (addr n)).
    + destruct (websocket_error e) as [werr|]; [|done]. edestruct Hfail as (? & ? & ? & Hfb). split_and!; [done|done| |done|done|by right].
      by rewrite Hfb.
    + edestruct Hfail as (? & ? & ? & Hfb). split_and!; [done|done| |done|done|by right]. by rewrite Hfb.
  - assert (Hdisc : forall m : manager, discover_fallback_nodes m = []) by (intros m; unfold discover_fallback_nodes; by repeat case_match).
    assert (Hdone : forall n, n ∈ nodes self -> connected n = false -> max_retries (relay_fallback self) <= attempts_at (addr n) (relay_fallback self) <= Z.max 1 (max_retries (relay_fallback self))).
    { intros n Hin Hcn. apply (candidate_none _ (shape (nodes self))); [done|done|]. apply list_elem_of_fmap. exists n. by rewrite Hcn. }
    rewrite Hdisc. simpl. case_bool_decide; [split_and!; (done || lia)|]. destruct (existsb _ _); split_and!; (done || lia).
Qed.

(** ** The loop *)

(** After [k] more refusals the breaker of [a] lets a request pass. *)
Definition waits (d clock : Z) (k : nat) (a : Multiaddr) (cb : CircuitBreakerManager.t) : Prop :=
  forall t, clock + (Z.of_nat k + 1) * d <= t -> (CircuitBreakerManager.allow_request t (to_string a) cb).1 = true.

Lemma waits_start d clock K a cb : 0 <= d -> open_timeout c <= Z.of_nat K * d -> breakers_ok clock cb -> waits d clock K a cb.
Proof using Hc Hprobes.
  intros Hd HK Hb t Ht. destruct (Hb (to_string a)) as (b & Hs & Ho). destruct (sim_ask c Hc cb (to_string a) b t Hs) as [_ ->].
  destruct b as [n|s|n]; simpl; [done| |lia]. specialize (Ho s eq_refl). unfold saturating_sub. lia.
Qed.

(** Passes that are enough: two to give up without a candidate; with one, the
    refusals left for it and an attempt, and for every further attempt [K]
    refusals and the attempt. *)
Definition enough (K k : nat) (self : manager) : nat :=
  match candidate (relay_fallback self) (shape (nodes self)) with
  | None => if decide (state self = FallbackDiscovery) then 1 else 2
  | Some _ => (budget (relay_fallback self) (shape (nodes self)) - 1) * (K + 1) + k + 3
  end.

Lemma budget_pos fb l x : candidate fb l = Some x -> (0 < budget fb l)%nat.
Proof using Type.
  intros (Hin & _ & Hr)%next_elem. assert (0 < remaining fb x.1)%nat as Hpos by (unfold remaining, should_retry in *; case_match; lia).
  unfold budget. apply list_elem_of_split in Hin as (l1 & l2 & ->). rewrite map_app, sum_list_with_app. simpl. lia.
Qed.

Lemma enough_bound K self : (enough K K self <= budget (relay_fallback self) (shape (nodes self)) * (K + 1) + 2)%nat.
Proof using Type. clear Hprobes. unfold enough. destruct (candidate _ _) as [x|] eqn:Hx; [apply budget_pos in Hx; nia|]. case_decide; nia. Qed.

Lemma loop_returns d K : 0 < d -> open_timeout c <= Z.of_nat K * d -> forall passes clock (self : manager) k,
  Forall (timely d) passes -> ok clock self -> (k <= K)%nat -> (enough K k self <= length passes)%nat ->
  (forall x, candidate (relay_fallback self) (shape (nodes self)) = Some x -> waits d clock k x.1 (circuit_breaker self)) ->
  exists clock' self' r, loop passes clock self = Some (clock', self', r) /\ clock <= clock' /\ ok clock' self' /\
    max_retries (relay_fallback self') = max_retries (relay_fallback self) /\ returned (relay_fallback self) r self'.
Proof using Hc Hprobes Hpowi.
  intros Hd HK. induction passes as [|e passes IH]; intros clock self k Hf Hok Hk Hlen Hw.
  { exfalso. unfold enough in Hlen. cbn [length] in Hlen. destruct (candidate _ _); [nia|]. case_decide; lia. }
  apply Forall_cons in Hf as [He Hf]. simpl in Hlen. pose proof (pass_spec d e clock self He ltac:(lia) Hok) as Hp. simpl.
  destruct (one_pass e clock self) as [[clock' self'] [r|]]; destruct Hp as (Hclk & Hok' & Hmax & Hp).
  { exists clock', self', r. destruct He. split_and!; (done || lia). }
  assert (Hclock : clock <= clock') by (destruct He; lia).
  assert (Hgo : exists k', (k' <= K)%nat /\ (enough K k' self' <= length passes)%nat /\
    forall x, candidate (relay_fallback self') (shape (nodes self')) = Some x -> waits d clock' k' x.1 (circuit_breaker self')).
  { destruct Hp as [Hsh Hp]. unfold enough in Hlen |- *. rewrite Hsh. destruct (candidate _ _) as [x|] eqn:Hx.
    - destruct Hp as [Hst [(Hfb & Hcb & Href)|Hfb]].
      + specialize (Hw x eq_refl). destruct k as [|k].
        { rewrite Hw in Href; [done|]. destruct He. lia. }
        exists k. rewrite Hfb, Hx, Hcb. split_and!; [lia|lia|]. intros ? [= <-] t Ht. apply Hw. destruct He. nia.
      + exists K. split; [done|]. split.
        * rewrite Hfb. pose proof (next_elem _ _ _ Hx) as (Hin & _ & Hr).
          pose proof (budget_attempt (relay_fallback self) (shape (nodes self)) x.1 (proj2 Hok) Hr ltac:(apply list_elem_of_fmap; eauto)) as Hlt.
          destruct (candidate (fallback_record_attempt _ _) _) eqn:Hy; [apply budget_pos in Hy; nia|]. case_decide; nia.
        * intros y _. apply waits_start; [lia|done|apply Hok'].
    - destruct Hp as (Hne & Hst & Hfb). exists K. rewrite Hfb, Hx. split; [done|]. rewrite decide_True by done. rewrite decide_False in Hlen by done.
      split; [lia|]. intros ? ?. congruence. }
  destruct Hgo as (k' & Hk' & Hlen' & Hw'). destruct (IH clock' self' k' Hf Hok' Hk' Hlen' Hw') as (ck & s' & r & Hl & Hck & Hoks & Hm & Hr).
  exists ck, s', r. split_and!; [done|lia|done|congruence|]. unfold returned in *. by rewrite Hmax in Hr.
Qed.

Lemma loop_ok passes : forall clock (self : manager), Forall (timely 0) passes -> ok clock self -> forall clock' self' r,
  loop passes clock self = Some (clock', self', r) -> ok clock' self' /\ max_retries (relay_fallback self') = max_retries (relay_fallback self).
Proof using Hc Hpowi.
  induction passes as [|e passes IH]; intros clock self Hf Hok clock' self' r Hl; [done|]. apply Forall_cons in Hf as [He Hf].
  pose proof (pass_spec 0 e clock self He ltac:(lia) Hok) as Hp. simpl in Hl.
  destruct (one_pass e clock self) as [[ck s] [r0|]]; destruct Hp as (_ & Hok' & Hmax & _); simplify_eq; [done|].
  rewrite <- Hmax. by eapply IH.
Qed.

Lemma budget_bound (self : manager) : attempts_ok (relay_fallback self) ->
  (budget (relay_fallback self) (shape (nodes self)) <= Z.to_nat (total_nodes self * Z.max 1 (max_retries (relay_fallback self))))%nat.
Proof using Type.
  intros [Hm Hall]. unfold budget, total_nodes. induction (nodes self) as [|n l IH]; [done|]. simpl.
  assert (remaining (relay_fallback self) (addr n) <= Z.to_nat (Z.max 1 (max_retries (relay_fallback self))))%nat; [|simpl in IH; nia].
  unfold remaining. case_match eqn:Hn; [|done]. pose proof (map_Forall_lookup_1 _ _ _ _ Hall Hn) as Hb. simpl in Hb. lia.
Qed.

(** ** Histories of a manager *)

Inductive session (cfg : BootstrapConfig.t) : Z -> manager -> Prop :=
| session_new addrs clock : session cfg clock (new addrs cfg)
| session_wait clock later self : session cfg clock self -> clock <= later -> session cfg later self
| session_add clock a self : session cfg clock self -> session cfg clock (add_bootstrap_node a self)
| session_reset clock self : session cfg clock self -> session cfg clock (reset_circuit_breakers self)
| session_bootstrap clock self passes clock' self' r : session cfg clock self -> Forall (timely 0) passes ->
    bootstrap to_string is_websocket_address powi passes clock self = Some (clock', self', r) -> session cfg clock' self'.

Lemma session_ok cfg clock self : backoff_ok cfg -> BootstrapConfig.circuit_breaker_config cfg = c -> 0 <= BootstrapConfig.max_retries_per_node cfg < 2 ^ 32 - 1 ->
  session cfg clock self -> ok clock self /\ max_retries (relay_fallback self) = BootstrapConfig.max_retries_per_node cfg.
Proof using Hc Hpowi.
  intros Hbo Hcfg Hm. induction 1 as [addrs clock|clock later self _ IH Hle|clock a self _ IH|clock self _ IH|clock self passes clock' self' r _ IH Hf Hb].
  - split; [split; [split|]|done]; [|done|].
    + intros a. exists (BClosed 0). split; [|done]. simpl. rewrite Hcfg. by apply sim_fresh.
    + split; [done|apply map_Forall_empty].
  - destruct IH as [[[Hb Hbc] Ha] ?]. split; [split; [split|]|]; [by eapply breakers_later|done..].
  - unfold add_bootstrap_node. by case_match.
  - destruct IH as [[[Hb Hbc] Ha] ?]. split; [split; [split|]|]; [|done..]. intros a. exists (BClosed 0). split; [|done].
    destruct (Hb a) as (b & [Hcf _] & _). split; [done|]. simpl. rewrite lookup_empty. simpl. destruct Hc as (? & _). split_and!; (done || lia).
  - destruct IH as [Hok <-]. by apply (loop_ok passes clock (set_state Connecting self)) in Hb.
Qed.

(** Passes in which the breaker of the first candidate refuses change nothing
    but the recorded failure, whatever their number: the loop neither attempts
    nor sleeps. *)
Lemma refused_pass e clock (self : manager) x : candidate (relay_fallback self) (shape (nodes self)) = Some x ->
  (CircuitBreakerManager.allow_request (clock + busy e) (to_string x.1) (circuit_breaker self)).1 = false ->
  one_pass e clock self = (clock + busy e, record_failure x.1 "circuit breaker open" self, None).
Proof using Type.
  intros Hx Href. unfold pass. pose proof (next_candidate self) as Hn. rewrite Hx in Hn.
  destruct (next_connectable_node self) as [n|]; [|done]. simpl in Hn. simplify_eq. simpl in Href |- *.
  pose proof (refused_unchanged _ _ _ Href) as Hs. destruct (CircuitBreakerManager.allow_request _ _ _) as [b cb]. simpl in *. subst. by destruct self.
Qed.
End Facts.
End BootstrapFacts.
Import BootstrapFacts.

(** C24. Bootstrapping returns.  For every history of a manager whose circuit
    breakers have usable bounds ([config_ok]) and let more than one probe pass
    when half open, whose backoff multiplier is not negative and whose longest
    backoff is at most [2 ^ 63] seconds ([backoff_ok]; else the conversion of the
    delay can panic), and with at most [2 ^ 32 - 2] attempts per node: if every pass of the loop takes at
    least [d] nanoseconds and [K] such passes outlast the open timeout of the
    breakers, the loop returns within (nodes x attempts per node) x (K + 1) + 2
    passes, whatever the network answers.  It returns the peer of a node that
    is recorded as connected, in the state Connected, or an error in the state
    Failed, and then every node that is not connected has used up its attempts
    and not more. *)
Theorem bootstrap_returns {PeerId Multiaddr : Type} `{Countable PeerId} `{Countable Multiaddr}
    (to_string : Multiaddr -> string) (is_websocket_address : Multiaddr -> bool) (powi : f64 -> Z -> f64)
    (cfg : BootstrapConfig.t) (clock : Z) (self : BootstrapManager PeerId Multiaddr) (d : Z) (K : nat) (passes : list (Pass PeerId)) :
  let c := BootstrapConfig.circuit_breaker_config cfg in
  let retries := BootstrapConfig.max_retries_per_node cfg in
  Circuit.config_ok c -> 1 < CircuitBreakerConfig.max_half_open_probes c -> backoff_ok cfg -> powi_ok powi -> 0 <= retries < 2 ^ 32 - 1 ->
  session to_string is_websocket_address powi cfg clock self ->
  0 < d -> CircuitBreakerConfig.open_timeout c <= Z.of_nat K * d -> Forall (timely d) passes ->
  total_nodes self * Z.max 1 retries * (Z.of_nat K + 1) + 2 <= Z.of_nat (length passes) ->
  exists clock' self' r, bootstrap to_string is_websocket_address powi passes clock self = Some (clock', self', r) /\
    match r with
    | Ok p => state self' = Connected /\ exists n, n ∈ nodes self' /\ connected n = true /\ node_peer n = Some p
    | Err _ => state self' = Failed /\ forall n, n ∈ nodes self' -> connected n = false ->
        retries <= attempts_at (addr n) (relay_fallback self') <= Z.max 1 retries
    | Panic => False
    end.
Proof.
  intros c retries Hc Hp Hbo Hpow Hr Hs Hd HK Hf Hlen.
  destruct (session_ok to_string is_websocket_address powi c Hc Hpow cfg clock self Hbo eq_refl Hr Hs) as [Hok Hmax].
  pose proof (budget_bound self (proj2 Hok)) as Hb. rewrite Hmax in Hb. fold retries in Hb.
  pose proof (enough_bound K (set_state Connecting self)) as He. simpl in He.
  destruct (loop_returns to_string is_websocket_address powi c Hc Hp Hpow d K Hd HK passes clock (set_state Connecting self) K Hf Hok) as (ck & s' & r & Hl & _ & _ & Hm & Hret).
  - lia.
  - unfold total_nodes in *. nia.
  - intros x _. apply (waits_start to_string c Hc Hp d clock K x.1); [lia|done|apply Hok].
  - exists ck, s', r. split; [done|]. unfold returned in Hret. simpl in Hret. rewrite Hmax in Hret. exact Hret.
Qed.

Module BootstrapSamples.
Definition sample_config : BootstrapConfig.t :=
  BootstrapConfig.mk 3 (2 * 10 ^ 9) (300 * 10 ^ 9) (F64.lit 3 2) 2 (10 * 10 ^ 9) true true true (CircuitBreakerConfig.mk 1 10 5 2 3).
Definition sample_pass : Pass nat := mk_pass 5 1 3 0 7%nat (Some "refused") None.
Abbreviation sample := (new (PeerId := nat) ["a"] sample_config).

Lemma bootstrap_returns_witness :
  exists clock' self' r, bootstrap (fun a => a) (fun _ => false) (fun x _ => x) (repeat sample_pass 8) 0 sample = Some (clock', self', r) /\
    match r with
    | Ok p => state self' = Connected /\ exists n, n ∈ nodes self' /\ connected n = true /\ node_peer n = Some p
    | Err _ => state self' = Failed /\ forall n, n ∈ nodes self' -> connected n = false ->
        2 <= attempts_at (addr n) (relay_fallback self') <= Z.max 1 2
    | Panic => False
    end.
Proof.
  apply (bootstrap_returns (fun a => a) (fun _ => false) (fun x _ => x) sample_config 0 sample 5 2 (repeat sample_pass 8)).
  - unfold Circuit.config_ok. simpl. lia.
  - simpl. lia.
  - split_and!; by vm_compute.
  - intros x n Hx. by destruct x as [|[]| |[]].
  - simpl. lia.
  - apply session_new.
  - lia.
  - simpl. lia.
  - repeat constructor; simpl; lia.
  - simpl. unfold total_nodes. simpl. lia.
Defined.

(** With the default configuration and one unreachable node, three attempts
    open its breaker while two attempts are left: the following passes, one
    thousand here in a tenth of a second, neither attempt nor sleep. *)
Abbreviation stuck_manager := (new (PeerId := nat) ["a"] BootstrapConfig.default_config).
Definition failing_pass : Pass nat := mk_pass 100000 0 0 0 7%nat (Some "refused") None.

Lemma blocked_spins :
  let run k := bootstrap (fun a => a) (fun _ => false) (fun x _ => x) (repeat failing_pass k) 0 stuck_manager in
  run 1003%nat = None.
Proof. vm_compute. reflexivity. Qed.
End BootstrapSamples.
